(** * The media-sync engine of the settings screen

    A shallow embedding of the camera/folder sync engine (the settings
    screen's [runSync] and the pure helpers above it) together with the
    properties the specification states about it.

    Conventions of the embedding.
    - A JavaScript string is a [string]: a sequence of code units, here
      restricted to the 8-bit range.  The characters the helpers look at
      are all ASCII.
    - A JavaScript number that the engine computes with (a size, an offset,
      an index, a counter) is an integer [Z]; where a coercion can produce
      NaN the type is [jsnum].  Fractions, infinities and rounding above
      2^53 are outside the model.
    - The server, the file system and the cancel button are an explicit
      [World] of oracles indexed by a clock that ticks at every interaction. *)

From Stdlib Require Import String Ascii List ZArith Lia Bool Arith.
From Stdlib Require Import DecimalString ListSet.
From Stdlib Require Import DecimalZ.
Import ListNotations.

Local Open Scope string_scope.
Local Open Scope Z_scope.

(* ================================================================== *)
(** ** String primitives of the host language *)

Module Js.

(** [s.replace(/c/g, d)] for single characters. *)
Fixpoint replaceAllChar (c d : ascii) (s : string) : string :=
  match s with
  | EmptyString => EmptyString
  | String a s' => String (if Ascii.eqb a c then d else a) (replaceAllChar c d s')
  end.

(** [s.replace(/^c+/, '')]. *)
Fixpoint dropLeading (p : ascii -> bool) (s : string) : string :=
  match s with
  | EmptyString => EmptyString
  | String a s' => if p a then dropLeading p s' else s
  end.

(** [s.replace(/c+$/, '')]. *)
Fixpoint dropTrailing (p : ascii -> bool) (s : string) : string :=
  match s with
  | EmptyString => EmptyString
  | String a s' =>
      match dropTrailing p s' with
      | EmptyString => if p a then EmptyString else String a EmptyString
      | r => String a r
      end
  end.

(** White space of [String.prototype.trim] among the 8-bit code units:
    TAB, LF, VT, FF, CR, SP and NBSP. *)
Definition isWhiteSpace (a : ascii) : bool :=
  let n := nat_of_ascii a in
  ((9 <=? n)%nat && (n <=? 13)%nat) || (n =? 32)%nat || (n =? 160)%nat.

Definition trim (s : string) : string :=
  dropTrailing isWhiteSpace (dropLeading isWhiteSpace s).

(** [s.split(c)]: always at least one segment. *)
Fixpoint split (c : ascii) (s : string) : list string :=
  match s with
  | EmptyString => [EmptyString]
  | String a s' =>
      if Ascii.eqb a c then EmptyString :: split c s'
      else match split c s' with
           | h :: t => String a h :: t
           | [] => [String a EmptyString]
           end
  end.

(** [segments.join(sep)]. *)
Definition join (sep : string) (segments : list string) : string :=
  String.concat sep segments.

(** [s.lastIndexOf(c)], with [None] for -1. *)
Fixpoint lastIndexOf (c : ascii) (s : string) : option nat :=
  match s with
  | EmptyString => None
  | String a s' =>
      match lastIndexOf c s' with
      | Some i => Some (S i)
      | None => if Ascii.eqb a c then Some O else None
      end
  end.

(** [s.slice(0, n)] and [s.slice(n)] for [0 <= n]. *)
Definition sliceTo (n : nat) (s : string) : string := substring 0 n s.
Definition sliceFrom (n : nat) (s : string) : string :=
  substring n (String.length s - n) s.

(** [String(n)] for an integer. *)
Definition stringOfInt (z : Z) : string :=
  NilZero.string_of_int (Z.to_int z).

Fixpoint contains (p : ascii -> bool) (s : string) : bool :=
  match s with
  | EmptyString => false
  | String a s' => p a || contains p s'
  end.

End Js.

(* ================================================================== *)
(** ** Path and name utilities *)

Definition slash : ascii := "/"%char.
Definition backslash : ascii := "\"%char.
Definition dot : ascii := "."%char.
Definition isSlash (a : ascii) : bool := Ascii.eqb a slash.
Definition isDot (a : ascii) : bool := Ascii.eqb a dot.
Definition isBackslash (a : ascii) : bool := Ascii.eqb a backslash.

Definition normalizeUploadPath (value : string) : string :=
  Js.dropTrailing isSlash
    (Js.dropLeading isSlash (Js.replaceAllChar backslash slash value)).

Definition keptSegment (segment : string) : bool :=
  negb (String.eqb segment "" || String.eqb segment ".").

(** The segments one [part] contributes (the body of the outer loop). *)
Definition partSegments (part : string) : list string :=
  let normalized := normalizeUploadPath part in
  if String.eqb normalized "" then []
  else filter keptSegment (Js.split slash normalized).

Definition joinUploadPath (parts : list string) : string :=
  Js.join "/" (flat_map partSegments parts).

(** The character class of [sanitizeFileName]: backslash, slash, colon,
    star, question mark, double quote (code 34), angle brackets and bar. *)
Definition isReserved (a : ascii) : bool :=
  existsb (Ascii.eqb a)
    ["\"%char; "/"%char; ":"%char; "*"%char; "?"%char; "034"%char;
     "<"%char; ">"%char; "|"%char].

(** [s.replace(/[...]+/g, '_')]: every maximal run becomes one underscore.
    [inRun] tells that the previous character belonged to a run. *)
Fixpoint replaceReservedRuns (inRun : bool) (s : string) : string :=
  match s with
  | EmptyString => EmptyString
  | String a s' =>
      if isReserved a then
        if inRun then replaceReservedRuns true s'
        else String "_"%char (replaceReservedRuns true s')
      else String a (replaceReservedRuns false s')
  end.

Definition sanitizeFileName (name fallbackId : string) : string :=
  let normalized := replaceReservedRuns false (Js.trim name) in
  if String.eqb normalized "" then fallbackId ++ ".jpg" else normalized.

Definition splitNameAndExt (fileName : string) : string * string :=
  match Js.lastIndexOf dot fileName with
  | None | Some O => (fileName, "")
  | Some lastDot => (Js.sliceTo lastDot fileName, Js.sliceFrom lastDot fileName)
  end.

Definition addConflictSuffix (fileName : string) (attempt : Z) : string :=
  if attempt <=? 0 then fileName
  else
    let (name, ext) := splitNameAndExt fileName in
    name ++ " (" ++ Js.stringOfInt attempt ++ ")" ++ ext.

Definition renameRemoteTarget (remoteTarget : string) (attempt : Z) : string :=
  let normalized := normalizeUploadPath remoteTarget in
  if String.eqb normalized "" then normalized
  else
    let parts := Js.split slash normalized in
    let fileName := last parts "" in
    let parts := removelast parts in
    let nextName := addConflictSuffix fileName attempt in
    match parts with
    | [] => nextName
    | _ => Js.join "/" parts ++ "/" ++ nextName
    end.

(** The replacement as the specification words it, one underscore for
    each reserved character, to be compared with [sanitizeFileName]. *)
Fixpoint replaceEachReserved (s : string) : string :=
  match s with
  | EmptyString => EmptyString
  | String a s' =>
      String (if isReserved a then "_"%char else a) (replaceEachReserved s')
  end.

Definition sanitizeFileName_claimed (name fallbackId : string) : string :=
  let normalized := replaceEachReserved name in
  if String.eqb normalized "" then fallbackId ++ ".jpg" else normalized.

Definition startsReserved (s : string) : bool :=
  match s with
  | EmptyString => false
  | String a _ => isReserved a
  end.

Fixpoint allReserved (s : string) : bool :=
  match s with
  | EmptyString => true
  | String a s' => isReserved a && allReserved s'
  end.

Fixpoint noAdjacentReserved (s : string) : bool :=
  match s with
  | EmptyString => true
  | String a s' => negb (isReserved a && startsReserved s') && noAdjacentReserved s'
  end.

(** [RunsReplaced s r]: [r] is [s] with every maximal run of reserved
    characters replaced by one underscore. *)
Inductive RunsReplaced : string -> string -> Prop :=
| RunsReplaced_empty : RunsReplaced "" ""
| RunsReplaced_keep (a : ascii) (s r : string) :
    isReserved a = false -> RunsReplaced s r ->
    RunsReplaced (String a s) (String a r)
| RunsReplaced_run (run s r : string) :
    run <> "" -> allReserved run = true -> startsReserved s = false ->
    RunsReplaced s r ->
    RunsReplaced (run ++ s) (String "_"%char r).

(* ================================================================== *)
(** ** Values received from the outside *)

(** The result of a numeric coercion. *)
Inductive jsnum : Type :=
| NaN
| Num (z : Z).

(** A primitive value as it arrives in a decoded JSON document, or
    [JUndefined] for a property that is absent.  Array- and object-valued
    fields are not modelled. *)
Inductive jsval : Type :=
| JUndefined
| JNull
| JBool (b : bool)
| JNum (z : Z)
| JStr (s : string).

Definition truthy (v : jsval) : bool :=
  match v with
  | JUndefined | JNull => false
  | JBool b => b
  | JNum z => negb (z =? 0)
  | JStr s => negb (String.eqb s "")
  end.

(** [a || b]. *)
Definition jsOr (a b : jsval) : jsval := if truthy a then a else b.

(** [String(v)]. *)
Definition ToString (v : jsval) : string :=
  match v with
  | JUndefined => "undefined"
  | JNull => "null"
  | JBool true => "true"
  | JBool false => "false"
  | JNum z => Js.stringOfInt z
  | JStr s => s
  end.

Definition jsMax (a b : jsnum) : jsnum :=
  match a, b with
  | Num x, Num y => Num (Z.max x y)
  | _, _ => NaN
  end.

Definition jsMin (a b : jsnum) : jsnum :=
  match a, b with
  | Num x, Num y => Num (Z.min x y)
  | _, _ => NaN
  end.

Definition jsAdd (a b : jsnum) : jsnum :=
  match a, b with
  | Num x, Num y => Num (x + y)
  | _, _ => NaN
  end.

Definition jsSub (a b : jsnum) : jsnum :=
  match a, b with
  | Num x, Num y => Num (x - y)
  | _, _ => NaN
  end.

(** [a >= b], [a <= b], [a < b]: false as soon as one side is NaN. *)
Definition jsGe (a b : jsnum) : bool :=
  match a, b with Num x, Num y => y <=? x | _, _ => false end.
Definition jsLe (a b : jsnum) : bool :=
  match a, b with Num x, Num y => x <=? y | _, _ => false end.
Definition jsLt (a b : jsnum) : bool :=
  match a, b with Num x, Num y => x <? y | _, _ => false end.

(** [n || 0] on a number: NaN and 0 are falsy. *)
Definition numOrZero (n : jsnum) : Z :=
  match n with NaN => 0 | Num z => z end.

Section HostNumbers.

(** [Number(s)] on a string is the host's StringToNumber; it is left
    abstract. *)
Variable StringToNumber : string -> jsnum.

(** [Number(v)]. *)
Definition ToNumber (v : jsval) : jsnum :=
  match v with
  | JUndefined => NaN
  | JNull => Num 0
  | JBool true => Num 1
  | JBool false => Num 0
  | JNum z => Num z
  | JStr s => StringToNumber s
  end.

(** [Math.max(0, Number(v || 0))], the idiom for every offset read from a
    response. *)
Definition offsetOfField (v : jsval) : jsnum :=
  jsMax (Num 0) (ToNumber (jsOr v (JNum 0))).

End HostNumbers.

(* ================================================================== *)
(** ** Data model *)

Definition SCAN_PAGE_SIZE : Z := 150.
Definition MIN_CHUNK_BYTES : Z := 256 * 1024.
Definition MAX_CHUNK_BYTES : Z := 2 * 1024 * 1024.
Definition DELETE_BATCH_SIZE : nat := 100.
Definition LIST_PAGE_SIZE : Z := 200.
Definition STATUS_BATCH_SIZE : nat := 60.
Definition MAX_RENAME_ATTEMPTS : nat := 50.

Inductive SyncStage : Type :=
| idle | planning | uploading | mirroring | done | error | cancelled.

Inductive SyncSource : Type := camera | folder.

Inductive SyncConflictPolicy : Type := skip | overwrite | rename.

Definition SyncSource_eqb (a b : SyncSource) : bool :=
  match a, b with
  | camera, camera | folder, folder => true
  | _, _ => false
  end.

Definition SyncConflictPolicy_eqb (a b : SyncConflictPolicy) : bool :=
  match a, b with
  | skip, skip | overwrite, overwrite | rename, rename => true
  | _, _ => false
  end.

(** [message], [startedAt] and [finishedAt] are display-only and left out.
    [uploadedBytes] and [currentFileUploaded] are sums of offsets computed
    from responses, hence [jsnum]. *)
Record SyncProgress : Type := mkProgress {
  stage : SyncStage;
  discovered : Z;
  planned : Z;
  skipped : Z;
  failed : Z;
  uploaded : Z;
  plannedBytes : Z;
  uploadedBytes : jsnum;
  remoteDeleted : Z;
  remoteDeleteFailed : Z;
  currentFileName : string;
  currentFileBytes : Z;
  currentFileUploaded : jsnum;
  error_ : string
}.

Record UploadCandidate : Type := mkCandidate {
  kind : SyncSource;
  displayName : string;
  localUri : string;
  size : Z;
  initialOffset : Z;
  remoteTarget : string;
  monthBucket : string;
  capturedAtIso : string;
  overwrite_ : bool
}.

Record LocalFolderFile : Type := mkLocalFile {
  lf_localUri : string;
  lf_relativePath : string;
  lf_displayName : string;
  lf_size : Z
}.

Definition syncProgressBase : SyncProgress :=
  {| stage := idle; discovered := 0; planned := 0; skipped := 0; failed := 0;
     uploaded := 0; plannedBytes := 0; uploadedBytes := Num 0;
     remoteDeleted := 0; remoteDeleteFailed := 0; currentFileName := "";
     currentFileBytes := 0; currentFileUploaded := Num 0; error_ := "" |}.

Definition renameCandidateForAttempt (candidate : UploadCandidate) (attempt : Z)
  : UploadCandidate :=
  if attempt <=? 0 then candidate
  else
    match kind candidate with
    | camera =>
        let nextName := addConflictSuffix (displayName candidate) attempt in
        {| kind := kind candidate;
           displayName := nextName;
           localUri := localUri candidate;
           size := size candidate;
           initialOffset := initialOffset candidate;
           remoteTarget := remoteTarget candidate;
           monthBucket := monthBucket candidate;
           capturedAtIso := capturedAtIso candidate;
           overwrite_ := false |}
    | folder =>
        let nextTarget := renameRemoteTarget (remoteTarget candidate) attempt in
        {| kind := kind candidate;
           displayName := nextTarget;
           localUri := localUri candidate;
           size := size candidate;
           initialOffset := initialOffset candidate;
           remoteTarget := nextTarget;
           monthBucket := monthBucket candidate;
           capturedAtIso := capturedAtIso candidate;
           overwrite_ := false |}
    end.

(** [toErrorMessage(error, fallback)] on an error whose message is [message]. *)
Definition toErrorMessage (message fallback : string) : string :=
  let trimmed := Js.trim message in
  if String.eqb trimmed "" then fallback else trimmed.

(** The parameters of a status request: the object of [buildStatusPayload]
    and the query of [makeStatusUrl] carry the same fields by kind. *)
Inductive StatusPayload : Type :=
| CameraStatus (path file : string) (size : Z) (overwrite : bool)
    (cameraMonth capturedAt : string)
| FolderStatus (target : string) (size : Z) (overwrite : bool).

Definition buildStatusPayload (uploadBasePath : string)
  (candidate : UploadCandidate) (overwrite : bool) : StatusPayload :=
  match kind candidate with
  | camera =>
      CameraStatus uploadBasePath (displayName candidate) (size candidate)
        overwrite (monthBucket candidate) (capturedAtIso candidate)
  | folder =>
      FolderStatus (remoteTarget candidate) (size candidate) overwrite
  end.

Definition payloadOverwrite (p : StatusPayload) : bool :=
  match p with
  | CameraStatus _ _ _ o _ _ => o
  | FolderStatus _ _ o => o
  end.

(** The query of [makeStatusUrl] (the root and the payload) and of
    [makeChunkUrl] (the same with the offset). *)
Record StatusQuery : Type := mkStatusQuery {
  sq_root : string;
  sq_payload : StatusPayload
}.

Record ChunkQuery : Type := mkChunkQuery {
  cq_root : string;
  cq_payload : StatusPayload;
  cq_offset : Z
}.

Definition makeStatusUrl (rootId uploadBasePath : string)
  (candidate : UploadCandidate) (overwrite : bool) : StatusQuery :=
  {| sq_root := rootId;
     sq_payload := buildStatusPayload uploadBasePath candidate overwrite |}.

Definition makeChunkUrl (rootId uploadBasePath : string)
  (candidate : UploadCandidate) (offset : Z) (overwrite : bool) : ChunkQuery :=
  {| cq_root := rootId;
     cq_payload := buildStatusPayload uploadBasePath candidate overwrite;
     cq_offset := offset |}.

(** One element of the [items] array of a batch-status response, read
    through [entry?.index], [?.status], [?.ok], [?.error?.code] and
    [?.offset].  An element that is not an object reads [JUndefined]
    everywhere. *)
Record StatusEntry : Type := mkEntry {
  e_index : jsval;
  e_status : jsval;
  e_ok : jsval;
  e_errorCode : jsval;
  e_offset : jsval
}.

(** A settled [apiJson] call: [ok] with its [data], or not [ok] with
    [error?.code] and [error?.message]. *)
Inductive ApiResult (D : Type) : Type :=
| ApiOk (data : D)
| ApiError (code message : jsval).
Arguments ApiOk {D} data.
Arguments ApiError {D} code message.

(** [data?.status] and [data?.offset] of a single status response. *)
Record StatusData : Type := mkStatusData {
  d_status : jsval;
  d_offset : jsval
}.

(** A settled or rejected [postUploadChunk]: the [fetch] inside it is not
    guarded, so the promise can reject. *)
Inductive ChunkResult : Type :=
| ChunkRejected (message : string)
| ChunkOk (dataOffset : jsval)
| ChunkError (code message : jsval).

(** One element of a listing page, read through [item?.path],
    [item?.rootId] and [item.isDir]. *)
Record ListItem : Type := mkListItem {
  li_path : jsval;
  li_rootId : jsval;
  li_isDir : jsval
}.

(** What a call into the host gives: a value, or an exception with its
    message. *)
Inductive HostResult (A : Type) : Type :=
| HostOk (a : A)
| HostThrows (message : string).
Arguments HostOk {A} a.
Arguments HostThrows {A} message.

(** How a piece of the engine ends: it returns, it throws, or the model
    runs out of fuel in a loop that the other side can keep alive. *)
Inductive Outcome (A : Type) : Type :=
| Returned (a : A)
| Thrown (message : string)
| Diverged.
Arguments Returned {A} a.
Arguments Thrown {A} message.
Arguments Diverged {A}.

Definition ofHost {A : Type} (r : HostResult A) : Outcome A :=
  match r with
  | HostOk a => Returned a
  | HostThrows message => Thrown message
  end.

(** An entry of a local directory: a file with the fields the walker
    reads, a directory with its listing ([None] when [list()] throws), or
    something that is neither. *)
#[local] Unset Elimination Schemes.
Inductive FsEntry : Type :=
| FsFile (name uri : string) (size : jsval)
| FsDirectory (name : string) (listing : option (list FsEntry))
| FsOther.
#[local] Set Elimination Schemes.

(** The result of [collectLocalFolderFiles]. *)
Record FolderScan : Type := mkScan {
  scan_files : list LocalFolderFile;
  scan_discovered : Z;
  scan_failed : Z
}.

(** A device asset and its resolved metadata ([MediaLibrary]). *)
Record Asset : Type := mkAsset {
  as_id : string;
  as_uri : string;
  as_filename : string;
  as_creationTime : jsval
}.

Record AssetInfo : Type := mkAssetInfo {
  ai_localUri : string;
  ai_uri : string;
  ai_filename : string;
  ai_creationTime : jsval
}.

Record AssetPage : Type := mkAssetPage {
  pg_assets : list Asset;
  pg_hasNextPage : bool;
  pg_endCursor : string
}.

(** Every interaction with the outside, in the order it happens. *)
Inductive Event : Type :=
| EvStatusBatch (root : string) (items : list StatusPayload)
| EvStatus (q : StatusQuery)
| EvChunk (q : ChunkQuery) (bytes : nat)
| EvOpen (uri : string)
| EvRead (uri : string) (offset count : Z)
| EvClose (uri : string)
| EvList (root path : string) (offset : Z)
| EvDelete (root : string) (paths : list string)
| EvScan (uri : string)
| EvPermission
| EvGetAssets (after : string) (videos : bool)
| EvGetAssetInfo (id : string)
| EvFileSize (uri : string)
| EvNow
| EvRefresh.

(** The outside of the engine.  Every oracle is indexed by the clock, so
    that the same request can be answered differently over time; the user
    presses cancel when the clock reaches [w_cancelAt]. *)
Record World : Type := mkWorld {
  w_cancelAt : option nat;
  w_statusBatch : nat -> string -> list StatusPayload ->
                  ApiResult (option (list StatusEntry));
  w_status : nat -> StatusQuery -> ApiResult StatusData;
  w_chunk : nat -> ChunkQuery -> nat -> ChunkResult;
  w_open : nat -> string -> HostResult unit;
  w_readBytes : nat -> string -> Z -> Z -> HostResult nat;
  w_list : nat -> string -> string -> Z -> ApiResult (option (list ListItem));
  w_delete : nat -> string -> list string -> bool;
  w_localFolder : nat -> string -> HostResult (option (list FsEntry));
  w_requestPermissions : nat -> HostResult bool;
  w_getAssets : nat -> string -> bool -> HostResult AssetPage;
  w_getAssetInfo : nat -> string -> HostResult AssetInfo;
  w_fileSize : nat -> string -> HostResult jsval;
  w_now : nat -> Z;
  w_localYear : Z -> Z;
  w_localMonth : Z -> Z;
  w_toISOString : Z -> HostResult string;
  w_refresh : nat -> HostResult unit
}.

Definition cancelledAt (w : World) (t : nat) : bool :=
  match w_cancelAt w with
  | Some k => (k <=? t)%nat
  | None => false
  end.

(** The settings the run reads. *)
Record Config : Type := mkConfig {
  syncRunning : bool;
  selectedRoot : option string;
  serverUploadEnabled : jsval;
  serverChunkBytes : jsval;
  syncSource : SyncSource;
  localFolderUri : string;
  mirrorRemote : bool;
  conflictPolicy : SyncConflictPolicy;
  syncPath : string;
  includeVideos : bool
}.

(** The state the run leaves behind: the clock, the trace of interactions,
    and the two pieces of component state [syncRunning] and [syncProgress]. *)
Record MState : Type := mkState {
  clock : nat;
  trace : list Event;
  running : bool;
  progress : SyncProgress
}.

Definition M (A : Type) : Type := MState -> Outcome A * MState.

Definition ret {A : Type} (a : A) : M A := fun st => (Returned a, st).

Definition bind {A B : Type} (m : M A) (k : A -> M B) : M B :=
  fun st =>
    match m st with
    | (Returned a, st') => k a st'
    | (Thrown message, st') => (Thrown message, st')
    | (Diverged, st') => (Diverged, st')
    end.

Definition throw {A : Type} (message : string) : M A :=
  fun st => (Thrown message, st).

Definition diverge {A : Type} : M A := fun st => (Diverged, st).

Declare Scope sync_scope.
Delimit Scope sync_scope with sync.
Notation "x <- c ;; k" := (bind c (fun x => k))
  (at level 61, c at next level, right associativity) : sync_scope.
Notation "c ;; k" := (bind c (fun _ => k))
  (at level 61, right associativity) : sync_scope.
Local Open Scope sync_scope.

(** [try { body } catch (error) { handler(error.message) }]. *)
Definition tryCatch {A : Type} (body : M A) (handler : string -> M A) : M A :=
  fun st =>
    match body st with
    | (Thrown message, st') => handler message st'
    | other => other
    end.

(** [try { body } finally { cleanup }] for a [cleanup] that cannot throw. *)
Definition tryFinally {A : Type} (body : M A) (cleanup : M unit) : M A :=
  fun st =>
    match body st with
    | (Diverged, st') => (Diverged, st')
    | (r, st') => (r, snd (cleanup st'))
    end.

(** The state after one more interaction. *)
Definition tick (ev : Event) (st : MState) : MState :=
  {| clock := S (clock st); trace := (trace st ++ [ev])%list;
     running := running st; progress := progress st |}.

(** The state after a patch of the progress. *)
Definition patched (f : SyncProgress -> SyncProgress) (st : MState) : MState :=
  {| clock := clock st; trace := trace st;
     running := running st; progress := f (progress st) |}.

(** One interaction: log it, let the clock tick, hand the current time to
    the oracle. *)
Definition interact {A : Type} (ev : Event) (oracle : nat -> A) : M A :=
  fun st => (Returned (oracle (clock st)), tick ev st).

(** An interaction that may throw. *)
Definition interactOutcome {A : Type} (ev : Event) (oracle : nat -> HostResult A)
  : M A :=
  fun st => (ofHost (oracle (clock st)), tick ev st).

Definition setSyncProgress (f : SyncProgress -> SyncProgress) : M unit :=
  fun st => (Returned tt, patched f st).

Definition setSyncRunning (b : bool) : M unit :=
  fun st =>
    (Returned tt,
     {| clock := clock st; trace := trace st;
        running := b; progress := progress st |}).

(** [new Error(message || fallback).message]. *)
Definition errorMessage (message : jsval) (fallback : string) : string :=
  ToString (jsOr message (JStr fallback)).

Definition isStr (v : jsval) (s : string) : bool :=
  match v with
  | JStr s' => String.eqb s' s
  | _ => false
  end.

(** [array[index] = value] for an index inside the array. *)
Fixpoint replaceAt {A : Type} (index : nat) (value : A) (l : list A) : list A :=
  match l, index with
  | [], _ => []
  | _ :: t, O => value :: t
  | h :: t, S i => h :: replaceAt i value t
  end.

(** The variables of [runSync] that the planning closures update. *)
Module Plan.
Record t : Type := mk {
  candidates : list UploadCandidate;
  localMirrorTargets : list string;
  discovered : Z;
  plannedBytes : Z;
  skipped : Z;
  failed : Z
}.

Definition empty : t :=
  {| candidates := []; localMirrorTargets := []; discovered := 0;
     plannedBytes := 0; skipped := 0; failed := 0 |}.

Definition addFailed (n : Z) (p : t) : t :=
  {| candidates := candidates p; localMirrorTargets := localMirrorTargets p;
     discovered := discovered p; plannedBytes := plannedBytes p;
     skipped := skipped p; failed := failed p + n |}.

Definition addSkipped (p : t) : t :=
  {| candidates := candidates p; localMirrorTargets := localMirrorTargets p;
     discovered := discovered p; plannedBytes := plannedBytes p;
     skipped := skipped p + 1; failed := failed p |}.

Definition setDiscovered (n : Z) (p : t) : t :=
  {| candidates := candidates p; localMirrorTargets := localMirrorTargets p;
     discovered := n; plannedBytes := plannedBytes p;
     skipped := skipped p; failed := failed p |}.

Definition addMirrorTarget (target : string) (p : t) : t :=
  {| candidates := candidates p;
     localMirrorTargets := set_add string_dec target (localMirrorTargets p);
     discovered := discovered p; plannedBytes := plannedBytes p;
     skipped := skipped p; failed := failed p |}.

Definition pushCandidate (candidate : UploadCandidate) (bytes : Z) (p : t) : t :=
  {| candidates := (candidates p ++ [candidate])%list;
     localMirrorTargets := localMirrorTargets p;
     discovered := discovered p; plannedBytes := plannedBytes p + bytes;
     skipped := skipped p; failed := failed p |}.
End Plan.

(** The patches that [setSyncStage] and [setSyncProgress] apply. *)
Module Patch.

Definition errorProgress (message : string) : SyncProgress :=
  {| stage := error; discovered := 0; planned := 0; skipped := 0; failed := 0;
     uploaded := 0; plannedBytes := 0; uploadedBytes := Num 0;
     remoteDeleted := 0; remoteDeleteFailed := 0; currentFileName := "";
     currentFileBytes := 0; currentFileUploaded := Num 0; error_ := message |}.

Definition planningStart : SyncProgress :=
  {| stage := planning; discovered := 0; planned := 0; skipped := 0; failed := 0;
     uploaded := 0; plannedBytes := 0; uploadedBytes := Num 0;
     remoteDeleted := 0; remoteDeleteFailed := 0; currentFileName := "";
     currentFileBytes := 0; currentFileUploaded := Num 0; error_ := "" |}.

Definition planningCounts (loc : Plan.t) (prev : SyncProgress) : SyncProgress :=
  {| stage := planning;
     discovered := Plan.discovered loc;
     planned := Z.of_nat (List.length (Plan.candidates loc));
     skipped := Plan.skipped loc;
     failed := Plan.failed loc;
     uploaded := uploaded prev;
     plannedBytes := Plan.plannedBytes loc;
     uploadedBytes := uploadedBytes prev;
     remoteDeleted := remoteDeleted prev;
     remoteDeleteFailed := remoteDeleteFailed prev;
     currentFileName := currentFileName prev;
     currentFileBytes := currentFileBytes prev;
     currentFileUploaded := currentFileUploaded prev;
     error_ := error_ prev |}.

Definition uploadStart (loc : Plan.t) (prev : SyncProgress) : SyncProgress :=
  {| stage := uploading;
     discovered := Plan.discovered loc;
     planned := Z.of_nat (List.length (Plan.candidates loc));
     skipped := Plan.skipped loc;
     failed := Plan.failed loc;
     uploaded := 0;
     plannedBytes := Plan.plannedBytes loc;
     uploadedBytes := Num 0;
     remoteDeleted := remoteDeleted prev;
     remoteDeleteFailed := remoteDeleteFailed prev;
     currentFileName := "";
     currentFileBytes := 0;
     currentFileUploaded := Num 0;
     error_ := error_ prev |}.

Definition candidateStart (candidate : UploadCandidate) (offset : Z)
  (uploaded' : Z) (uploadedBytes' : jsnum) (prev : SyncProgress) : SyncProgress :=
  {| stage := uploading;
     discovered := discovered prev;
     planned := planned prev;
     skipped := skipped prev;
     failed := failed prev;
     uploaded := uploaded';
     plannedBytes := plannedBytes prev;
     uploadedBytes := uploadedBytes';
     remoteDeleted := remoteDeleted prev;
     remoteDeleteFailed := remoteDeleteFailed prev;
     currentFileName := displayName candidate;
     currentFileBytes := size candidate;
     currentFileUploaded := Num offset;
     error_ := error_ prev |}.

Definition chunkDone (uploadedBytes' offset : jsnum) (prev : SyncProgress)
  : SyncProgress :=
  {| stage := stage prev;
     discovered := discovered prev;
     planned := planned prev;
     skipped := skipped prev;
     failed := failed prev;
     uploaded := uploaded prev;
     plannedBytes := plannedBytes prev;
     uploadedBytes := uploadedBytes';
     remoteDeleted := remoteDeleted prev;
     remoteDeleteFailed := remoteDeleteFailed prev;
     currentFileName := currentFileName prev;
     currentFileBytes := currentFileBytes prev;
     currentFileUploaded := offset;
     error_ := error_ prev |}.

Definition candidateDone (uploaded' : Z) (size' : Z) (prev : SyncProgress)
  : SyncProgress :=
  {| stage := stage prev;
     discovered := discovered prev;
     planned := planned prev;
     skipped := skipped prev;
     failed := failed prev;
     uploaded := uploaded';
     plannedBytes := plannedBytes prev;
     uploadedBytes := uploadedBytes prev;
     remoteDeleted := remoteDeleted prev;
     remoteDeleteFailed := remoteDeleteFailed prev;
     currentFileName := currentFileName prev;
     currentFileBytes := currentFileBytes prev;
     currentFileUploaded := Num size';
     error_ := error_ prev |}.

Definition setStage (s : SyncStage) (prev : SyncProgress) : SyncProgress :=
  {| stage := s;
     discovered := discovered prev;
     planned := planned prev;
     skipped := skipped prev;
     failed := failed prev;
     uploaded := uploaded prev;
     plannedBytes := plannedBytes prev;
     uploadedBytes := uploadedBytes prev;
     remoteDeleted := remoteDeleted prev;
     remoteDeleteFailed := remoteDeleteFailed prev;
     currentFileName := currentFileName prev;
     currentFileBytes := currentFileBytes prev;
     currentFileUploaded := currentFileUploaded prev;
     error_ := error_ prev |}.

Definition deleteCounts (remoteDeleted' remoteDeleteFailed' : Z)
  (prev : SyncProgress) : SyncProgress :=
  {| stage := stage prev;
     discovered := discovered prev;
     planned := planned prev;
     skipped := skipped prev;
     failed := failed prev;
     uploaded := uploaded prev;
     plannedBytes := plannedBytes prev;
     uploadedBytes := uploadedBytes prev;
     remoteDeleted := remoteDeleted';
     remoteDeleteFailed := remoteDeleteFailed';
     currentFileName := currentFileName prev;
     currentFileBytes := currentFileBytes prev;
     currentFileUploaded := currentFileUploaded prev;
     error_ := error_ prev |}.

Definition cancelledAfterUpload (uploaded' : Z) (uploadedBytes' : jsnum)
  (remoteDeleted' remoteDeleteFailed' : Z) (prev : SyncProgress) : SyncProgress :=
  {| stage := cancelled;
     discovered := discovered prev;
     planned := planned prev;
     skipped := skipped prev;
     failed := failed prev;
     uploaded := uploaded';
     plannedBytes := plannedBytes prev;
     uploadedBytes := uploadedBytes';
     remoteDeleted := remoteDeleted';
     remoteDeleteFailed := remoteDeleteFailed';
     currentFileName := currentFileName prev;
     currentFileBytes := currentFileBytes prev;
     currentFileUploaded := currentFileUploaded prev;
     error_ := error_ prev |}.

Definition finished (uploaded' : Z) (uploadedBytes' : jsnum)
  (remoteDeleted' remoteDeleteFailed' : Z) (prev : SyncProgress) : SyncProgress :=
  {| stage := done;
     discovered := discovered prev;
     planned := planned prev;
     skipped := skipped prev;
     failed := failed prev;
     uploaded := uploaded';
     plannedBytes := plannedBytes prev;
     uploadedBytes := uploadedBytes';
     remoteDeleted := remoteDeleted';
     remoteDeleteFailed := remoteDeleteFailed';
     currentFileName := "";
     currentFileBytes := 0;
     currentFileUploaded := Num 0;
     error_ := error_ prev |}.

Definition failedWith (message : string) (prev : SyncProgress) : SyncProgress :=
  {| stage := error;
     discovered := discovered prev;
     planned := planned prev;
     skipped := skipped prev;
     failed := failed prev;
     uploaded := uploaded prev;
     plannedBytes := plannedBytes prev;
     uploadedBytes := uploadedBytes prev;
     remoteDeleted := remoteDeleted prev;
     remoteDeleteFailed := remoteDeleteFailed prev;
     currentFileName := currentFileName prev;
     currentFileBytes := currentFileBytes prev;
     currentFileUploaded := currentFileUploaded prev;
     error_ := message |}.

End Patch.

(** [list.slice(0, n)], [list.slice(n)], and the successive slices of
    [n] elements that a loop stepping by [n] takes. *)
Fixpoint slices {A : Type} (fuel n : nat) (l : list A) : list (list A) :=
  match fuel, l with
  | O, _ | _, [] => []
  | S fuel', _ => firstn n l :: slices fuel' n (skipn n l)
  end.

(* ================================================================== *)
(** ** The engine *)

Section Engine.

Variable StringToNumber : string -> jsnum.
Variable w : World.

Definition isCancelled : M bool :=
  fun st => (Returned (cancelledAt w (clock st)), st).

Definition normalizeBatchStatusItems_store (expected : nat)
  (byIndex : list (option StatusEntry)) (entry : StatusEntry)
  : list (option StatusEntry) :=
  match ToNumber StringToNumber (e_index entry) with
  | NaN => byIndex
  | Num index =>
      if (index <? 0) || (Z.of_nat expected <=? index) then byIndex
      else replaceAt (Z.to_nat index) (Some entry) byIndex
  end.

(** [rawItems] is [None] when the response's [items] is not an array. *)
Definition normalizeBatchStatusItems (rawItems : option (list StatusEntry))
  (expected : nat) : list (option StatusEntry) :=
  let byIndex := repeat None expected in
  match rawItems with
  | None => byIndex
  | Some items => fold_left (normalizeBatchStatusItems_store expected) items byIndex
  end.

(** [Number(entry?.index)] is the integer [index]. *)
Definition entryHasIndex (index : nat) (entry : StatusEntry) : bool :=
  match ToNumber StringToNumber (e_index entry) with
  | NaN => false
  | Num z => z =? Z.of_nat index
  end.

(** The last entry of the response whose index field coerces to [index]. *)
Definition lastWithIndex (index : nat) (items : list StatusEntry)
  : option StatusEntry :=
  find (entryHasIndex index) (rev items).

Definition buildFolderCandidates (files : list LocalFolderFile)
  (uploadBasePath : string) : list UploadCandidate :=
  map (fun file =>
         let remoteTarget := joinUploadPath [uploadBasePath; lf_relativePath file] in
         {| kind := folder;
            displayName := lf_relativePath file;
            localUri := lf_localUri file;
            size := lf_size file;
            initialOffset := 0;
            remoteTarget := remoteTarget;
            monthBucket := "";
            capturedAtIso := "";
            overwrite_ := false |})
      files.

(** *** The folder walker *)

(** The number of turns the walker needs for a directory on its stack. *)
Fixpoint entryWeight (entry : FsEntry) : nat :=
  match entry with
  | FsDirectory _ (Some entries) => S (list_sum (map entryWeight entries))
  | FsDirectory _ None => 1
  | _ => 0
  end.

Definition listingWeight (listing : option (list FsEntry)) : nat :=
  match listing with
  | Some entries => list_sum (map entryWeight entries)
  | None => 0
  end.

(** The stack of [collectLocalFolderFiles], top first: a directory, by its
    listing, and its path relative to the root. *)
Definition WalkStack : Type := list (option (list FsEntry) * string).

Definition stackWeight (stack : WalkStack) : nat :=
  list_sum (map (fun item => S (listingWeight (fst item))) stack).

(** The body of the loop over the entries of the directory at [relPath]. *)
Definition collectEntry (relPath : string) (acc : WalkStack * FolderScan)
  (entry : FsEntry) : WalkStack * FolderScan :=
  let (stack, scan) := acc in
  match entry with
  | FsDirectory name listing =>
      let nextRel := joinUploadPath [relPath; name] in
      ((listing, nextRel) :: stack, scan)
  | FsOther => acc
  | FsFile name uri rawSize =>
      let discovered := scan_discovered scan + 1 in
      let relativePath := joinUploadPath [relPath; name] in
      match ToNumber StringToNumber (jsOr rawSize (JNum 0)) with
      | NaN =>
          (stack, mkScan (scan_files scan) discovered (scan_failed scan + 1))
      | Num size' =>
          if String.eqb relativePath "" || (size' <? 0) then
            (stack, mkScan (scan_files scan) discovered (scan_failed scan + 1))
          else
            (stack,
             mkScan (scan_files scan ++ [mkLocalFile uri relativePath relativePath size'])
               discovered (scan_failed scan))
      end
  end.

(** The loop of [collectLocalFolderFiles]; [None] when the fuel runs out. *)
Fixpoint collectLoop (fuel : nat) (stack : WalkStack) (scan : FolderScan)
  : option FolderScan :=
  match fuel with
  | O => None
  | S fuel' =>
      match stack with
      | [] => Some scan
      | (None, _) :: stack' =>
          collectLoop fuel' stack'
            (mkScan (scan_files scan) (scan_discovered scan) (scan_failed scan + 1))
      | (Some entries, relPath) :: stack' =>
          let acc := fold_left (collectEntry relPath) entries (stack', scan) in
          collectLoop fuel' (fst acc) (snd acc)
      end
  end.

Definition emptyScan : FolderScan := mkScan [] 0 0.

(** [collectLocalFolderFiles] on the listing of the root directory.  The
    fuel is one more than the weight of the stack, which each turn lowers
    by one, so the loop comes back. *)
Definition collectLocalFolderFiles (root : option (list FsEntry)) : FolderScan :=
  match collectLoop (S (stackWeight [(root, "")])) [(root, "")] emptyScan with
  | Some scan => scan
  | None => emptyScan
  end.

(** [FileAt listing relPath file]: [file] is the descriptor of a file
    that lies in the directory listed by [listing], whose relative path is
    [relPath], or below it through directories that can be listed; its
    relative path is not empty and its size is a number that is not
    negative. *)
Inductive FileAt : option (list FsEntry) -> string -> LocalFolderFile -> Prop :=
| FileAt_here (entries : list FsEntry) (relPath name uri : string)
    (rawSize : jsval) (size' : Z) :
    In (FsFile name uri rawSize) entries ->
    joinUploadPath [relPath; name] <> "" ->
    ToNumber StringToNumber (jsOr rawSize (JNum 0)) = Num size' ->
    0 <= size' ->
    FileAt (Some entries) relPath
      (mkLocalFile uri (joinUploadPath [relPath; name])
         (joinUploadPath [relPath; name]) size')
| FileAt_below (entries : list FsEntry) (relPath name : string)
    (listing : option (list FsEntry)) (file : LocalFolderFile) :
    In (FsDirectory name listing) entries ->
    FileAt listing (joinUploadPath [relPath; name]) file ->
    FileAt (Some entries) relPath file.

(** [normalizeTimestamp], reading [Date.now()] when the value is unusable. *)
Definition normalizeTimestamp (value : jsval) : M Z :=
  match ToNumber StringToNumber (jsOr value (JNum 0)) with
  | NaN => interact EvNow (w_now w)
  | Num numeric =>
      if numeric <=? 0 then interact EvNow (w_now w)
      else ret (if numeric <? 10 ^ 12 then numeric * 1000 else numeric)
  end.

(** [String(n).padStart(2, '0')]. *)
Definition padStart2 (s : string) : string :=
  match String.length s with
  | O => "00"
  | S O => "0" ++ s
  | _ => s
  end.

Definition monthBucketFromTime (timestamp : Z) : M string :=
  value <- normalizeTimestamp (JNum timestamp) ;;
  let month := padStart2 (Js.stringOfInt (w_localMonth w value + 1)) in
  ret (Js.stringOfInt (w_localYear w value) ++ "-" ++ month).

Section Run.

(** The configuration and the id of the selected root, as [runSync] sees
    them once the checks before the run have passed. *)
Variable cfg : Config.
Variable rootId : string.

Definition uploadEnabled : bool :=
  match serverUploadEnabled cfg with
  | JBool false => false
  | _ => true
  end.

Definition chunkBytes : Z :=
  match ToNumber StringToNumber (jsOr (serverChunkBytes cfg) (JNum 0)) with
  | NaN => MAX_CHUNK_BYTES
  | Num serverChunk =>
      if serverChunk <=? 0 then MAX_CHUNK_BYTES
      else Z.max MIN_CHUNK_BYTES (Z.min MAX_CHUNK_BYTES serverChunk)
  end.

Definition uploadPathNormalized : string := normalizeUploadPath (syncPath cfg).

Definition effectiveConflictPolicy : SyncConflictPolicy :=
  if SyncSource_eqb (syncSource cfg) folder && mirrorRemote cfg
     && SyncConflictPolicy_eqb (conflictPolicy cfg) rename
  then overwrite
  else conflictPolicy cfg.

Definition overwriteUploads : bool :=
  SyncConflictPolicy_eqb effectiveConflictPolicy overwrite.

Definition fetchUploadStatusBatch (candidates : list UploadCandidate)
  (overwrite : bool) : M (list (option StatusEntry)) :=
  match candidates with
  | [] => ret []
  | _ =>
      let items :=
        map (fun candidate =>
               buildStatusPayload uploadPathNormalized candidate overwrite)
            candidates in
      batchResult <- interact (EvStatusBatch rootId items)
                       (fun t => w_statusBatch w t rootId items) ;;
      match batchResult with
      | ApiError _ message =>
          throw (errorMessage message "Failed to check upload status")
      | ApiOk rawItems =>
          ret (normalizeBatchStatusItems rawItems (List.length candidates))
      end
  end.

Definition addReadyCandidate (loc : Plan.t) (candidate : UploadCandidate)
  (rawOffset : jsnum) (overwrite : bool) : Plan.t :=
  let offset := Z.max 0 (Z.min (numOrZero rawOffset) (size candidate)) in
  let candidate :=
    {| kind := kind candidate;
       displayName := displayName candidate;
       localUri := localUri candidate;
       size := size candidate;
       initialOffset := offset;
       remoteTarget := remoteTarget candidate;
       monthBucket := monthBucket candidate;
       capturedAtIso := capturedAtIso candidate;
       overwrite_ := overwrite |} in
  Plan.pushCandidate candidate (Z.max 0 (size candidate - offset)) loc.

Inductive RenameResult : Type :=
| RenameReady (candidate : UploadCandidate) (offset : jsnum)
| RenameSkipped
| RenameFailed.

(** The loop of [resolveRenameCandidate], with [remaining] attempts left
    from [attempt] on. *)
Fixpoint resolveRenameLoop (remaining : nat) (attempt : Z)
  (candidate : UploadCandidate) : M RenameResult :=
  match remaining with
  | O => ret RenameFailed
  | S remaining' =>
      stop <- isCancelled ;;
      if stop then ret RenameFailed
      else
        let renamedCandidate := renameCandidateForAttempt candidate attempt in
        let statusUrl :=
          makeStatusUrl rootId uploadPathNormalized renamedCandidate false in
        statusResult <- interact (EvStatus statusUrl)
                          (fun t => w_status w t statusUrl) ;;
        match statusResult with
        | ApiError code _ =>
            if isStr code "exists"
            then resolveRenameLoop remaining' (attempt + 1) candidate
            else ret RenameFailed
        | ApiOk data =>
            let uploadStatus := ToString (jsOr (d_status data) (JStr "ready")) in
            let offset := offsetOfField StringToNumber (d_offset data) in
            if String.eqb uploadStatus "complete"
               || jsGe offset (Num (size renamedCandidate))
            then ret RenameSkipped
            else ret (RenameReady renamedCandidate offset)
        end
  end.

Definition resolveRenameCandidate (candidate : UploadCandidate) : M RenameResult :=
  resolveRenameLoop MAX_RENAME_ATTEMPTS 1 candidate.

(** The status string and the offset that [applyStatusBatch] reads from a
    matched entry. *)
Definition uploadStatusOf (statusItem : StatusEntry) : string :=
  ToString
    (jsOr (e_status statusItem)
       (if truthy (e_ok statusItem) then JStr "ready"
        else jsOr (e_errorCode statusItem) (JStr "error"))).

Definition offsetOf (statusItem : StatusEntry) : jsnum :=
  offsetOfField StringToNumber (e_offset statusItem).

(** The body of the loop of [applyStatusBatch] for one candidate and the
    slot [statusItems[index]]. *)
Definition applyStatusItem (candidate : UploadCandidate)
  (statusItem : option StatusEntry) (loc : Plan.t) : M Plan.t :=
  match statusItem with
  | None => ret (Plan.addFailed 1 loc)
  | Some item =>
      let uploadStatus := uploadStatusOf item in
      let offset := offsetOf item in
      if String.eqb uploadStatus "ready" then
        ret (addReadyCandidate loc candidate offset overwriteUploads)
      else if String.eqb uploadStatus "complete"
              || jsGe offset (Num (size candidate)) then
        ret (Plan.addSkipped loc)
      else if String.eqb uploadStatus "exists" then
        match effectiveConflictPolicy with
        | skip => ret (Plan.addSkipped loc)
        | rename =>
            renamed <- resolveRenameCandidate candidate ;;
            match renamed with
            | RenameReady renamedCandidate renamedOffset =>
                ret (addReadyCandidate loc renamedCandidate renamedOffset false)
            | RenameSkipped => ret (Plan.addSkipped loc)
            | RenameFailed => ret (Plan.addFailed 1 loc)
            end
        | overwrite => ret (Plan.addFailed 1 loc)
        end
      else ret (Plan.addFailed 1 loc)
  end.

(** The loop of [applyStatusBatch] from [index] on; [batchCandidates] are
    the candidates at [index], [index + 1], ... *)
Fixpoint applyStatusLoop (batchCandidates : list UploadCandidate) (index : nat)
  (statusItems : list (option StatusEntry)) (loc : Plan.t) : M Plan.t :=
  match batchCandidates with
  | [] => ret loc
  | candidate :: rest =>
      stop <- isCancelled ;;
      if stop then ret loc
      else
        loc' <- applyStatusItem candidate (nth index statusItems None) loc ;;
        applyStatusLoop rest (S index) statusItems loc'
  end.

Definition applyStatusBatch (batchCandidates : list UploadCandidate)
  (loc : Plan.t) : M Plan.t :=
  match batchCandidates with
  | [] => ret loc
  | _ =>
      statusItems <- fetchUploadStatusBatch batchCandidates overwriteUploads ;;
      applyStatusLoop batchCandidates 0 statusItems loc
  end.

(** *** The chunked upload executor *)

(** The [while] loop over the chunks of one candidate.  It returns the
    final [offset] and [uploadedBytes].  Every turn that comes back raises
    the offset by at least one, so [fuel] bounds the turns. *)
Fixpoint uploadLoop (fuel : nat) (candidate : UploadCandidate)
  (offset uploadedBytes : jsnum) : M (jsnum * jsnum) :=
  match offset with
  | NaN => ret (offset, uploadedBytes)
  | Num localOffset =>
      if negb (localOffset <? size candidate) then ret (offset, uploadedBytes)
      else
        stop <- isCancelled ;;
        if stop then ret (offset, uploadedBytes)
        else
          match fuel with
          | O => diverge
          | S fuel' =>
              let nextChunkBytes :=
                Z.min chunkBytes (size candidate - localOffset) in
              chunk <- interactOutcome
                         (EvRead (localUri candidate) localOffset nextChunkBytes)
                         (fun t => w_readBytes w t (localUri candidate)
                                     localOffset nextChunkBytes) ;;
              match chunk with
              | O => throw "Failed to read file chunk"
              | S _ =>
                  let chunkUrl :=
                    makeChunkUrl rootId uploadPathNormalized candidate
                      localOffset (overwrite_ candidate) in
                  chunkResult <- interact (EvChunk chunkUrl chunk)
                                   (fun t => w_chunk w t chunkUrl chunk) ;;
                  match chunkResult with
                  | ChunkRejected message => throw message
                  | ChunkError code message =>
                      if isStr code "offset_mismatch" then
                        let statusUrl :=
                          makeStatusUrl rootId uploadPathNormalized candidate
                            (overwrite_ candidate) in
                        statusResult <- interact (EvStatus statusUrl)
                                          (fun t => w_status w t statusUrl) ;;
                        match statusResult with
                        | ApiError _ message' =>
                            throw (errorMessage message'
                                     "Failed to recover upload offset")
                        | ApiOk data =>
                            let serverOffset :=
                              offsetOfField StringToNumber (d_offset data) in
                            if jsLe serverOffset offset then
                              throw "Upload offset mismatch could not be resolved"
                            else
                              let advanced := jsSub serverOffset offset in
                              let uploadedBytes' := jsAdd uploadedBytes advanced in
                              setSyncProgress
                                (Patch.chunkDone uploadedBytes' serverOffset) ;;
                              uploadLoop fuel' candidate serverOffset uploadedBytes'
                        end
                      else throw (errorMessage message "Chunk upload failed")
                  | ChunkOk dataOffset =>
                      let nextOffset :=
                        jsMax (Num (localOffset + Z.of_nat chunk))
                          (ToNumber StringToNumber (jsOr dataOffset (JNum 0))) in
                      let advanced := jsMax (Num 0) (jsSub nextOffset offset) in
                      let uploadedBytes' := jsAdd uploadedBytes advanced in
                      setSyncProgress
                        (Patch.chunkDone uploadedBytes' nextOffset) ;;
                      uploadLoop fuel' candidate nextOffset uploadedBytes'
                  end
              end
          end
  end.

(** The read and the chunk request of one turn of the loop at [offset],
    the status request of the recovery, and the state after the first two. *)
Definition readEvent (candidate : UploadCandidate) (offset : Z) : Event :=
  EvRead (localUri candidate) offset
    (Z.min chunkBytes (size candidate - offset)).

Definition chunkUrlAt (candidate : UploadCandidate) (offset : Z) : ChunkQuery :=
  makeChunkUrl rootId uploadPathNormalized candidate offset (overwrite_ candidate).

Definition recoverUrl (candidate : UploadCandidate) : StatusQuery :=
  makeStatusUrl rootId uploadPathNormalized candidate (overwrite_ candidate).

Definition afterChunk (candidate : UploadCandidate) (offset : Z) (n : nat)
  (st : MState) : MState :=
  tick (EvChunk (chunkUrlAt candidate offset) n) (tick (readEvent candidate offset) st).

(** The initial offset of the executor for a candidate, and a number of
    turns that the loop cannot exceed from there. *)
Definition startOffset (candidate : UploadCandidate) : Z :=
  Z.max 0 (Z.min (initialOffset candidate) (size candidate)).

Definition uploadFuel (candidate : UploadCandidate) : nat :=
  Z.to_nat (size candidate - startOffset candidate).

(** The body of the [for] loop over the planned candidates: one candidate,
    with [uploaded] and [uploadedBytes] as they stand. *)
Definition uploadCandidate (candidate : UploadCandidate) (uploaded' : Z)
  (uploadedBytes' : jsnum) : M (Z * jsnum) :=
  let offset := startOffset candidate in
  interactOutcome (EvOpen (localUri candidate))
    (fun t => w_open w t (localUri candidate)) ;;
  tryFinally
    (setSyncProgress
       (Patch.candidateStart candidate offset uploaded' uploadedBytes') ;;
     r <- uploadLoop (uploadFuel candidate) candidate (Num offset) uploadedBytes' ;;
     let (finalOffset, finalBytes) := r in
     if jsGe finalOffset (Num (size candidate)) then
       setSyncProgress (Patch.candidateDone (uploaded' + 1) (size candidate)) ;;
       ret (uploaded' + 1, finalBytes)
     else ret (uploaded', finalBytes))
    (interact (EvClose (localUri candidate)) (fun _ => tt)).

Fixpoint uploadAll (candidates : list UploadCandidate) (uploaded' : Z)
  (uploadedBytes' : jsnum) : M (Z * jsnum) :=
  match candidates with
  | [] => ret (uploaded', uploadedBytes')
  | candidate :: rest =>
      stop <- isCancelled ;;
      if stop then ret (uploaded', uploadedBytes')
      else
        r <- uploadCandidate candidate uploaded' uploadedBytes' ;;
        uploadAll rest (fst r) (snd r)
  end.

(** *** The mirror pruner *)

(** What one listed item adds to the queue of directories and to the set
    of remote files. *)
Definition absorbListItem (acc : list string * list string) (item : ListItem)
  : list string * list string :=
  let (queue, remoteFiles) := acc in
  if negb (truthy (li_path item)) || negb (truthy (li_rootId item)) then acc
  else if truthy (li_isDir item) then ((queue ++ [ToString (li_path item)])%list, remoteFiles)
  else (queue, set_add string_dec (ToString (li_path item)) remoteFiles).

(** The two nested loops of [fetchRemoteFilesForMirror].  [current] is
    [None] at the head of the outer loop and [Some (currentPath, offset)]
    at the head of the inner one.  The server decides how long the listing
    goes on, so the loop runs on [fuel]. *)
Fixpoint fetchRemoteFilesLoop (fuel : nat) (queue : list string)
  (current : option (string * Z)) (remoteFiles : list string)
  : M (list string) :=
  match fuel with
  | O => diverge
  | S fuel' =>
      stop <- isCancelled ;;
      match current with
      | None =>
          match queue with
          | [] => ret remoteFiles
          | _ =>
              if stop then ret remoteFiles
              else fetchRemoteFilesLoop fuel' (removelast queue)
                     (Some (last queue "", 0)) remoteFiles
          end
      | Some (currentPath, offset) =>
          if stop then fetchRemoteFilesLoop fuel' queue None remoteFiles
          else
            listResult <- interact (EvList rootId currentPath offset)
                            (fun t => w_list w t rootId currentPath offset) ;;
            match listResult with
            | ApiError _ message =>
                throw (errorMessage message
                         "Failed to list remote files for mirror mode")
            | ApiOk data =>
                let items := match data with Some l => l | None => [] end in
                let acc := fold_left absorbListItem items (queue, remoteFiles) in
                if Z.of_nat (List.length items) <? LIST_PAGE_SIZE then
                  fetchRemoteFilesLoop fuel' (fst acc) None (snd acc)
                else
                  fetchRemoteFilesLoop fuel' (fst acc)
                    (Some (currentPath, offset + Z.of_nat (List.length items)))
                    (snd acc)
            end
      end
  end.

Definition fetchRemoteFilesForMirror (fuel : nat) (basePath : string)
  : M (list string) :=
  fetchRemoteFilesLoop fuel [basePath] None [].

(** The paths the pruner deletes. *)
Definition toDelete (remoteFiles localMirrorTargets : list string) : list string :=
  filter (fun remotePath => negb (set_mem string_dec remotePath localMirrorTargets))
    remoteFiles.

Fixpoint deleteLoop (batches : list (list string))
  (remoteDeleted' remoteDeleteFailed' : Z) : M (Z * Z) :=
  match batches with
  | [] => ret (remoteDeleted', remoteDeleteFailed')
  | batch :: rest =>
      stop <- isCancelled ;;
      if stop then ret (remoteDeleted', remoteDeleteFailed')
      else
        deleteOk <- interact (EvDelete rootId batch)
                      (fun t => w_delete w t rootId batch) ;;
        let n := Z.of_nat (List.length batch) in
        let counts :=
          if deleteOk : bool then (remoteDeleted' + n, remoteDeleteFailed')
          else (remoteDeleted', remoteDeleteFailed' + n) in
        setSyncProgress (Patch.deleteCounts (fst counts) (snd counts)) ;;
        deleteLoop rest (fst counts) (snd counts)
  end.

Definition mirrorPrune (fuel : nat) (loc : Plan.t) : M (Z * Z) :=
  setSyncProgress (Patch.setStage mirroring) ;;
  remoteFiles <- fetchRemoteFilesForMirror fuel uploadPathNormalized ;;
  let paths := toDelete remoteFiles (Plan.localMirrorTargets loc) in
  deleteLoop (slices (List.length paths) DELETE_BATCH_SIZE paths) 0 0.

(** *** Planning *)

(** [pendingCandidates.length >= STATUS_BATCH_SIZE] and the flush that
    follows. *)
Definition flushIfFull (pending : list UploadCandidate) (loc : Plan.t)
  : M (list UploadCandidate * Plan.t) :=
  if (STATUS_BATCH_SIZE <=? List.length pending)%nat then
    loc' <- applyStatusBatch pending loc ;;
    ret ([], loc')
  else ret (pending, loc).

Definition flushRest (pending : list UploadCandidate) (loc : Plan.t)
  : M Plan.t :=
  stop <- isCancelled ;;
  match pending with
  | [] => ret loc
  | _ => if stop then ret loc else applyStatusBatch pending loc
  end.

(** The loop over [folderCandidates] from [index] on. *)
Fixpoint planFolderLoop (folderCandidates : list UploadCandidate) (index : nat)
  (pending : list UploadCandidate) (loc : Plan.t)
  : M (list UploadCandidate * Plan.t) :=
  match folderCandidates with
  | [] => ret (pending, loc)
  | candidate :: rest =>
      stop <- isCancelled ;;
      if stop then ret (pending, loc)
      else
        let loc := Plan.addMirrorTarget (remoteTarget candidate) loc in
        let pending := (pending ++ [candidate])%list in
        (if (Z.of_nat (S index) mod 10 =? 0)
         then setSyncProgress (Patch.planningCounts loc) else ret tt) ;;
        r <- flushIfFull pending loc ;;
        planFolderLoop rest (S index) (fst r) (snd r)
  end.

Definition planFolder : M Plan.t :=
  root <- interactOutcome (EvScan (localFolderUri cfg))
            (fun t => w_localFolder w t (localFolderUri cfg)) ;;
  let scanned := collectLocalFolderFiles root in
  let loc :=
    Plan.addFailed (scan_failed scanned)
      (Plan.setDiscovered (scan_discovered scanned) Plan.empty) in
  let folderCandidates :=
    buildFolderCandidates (scan_files scanned) uploadPathNormalized in
  r <- planFolderLoop folderCandidates 0 [] loc ;;
  flushRest (fst r) (snd r).

(** [a || b] on strings. *)
Definition strOr (a b : string) : string :=
  if String.eqb a "" then b else a.

(** The body of the loop over the assets of one page, after the
    cancellation check and the count. *)
Definition planCameraAsset (asset : Asset) (pending : list UploadCandidate)
  (loc : Plan.t) : M (list UploadCandidate * Plan.t) :=
  info <- tryCatch
            (i <- interactOutcome (EvGetAssetInfo (as_id asset))
                    (fun t => w_getAssetInfo w t (as_id asset)) ;;
             ret (Some i))
            (fun _ => ret None) ;;
  match info with
  | None => ret (pending, Plan.addFailed 1 loc)
  | Some assetInfo =>
      let localUri' :=
        strOr (ai_localUri assetInfo) (strOr (ai_uri assetInfo) (as_uri asset)) in
      if String.eqb localUri' "" then ret (pending, Plan.addFailed 1 loc)
      else
        rawSize <- interactOutcome (EvFileSize localUri')
                     (fun t => w_fileSize w t localUri') ;;
        match ToNumber StringToNumber (jsOr rawSize (JNum 0)) with
        | NaN => ret (pending, Plan.addFailed 1 loc)
        | Num size' =>
            if size' <? 0 then ret (pending, Plan.addFailed 1 loc)
            else
              createdAt <- normalizeTimestamp
                             (jsOr (ai_creationTime assetInfo)
                                (as_creationTime asset)) ;;
              monthBucket' <- monthBucketFromTime createdAt ;;
              let fileName :=
                sanitizeFileName (strOr (ai_filename assetInfo) (as_filename asset))
                  (as_id asset) in
              capturedAtIso' <- (fun st => (ofHost (w_toISOString w createdAt), st)) ;;
              let candidate :=
                {| kind := camera;
                   displayName := fileName;
                   localUri := localUri';
                   size := size';
                   initialOffset := 0;
                   remoteTarget := "";
                   monthBucket := monthBucket';
                   capturedAtIso := capturedAtIso';
                   overwrite_ := false |} in
              flushIfFull (pending ++ [candidate])%list loc
        end
  end.

Fixpoint planCameraAssets (assets : list Asset) (pending : list UploadCandidate)
  (loc : Plan.t) : M (list UploadCandidate * Plan.t) :=
  match assets with
  | [] => ret (pending, loc)
  | asset :: rest =>
      stop <- isCancelled ;;
      if stop then ret (pending, loc)
      else
        let loc := Plan.setDiscovered (Plan.discovered loc + 1) loc in
        (if Plan.discovered loc mod 10 =? 0
         then setSyncProgress (Patch.planningCounts loc) else ret tt) ;;
        r <- planCameraAsset asset pending loc ;;
        planCameraAssets rest (fst r) (snd r)
  end.

(** The loop over the pages of the media library; the library decides
    whether there is a next page, so the loop runs on [fuel]. *)
Fixpoint planCameraPages (fuel : nat) (pageCursor : string)
  (pending : list UploadCandidate) (loc : Plan.t)
  : M (list UploadCandidate * Plan.t) :=
  stop <- isCancelled ;;
  if stop then ret (pending, loc)
  else
    match fuel with
    | O => diverge
    | S fuel' =>
        page <- interactOutcome (EvGetAssets pageCursor (includeVideos cfg))
                  (fun t => w_getAssets w t pageCursor (includeVideos cfg)) ;;
        r <- planCameraAssets (pg_assets page) pending loc ;;
        if pg_hasNextPage page
        then planCameraPages fuel' (pg_endCursor page) (fst r) (snd r)
        else ret r
    end.

(** The camera branch; [None] when permission is refused and the run
    returns. *)
Definition planCamera (fuel : nat) : M (option Plan.t) :=
  granted <- interactOutcome EvPermission (w_requestPermissions w) ;;
  if negb granted then
    setSyncProgress
      (fun _ => Patch.errorProgress
                  "Media library permission is required for camera sync.") ;;
    ret None
  else
    r <- planCameraPages fuel "" [] Plan.empty ;;
    loc <- flushRest (fst r) (snd r) ;;
    ret (Some loc).

(** *** The run *)

(** What follows planning inside the [try] block. *)
Definition afterPlanning (fuel : nat) (loc : Plan.t) : M unit :=
  stop <- isCancelled ;;
  if stop then setSyncProgress (Patch.setStage cancelled)
  else
    setSyncProgress (Patch.uploadStart loc) ;;
    r <- uploadAll (Plan.candidates loc) 0 (Num 0) ;;
    stop' <- isCancelled ;;
    counts <- (if negb stop' && SyncSource_eqb (syncSource cfg) folder
                  && mirrorRemote cfg
               then mirrorPrune fuel loc else ret (0, 0)) ;;
    stop'' <- isCancelled ;;
    (if stop'' then
       setSyncProgress
         (Patch.cancelledAfterUpload (fst r) (snd r) (fst counts) (snd counts))
     else
       setSyncProgress
         (Patch.finished (fst r) (snd r) (fst counts) (snd counts))) ;;
    interactOutcome EvRefresh (w_refresh w).

(** The planning branch of the source; [None] when the run returns from
    inside it. *)
Definition planRun (fuel : nat) : M (option Plan.t) :=
  match syncSource cfg with
  | camera => planCamera fuel
  | folder =>
      loc <- planFolder ;;
      ret (Some loc)
  end.

Definition runBody (fuel : nat) : M unit :=
  planned' <- planRun fuel ;;
  match planned' with
  | None => ret tt
  | Some loc => afterPlanning fuel loc
  end.

End Run.

(** [runSync].  The checks before the run, then the [try] block with its
    [catch] and [finally]. *)
Definition runSync (cfg : Config) (fuel : nat) : M unit :=
  if syncRunning cfg then ret tt
  else
    match selectedRoot cfg with
    | None =>
        setSyncProgress
          (fun _ => Patch.errorProgress "Choose a destination root before syncing.")
    | Some rootId =>
        if negb (uploadEnabled cfg) then
          setSyncProgress
            (fun _ => Patch.errorProgress "Uploads are disabled on the server.")
        else if SyncSource_eqb (syncSource cfg) folder
                && String.eqb (localFolderUri cfg) "" then
          setSyncProgress
            (fun _ => Patch.errorProgress "Pick a local folder to sync first.")
        else
          setSyncRunning true ;;
          setSyncProgress (fun _ => Patch.planningStart) ;;
          tryFinally
            (tryCatch (runBody cfg rootId fuel)
               (fun message =>
                  setSyncProgress
                    (Patch.failedWith (toErrorMessage message "Sync failed."))))
            (setSyncRunning false)
    end.

(** The state in which a run starts. *)
Definition initialState : MState :=
  {| clock := 0; trace := []; running := false; progress := syncProgressBase |}.

(** The state in which the [try] block of a run that passed the checks
    is entered. *)
Definition started (st : MState) : MState :=
  {| clock := clock st; trace := trace st; running := true;
     progress := Patch.planningStart |}.

(** The checks before the run all pass, with [root] selected. *)
Definition validated (cfg : Config) (root : string) : Prop :=
  syncRunning cfg = false /\
  selectedRoot cfg = Some root /\
  uploadEnabled cfg = true /\
  (SyncSource_eqb (syncSource cfg) folder && String.eqb (localFolderUri cfg) "")
  = false.

End Engine.

(* ================================================================== *)
(** ** Vocabulary of the properties *)

(** What [applyStatusItem] does to the plan, in the three ways it can end. *)
Inductive Verdict (loc : Plan.t) : Plan.t -> Prop :=
| VerdictPlanned (c' : UploadCandidate) (rawOffset : jsnum) (overwrite' : bool) :
    Verdict loc (addReadyCandidate loc c' rawOffset overwrite')
| VerdictSkipped : Verdict loc (Plan.addSkipped loc)
| VerdictFailed : Verdict loc (Plan.addFailed 1 loc).

(** The number of slots without an entry among the [count] slots from
    [index] on. *)
Fixpoint emptySlots (count index : nat) (statusItems : list (option StatusEntry))
  : Z :=
  match count with
  | O => 0
  | S count' =>
      (match nth index statusItems None with None => 1 | Some _ => 0 end)
      + emptySlots count' (S index) statusItems
  end.

(** [steps P m]: whatever [m] does, the clock does not go back and the
    interactions it adds to the trace all satisfy [P]. *)
Definition steps {A : Type} (P : Event -> Prop) (m : M A) : Prop :=
  forall st,
    (clock st <= clock (snd (m st)))%nat /\
    exists evs, trace (snd (m st)) = (trace st ++ evs)%list /\ Forall P evs.

(** [keeps R m]: the state after [m] is related by [R] to the state
    before it. *)
Definition keeps {A : Type} (R : MState -> MState -> Prop) (m : M A) : Prop :=
  forall st, R st (snd (m st)).

(** The failed counter of the progress is the same in both states. *)
Definition sameFailed (st st' : MState) : Prop :=
  failed (progress st') = failed (progress st).

(** In its answers to the requests of [candidate] the server never
    reports an offset beyond the size of the file: neither when it accepts
    a chunk of the file that ends within the file, nor when it is asked
    for the status of the file.  What it answers to the requests of
    another file plays no part. *)
Definition serverWithinSize (StringToNumber : string -> jsnum) (w : World)
  (cfg : Config) (rootId : string) (candidate : UploadCandidate) : Prop :=
  (forall t offset n v s,
      offset + Z.of_nat n <= size candidate ->
      w_chunk w t (chunkUrlAt cfg rootId candidate offset) n = ChunkOk v ->
      ToNumber StringToNumber (jsOr v (JNum 0)) = Num s -> s <= size candidate) /\
  (forall t data s,
      w_status w t (recoverUrl cfg rootId candidate) = ApiOk data ->
      offsetOfField StringToNumber (d_offset data) = Num s -> s <= size candidate).

(** A read never returns more bytes than were asked for. *)
Definition readsWithinCount (w : World) : Prop :=
  forall t uri offset count n,
    0 <= count ->
    w_readBytes w t uri offset count = HostOk n -> Z.of_nat n <= count.

(** The events the planning of a run may add when the effective policy is
    [overwrite]: the folder scan, and batch requests that carry
    [overwrite] on every item. *)
Definition overwritePlanningEvent (ev : Event) : Prop :=
  match ev with
  | EvScan _ => True
  | EvStatusBatch _ items => forallb payloadOverwrite items = true
  | _ => False
  end.

Definition notDelete (ev : Event) : Prop :=
  match ev with
  | EvDelete _ _ => False
  | _ => True
  end.

(** A delete request that spares every path of [targets]. *)
Definition deleteSpares (targets : list string) (ev : Event) : Prop :=
  match ev with
  | EvDelete _ paths => forall p, In p paths -> ~ In p targets
  | _ => True
  end.

(* ================================================================== *)
(** ** Scenarios

    Concrete servers, folders and settings on which the engine is run. *)

Module Scenario.

(** No scenario coerces a string to a number, so any StringToNumber will
    do for them. *)
Definition noStrings (s : string) : jsnum := NaN.

(** A world that never cancels, reads every chunk in full and opens every
    file, with the given answers of the server, the given folder and the
    given remote listing. *)
Definition world
  (statusBatch : nat -> string -> list StatusPayload ->
                 ApiResult (option (list StatusEntry)))
  (status : nat -> StatusQuery -> ApiResult StatusData)
  (chunk : nat -> ChunkQuery -> nat -> ChunkResult)
  (localFolder : list FsEntry) (listing : list ListItem) : World :=
  {| w_cancelAt := None;
     w_statusBatch := statusBatch;
     w_status := status;
     w_chunk := chunk;
     w_open := fun _ _ => HostOk tt;
     w_readBytes := fun _ _ _ count => HostOk (Z.to_nat count);
     w_list := fun _ _ _ offset =>
                 if offset =? 0 then ApiOk (Some listing) else ApiOk (Some []);
     w_delete := fun _ _ _ => true;
     w_localFolder := fun _ _ => HostOk (Some localFolder);
     w_requestPermissions := fun _ => HostOk true;
     w_getAssets := fun _ _ _ => HostOk (mkAssetPage [] false "");
     w_getAssetInfo := fun _ _ => HostThrows "asset not found";
     w_fileSize := fun _ _ => HostOk (JNum 0);
     w_now := fun _ => 1700000000000;
     w_localYear := fun _ => 2023;
     w_localMonth := fun _ => 10;
     w_toISOString := fun _ => HostOk "2023-11-14T22:13:20.000Z";
     w_refresh := fun _ => HostOk tt |}.

Definition settings (mirror : bool) (policy : SyncConflictPolicy) : Config :=
  {| syncRunning := false;
     selectedRoot := Some "root1";
     serverUploadEnabled := JUndefined;
     serverChunkBytes := JUndefined;
     syncSource := folder;
     localFolderUri := "file:///sdcard/DCIM";
     mirrorRemote := mirror;
     conflictPolicy := policy;
     syncPath := "/photos/";
     includeVideos := false |}.

Definition fileA : LocalFolderFile :=
  mkLocalFile "file:///sdcard/DCIM/a.jpg" "a.jpg" "a.jpg" 10.
Definition fileB : LocalFolderFile :=
  mkLocalFile "file:///sdcard/DCIM/b.jpg" "b.jpg" "b.jpg" 7.

(** A folder with the two files. *)
Definition twoFiles : list FsEntry :=
  [FsFile "a.jpg" "file:///sdcard/DCIM/a.jpg" (JNum 10);
   FsFile "b.jpg" "file:///sdcard/DCIM/b.jpg" (JNum 7)].

(** A folder with sub-directories, one of which cannot be listed, and a
    file whose size is not a number. *)
Definition nestedFolder : list FsEntry :=
  [FsFile "a.jpg" "file:///sdcard/DCIM/a.jpg" (JNum 10);
   FsDirectory "2023"
     (Some [FsFile "x.jpg" "file:///sdcard/DCIM/2023/x.jpg" (JNum 3);
            FsDirectory "raw"
              (Some [FsFile "y.dng" "file:///sdcard/DCIM/2023/raw/y.dng" JNull])]);
   FsOther;
   FsFile "b.jpg" "file:///sdcard/DCIM/b.jpg" (JNum 7);
   FsDirectory "locked" None;
   FsDirectory "2024"
     (Some [FsFile "z.jpg" "file:///sdcard/DCIM/2024/z.jpg" (JStr "large")])].

(** The candidate of [fileA]. *)
Definition photoA : UploadCandidate :=
  mkCandidate folder "a.jpg" "file:///sdcard/DCIM/a.jpg" 10 0 "photos/a.jpg"
    "" "" false.

Definition entry (index : jsval) (status : string) (offset : Z) : StatusEntry :=
  mkEntry index (JStr status) JUndefined JUndefined (JNum offset).

Definition noStatus : nat -> StatusQuery -> ApiResult StatusData :=
  fun _ _ => ApiError (JStr "unavailable") JUndefined.

Definition acceptChunk : nat -> ChunkQuery -> nat -> ChunkResult :=
  fun _ q n => ChunkOk (JNum (cq_offset q + Z.of_nat n)).

Definition answer (items : list StatusEntry)
  : nat -> string -> list StatusPayload -> ApiResult (option (list StatusEntry)) :=
  fun _ _ _ => ApiOk (Some items).

(** The server reports [ready] with the whole file already there. *)
Definition readyAtFullOffset : World :=
  world (answer [entry (JNum 0) "ready" 10]) noStatus acceptChunk twoFiles [].

(** The server reports [exists] although the policy is [overwrite]. *)
Definition existsAnyway : World :=
  world (answer [entry (JNum 0) "exists" 0]) noStatus acceptChunk twoFiles [].

(** The server answers with a null index. *)
Definition nullIndex : World :=
  world (answer [entry JNull "ready" 0]) noStatus acceptChunk twoFiles [].

(** Both files are ready and every chunk is refused with a server error. *)
Definition failingChunks : World :=
  world (answer [entry (JNum 0) "ready" 0; entry (JNum 1) "ready" 0]) noStatus
    (fun _ _ _ => ChunkError (JStr "server_error") (JStr "disk full"))
    twoFiles [].

(** The server accepts the chunk and reports an offset beyond the size. *)
Definition overshoot : World :=
  world (answer [entry (JNum 0) "ready" 0]) noStatus
    (fun _ _ _ => ChunkOk (JNum 15)) twoFiles [].

(** The server always reports the ten bytes of [photoA]. *)
Definition steady : World :=
  world (answer [entry (JNum 0) "ready" 0]) noStatus
    (fun _ _ _ => ChunkOk (JNum 10)) twoFiles [].

(** The first chunk is refused for an offset mismatch and the server then
    reports that it holds four bytes. *)
Definition mismatchThenAccept : World :=
  world (answer [entry (JNum 0) "ready" 0])
    (fun _ _ => ApiOk (mkStatusData (JStr "ready") (JNum 4)))
    (fun _ q n => if cq_offset q =? 0
                  then ChunkError (JStr "offset_mismatch") JUndefined
                  else ChunkOk (JNum (cq_offset q + Z.of_nat n)))
    twoFiles [].

(** The status check answers nothing, so both files are counted failed;
    the remote folder holds both of them and a third file. *)
Definition remoteFile (path : string) : ListItem :=
  mkListItem (JStr path) (JStr "root1") (JBool false).

Definition nothingResolved : World :=
  world (fun _ _ _ => ApiOk None) noStatus acceptChunk twoFiles
    [remoteFile "photos/a.jpg"; remoteFile "photos/b.jpg";
     remoteFile "photos/old.jpg"].

(** The first name is taken on the server and every other name is free. *)
Definition firstNameTaken : World :=
  world (answer [entry (JNum 0) "exists" 0])
    (fun _ q =>
       match sq_payload q with
       | FolderStatus "photos/a (1).jpg" _ _ => ApiError (JStr "exists") JUndefined
       | _ => ApiOk (mkStatusData (JStr "ready") JUndefined)
       end)
    acceptChunk twoFiles [].

(** The candidate of [fileB]. *)
Definition photoB : UploadCandidate :=
  mkCandidate folder "b.jpg" "file:///sdcard/DCIM/b.jpg" 7 0 "photos/b.jpg"
    "" "" false.

(** Both files are ready, and the server acknowledges every chunk with the
    offset at which the chunk ends. *)
Definition honest : World :=
  world (answer [entry (JNum 0) "ready" 0; entry (JNum 1) "ready" 0]) noStatus
    acceptChunk twoFiles [].

(** A folder with a file whose size is negative, which the walker counts
    and rejects; the server holds the first file completely, and the
    remote folder holds both files. *)
Definition rejectedFolder : list FsEntry :=
  [FsFile "a.jpg" "file:///sdcard/DCIM/a.jpg" (JNum 10);
   FsFile "z.jpg" "file:///sdcard/DCIM/z.jpg" (JNum (-1))].

Definition rejectedRemote : World :=
  world (answer [entry (JNum 0) "complete" 0]) noStatus acceptChunk rejectedFolder
    [remoteFile "photos/a.jpg"; remoteFile "photos/z.jpg"].

End Scenario.

(* ================================================================== *)
(** ** Further vocabulary *)

(** A decimal digit. *)
Definition isDigit (a : ascii) : bool :=
  let n := nat_of_ascii a in (48 <=? n)%nat && (n <=? 57)%nat.

Fixpoint allDigits (s : string) : bool :=
  match s with
  | EmptyString => true
  | String a s' => isDigit a && allDigits s'
  end.

(** [post Q m]: whenever [m] returns, what it returns satisfies [Q]. *)
Definition post {A : Type} (Q : A -> Prop) (m : M A) : Prop :=
  forall st, match fst (m st) with Returned a => Q a | _ => True end.

(** What a run with the settings [cfg] and the root [rootId] can ask of
    the outside, one interaction at a time: which interactions belong to
    which source and mode, to which root the requests go, and the bounds
    on what a request carries.  A chunk request carries the bytes that
    the read before it returned, so its size is bounded when the reads of
    [w] return no more than they are asked for. *)
Definition runEvent (StringToNumber : string -> jsnum) (w : World) (cfg : Config)
  (rootId : string) (ev : Event) : Prop :=
  match ev with
  | EvScan uri => syncSource cfg = folder /\ uri = localFolderUri cfg
  | EvPermission | EvGetAssetInfo _ | EvFileSize _ | EvNow =>
      syncSource cfg = camera
  | EvGetAssets _ videos => syncSource cfg = camera /\ videos = includeVideos cfg
  | EvStatusBatch root items =>
      root = rootId /\
      (1 <= List.length items <= STATUS_BATCH_SIZE)%nat /\
      forallb (fun item => Bool.eqb (payloadOverwrite item) (overwriteUploads cfg))
        items = true
  | EvStatus q => sq_root q = rootId
  | EvOpen _ | EvClose _ | EvRefresh => True
  | EvRead _ offset count =>
      0 <= offset /\ 1 <= count <= chunkBytes StringToNumber cfg
  | EvChunk q bytes =>
      cq_root q = rootId /\ 0 <= cq_offset q /\ (1 <= bytes)%nat /\
      (readsWithinCount w -> Z.of_nat bytes <= chunkBytes StringToNumber cfg)
  | EvList root _ offset =>
      syncSource cfg = folder /\ mirrorRemote cfg = true /\
      root = rootId /\ 0 <= offset
  | EvDelete root paths =>
      syncSource cfg = folder /\ mirrorRemote cfg = true /\
      root = rootId /\ (1 <= List.length paths <= DELETE_BATCH_SIZE)%nat
  end.

(** A batch status request with between one and [limit] items. *)
Definition statusBatchWithin (limit : nat) (ev : Event) : Prop :=
  match ev with
  | EvStatusBatch _ items => (1 <= List.length items <= limit)%nat
  | _ => True
  end.

(** A delete request with between one and [limit] paths. *)
Definition deleteBatchWithin (limit : nat) (ev : Event) : Prop :=
  match ev with
  | EvDelete _ paths => (1 <= List.length paths <= limit)%nat
  | _ => True
  end.

(** A read of between one and [limit] bytes at an offset that is not
    negative, and a chunk request that carries between one and [limit]
    bytes for an offset that is not negative. *)
Definition chunkWithin (limit : Z) (ev : Event) : Prop :=
  match ev with
  | EvRead _ offset count => 0 <= offset /\ 1 <= count <= limit
  | EvChunk q bytes => 0 <= cq_offset q /\ 1 <= Z.of_nat bytes <= limit
  | _ => True
  end.

(** Neither a remote listing nor a delete request. *)
Definition notMirrorEvent (ev : Event) : Prop :=
  match ev with
  | EvList _ _ _ | EvDelete _ _ => False
  | _ => True
  end.

(** The root a request to the server names. *)
Definition requestRoot (ev : Event) : option string :=
  match ev with
  | EvStatusBatch root _ | EvList root _ _ | EvDelete root _ => Some root
  | EvStatus q => Some (sq_root q)
  | EvChunk q _ => Some (cq_root q)
  | _ => None
  end.

(** The events of a run that is allowed to go on with the root [rootId],
    and of a run that is refused. *)
Definition eventsOf (StringToNumber : string -> jsnum) (w : World) (cfg : Config)
  (ev : Event) : Prop :=
  match selectedRoot cfg with
  | Some rootId => runEvent StringToNumber w cfg rootId ev
  | None => False
  end.

(** [runs P Q m]: the interactions of [m] satisfy [P] and what it returns
    satisfies [Q]. *)
Definition runs {A : Type} (P : Event -> Prop) (Q : A -> Prop) (m : M A) : Prop :=
  steps P m /\ post Q m.

(** A request that names the selected root of [cfg]. *)
Definition toSelectedRoot (cfg : Config) (ev : Event) : Prop :=
  match requestRoot ev with
  | Some root => selectedRoot cfg = Some root
  | None => True
  end.

Module Scenario2.

Import Scenario.

(** A folder of [n] files [f0.jpg], [f1.jpg], ... of five bytes each. *)
Definition numbered (n : nat) : list FsEntry :=
  map (fun i => FsFile ("f" ++ Js.stringOfInt (Z.of_nat i) ++ ".jpg")
                  ("file:///sdcard/DCIM/f" ++ Js.stringOfInt (Z.of_nat i) ++ ".jpg")
                  (JNum 5))
      (seq 0 n).

(** The remote files [old0.jpg], [old1.jpg], ... below [photos]. *)
Definition leftovers (n : nat) : list ListItem :=
  map (fun i => remoteFile ("photos/old" ++ Js.stringOfInt (Z.of_nat i) ++ ".jpg"))
      (seq 0 n).

(** Every file is already complete on the server, the local folder holds
    [files] files and the remote one [remote] files that are not local. *)
Definition allComplete (files remote : nat) : World :=
  world (fun _ _ items =>
           ApiOk (Some (map (fun i => entry (JNum (Z.of_nat i)) "complete" 0)
                          (seq 0 (List.length items)))))
    noStatus acceptChunk (numbered files) (leftovers remote).

(** The sizes of the batch requests and of the delete requests of a trace. *)
Definition batchSizes (events : list Event) : list nat :=
  flat_map (fun ev => match ev with
                      | EvStatusBatch _ items => [List.length items]
                      | _ => []
                      end) events.

Definition deleteSizes (events : list Event) : list nat :=
  flat_map (fun ev => match ev with
                      | EvDelete _ paths => [List.length paths]
                      | _ => []
                      end) events.

(** The world [w] with the cancel button pressed when the clock reaches [k]. *)
Definition cancelAt (k : nat) (w : World) : World :=
  {| w_cancelAt := Some k;
     w_statusBatch := w_statusBatch w;
     w_status := w_status w;
     w_chunk := w_chunk w;
     w_open := w_open w;
     w_readBytes := w_readBytes w;
     w_list := w_list w;
     w_delete := w_delete w;
     w_localFolder := w_localFolder w;
     w_requestPermissions := w_requestPermissions w;
     w_getAssets := w_getAssets w;
     w_getAssetInfo := w_getAssetInfo w;
     w_fileSize := w_fileSize w;
     w_now := w_now w;
     w_localYear := w_localYear w;
     w_localMonth := w_localMonth w;
     w_toISOString := w_toISOString w;
     w_refresh := w_refresh w |}.

(** The nested folder, with a server that takes the first file from the
    start and holds the second one already. *)
Definition lockedFolder : World :=
  world (answer [entry (JNum 0) "ready" 0; entry (JNum 1) "complete" 0])
    noStatus acceptChunk nestedFolder [].

Definition lockedRun : Outcome unit * MState :=
  runSync noStrings lockedFolder (settings false skip) 10 initialState.

End Scenario2.

(** The interactions of the loop over the chunks of a file: a read, a
    chunk request, or the status request that recovers an offset. *)
Definition chunkTurnEvent (ev : Event) : Prop :=
  match ev with
  | EvRead _ _ _ | EvChunk _ _ | EvStatus _ => True
  | _ => False
  end.

(** A world in which nobody cancels, every file opens, every read of at
    least one byte gives at least one byte, every chunk is accepted with an offset that is a
    number or absent, and the final refresh succeeds. *)
Definition accepting (StringToNumber : string -> jsnum) (w : World) : Prop :=
  w_cancelAt w = None /\
  (forall t uri, w_open w t uri = HostOk tt) /\
  (forall t uri offset count,
      1 <= count -> exists n, w_readBytes w t uri offset count = HostOk (S n)) /\
  (forall t q n, exists v z,
      w_chunk w t q n = ChunkOk v /\
      ToNumber StringToNumber (jsOr v (JNum 0)) = Num z) /\
  (forall t, w_refresh w t = HostOk tt).

(** [sameView view st st']: the progress of [st'] looks the same as the
    progress of [st] through [view]. *)
Definition sameView {T : Type} (view : SyncProgress -> T) (st st' : MState) : Prop :=
  view (progress st') = view (progress st).

(** The counters that planning computes. *)
Definition planView (p : SyncProgress) : Z * Z * Z * Z * Z :=
  (discovered p, planned p, skipped p, failed p, plannedBytes p).

(** How the progress of a run that came back looks: done or cancelled
    without an error text, or the error stage with an error text. *)
Definition settled (p : SyncProgress) : Prop :=
  ((stage p = done \/ stage p = cancelled) /\ error_ p = "") \/
  (stage p = error /\ error_ p <> "").

(** The files and the directories that cannot be listed in the part of a
    tree that the walker reaches. *)
Fixpoint entryFileCount (entry : FsEntry) : nat :=
  match entry with
  | FsFile _ _ _ => 1
  | FsDirectory _ (Some entries) => list_sum (map entryFileCount entries)
  | _ => 0
  end.

Fixpoint entryLockedCount (entry : FsEntry) : nat :=
  match entry with
  | FsDirectory _ None => 1
  | FsDirectory _ (Some entries) => list_sum (map entryLockedCount entries)
  | _ => 0
  end.

Definition listingFileCount (listing : option (list FsEntry)) : nat :=
  match listing with
  | Some entries => list_sum (map entryFileCount entries)
  | None => 0
  end.

Definition listingLockedCount (listing : option (list FsEntry)) : nat :=
  match listing with
  | Some entries => list_sum (map entryLockedCount entries)
  | None => 1
  end.

Definition stackFileCount (stack : WalkStack) : nat :=
  list_sum (map (fun item => listingFileCount (fst item)) stack).

Definition stackLockedCount (stack : WalkStack) : nat :=
  list_sum (map (fun item => listingLockedCount (fst item)) stack).

(** The files that a scan has seen and not returned. *)
Definition scanRejected (scan : FolderScan) : Z :=
  scan_discovered scan - Z.of_nat (List.length (scan_files scan)).

(** The candidates of a plan that have a verdict: planned, skipped or
    failed. *)
Definition resolvedCount (loc : Plan.t) : Z :=
  Z.of_nat (List.length (Plan.candidates loc)) + Plan.skipped loc + Plan.failed loc.

(** The bytes that remain to be sent for a list of candidates. *)
Definition bytesLeft (candidates : list UploadCandidate) : Z :=
  fold_right (fun candidate rest =>
                Z.max 0 (size candidate - initialOffset candidate) + rest)
    0 candidates.

(** The byte count of a plan is what remains to be sent for its
    candidates, and every candidate starts at an offset inside its file. *)
Definition wellPlanned (loc : Plan.t) : Prop :=
  Plan.plannedBytes loc = bytesLeft (Plan.candidates loc) /\
  Forall (fun candidate =>
            0 <= initialOffset candidate /\
            (0 <= size candidate -> initialOffset candidate <= size candidate))
    (Plan.candidates loc).

(** The counters of a plan, as [planView] shows them in the progress. *)
Definition planCounters (loc : Plan.t) : Z * Z * Z * Z * Z :=
  (Plan.discovered loc, Z.of_nat (List.length (Plan.candidates loc)),
   Plan.skipped loc, Plan.failed loc, Plan.plannedBytes loc).

(** The paths that the delete requests of a trace name. *)
Definition deletedPaths (events : list Event) : list string :=
  flat_map (fun ev => match ev with
                      | EvDelete _ paths => paths
                      | _ => []
                      end) events.

(** An answer of the server to a list request of the root showed [path]
    as an item with a path and a root that is not a directory. *)
Definition listedAsFile (w : World) (rootId path : string) : Prop :=
  exists t currentPath offset items item,
    w_list w t rootId currentPath offset = ApiOk (Some items) /\
    In item items /\
    truthy (li_path item) = true /\
    truthy (li_rootId item) = true /\
    truthy (li_isDir item) = false /\
    ToString (li_path item) = path.

(** [traces T m]: the interactions that [m] adds to the trace satisfy [T]
    as a whole. *)
Definition traces {A : Type} (T : list Event -> Prop) (m : M A) : Prop :=
  forall st,
    exists events, trace (snd (m st)) = (trace st ++ events)%list /\ T events.

(** No delete request at all. *)
Definition quiet (events : list Event) : Prop := deletedPaths events = [].

(** Delete requests for files that the server listed, each at most once. *)
Definition pruned (w : World) (rootId : string) (events : list Event) : Prop :=
  NoDup (deletedPaths events) /\
  forall path, In path (deletedPaths events) -> listedAsFile w rootId path.

(* ================================================================== *)
(** ** URLs *)

(** [URLSearchParams], as [src/lib/apiClient.ts] uses it.  A string stands
    for the bytes of its UTF-8 encoding, which is what the serializer
    works on. *)
Module Url.

(** The bytes that the [application/x-www-form-urlencoded] serializer
    leaves as they are: the ASCII letters and digits, [*], [-], [.] and
    [_]. *)
Definition isPlain (c : ascii) : bool :=
  let n := nat_of_ascii c in
  ((48 <=? n)%nat && (n <=? 57)%nat) || ((65 <=? n)%nat && (n <=? 90)%nat)
  || ((97 <=? n)%nat && (n <=? 122)%nat)
  || (n =? 42)%nat || (n =? 45)%nat || (n =? 46)%nat || (n =? 95)%nat.

Definition hexDigit (n : nat) : ascii :=
  match String.get n "0123456789ABCDEF" with
  | Some c => c
  | None => "0"%char
  end.

Definition percentEncode (c : ascii) : string :=
  let n := nat_of_ascii c in
  String "%" (String (hexDigit (n / 16)) (String (hexDigit (n mod 16)) "")).

Definition serializeByte (c : ascii) : string :=
  if Ascii.eqb c " " then "+"
  else if isPlain c then String c ""
  else percentEncode c.

Fixpoint serializeBytes (s : string) : string :=
  match s with
  | EmptyString => ""
  | String c rest => serializeByte c ++ serializeBytes rest
  end.

(** [search.toString()]. *)
Definition serialize (search : list (string * string)) : string :=
  Js.join "&"
    (map (fun pair => serializeBytes (fst pair) ++ "=" ++ serializeBytes (snd pair))
       search).

(** [search.append(name, value)]. *)
Definition append (name value : string) (search : list (string * string))
  : list (string * string) :=
  (search ++ [(name, value)])%list.

(** [search.set(name, value)]: the first pair of that name takes the
    value and the other ones go; without such a pair the pair is
    appended. *)
Fixpoint set (name value : string) (search : list (string * string))
  : list (string * string) :=
  match search with
  | [] => [(name, value)]
  | (name', value') :: rest =>
      if String.eqb name' name then
        (name, value) :: filter (fun pair => negb (String.eqb (fst pair) name)) rest
      else (name', value') :: set name value rest
  end.

Definition hexValue (c : ascii) : option nat :=
  let n := nat_of_ascii c in
  if (48 <=? n)%nat && (n <=? 57)%nat then Some (n - 48)%nat
  else if (65 <=? n)%nat && (n <=? 70)%nat then Some (n - 55)%nat
  else if (97 <=? n)%nat && (n <=? 102)%nat then Some (n - 87)%nat
  else None.

Fixpoint percentDecode (s : string) : string :=
  match s with
  | EmptyString => ""
  | String c rest =>
      if Ascii.eqb c "%" then
        match rest with
        | String high (String low rest') =>
            match hexValue high, hexValue low with
            | Some a, Some b =>
                String (ascii_of_nat (16 * a + b)) (percentDecode rest')
            | _, _ => String c (percentDecode rest)
            end
        | _ => String c (percentDecode rest)
        end
      else String c (percentDecode rest)
  end.

Definition decode (s : string) : string :=
  percentDecode (Js.replaceAllChar "+" " " s).

(** The name up to the first [c] and the value after it; the value is
    empty without a [c]. *)
Fixpoint cut (c : ascii) (s : string) : string * string :=
  match s with
  | EmptyString => ("", "")
  | String a rest =>
      if Ascii.eqb a c then ("", rest)
      else let (name, value) := cut c rest in (String a name, value)
  end.

(** [new URLSearchParams(input)] for a string. *)
Definition parse (input : string) : list (string * string) :=
  let query := match input with
               | String "?" rest => rest
               | _ => input
               end in
  flat_map (fun bytes =>
              if String.eqb bytes "" then []
              else let (name, value) := cut "=" bytes in
                   [(decode name, decode value)])
    (Js.split "&" query).

(** The first value of a name: [search.get(name)]. *)
Fixpoint get (name : string) (search : list (string * string)) : option string :=
  match search with
  | [] => None
  | (name', value) :: rest =>
      if String.eqb name' name then Some value else get name rest
  end.

End Url.

(** The value of a parameter: a scalar or an array of scalars. *)
Inductive ParamValue : Type :=
| ParamScalar (value : jsval)
| ParamArray (entries : list jsval).

(** [value === undefined || value === null || value === ''] *)
Definition isBlank (value : jsval) : bool :=
  match value with
  | JUndefined | JNull => true
  | JStr s => String.eqb s ""
  | _ => false
  end.

(** The [URLSearchParams] that [buildQuery] fills from
    [Object.entries(params)]. *)
Definition buildSearch (params : list (string * ParamValue))
  : list (string * string) :=
  fold_left
    (fun search entry =>
       match snd entry with
       | ParamScalar value =>
           if isBlank value then search
           else Url.set (fst entry) (ToString value) search
       | ParamArray entries =>
           fold_left
             (fun search' value =>
                if isBlank value then search'
                else Url.append (fst entry) (ToString value) search')
             entries search
       end)
    params [].

Definition buildQuery (params : list (string * ParamValue)) : string :=
  let query := Url.serialize (buildSearch params) in
  if String.eqb query "" then "" else "?" ++ query.

(** The ASCII lower-case letter of an upper-case one. *)
Definition lowerCase (c : ascii) : ascii :=
  let n := nat_of_ascii c in
  if (65 <=? n)%nat && (n <=? 90)%nat then ascii_of_nat (n + 32) else c.

(** [prefix] in lower case is at the start of [s], whatever the case of
    the letters of [s]. *)
Fixpoint startsWithNoCase (prefix s : string) : bool :=
  match prefix, s with
  | EmptyString, _ => true
  | String p prefix', String c s' =>
      Ascii.eqb (lowerCase c) p && startsWithNoCase prefix' s'
  | String _ _, EmptyString => false
  end.

(** [/^https?:\/\//i.test(value)] *)
Definition isAbsoluteUrl (value : string) : bool :=
  startsWithNoCase "http://" value || startsWithNoCase "https://" value.

(** [s.replace(/\/$/, '')] *)
Fixpoint stripTrailingSlash (s : string) : string :=
  match s with
  | EmptyString => ""
  | String c EmptyString => if Ascii.eqb c slash then "" else s
  | String c rest => String c (stripTrailingSlash rest)
  end.

(** [path.startsWith('/')] *)
Definition startsWithSlash (path : string) : bool :=
  match path with
  | String c _ => Ascii.eqb c slash
  | EmptyString => false
  end.

Definition buildUrl (path : string) (params : option (list (string * ParamValue)))
  (baseUrl : string) : string :=
  let normalizedBase := stripTrailingSlash baseUrl in
  let resolvedPath :=
    if isAbsoluteUrl path then path
    else normalizedBase ++ (if startsWithSlash path then "" else "/") ++ path in
  match params with
  | Some params' => resolvedPath ++ buildQuery params'
  | None => resolvedPath
  end.

(** The parameters of a status request, of a chunk request and of a list
    request, in the order in which the object literals give them. *)
Definition payloadParams (rootId : string) (payload : StatusPayload)
  (offset : option Z) : list (string * ParamValue) :=
  let offsetParam := match offset with
                     | Some z => [("offset", ParamScalar (JNum z))]
                     | None => []
                     end in
  match payload with
  | CameraStatus path file size' overwrite' cameraMonth capturedAt =>
      [("root", ParamScalar (JStr rootId));
       ("path", ParamScalar (JStr path));
       ("file", ParamScalar (JStr file));
       ("size", ParamScalar (JNum size'))]
      ++ offsetParam ++
      [("overwrite", ParamScalar (JNum (if overwrite' then 1 else 0)));
       ("camera", ParamScalar (JNum 1));
       ("cameraMonth", ParamScalar (JStr cameraMonth));
       ("capturedAt", ParamScalar (JStr capturedAt))]
  | FolderStatus target size' overwrite' =>
      [("root", ParamScalar (JStr rootId));
       ("target", ParamScalar (JStr target));
       ("size", ParamScalar (JNum size'))]
      ++ offsetParam ++
      [("overwrite", ParamScalar (JNum (if overwrite' then 1 else 0)))]
  end%list.

(** The text of the URL that [makeStatusUrl] and [makeChunkUrl] return
    for a query, and the one that [fetchRemoteFilesForMirror] builds. *)
Definition statusUrlText (baseUrl : string) (query : StatusQuery) : string :=
  buildUrl "/api/upload/status"
    (Some (payloadParams (sq_root query) (sq_payload query) None)) baseUrl.

Definition chunkUrlText (baseUrl : string) (query : ChunkQuery) : string :=
  buildUrl "/api/upload/chunk"
    (Some (payloadParams (cq_root query) (cq_payload query) (Some (cq_offset query))))
    baseUrl.

Definition listUrlText (baseUrl rootId currentPath : string) (offset : Z) : string :=
  buildUrl "/api/list"
    (Some [("root", ParamScalar (JStr rootId));
           ("path", ParamScalar (JStr currentPath));
           ("limit", ParamScalar (JNum LIST_PAGE_SIZE));
           ("offset", ParamScalar (JNum offset));
           ("includeTotal", ParamScalar (JBool false))])
    baseUrl.

(** The pairs that the entries of [params] stand for: nothing for a blank
    value, one pair for a scalar and one pair for each entry of an array
    that is not blank. *)
Definition keptPairs (params : list (string * ParamValue)) : list (string * string) :=
  flat_map
    (fun entry =>
       match snd entry with
       | ParamScalar value =>
           if isBlank value then [] else [(fst entry, ToString value)]
       | ParamArray entries =>
           map (fun value => (fst entry, ToString value))
             (filter (fun value => negb (isBlank value)) entries)
       end)
    params.

(* ================================================================== *)
(** ** Responses *)

(** What [response.json()] gives.  Numbers are integers, as everywhere in
    this development; the members of an object are its own properties, in
    any order and with one entry for each name. *)
Unset Elimination Schemes.
Inductive Json : Type :=
| JsonAtom (value : jsval)
| JsonArray (items : list Json)
| JsonObject (members : list (string * Json)).
Set Elimination Schemes.

Definition jsonTruthy (payload : Json) : bool :=
  match payload with
  | JsonAtom value => truthy value
  | JsonArray _ | JsonObject _ => true
  end.

(** [a || b] *)
Definition jsonOr (a b : Json) : Json := if jsonTruthy a then a else b.

Fixpoint lookupMember (name : string) (members : list (string * Json))
  : option Json :=
  match members with
  | [] => None
  | (name', value) :: rest =>
      if String.eqb name' name then Some value else lookupMember name rest
  end.

(** [payload?.name]: undefined for what is not an object and for an
    object without that member. *)
Definition member (name : string) (payload : Json) : Json :=
  match payload with
  | JsonObject members =>
      match lookupMember name members with
      | Some value => value
      | None => JsonAtom JUndefined
      end
  | _ => JsonAtom JUndefined
  end.

(** [payload && typeof payload === 'object' && name in payload] *)
Definition hasMember (name : string) (payload : Json) : bool :=
  match payload with
  | JsonObject members =>
      match lookupMember name members with
      | Some _ => true
      | None => false
      end
  | _ => false
  end.

(** What [fetch] resolves with, as far as the two callers look at it: the
    status, and the body when it parses as JSON. *)
Record HttpResponse : Type := mkResponse {
  http_status : Z;
  http_body : option Json
}.

(** [response.ok] *)
Definition responseOk (response : HttpResponse) : bool :=
  (200 <=? http_status response) && (http_status response <=? 299).

(** [payload] after the [try] around [response.json()]. *)
Definition payloadOf (response : HttpResponse) : Json :=
  match http_body response with
  | Some payload => payload
  | None => JsonAtom JNull
  end.

Definition messageObject (message : string) : Json :=
  JsonObject [("message", JsonAtom (JStr message))].

(** The object that [apiJson] of [src/lib/apiClient.ts] returns. *)
Inductive ApiJsonResult : Type :=
| ApiJsonFailure (status : Z) (error : Json)
| ApiJsonSuccess (status : Z) (data meta : Json).

(** [apiJson], from the outcome of its [fetch] on. *)
Definition apiJson (fetched : HostResult HttpResponse) : ApiJsonResult :=
  match fetched with
  | HostThrows message =>
      ApiJsonFailure 0
        (JsonObject [("message", JsonAtom (JStr "Network error"));
                     ("details", JsonAtom (jsOr (JStr message) JNull))])
  | HostOk response =>
      let payload := payloadOf response in
      if hasMember "ok" payload then
        if negb (jsonTruthy (member "ok" payload)) then
          ApiJsonFailure (http_status response)
            (jsonOr (member "error" payload) (messageObject "Request failed"))
        else
          ApiJsonSuccess (http_status response) (member "data" payload)
            (jsonOr (member "meta" payload) (JsonAtom JNull))
      else if negb (responseOk response) then
        ApiJsonFailure (http_status response)
          (jsonOr (member "error" payload) (messageObject "Request failed"))
      else ApiJsonSuccess (http_status response) payload (JsonAtom JNull)
  end.

(** The object that [postUploadChunk] returns. *)
Inductive ChunkReply : Type :=
| ChunkAccepted (data : Json)
| ChunkRefused (status : Z) (error : Json).

(** [postUploadChunk], from the response of its [fetch] on. *)
Definition postUploadChunk (response : HttpResponse) : ChunkReply :=
  let payload := payloadOf response in
  if jsonTruthy (member "ok" payload) then ChunkAccepted (member "data" payload)
  else
    ChunkRefused (http_status response)
      (jsonOr (member "error" payload) (messageObject "Chunk upload failed")).

(* ================================================================== *)
(** ** Settings *)

Definition CAMERA_SYNC_ROOT_KEY : string := "nnc_camera_sync_root".
Definition CAMERA_SYNC_PATH_KEY : string := "nnc_camera_sync_path".
Definition CAMERA_SYNC_INCLUDE_VIDEOS_KEY : string := "nnc_camera_sync_include_videos".
Definition CAMERA_SYNC_SOURCE_KEY : string := "nnc_camera_sync_source".
Definition CAMERA_SYNC_FOLDER_URI_KEY : string := "nnc_camera_sync_folder_uri".
Definition CAMERA_SYNC_MIRROR_KEY : string := "nnc_camera_sync_mirror".
Definition CAMERA_SYNC_CONFLICT_POLICY_KEY : string := "nnc_camera_sync_conflict_policy".

(** The seven pieces of component state that are kept in the store. *)
Record Settings : Type := mkSettings {
  s_syncRootId : string;
  s_syncPath : string;
  s_includeVideos : bool;
  s_syncSource : SyncSource;
  s_localFolderUri : string;
  s_mirrorRemote : bool;
  s_conflictPolicy : SyncConflictPolicy
}.

(** The initial values of the [useState] calls. *)
Definition initialSettings : Settings :=
  mkSettings "" "" false camera "" false skip.

(** [SecureStore]: [getItemAsync] gives the value of a key or null. *)
Definition Store : Type := string -> option string.

Definition setItem (key value : string) (store : Store) : Store :=
  fun key' => if String.eqb key' key then Some value else store key'.

Definition sourceName (source : SyncSource) : string :=
  match source with
  | camera => "camera"
  | folder => "folder"
  end.

Definition policyName (policy : SyncConflictPolicy) : string :=
  match policy with
  | skip => "skip"
  | overwrite => "overwrite"
  | rename => "rename"
  end.

Definition flagName (value : bool) : string := if value then "1" else "0".

(** [if (saved) set(saved)] *)
Definition savedOr (saved : option string) (current : string) : string :=
  match saved with
  | Some value => if String.eqb value "" then current else value
  | None => current
  end.

(** [if (saved === '1') set(true)] *)
Definition savedFlag (saved : option string) (current : bool) : bool :=
  match saved with
  | Some value => if String.eqb value "1" then true else current
  | None => current
  end.

(** The effect that runs when the screen is mounted, on the state it
    finds. *)
Definition loadSettings (store : Store) (state : Settings) : Settings :=
  {| s_syncRootId := savedOr (store CAMERA_SYNC_ROOT_KEY) (s_syncRootId state);
     s_syncPath := savedOr (store CAMERA_SYNC_PATH_KEY) (s_syncPath state);
     s_includeVideos :=
       savedFlag (store CAMERA_SYNC_INCLUDE_VIDEOS_KEY) (s_includeVideos state);
     s_syncSource :=
       match store CAMERA_SYNC_SOURCE_KEY with
       | Some value =>
           if String.eqb value "folder" then folder else s_syncSource state
       | None => s_syncSource state
       end;
     s_localFolderUri :=
       savedOr (store CAMERA_SYNC_FOLDER_URI_KEY) (s_localFolderUri state);
     s_mirrorRemote := savedFlag (store CAMERA_SYNC_MIRROR_KEY) (s_mirrorRemote state);
     s_conflictPolicy :=
       match store CAMERA_SYNC_CONFLICT_POLICY_KEY with
       | Some value =>
           if String.eqb value "skip" then skip
           else if String.eqb value "overwrite" then overwrite
           else if String.eqb value "rename" then rename
           else s_conflictPolicy state
       | None => s_conflictPolicy state
       end |}.

(** What the user does on the settings card: the handlers [persistRoot],
    [setSyncPath] (typing into the path field), [persistPath] (leaving
    it), [persistIncludeVideos], [persistSyncSource],
    [persistMirrorRemote], [persistConflictPolicy], and [pickSyncFolder]
    with the URI of the directory that was picked. *)
Inductive SettingsAction : Type :=
| PersistRoot (nextRoot : string)
| TypePath (text : string)
| PersistPath
| PersistIncludeVideos (nextValue : bool)
| PersistSyncSource (nextValue : SyncSource)
| PersistMirrorRemote (nextValue : bool)
| PersistConflictPolicy (nextValue : SyncConflictPolicy)
| PickSyncFolder (uri : string).

(** One handler.  The state is set before the store is written;
    [written] says whether [setItemAsync] succeeds. *)
Definition handle (action : SettingsAction) (written : bool)
  (screen : Settings * Store) : Settings * Store :=
  let (state, store) := screen in
  let write key value := if written then setItem key value store else store in
  match action with
  | PersistRoot nextRoot =>
      ({| s_syncRootId := nextRoot;
          s_syncPath := s_syncPath state;
          s_includeVideos := s_includeVideos state;
          s_syncSource := s_syncSource state;
          s_localFolderUri := s_localFolderUri state;
          s_mirrorRemote := s_mirrorRemote state;
          s_conflictPolicy := s_conflictPolicy state |},
       write CAMERA_SYNC_ROOT_KEY nextRoot)
  | TypePath text =>
      ({| s_syncRootId := s_syncRootId state;
          s_syncPath := text;
          s_includeVideos := s_includeVideos state;
          s_syncSource := s_syncSource state;
          s_localFolderUri := s_localFolderUri state;
          s_mirrorRemote := s_mirrorRemote state;
          s_conflictPolicy := s_conflictPolicy state |},
       store)
  | PersistPath => (state, write CAMERA_SYNC_PATH_KEY (Js.trim (s_syncPath state)))
  | PersistIncludeVideos nextValue =>
      ({| s_syncRootId := s_syncRootId state;
          s_syncPath := s_syncPath state;
          s_includeVideos := nextValue;
          s_syncSource := s_syncSource state;
          s_localFolderUri := s_localFolderUri state;
          s_mirrorRemote := s_mirrorRemote state;
          s_conflictPolicy := s_conflictPolicy state |},
       write CAMERA_SYNC_INCLUDE_VIDEOS_KEY (flagName nextValue))
  | PersistSyncSource nextValue =>
      ({| s_syncRootId := s_syncRootId state;
          s_syncPath := s_syncPath state;
          s_includeVideos := s_includeVideos state;
          s_syncSource := nextValue;
          s_localFolderUri := s_localFolderUri state;
          s_mirrorRemote := s_mirrorRemote state;
          s_conflictPolicy := s_conflictPolicy state |},
       write CAMERA_SYNC_SOURCE_KEY (sourceName nextValue))
  | PersistMirrorRemote nextValue =>
      ({| s_syncRootId := s_syncRootId state;
          s_syncPath := s_syncPath state;
          s_includeVideos := s_includeVideos state;
          s_syncSource := s_syncSource state;
          s_localFolderUri := s_localFolderUri state;
          s_mirrorRemote := nextValue;
          s_conflictPolicy := s_conflictPolicy state |},
       write CAMERA_SYNC_MIRROR_KEY (flagName nextValue))
  | PersistConflictPolicy nextValue =>
      ({| s_syncRootId := s_syncRootId state;
          s_syncPath := s_syncPath state;
          s_includeVideos := s_includeVideos state;
          s_syncSource := s_syncSource state;
          s_localFolderUri := s_localFolderUri state;
          s_mirrorRemote := s_mirrorRemote state;
          s_conflictPolicy := nextValue |},
       write CAMERA_SYNC_CONFLICT_POLICY_KEY (policyName nextValue))
  | PickSyncFolder uri =>
      if String.eqb uri "" then screen
      else
        ({| s_syncRootId := s_syncRootId state;
            s_syncPath := s_syncPath state;
            s_includeVideos := s_includeVideos state;
            s_syncSource := s_syncSource state;
            s_localFolderUri := uri;
            s_mirrorRemote := s_mirrorRemote state;
            s_conflictPolicy := s_conflictPolicy state |},
         write CAMERA_SYNC_FOLDER_URI_KEY uri)
  end.

(** The settings without the path, which the screen stores only when the
    field is left. *)
Definition besidesPath (state : Settings)
  : string * bool * SyncSource * string * bool * SyncConflictPolicy :=
  (s_syncRootId state, s_includeVideos state, s_syncSource state,
   s_localFolderUri state, s_mirrorRemote state, s_conflictPolicy state).

(** The two effects on [roots] and [syncRootId], for the identifiers of
    the roots of the server.  Both read the state of the same render, and
    at most one of them does something: the first one chooses the first
    root when none is chosen, the second one replaces a choice that is
    not among the roots and stores the replacement. *)
Definition reconcileRoot (roots : list string) (written : bool)
  (screen : Settings * Store) : Settings * Store :=
  let (state, store) := screen in
  let choose nextRoot :=
    {| s_syncRootId := nextRoot;
       s_syncPath := s_syncPath state;
       s_includeVideos := s_includeVideos state;
       s_syncSource := s_syncSource state;
       s_localFolderUri := s_localFolderUri state;
       s_mirrorRemote := s_mirrorRemote state;
       s_conflictPolicy := s_conflictPolicy state |} in
  match roots with
  | [] => screen
  | first :: _ =>
      if String.eqb (s_syncRootId state) "" then (choose first, store)
      else if negb (existsb (fun id => String.eqb id (s_syncRootId state)) roots) then
        (choose first,
         if written then setItem CAMERA_SYNC_ROOT_KEY first store else store)
      else screen
  end.

(** [roots.find((root) => root.id === syncRootId) || null], as the
    identifier of the root found. *)
Definition selectedRootOf (roots : list string) (state : Settings) : option string :=
  find (fun id => String.eqb id (s_syncRootId state)) roots.

(* ================================================================== *)
(** * Properties *)

Example joinUploadPath_spec_1 :
  joinUploadPath ["a/"; "/b//c"; "."; ""] = "a/b/c".
Proof. reflexivity. Qed.

Example joinUploadPath_spec_2 : joinUploadPath [""; ""] = "".
Proof. reflexivity. Qed.

Example toDelete_spec :
  toDelete ["a"; "b"; "c"] ["b"; "c"; "d"] = ["a"].
Proof. reflexivity. Qed.

Example chunkBytes_default :
  chunkBytes Scenario.noStrings (Scenario.settings false skip) = 2097152.
Proof. reflexivity. Qed.

Example sanitize_1 : sanitizeFileName " a/:b " "x" = "a_b".
Proof. reflexivity. Qed.

Example suffix_1 : addConflictSuffix ".bashrc" 12 = ".bashrc (12)".
Proof. reflexivity. Qed.

Example suffix_2 : addConflictSuffix "a.tar.gz" 3 = "a.tar (3).gz".
Proof. reflexivity. Qed.

Example rename_1 : renameRemoteTarget "/x/y\photo.jpg/" 2 = "x/y/photo (2).jpg".
Proof. reflexivity. Qed.

(* ------------------------------------------------------------------ *)
(** ** Strings *)

Section StringFacts.

Local Open Scope string_scope.

Lemma append_empty_r (s : string) : s ++ "" = s.
Proof. induction s; simpl; congruence. Qed.

Lemma append_assoc (a b c : string) : (a ++ b) ++ c = a ++ (b ++ c).
Proof. induction a; simpl; congruence. Qed.

Lemma length_append (a b : string) :
  String.length (a ++ b) = (String.length a + String.length b)%nat.
Proof. induction a; simpl; congruence. Qed.

Lemma contains_append (p : ascii -> bool) (a b : string) :
  Js.contains p (a ++ b) = Js.contains p a || Js.contains p b.
Proof.
  induction a as [|c a IH]; simpl; [reflexivity|].
  rewrite IH. now rewrite orb_assoc.
Qed.

(** *** split and join *)

Lemma split_not_nil (c : ascii) (s : string) : Js.split c s <> [].
Proof.
  induction s as [|a s IH]; simpl; [discriminate|].
  destruct (Ascii.eqb a c); [discriminate|].
  destruct (Js.split c s); [contradiction|discriminate].
Qed.

Lemma split_without (c : ascii) (s : string) :
  Js.contains (fun a => Ascii.eqb a c) s = false -> Js.split c s = [s].
Proof.
  induction s as [|a s IH]; simpl; [reflexivity|].
  intros H. apply orb_false_iff in H as [Ha Hs].
  rewrite Ha, (IH Hs). reflexivity.
Qed.

Lemma split_append_sep (c : ascii) (x rest : string) :
  Js.contains (fun a => Ascii.eqb a c) x = false ->
  Js.split c (x ++ String c rest) = x :: Js.split c rest.
Proof.
  induction x as [|a x IH]; simpl.
  - intros _. now rewrite Ascii.eqb_refl.
  - intros H. apply orb_false_iff in H as [Ha Hx].
    rewrite Ha, (IH Hx). reflexivity.
Qed.

Lemma split_segments_without (c : ascii) (s seg : string) :
  In seg (Js.split c s) -> Js.contains (fun a => Ascii.eqb a c) seg = false.
Proof.
  revert seg. induction s as [|a s IH]; simpl; intros seg H.
  - destruct H as [<-|[]]. reflexivity.
  - destruct (Ascii.eqb a c) eqn:E.
    + destruct H as [<-|H]; [reflexivity|auto].
    + destruct (Js.split c s) as [|h t] eqn:Es.
      * destruct H as [<-|[]]. simpl. now rewrite E.
      * destruct H as [<-|H].
        -- simpl. rewrite E. apply IH. now left.
        -- apply IH. now right.
Qed.

Lemma split_join (segments : list string) :
  segments <> [] ->
  (forall seg, In seg segments -> Js.contains isSlash seg = false) ->
  Js.split slash (Js.join "/" segments) = segments.
Proof.
  unfold Js.join. induction segments as [|x xs IH]; [congruence|].
  intros _ H. destruct xs as [|y ys].
  - simpl. apply split_without. apply H. now left.
  - change (String.concat "/" (x :: y :: ys))
      with (x ++ String slash (String.concat "/" (y :: ys))).
    rewrite split_append_sep by (apply H; now left).
    f_equal. apply IH; [discriminate|]. intros seg Hs. apply H. now right.
Qed.

End StringFacts.

(* ------------------------------------------------------------------ *)
(** ** Path joining *)

Lemma keptSegment_spec (seg : string) :
  keptSegment seg = true <-> seg <> "" /\ seg <> ".".
Proof.
  unfold keptSegment. rewrite negb_true_iff, orb_false_iff.
  rewrite !String.eqb_neq. tauto.
Qed.

Lemma partSegments_spec (part seg : string) :
  In seg (partSegments part) <->
  In seg (Js.split slash (normalizeUploadPath part)) /\ seg <> "" /\ seg <> ".".
Proof.
  unfold partSegments.
  destruct (String.eqb_spec (normalizeUploadPath part) "") as [E|E].
  - rewrite E. simpl. split; [tauto|]. intros [[<-|[]] [H _]]. congruence.
  - rewrite filter_In, keptSegment_spec. tauto.
Qed.

Lemma joinUploadPath_segments (parts : list string) :
  flat_map partSegments parts <> [] ->
  Js.split slash (joinUploadPath parts) = flat_map partSegments parts.
Proof.
  intros H. unfold joinUploadPath. apply split_join; [assumption|].
  intros seg Hs. apply in_flat_map in Hs as [part [_ Hs]].
  apply partSegments_spec in Hs as [Hs _].
  exact (split_segments_without _ _ _ Hs).
Qed.

(** C10.  [joinUploadPath] drops the empty and the [.] segments and nothing
    else: every other segment of every normalized part, [..] included, is a
    segment of the result, and the result has no segment of its own.  So
    [joinUploadPath("a", "..")] is ["a/.."], and the remote target that
    [buildFolderCandidates] computes from a relative path can contain a
    parent-directory segment. *)
Theorem joinUploadPath_keeps_parent_segments :
  joinUploadPath ["a"; ".."] = "a/.." /\
  (forall parts part seg,
      In part parts ->
      In seg (Js.split slash (normalizeUploadPath part)) ->
      seg <> "" -> seg <> "." ->
      In seg (Js.split slash (joinUploadPath parts))) /\
  (forall parts seg,
      joinUploadPath parts <> "" ->
      In seg (Js.split slash (joinUploadPath parts)) ->
      seg <> "" /\ seg <> "." /\
      exists part, In part parts /\
                   In seg (Js.split slash (normalizeUploadPath part))) /\
  (exists file base c,
      buildFolderCandidates [file] base = [c] /\
      In ".." (Js.split slash (remoteTarget c))).
Proof.
  split; [reflexivity|]. split; [|split].
  - intros parts part seg Hpart Hseg H1 H2.
    assert (Hin : In seg (flat_map partSegments parts)).
    { apply in_flat_map. exists part. split; [assumption|].
      apply partSegments_spec. tauto. }
    rewrite joinUploadPath_segments; [assumption|].
    intros E. rewrite E in Hin. exact Hin.
  - intros parts seg Hne Hseg.
    assert (Hnil : flat_map partSegments parts <> []).
    { intros E. apply Hne. unfold joinUploadPath. now rewrite E. }
    rewrite (joinUploadPath_segments _ Hnil) in Hseg.
    apply in_flat_map in Hseg as [part [Hpart Hseg]].
    apply partSegments_spec in Hseg as [Hseg [H1 H2]].
    repeat split; try assumption. exists part. tauto.
  - exists (mkLocalFile "file:///sdcard/x" "../x.jpg" "../x.jpg" 1), "photos".
    eexists. split; [reflexivity|]. simpl. tauto.
Qed.

Lemma joinUploadPath_keeps_parent_segments_witness :
  In ".." (Js.split slash (joinUploadPath ["a"; ".."])).
Proof.
  destruct joinUploadPath_keeps_parent_segments as [_ [H _]].
  apply (H ["a"; ".."] ".." "..").
  - simpl. tauto.
  - simpl. tauto.
  - discriminate.
  - discriminate.
Defined.

(* ------------------------------------------------------------------ *)
(** ** Conflict suffixes *)

Lemma lastIndexOf_without (c : ascii) (s : string) :
  Js.contains (fun a => Ascii.eqb a c) s = false -> Js.lastIndexOf c s = None.
Proof.
  induction s as [|a s IH]; simpl; [reflexivity|].
  intros H. apply orb_false_iff in H as [Ha Hs].
  now rewrite (IH Hs), Ha.
Qed.

Lemma lastIndexOf_append (c : ascii) (name ext : string) :
  Js.contains (fun a => Ascii.eqb a c) ext = false ->
  Js.lastIndexOf c (name ++ String c ext) = Some (String.length name).
Proof.
  intros H. induction name as [|a name IH]; simpl.
  - now rewrite (lastIndexOf_without _ _ H), Ascii.eqb_refl.
  - now rewrite IH.
Qed.

Lemma sliceTo_append (name rest : string) :
  Js.sliceTo (String.length name) (name ++ rest) = name.
Proof.
  unfold Js.sliceTo. induction name as [|a name IH]; simpl.
  - destruct rest; reflexivity.
  - now rewrite IH.
Qed.

Lemma substring_all (s : string) : substring 0 (String.length s) s = s.
Proof. induction s as [|a s IH]; simpl; congruence. Qed.

Lemma sliceFrom_append (name rest : string) :
  Js.sliceFrom (String.length name) (name ++ rest) = rest.
Proof.
  unfold Js.sliceFrom. rewrite length_append.
  replace (String.length name + String.length rest - String.length name)%nat
    with (String.length rest) by lia.
  induction name as [|a name IH]; simpl.
  - apply substring_all.
  - exact IH.
Qed.

Lemma splitNameAndExt_ext (name ext : string) :
  name <> "" -> Js.contains isDot ext = false ->
  splitNameAndExt (name ++ String dot ext) = (name, String dot ext).
Proof.
  intros Hname Hext. unfold splitNameAndExt.
  rewrite (lastIndexOf_append dot name ext Hext).
  destruct name as [|a name]; [congruence|].
  cbn [String.length]. change (S (String.length name)) with (String.length (String a name)).
  now rewrite sliceTo_append, sliceFrom_append.
Qed.

Lemma splitNameAndExt_none (fileName : string) :
  Js.contains isDot (match fileName with String _ rest => rest | _ => "" end) = false ->
  splitNameAndExt fileName = (fileName, "").
Proof.
  intros H. unfold splitNameAndExt. destruct fileName as [|a rest]; [reflexivity|].
  simpl. rewrite (lastIndexOf_without dot rest H).
  destruct (Ascii.eqb a dot); reflexivity.
Qed.

(** C8.  [addConflictSuffix] returns the name unchanged for an attempt of
    zero or less; for a positive attempt it puts [" (attempt)"] before the
    extension, the extension being the text from the last dot on when that
    dot is not the first character, and at the end of the name when there
    is no such dot.  The three examples of the specification follow. *)
Theorem addConflictSuffix_spec :
  (forall fileName attempt,
      attempt <= 0 -> addConflictSuffix fileName attempt = fileName) /\
  (forall name ext attempt,
      0 < attempt -> name <> "" -> Js.contains isDot ext = false ->
      addConflictSuffix (name ++ "." ++ ext) attempt =
      name ++ " (" ++ Js.stringOfInt attempt ++ ")" ++ "." ++ ext) /\
  (forall fileName attempt,
      0 < attempt ->
      Js.contains isDot
        (match fileName with String _ rest => rest | _ => "" end) = false ->
      addConflictSuffix fileName attempt =
      fileName ++ " (" ++ Js.stringOfInt attempt ++ ")") /\
  addConflictSuffix "photo.jpg" 1 = "photo (1).jpg" /\
  addConflictSuffix "noext" 2 = "noext (2)" /\
  addConflictSuffix "photo.jpg" 0 = "photo.jpg".
Proof.
  repeat split; try reflexivity.
  - intros fileName attempt H. unfold addConflictSuffix.
    destruct (Z.leb_spec attempt 0); [reflexivity|lia].
  - intros name ext attempt H Hname Hext. unfold addConflictSuffix.
    destruct (Z.leb_spec attempt 0); [lia|].
    change ("." ++ ext) with (String dot ext).
    now rewrite (splitNameAndExt_ext name ext Hname Hext).
  - intros fileName attempt H Hdot. unfold addConflictSuffix.
    destruct (Z.leb_spec attempt 0); [lia|].
    rewrite (splitNameAndExt_none fileName Hdot). reflexivity.
Qed.

Lemma addConflictSuffix_spec_witness :
  addConflictSuffix "photo.jpg" (-3) = "photo.jpg" /\
  addConflictSuffix ("a.tar" ++ "." ++ "gz") 7 =
    "a.tar" ++ " (" ++ Js.stringOfInt 7 ++ ")" ++ "." ++ "gz" /\
  addConflictSuffix ".bashrc" 12 = ".bashrc" ++ " (" ++ Js.stringOfInt 12 ++ ")".
Proof.
  destruct addConflictSuffix_spec as [H1 [H2 [H3 _]]].
  split; [|split].
  - apply H1. lia.
  - apply H2; [lia|discriminate|reflexivity].
  - apply H3; [lia|reflexivity].
Defined.

(* ------------------------------------------------------------------ *)
(** ** File-name sanitizing *)

Lemma replaceReservedRuns_safe (inRun : bool) (s : string) :
  Js.contains isReserved (replaceReservedRuns inRun s) = false.
Proof.
  revert inRun. induction s as [|a s IH]; intros inRun; simpl; [reflexivity|].
  destruct (isReserved a) eqn:E.
  - destruct inRun; simpl; now rewrite ?IH.
  - simpl. now rewrite E, IH.
Qed.

Lemma replaceReservedRuns_empty (s : string) :
  replaceReservedRuns false s = "" <-> s = "".
Proof.
  split; [|intros ->; reflexivity].
  destruct s as [|a s]; [reflexivity|]. simpl.
  destruct (isReserved a); discriminate.
Qed.

Lemma allReserved_snoc (run : string) (a : ascii) :
  allReserved run = true -> isReserved a = true ->
  allReserved (run ++ String a "") = true.
Proof.
  intros Hall E. induction run as [|b run IH]; simpl in *.
  - now rewrite E.
  - apply andb_true_iff in Hall as [Hb Hall]. rewrite Hb. auto.
Qed.

Lemma replaceReservedRuns_relation (s : string) :
  RunsReplaced s (replaceReservedRuns false s) /\
  (forall run, run <> "" -> allReserved run = true ->
               RunsReplaced (run ++ s) (String "_"%char (replaceReservedRuns true s))).
Proof.
  induction s as [|a s [IHp IHq]].
  - split; [constructor|]. intros run Hne Hall.
    apply RunsReplaced_run; auto. constructor.
  - simpl. destruct (isReserved a) eqn:E.
    + split.
      * apply (IHq (String a "")); [discriminate|]. simpl. now rewrite E.
      * intros run Hne Hall.
        replace (run ++ String a s) with ((run ++ String a "") ++ s)
          by now rewrite append_assoc.
        apply IHq.
        -- destruct run; discriminate.
        -- now apply allReserved_snoc.
    + assert (Hkeep : RunsReplaced (String a s) (String a (replaceReservedRuns false s)))
        by (constructor; assumption).
      split; [exact Hkeep|]. intros run Hne Hall.
      apply RunsReplaced_run; auto.
Qed.

Lemma replaceReservedRuns_each (s : string) :
  noAdjacentReserved s = true ->
  replaceReservedRuns false s = replaceEachReserved s /\
  (startsReserved s = false -> replaceReservedRuns true s = replaceEachReserved s).
Proof.
  induction s as [|a s IH]; [split; reflexivity|].
  simpl. intros H. apply andb_true_iff in H as [Ha Hs].
  destruct (IH Hs) as [IH1 IH2].
  destruct (isReserved a) eqn:E; simpl in Ha.
  - apply negb_true_iff in Ha. split; [|discriminate].
    now rewrite (IH2 Ha).
  - split; intros; now rewrite IH1.
Qed.

(** C7, as the code has it.  [sanitizeFileName] trims the name and replaces
    every maximal run of reserved characters by one underscore, which is
    one underscore per character when no two of them are adjacent.  It
    returns [fallbackId ++ ".jpg"] when the trimmed name is empty.  The
    result is never empty, and it has no reserved character whenever the
    trimmed name is not empty. *)
Theorem sanitizeFileName_spec (name fallbackId : string) :
  sanitizeFileName name fallbackId <> "" /\
  (Js.trim name = "" ->
   sanitizeFileName name fallbackId = fallbackId ++ ".jpg") /\
  (Js.trim name <> "" ->
   RunsReplaced (Js.trim name) (sanitizeFileName name fallbackId) /\
   Js.contains isReserved (sanitizeFileName name fallbackId) = false) /\
  (Js.trim name <> "" -> noAdjacentReserved (Js.trim name) = true ->
   sanitizeFileName name fallbackId = replaceEachReserved (Js.trim name)).
Proof.
  unfold sanitizeFileName.
  destruct (String.eqb_spec (replaceReservedRuns false (Js.trim name)) "") as [E|E].
  - apply (proj1 (replaceReservedRuns_empty _)) in E.
    split; [destruct fallbackId; discriminate|].
    split; [reflexivity|]. split; intros H; congruence.
  - assert (Hne : Js.trim name <> "")
      by (intros H; apply E; now apply replaceReservedRuns_empty).
    split; [assumption|]. split; [congruence|]. split.
    + intros _. split.
      * apply replaceReservedRuns_relation.
      * apply replaceReservedRuns_safe.
    + intros _ H. now apply replaceReservedRuns_each.
Qed.

Lemma sanitizeFileName_spec_witness :
  sanitizeFileName "   " "asset-17" = "asset-17" ++ ".jpg" /\
  Js.contains isReserved (sanitizeFileName " IMG:001/a.jpg " "asset-17") = false /\
  sanitizeFileName " IMG:001/a.jpg " "asset-17" = "IMG_001_a.jpg".
Proof.
  split; [|split].
  - apply (sanitizeFileName_spec "   " "asset-17"). reflexivity.
  - apply (sanitizeFileName_spec " IMG:001/a.jpg " "asset-17"). discriminate.
  - apply (sanitizeFileName_spec " IMG:001/a.jpg " "asset-17");
      [discriminate|reflexivity].
Defined.

(** C7 as the specification words it fails twice: a run of reserved
    characters becomes one underscore, not one underscore each, and the
    fallback name keeps the reserved characters of [fallbackId]. *)
Lemma sanitizeFileName_claim_fails :
  sanitizeFileName "a//b" "id" = "a_b" /\
  sanitizeFileName "a//b" "id" <> sanitizeFileName_claimed "a//b" "id" /\
  Js.contains isReserved (sanitizeFileName "" "ED7AC36B/L0/001") = true.
Proof. repeat split. discriminate. Qed.

(* ------------------------------------------------------------------ *)
(** ** Matching a batch response to the batch *)

Section BatchMatching.

Variable StringToNumber : string -> jsnum.

Lemma replaceAt_length {A : Type} (i : nat) (v : A) (l : list A) :
  List.length (replaceAt i v l) = List.length l.
Proof.
  revert i. induction l as [|h t IH]; intros [|i]; simpl; auto.
Qed.

Lemma nth_replaceAt {A : Type} (i j : nat) (v d : A) (l : list A) :
  (i < List.length l)%nat ->
  nth j (replaceAt i v l) d = if Nat.eqb i j then v else nth j l d.
Proof.
  revert i j. induction l as [|h t IH]; intros i j H; simpl in H; [lia|].
  destruct i as [|i], j as [|j]; simpl; try reflexivity.
  apply IH. lia.
Qed.

Lemma store_length (n : nat) (byIndex : list (option StatusEntry)) (e : StatusEntry) :
  List.length (normalizeBatchStatusItems_store StringToNumber n byIndex e)
  = List.length byIndex.
Proof.
  unfold normalizeBatchStatusItems_store.
  destruct (ToNumber StringToNumber (e_index e)); [reflexivity|].
  destruct (_ || _); [reflexivity|apply replaceAt_length].
Qed.

Lemma store_nth (n i : nat) (byIndex : list (option StatusEntry)) (e : StatusEntry) :
  List.length byIndex = n -> (i < n)%nat ->
  nth i (normalizeBatchStatusItems_store StringToNumber n byIndex e) None =
  if entryHasIndex StringToNumber i e then Some e else nth i byIndex None.
Proof.
  intros Hlen Hi. unfold normalizeBatchStatusItems_store, entryHasIndex.
  destruct (ToNumber StringToNumber (e_index e)) as [|z]; [reflexivity|].
  destruct (Z.ltb_spec z 0); simpl.
  - destruct (Z.eqb_spec z (Z.of_nat i)); [lia|reflexivity].
  - destruct (Z.leb_spec (Z.of_nat n) z).
    + destruct (Z.eqb_spec z (Z.of_nat i)); [lia|reflexivity].
    + rewrite nth_replaceAt by lia.
      destruct (Nat.eqb_spec (Z.to_nat z) i), (Z.eqb_spec z (Z.of_nat i));
        try reflexivity; lia.
Qed.

Lemma find_app {A : Type} (p : A -> bool) (l1 l2 : list A) :
  find p (l1 ++ l2) = match find p l1 with Some x => Some x | None => find p l2 end.
Proof.
  induction l1 as [|h t IH]; simpl; [reflexivity|].
  destruct (p h); auto.
Qed.

Lemma fold_store_length (n : nat) (items : list StatusEntry)
  (byIndex : list (option StatusEntry)) :
  List.length (fold_left (normalizeBatchStatusItems_store StringToNumber n) items byIndex)
  = List.length byIndex.
Proof.
  revert byIndex. induction items as [|e items IH]; intros byIndex; simpl;
    [reflexivity|]. now rewrite IH, store_length.
Qed.

Lemma fold_store_nth (n i : nat) (items : list StatusEntry)
  (byIndex : list (option StatusEntry)) :
  List.length byIndex = n -> (i < n)%nat ->
  nth i (fold_left (normalizeBatchStatusItems_store StringToNumber n) items byIndex) None =
  match lastWithIndex StringToNumber i items with
  | Some e => Some e
  | None => nth i byIndex None
  end.
Proof.
  unfold lastWithIndex. revert byIndex.
  induction items as [|e items IH]; intros byIndex Hlen Hi; simpl; [reflexivity|].
  rewrite IH by (rewrite ?store_length; assumption).
  rewrite find_app. destruct (find _ (rev items)); [reflexivity|].
  rewrite store_nth by assumption. simpl.
  destruct (entryHasIndex StringToNumber i e); reflexivity.
Qed.

Lemma normalizeBatchStatusItems_length (rawItems : option (list StatusEntry)) (n : nat) :
  List.length (normalizeBatchStatusItems StringToNumber rawItems n) = n.
Proof.
  unfold normalizeBatchStatusItems. destruct rawItems as [items|].
  - now rewrite fold_store_length, repeat_length.
  - apply repeat_length.
Qed.

Lemma nth_repeat_None {A : Type} (n i : nat) :
  nth i (repeat (@None A) n) None = None.
Proof.
  revert i. induction n as [|n IH]; intros [|i]; simpl; auto.
Qed.

Lemma normalizeBatchStatusItems_nth (rawItems : option (list StatusEntry)) (n i : nat) :
  (i < n)%nat ->
  nth i (normalizeBatchStatusItems StringToNumber rawItems n) None =
  match rawItems with
  | Some items => lastWithIndex StringToNumber i items
  | None => None
  end.
Proof.
  intros Hi. unfold normalizeBatchStatusItems. destruct rawItems as [items|].
  - rewrite fold_store_nth by (rewrite ?repeat_length; auto).
    rewrite nth_repeat_None. now destruct (lastWithIndex _ _ _).
  - apply nth_repeat_None.
Qed.

Lemma lastWithIndex_Some (i : nat) (items : list StatusEntry) (e : StatusEntry) :
  lastWithIndex StringToNumber i items = Some e ->
  In e items /\ ToNumber StringToNumber (e_index e) = Num (Z.of_nat i).
Proof.
  unfold lastWithIndex. intros H. apply find_some in H as [Hin Hidx].
  split; [now apply in_rev|].
  unfold entryHasIndex in Hidx.
  destruct (ToNumber StringToNumber (e_index e)); [discriminate|].
  apply Z.eqb_eq in Hidx. now subst.
Qed.

Lemma lastWithIndex_None (i : nat) (items : list StatusEntry) :
  lastWithIndex StringToNumber i items = None <->
  (forall e, In e items -> ToNumber StringToNumber (e_index e) <> Num (Z.of_nat i)).
Proof.
  unfold lastWithIndex. split.
  - intros H e Hin Hidx.
    apply in_rev in Hin. pose proof (find_none _ _ H e Hin) as Hf.
    unfold entryHasIndex in Hf. rewrite Hidx, Z.eqb_refl in Hf. discriminate.
  - intros H. destruct (find _ (rev items)) as [e|] eqn:E; [|reflexivity].
    apply find_some in E as [Hin Hidx]. exfalso.
    apply (H e); [now apply in_rev|].
    unfold entryHasIndex in Hidx.
    destruct (ToNumber StringToNumber (e_index e)); [discriminate|].
    apply Z.eqb_eq in Hidx. now subst.
Qed.

End BatchMatching.

(* ------------------------------------------------------------------ *)
(** ** The status resolver *)

Lemma bind_Returned {A B : Type} (m : M A) (k : A -> M B) (st st' : MState) (a : A) :
  m st = (Returned a, st') -> bind m k st = k a st'.
Proof. unfold bind. now intros ->. Qed.

Lemma bind_Thrown {A B : Type} (m : M A) (k : A -> M B) (st st' : MState)
  (message : string) :
  m st = (Thrown message, st') -> bind m k st = (Thrown message, st').
Proof. unfold bind. now intros ->. Qed.

Lemma bind_ret_l {A B : Type} (a : A) (k : A -> M B) (st : MState) :
  bind (ret a) k st = k a st.
Proof. reflexivity. Qed.

Section ResolverFacts.

Variable StringToNumber : string -> jsnum.
Variable w : World.
Variable cfg : Config.
Variable rootId : string.

Local Abbreviation applyStatusItem' := (applyStatusItem StringToNumber w cfg rootId).
Local Abbreviation applyStatusLoop' := (applyStatusLoop StringToNumber w cfg rootId).
Local Abbreviation resolveRenameLoop' := (resolveRenameLoop StringToNumber w cfg rootId).

(** The rename probe always comes back, leaves the progress alone, and a
    candidate it hands back is the original renamed for one of the
    attempts that were left. *)
Lemma resolveRenameLoop_returns (remaining : nat) :
  forall (attempt : Z) (candidate : UploadCandidate) (st : MState),
  exists r st',
    resolveRenameLoop' remaining attempt candidate st = (Returned r, st') /\
    progress st' = progress st /\ running st' = running st /\
    (clock st <= clock st')%nat /\
    match r with
    | RenameReady c' _ =>
        exists k, attempt <= k < attempt + Z.of_nat remaining /\
                  c' = renameCandidateForAttempt candidate k
    | _ => True
    end.
Proof.
  induction remaining as [|remaining IH]; intros attempt candidate st.
  - exists RenameFailed, st. simpl. repeat split; auto.
  - cbn [resolveRenameLoop]. unfold bind at 1. unfold isCancelled at 1.
    destruct (cancelledAt w (clock st)).
    + exists RenameFailed, st. repeat split; auto.
    + unfold bind, interact.
      set (st1 := tick _ st).
      destruct (w_status w (clock st) _) as [data|code message].
      * destruct (_ || _).
        -- exists RenameSkipped, st1. repeat split; simpl; auto.
        -- eexists _, st1. split; [reflexivity|]. repeat split; simpl; auto.
           exists attempt. split; [lia|reflexivity].
      * destruct (isStr code "exists").
        -- destruct (IH (attempt + 1) candidate st1) as (r & st' & E & Hp & Hr & Hc & Hk).
           exists r, st'. split; [exact E|]. repeat split; auto.
           ++ simpl in Hc. lia.
           ++ destruct r; auto. destruct Hk as (k & Hk & ->).
              exists k. split; [lia|reflexivity].
        -- exists RenameFailed, st1. repeat split; simpl; auto.
Qed.

Lemma applyStatusItem_returns (candidate : UploadCandidate)
  (statusItem : option StatusEntry) (loc : Plan.t) (st : MState) :
  exists loc' st',
    applyStatusItem' candidate statusItem loc st = (Returned loc', st') /\
    Verdict loc loc' /\
    progress st' = progress st /\ (clock st <= clock st')%nat.
Proof.
  unfold applyStatusItem. destruct statusItem as [item|].
  2:{ exists (Plan.addFailed 1 loc), st. repeat split; auto. constructor. }
  destruct (String.eqb _ "ready").
  { eexists _, st. repeat split; auto. constructor. }
  destruct (_ || _).
  { eexists _, st. repeat split; auto. constructor. }
  destruct (String.eqb _ "exists").
  2:{ eexists _, st. repeat split; auto. constructor. }
  destruct (effectiveConflictPolicy cfg).
  - eexists _, st. repeat split; auto. constructor.
  - eexists _, st. repeat split; auto. constructor.
  - unfold resolveRenameCandidate.
    destruct (resolveRenameLoop_returns MAX_RENAME_ATTEMPTS 1 candidate st)
      as (r & st' & E & Hp & _ & Hc & _).
    rewrite (bind_Returned _ _ _ _ _ E).
    destruct r; eexists _, st'; (split; [reflexivity|]); repeat split; auto;
      constructor.
Qed.

Lemma Verdict_failed_mono (loc loc' : Plan.t) :
  Verdict loc loc' -> Plan.failed loc <= Plan.failed loc'.
Proof. intros []; simpl; lia. Qed.

Lemma applyStatusLoop_accounting :
  w_cancelAt w = None ->
  forall (batch : list UploadCandidate) (index : nat)
         (statusItems : list (option StatusEntry)) (loc : Plan.t) (st : MState),
  exists loc' st',
    applyStatusLoop' batch index statusItems loc st = (Returned loc', st') /\
    Plan.failed loc + emptySlots (List.length batch) index statusItems
    <= Plan.failed loc'.
Proof.
  intros Hcancel. induction batch as [|candidate rest IH]; intros index statusItems loc st.
  - exists loc, st. simpl. split; [reflexivity|lia].
  - cbn [applyStatusLoop]. unfold bind at 1, isCancelled at 1, cancelledAt.
    rewrite Hcancel.
    destruct (applyStatusItem_returns candidate (nth index statusItems None) loc st)
      as (loc1 & st1 & E & Hv & _ & _).
    rewrite (bind_Returned _ _ _ _ _ E).
    destruct (IH (S index) statusItems loc1 st1) as (loc' & st' & E' & Hf).
    exists loc', st'. split; [exact E'|].
    cbn [List.length emptySlots].
    destruct (nth index statusItems None) as [item|] eqn:Eslot.
    + pose proof (Verdict_failed_mono _ _ Hv). lia.
    + unfold applyStatusItem, ret in E. injection E as <- _. simpl in Hf. lia.
Qed.

(** C6, as the code has it.  The slot of candidate [i] holds the last
    entry of the response for which [Number(index)] is the integer [i],
    and nothing when there is none or when the response has no array: an
    entry is matched by the number its index field coerces to, never by
    its place in the array, and an entry whose index is absent, does not
    coerce to an integer or lies outside the batch fills no slot.  A run
    that is not cancelled counts every candidate with an empty slot as
    failed. *)
Theorem batch_matching_by_index (rawItems : option (list StatusEntry))
  (batch : list UploadCandidate) :
  let n := List.length batch in
  let statusItems := normalizeBatchStatusItems StringToNumber rawItems n in
  List.length statusItems = n /\
  (forall i, (i < n)%nat ->
     nth i statusItems None =
     match rawItems with
     | Some items => lastWithIndex StringToNumber i items
     | None => None
     end) /\
  (forall i e, (i < n)%nat -> nth i statusItems None = Some e ->
     exists items, rawItems = Some items /\ In e items /\
                   ToNumber StringToNumber (e_index e) = Num (Z.of_nat i)) /\
  (forall i, (i < n)%nat ->
     (forall items e, rawItems = Some items -> In e items ->
        ToNumber StringToNumber (e_index e) <> Num (Z.of_nat i)) ->
     nth i statusItems None = None) /\
  (forall candidate loc st,
     applyStatusItem' candidate None loc st = (Returned (Plan.addFailed 1 loc), st)) /\
  (w_cancelAt w = None ->
   forall loc st, exists loc' st',
     applyStatusLoop' batch 0 statusItems loc st = (Returned loc', st') /\
     Plan.failed loc + emptySlots n 0 statusItems <= Plan.failed loc').
Proof.
  intros n statusItems. split; [apply normalizeBatchStatusItems_length|].
  split; [intros i Hi; now apply normalizeBatchStatusItems_nth|].
  split; [|split; [|split]].
  - intros i e Hi He. unfold statusItems in He.
    rewrite normalizeBatchStatusItems_nth in He by assumption.
    destruct rawItems as [items|]; [|discriminate].
    exists items. split; [reflexivity|]. now apply lastWithIndex_Some.
  - intros i Hi H. unfold statusItems.
    rewrite normalizeBatchStatusItems_nth by assumption.
    destruct rawItems as [items|]; [|reflexivity].
    apply lastWithIndex_None. intros e He. now apply (H items).
  - reflexivity.
  - intros Hcancel loc st. now apply applyStatusLoop_accounting.
Qed.

End ResolverFacts.

(* ------------------------------------------------------------------ *)
(** ** Renaming changes the name *)

Section RenameFacts.

Local Open Scope string_scope.

Lemma substring_split (s : string) :
  forall n, (n <= String.length s)%nat ->
  substring 0 n s ++ substring n (String.length s - n) s = s.
Proof.
  induction s as [|a s IH]; intros [|n] H; simpl in *; try reflexivity; try lia.
  - now rewrite substring_all.
  - now rewrite IH by lia.
Qed.

Lemma lastIndexOf_lt (c : ascii) (s : string) (i : nat) :
  Js.lastIndexOf c s = Some i -> (i < String.length s)%nat.
Proof.
  revert i. induction s as [|a s IH]; intros i; simpl; [discriminate|].
  destruct (Js.lastIndexOf c s) as [j|].
  - intros [= <-]. specialize (IH j eq_refl). lia.
  - destruct (Ascii.eqb a c); [intros [= <-]; lia|discriminate].
Qed.

Lemma splitNameAndExt_concat (fileName : string) :
  fst (splitNameAndExt fileName) ++ snd (splitNameAndExt fileName) = fileName.
Proof.
  unfold splitNameAndExt.
  destruct (Js.lastIndexOf dot fileName) as [[|i]|] eqn:E; simpl;
    try apply append_empty_r.
  apply substring_split. apply lastIndexOf_lt in E. lia.
Qed.

Lemma addConflictSuffix_longer (fileName : string) (attempt : Z) :
  0 < attempt ->
  (String.length fileName < String.length (addConflictSuffix fileName attempt))%nat.
Proof.
  intros H. unfold addConflictSuffix.
  destruct (Z.leb_spec attempt 0); [lia|].
  pose proof (splitNameAndExt_concat fileName) as Hc.
  destruct (splitNameAndExt fileName) as [name ext]. simpl in Hc.
  rewrite <- Hc at 1. rewrite !length_append. simpl. lia.
Qed.

(** C3, the camera half of "never under the original name". *)
Lemma addConflictSuffix_changes (fileName : string) (attempt : Z) :
  0 < attempt -> addConflictSuffix fileName attempt <> fileName.
Proof.
  intros H E. pose proof (addConflictSuffix_longer fileName attempt H) as L.
  rewrite E in L. lia.
Qed.

(** *** Joined paths are in normal form *)

Lemma replaceAllChar_clean (c d : ascii) (s : string) :
  Ascii.eqb d c = false ->
  Js.contains (fun a => Ascii.eqb a c) (Js.replaceAllChar c d s) = false.
Proof.
  intros H. induction s as [|a s IH]; simpl; [reflexivity|].
  rewrite IH. destruct (Ascii.eqb a c) eqn:E; [now rewrite H|now rewrite E].
Qed.

Lemma replaceAllChar_id (c d : ascii) (s : string) :
  Js.contains (fun a => Ascii.eqb a c) s = false -> Js.replaceAllChar c d s = s.
Proof.
  induction s as [|a s IH]; simpl; [reflexivity|].
  intros H. apply orb_false_iff in H as [Ha Hs]. now rewrite Ha, IH.
Qed.

Lemma dropLeading_clean (p q : ascii -> bool) (s : string) :
  Js.contains q s = false -> Js.contains q (Js.dropLeading p s) = false.
Proof.
  induction s as [|a s IH]; simpl; [reflexivity|].
  intros H. destruct (p a); [|exact H].
  apply orb_false_iff in H as [_ Hs]. auto.
Qed.

Lemma dropTrailing_clean (p q : ascii -> bool) (s : string) :
  Js.contains q s = false -> Js.contains q (Js.dropTrailing p s) = false.
Proof.
  induction s as [|a s IH]; simpl; [reflexivity|].
  intros H. apply orb_false_iff in H as [Ha Hs]. specialize (IH Hs).
  destruct (Js.dropTrailing p s) eqn:E.
  - destruct (p a); simpl; [reflexivity|now rewrite Ha].
  - simpl in *. now rewrite Ha, IH.
Qed.

Lemma dropTrailing_id (p : ascii -> bool) (s : string) :
  Js.contains p s = false -> Js.dropTrailing p s = s.
Proof.
  induction s as [|a s IH]; simpl; [reflexivity|].
  intros H. apply orb_false_iff in H as [Ha Hs]. rewrite (IH Hs), Ha.
  destruct s; reflexivity.
Qed.

Lemma dropTrailing_append (p : ascii -> bool) (a b : string) :
  Js.dropTrailing p b = b -> b <> "" -> Js.dropTrailing p (a ++ b) = a ++ b.
Proof.
  intros Hb Hne. induction a as [|c a IH]; simpl; [exact Hb|].
  rewrite IH. destruct (a ++ b) eqn:E; [|reflexivity].
  destruct a; simpl in E; [congruence|discriminate].
Qed.

Lemma split_segments_clean (c : ascii) (q : ascii -> bool) (s seg : string) :
  Js.contains q s = false -> In seg (Js.split c s) -> Js.contains q seg = false.
Proof.
  revert seg. induction s as [|a s IH]; simpl; intros seg Hq H.
  - destruct H as [<-|[]]. reflexivity.
  - apply orb_false_iff in Hq as [Ha Hs].
    destruct (Ascii.eqb a c).
    + destruct H as [<-|H]; [reflexivity|auto].
    + destruct (Js.split c s) as [|h t] eqn:Es.
      * destruct H as [<-|[]]. simpl. now rewrite Ha.
      * destruct H as [<-|H].
        -- simpl. rewrite Ha. apply IH; [assumption|now left].
        -- apply IH; [assumption|now right].
Qed.

Lemma normalizeUploadPath_clean (value : string) :
  Js.contains isBackslash (normalizeUploadPath value) = false.
Proof.
  unfold normalizeUploadPath.
  apply dropTrailing_clean, dropLeading_clean.
  now apply replaceAllChar_clean.
Qed.

Lemma partSegments_good (part seg : string) :
  In seg (partSegments part) ->
  seg <> "" /\ Js.contains isSlash seg = false /\ Js.contains isBackslash seg = false.
Proof.
  intros H. apply partSegments_spec in H as [H [Hne _]].
  split; [assumption|]. split.
  - exact (split_segments_without _ _ _ H).
  - exact (split_segments_clean _ _ _ _ (normalizeUploadPath_clean part) H).
Qed.

Lemma join_normal_form (segments : list string) :
  (forall seg, In seg segments ->
     seg <> "" /\ Js.contains isSlash seg = false /\
     Js.contains isBackslash seg = false) ->
  Js.contains isBackslash (Js.join "/" segments) = false /\
  Js.dropLeading isSlash (Js.join "/" segments) = Js.join "/" segments /\
  Js.dropTrailing isSlash (Js.join "/" segments) = Js.join "/" segments /\
  (segments <> [] -> Js.join "/" segments <> "").
Proof.
  unfold Js.join. induction segments as [|x xs IH]; intros H.
  - simpl. repeat split; congruence.
  - destruct (H x (or_introl eq_refl)) as (Hx & Hxs & Hxb).
    assert (Hrest : forall seg, In seg xs ->
              seg <> "" /\ Js.contains isSlash seg = false /\
              Js.contains isBackslash seg = false) by (intros; apply H; now right).
    destruct (IH Hrest) as (IHb & _ & IHt & IHne).
    destruct xs as [|y ys].
    + simpl. repeat split; try assumption.
      * destruct x as [|a x]; [congruence|]. simpl in *.
        apply orb_false_iff in Hxs as [-> _]. reflexivity.
      * now apply dropTrailing_id.
      * intros _. assumption.
    + change (String.concat "/" (x :: y :: ys))
        with (x ++ String slash (String.concat "/" (y :: ys))).
      repeat split.
      * rewrite contains_append, Hxb. simpl. exact IHb.
      * destruct x as [|a x]; [congruence|]. simpl in *.
        apply orb_false_iff in Hxs as [-> _]. reflexivity.
      * apply dropTrailing_append; [|discriminate].
        change (String slash (String.concat "/" (y :: ys)))
          with (String slash "" ++ String.concat "/" (y :: ys)).
        apply dropTrailing_append; [exact IHt|]. apply IHne. discriminate.
      * intros _. destruct x; [congruence|discriminate].
Qed.

Lemma joinUploadPath_normal (parts : list string) :
  normalizeUploadPath (joinUploadPath parts) = joinUploadPath parts.
Proof.
  unfold joinUploadPath, normalizeUploadPath.
  destruct (join_normal_form (flat_map partSegments parts)) as (Hb & Hl & Ht & _).
  { intros seg H. apply in_flat_map in H as [part [_ H]].
    exact (partSegments_good _ _ H). }
  rewrite (replaceAllChar_id _ _ _ Hb), Hl, Ht. reflexivity.
Qed.

(** The remote target of a folder candidate is in normal form. *)
Lemma buildFolderCandidates_normal (files : list LocalFolderFile) (base : string)
  (c : UploadCandidate) :
  In c (buildFolderCandidates files base) ->
  kind c = folder /\ normalizeUploadPath (remoteTarget c) = remoteTarget c.
Proof.
  unfold buildFolderCandidates. intros H. apply in_map_iff in H as [file [<- _]].
  simpl. split; [reflexivity|apply joinUploadPath_normal].
Qed.

(** *** Renaming a remote target *)

Lemma join_split (c : ascii) (s : string) :
  String.concat (String c "") (Js.split c s) = s.
Proof.
  induction s as [|a s IH]; simpl; [reflexivity|].
  destruct (Ascii.eqb_spec a c) as [->|Hac].
  - destruct (Js.split c s) as [|h t] eqn:E.
    + now destruct (split_not_nil c s).
    + simpl in *. now rewrite IH.
  - destruct (Js.split c s) as [|h t] eqn:E.
    + now destruct (split_not_nil c s).
    + destruct t; simpl in *; now rewrite <- IH.
Qed.

Lemma concat_snoc (sep : string) (l : list string) (x : string) :
  l <> [] ->
  String.concat sep (l ++ [x]) = String.concat sep l ++ sep ++ x.
Proof.
  induction l as [|h t IH]; [congruence|]. intros _.
  destruct t as [|h' t'].
  - reflexivity.
  - change (String.concat sep ((h :: h' :: t') ++ [x]))
      with (h ++ sep ++ String.concat sep ((h' :: t') ++ [x])).
    rewrite IH by discriminate.
    change (String.concat sep (h :: h' :: t'))
      with (h ++ sep ++ String.concat sep (h' :: t')).
    now rewrite !append_assoc.
Qed.

Lemma renameRemoteTarget_longer (remoteTarget : string) (attempt : Z) :
  0 < attempt -> normalizeUploadPath remoteTarget <> "" ->
  (String.length (normalizeUploadPath remoteTarget)
   < String.length (renameRemoteTarget remoteTarget attempt))%nat.
Proof.
  intros Hk Hne. unfold renameRemoteTarget.
  destruct (String.eqb_spec (normalizeUploadPath remoteTarget) ""); [congruence|].
  set (normalized := normalizeUploadPath remoteTarget).
  pose proof (join_split slash normalized) as Hj.
  pose proof (split_not_nil slash normalized) as Hs.
  rewrite (app_removelast_last "" Hs) in Hj.
  pose proof (addConflictSuffix_longer (last (Js.split slash normalized) "") attempt Hk).
  destruct (removelast (Js.split slash normalized)) as [|h t] eqn:E.
  - simpl in Hj. rewrite <- Hj at 1. assumption.
  - rewrite concat_snoc in Hj by discriminate.
    rewrite <- Hj at 1. unfold Js.join.
    rewrite !length_append. simpl. unfold slash in *. lia.
Qed.

(** C3, the folder half of "never under the original name", for a target
    in normal form, as every joined path is. *)
Lemma renameRemoteTarget_changes (remoteTarget : string) (attempt : Z) :
  0 < attempt ->
  normalizeUploadPath remoteTarget = remoteTarget -> remoteTarget <> "" ->
  renameRemoteTarget remoteTarget attempt <> remoteTarget.
Proof.
  intros Hk Hn Hne E.
  pose proof (renameRemoteTarget_longer remoteTarget attempt Hk) as L.
  rewrite Hn, E in L. specialize (L Hne). lia.
Qed.

End RenameFacts.

(* ------------------------------------------------------------------ *)
(** ** Classification of a matched result *)

Section ResolverClaims.

Variable StringToNumber : string -> jsnum.
Variable w : World.
Variable cfg : Config.
Variable rootId : string.

Local Abbreviation applyStatusItem' := (applyStatusItem StringToNumber w cfg rootId).
Local Abbreviation applyStatusLoop' := (applyStatusLoop StringToNumber w cfg rootId).
Local Abbreviation offsetOf' := (offsetOf StringToNumber).

Lemma applyStatusLoop_step (candidate : UploadCandidate) (rest : list UploadCandidate)
  (index : nat) (statusItems : list (option StatusEntry)) (loc loc' : Plan.t)
  (st : MState) :
  cancelledAt w (clock st) = false ->
  applyStatusItem' candidate (nth index statusItems None) loc st = (Returned loc', st) ->
  applyStatusLoop' (candidate :: rest) index statusItems loc st =
  applyStatusLoop' rest (S index) statusItems loc' st.
Proof.
  intros Hc E. cbn [applyStatusLoop]. unfold bind at 1, isCancelled at 1.
  rewrite Hc. now rewrite (bind_Returned _ _ _ _ _ E).
Qed.

(** C1, as the code has it.  A result whose status is [ready] is planned
    whatever its offset, with the initial offset brought into
    [0 .. size].  Any other result that reports [complete], or an offset
    of at least the size, is skipped: the skipped counter goes up by one,
    nothing is planned, no request is made, and the loop goes on with the
    next candidate.  The conflict policy plays no part in either. *)
Theorem complete_is_skipped (candidate : UploadCandidate) (item : StatusEntry)
  (loc : Plan.t) (st : MState) :
  (uploadStatusOf item = "ready" ->
   applyStatusItem' candidate (Some item) loc st =
     (Returned (addReadyCandidate loc candidate (offsetOf' item) (overwriteUploads cfg)), st) /\
   exists planned',
     Plan.candidates (addReadyCandidate loc candidate (offsetOf' item) (overwriteUploads cfg))
       = (Plan.candidates loc ++ [planned'])%list /\
     initialOffset planned' = Z.max 0 (Z.min (numOrZero (offsetOf' item)) (size candidate))) /\
  (uploadStatusOf item <> "ready" ->
   uploadStatusOf item = "complete" \/
   jsGe (offsetOf' item) (Num (size candidate)) = true ->
   applyStatusItem' candidate (Some item) loc st = (Returned (Plan.addSkipped loc), st) /\
   Plan.skipped (Plan.addSkipped loc) = Plan.skipped loc + 1 /\
   Plan.candidates (Plan.addSkipped loc) = Plan.candidates loc /\
   Plan.failed (Plan.addSkipped loc) = Plan.failed loc /\
   forall rest index statusItems,
     cancelledAt w (clock st) = false ->
     nth index statusItems None = Some item ->
     applyStatusLoop' (candidate :: rest) index statusItems loc st =
     applyStatusLoop' rest (S index) statusItems (Plan.addSkipped loc) st).
Proof.
  split.
  - intros Hready. unfold applyStatusItem. rewrite Hready. simpl.
    split; [reflexivity|]. eexists. split; reflexivity.
  - intros Hready Hdone.
    assert (E : applyStatusItem' candidate (Some item) loc st
                = (Returned (Plan.addSkipped loc), st)).
    { unfold applyStatusItem.
      destruct (String.eqb_spec (uploadStatusOf item) "ready"); [contradiction|].
      destruct Hdone as [Hd|Hd]; [rewrite Hd|fold (offsetOf' item); rewrite Hd];
        simpl; now rewrite ?orb_true_r. }
    repeat split; try assumption.
    intros rest index statusItems Hc Hslot.
    apply applyStatusLoop_step; [assumption|]. now rewrite Hslot.
Qed.

(** C3, as the code has it.  For a result whose status is [exists]:
    under [skip] the candidate is skipped; under [overwrite] it is never
    planned, it is counted failed, or skipped when the reported offset
    reaches the size; under [rename] it is skipped, or failed, or planned
    as the candidate renamed for one of the attempts 1 to 50, with
    [overwrite] false and a name that differs from the original one. *)
Theorem exists_policy_coverage (candidate : UploadCandidate) (item : StatusEntry)
  (loc : Plan.t) (st : MState) :
  uploadStatusOf item = "exists" ->
  match effectiveConflictPolicy cfg with
  | skip =>
      applyStatusItem' candidate (Some item) loc st = (Returned (Plan.addSkipped loc), st)
  | overwrite =>
      applyStatusItem' candidate (Some item) loc st =
      (Returned (if jsGe (offsetOf' item) (Num (size candidate))
                 then Plan.addSkipped loc else Plan.addFailed 1 loc), st)
  | rename =>
      exists loc' st',
        applyStatusItem' candidate (Some item) loc st = (Returned loc', st') /\
        (loc' = Plan.addSkipped loc \/
         loc' = Plan.addFailed 1 loc \/
         exists attempt rawOffset planned',
           1 <= attempt <= 50 /\
           loc' = addReadyCandidate loc
                    (renameCandidateForAttempt candidate attempt) rawOffset false /\
           Plan.candidates loc' = (Plan.candidates loc ++ [planned'])%list /\
           overwrite_ planned' = false /\
           displayName planned' =
             displayName (renameCandidateForAttempt candidate attempt) /\
           remoteTarget planned' =
             remoteTarget (renameCandidateForAttempt candidate attempt) /\
           (kind candidate = camera ->
            displayName planned' <> displayName candidate) /\
           (kind candidate = folder ->
            normalizeUploadPath (remoteTarget candidate) = remoteTarget candidate ->
            remoteTarget candidate <> "" ->
            remoteTarget planned' <> remoteTarget candidate))
  end.
Proof.
  intros Hexists. unfold applyStatusItem. rewrite Hexists. simpl.
  fold (offsetOf' item).
  destruct (effectiveConflictPolicy cfg).
  - now destruct (jsGe _ _).
  - now destruct (jsGe _ _).
  - destruct (jsGe _ _).
    { exists (Plan.addSkipped loc), st. split; [reflexivity|now left]. }
    unfold resolveRenameCandidate.
    destruct (resolveRenameLoop_returns StringToNumber w cfg rootId
                MAX_RENAME_ATTEMPTS 1 candidate st)
      as (r & st' & E & _ & _ & _ & Hk).
    rewrite (bind_Returned _ _ _ _ _ E).
    destruct r as [c' rawOffset| |].
    + destruct Hk as (k & Hk & ->).
      eexists _, st'. split; [reflexivity|]. right; right.
      exists k, rawOffset. eexists. unfold MAX_RENAME_ATTEMPTS in Hk.
      split; [lia|]. split; [reflexivity|]. split; [reflexivity|].
      simpl. repeat split.
      * intros Hkind. unfold renameCandidateForAttempt.
        destruct (Z.leb_spec k 0); [lia|]. rewrite Hkind. simpl.
        apply addConflictSuffix_changes. lia.
      * intros Hkind Hn Hne. unfold renameCandidateForAttempt.
        destruct (Z.leb_spec k 0); [lia|]. rewrite Hkind. simpl.
        apply renameRemoteTarget_changes; [lia|assumption..].
    + eexists _, st'. split; [reflexivity|now left].
    + eexists _, st'. split; [reflexivity|right; now left].
Qed.

End ResolverClaims.

(* ------------------------------------------------------------------ *)
(** ** What a computation adds to the trace *)

Section Steps.

Context {A : Type} (P : Event -> Prop).

Lemma steps_ret (a : A) : steps P (ret a).
Proof.
  intros st. simpl. split; [lia|]. exists []. now rewrite app_nil_r.
Qed.

Lemma steps_throw (message : string) : steps P (@throw A message).
Proof.
  intros st. simpl. split; [lia|]. exists []. now rewrite app_nil_r.
Qed.

Lemma steps_diverge : steps P (@diverge A).
Proof.
  intros st. simpl. split; [lia|]. exists []. now rewrite app_nil_r.
Qed.

Lemma steps_interact (ev : Event) (oracle : nat -> A) :
  P ev -> steps P (interact ev oracle).
Proof.
  intros H st. simpl. split; [lia|]. exists [ev]. split; [reflexivity|].
  now constructor.
Qed.

Lemma steps_interactOutcome (ev : Event) (oracle : nat -> HostResult A) :
  P ev -> steps P (interactOutcome ev oracle).
Proof.
  intros H st. simpl. split; [lia|]. exists [ev]. split; [reflexivity|].
  now constructor.
Qed.

Lemma steps_pure (f : MState -> Outcome A) :
  steps P (fun st => (f st, st)).
Proof.
  intros st. simpl. split; [lia|]. exists []. now rewrite app_nil_r.
Qed.

Lemma steps_bind {B : Type} (m : M B) (k : B -> M A) :
  steps P m -> (forall b, steps P (k b)) -> steps P (bind m k).
Proof.
  intros Hm Hk st. unfold bind. specialize (Hm st).
  destruct (m st) as [[b|message|] st1]; simpl in *; try exact Hm.
  destruct Hm as (Hc & evs & Ht & Hp).
  destruct (Hk b st1) as (Hc' & evs' & Ht' & Hp').
  split; [lia|]. exists (evs ++ evs')%list.
  rewrite Ht', Ht, app_assoc. split; [reflexivity|]. now apply Forall_app.
Qed.

Lemma steps_tryCatch (body : M A) (handler : string -> M A) :
  steps P body -> (forall message, steps P (handler message)) ->
  steps P (tryCatch body handler).
Proof.
  intros Hm Hk st. unfold tryCatch. specialize (Hm st).
  destruct (body st) as [[b|message|] st1]; simpl in *; try exact Hm.
  destruct Hm as (Hc & evs & Ht & Hp).
  destruct (Hk message st1) as (Hc' & evs' & Ht' & Hp').
  split; [lia|]. exists (evs ++ evs')%list.
  rewrite Ht', Ht, app_assoc. split; [reflexivity|]. now apply Forall_app.
Qed.

Lemma steps_tryFinally (body : M A) (cleanup : M unit) :
  steps P body -> steps P cleanup -> steps P (tryFinally body cleanup).
Proof.
  intros Hm Hk st. unfold tryFinally. specialize (Hm st).
  destruct (body st) as [[b|message|] st1]; simpl in *; try exact Hm;
    destruct Hm as (Hc & evs & Ht & Hp);
    destruct (Hk st1) as (Hc' & evs' & Ht' & Hp');
    (split; [lia|]); exists (evs ++ evs')%list;
    rewrite Ht', Ht, app_assoc; (split; [reflexivity|]); now apply Forall_app.
Qed.

End Steps.

Lemma steps_setSyncProgress (P : Event -> Prop) (f : SyncProgress -> SyncProgress) :
  steps P (setSyncProgress f).
Proof.
  intros st. simpl. split; [lia|]. exists []. now rewrite app_nil_r.
Qed.

Lemma steps_setSyncRunning (P : Event -> Prop) (b : bool) :
  steps P (setSyncRunning b).
Proof.
  intros st. simpl. split; [lia|]. exists []. now rewrite app_nil_r.
Qed.

Lemma steps_isCancelled (P : Event -> Prop) (w : World) : steps P (isCancelled w).
Proof.
  intros st. simpl. split; [lia|]. exists []. now rewrite app_nil_r.
Qed.

Lemma steps_weaken {A : Type} (P Q : Event -> Prop) (m : M A) :
  (forall ev, P ev -> Q ev) -> steps P m -> steps Q m.
Proof.
  intros H Hm st. destruct (Hm st) as (Hc & evs & Ht & Hp).
  split; [assumption|]. exists evs. split; [assumption|].
  eapply Forall_impl; eauto.
Qed.

Create HintDb steps.

(** The pieces every [steps] proof is made of; lemmas about the engine's
    own functions are found in the [steps] hint database. *)
Ltac steps_step :=
  first
    [ solve [auto with steps]
    | progress cbv zeta
    | apply steps_ret
    | apply steps_throw
    | apply steps_diverge
    | apply steps_setSyncProgress
    | apply steps_setSyncRunning
    | apply steps_isCancelled
    | apply steps_pure
    | apply steps_interact; simpl; auto
    | apply steps_interactOutcome; simpl; auto
    | match goal with
      | |- steps _ (bind _ _) => apply steps_bind; [|intros ?]
      | |- steps _ (tryCatch _ _) => apply steps_tryCatch; [|intros ?]
      | |- steps _ (tryFinally _ _) => apply steps_tryFinally
      | |- steps _ (if ?b then _ else _) => destruct b
      | |- steps _ (match ?x with _ => _ end) => destruct x
      end ].

Ltac steps_auto := repeat steps_step.

Section EngineSteps.

Variable StringToNumber : string -> jsnum.
Variable w : World.
Variable cfg : Config.
Variable rootId : string.

Lemma resolveRenameLoop_steps (remaining : nat) (attempt : Z)
  (candidate : UploadCandidate) :
  steps notDelete
    (resolveRenameLoop StringToNumber w cfg rootId remaining attempt candidate).
Proof.
  revert attempt. induction remaining as [|remaining IH]; intros attempt;
    cbn [resolveRenameLoop]; steps_auto.
Qed.

Lemma resolveRenameCandidate_steps (candidate : UploadCandidate) :
  steps notDelete (resolveRenameCandidate StringToNumber w cfg rootId candidate).
Proof. apply resolveRenameLoop_steps. Qed.
#[local] Hint Resolve resolveRenameCandidate_steps : steps.

Lemma applyStatusItem_steps (candidate : UploadCandidate)
  (statusItem : option StatusEntry) (loc : Plan.t) :
  steps notDelete
    (applyStatusItem StringToNumber w cfg rootId candidate statusItem loc).
Proof. unfold applyStatusItem. steps_auto. Qed.

(** Without the rename policy a matched result is classified without any
    interaction. *)
Lemma applyStatusItem_silent (P : Event -> Prop) (candidate : UploadCandidate)
  (statusItem : option StatusEntry) (loc : Plan.t) :
  effectiveConflictPolicy cfg <> rename ->
  steps P (applyStatusItem StringToNumber w cfg rootId candidate statusItem loc).
Proof.
  intros H. unfold applyStatusItem.
  destruct (effectiveConflictPolicy cfg); [| |congruence]; steps_auto.
Qed.

Lemma applyStatusLoop_steps (P : Event -> Prop) :
  (forall candidate statusItem loc,
      steps P (applyStatusItem StringToNumber w cfg rootId candidate statusItem loc)) ->
  forall batch index statusItems loc,
    steps P (applyStatusLoop StringToNumber w cfg rootId batch index statusItems loc).
Proof.
  intros H. induction batch as [|candidate rest IH]; intros index statusItems loc;
    cbn [applyStatusLoop]; steps_auto.
Qed.

Lemma applyStatusBatch_steps (batch : list UploadCandidate) (loc : Plan.t) :
  steps notDelete (applyStatusBatch StringToNumber w cfg rootId batch loc).
Proof.
  pose proof (applyStatusLoop_steps notDelete applyStatusItem_steps) as Hloop.
  unfold applyStatusBatch, fetchUploadStatusBatch. steps_auto.
Qed.

Lemma forallb_map_overwrite (base : string) (batch : list UploadCandidate) :
  forallb payloadOverwrite
    (map (fun candidate => buildStatusPayload base candidate true) batch) = true.
Proof.
  induction batch as [|c batch IH]; simpl; [reflexivity|].
  rewrite IH. unfold buildStatusPayload. now destruct (kind c).
Qed.

Lemma applyStatusBatch_overwrite_steps (batch : list UploadCandidate) (loc : Plan.t) :
  effectiveConflictPolicy cfg = overwrite ->
  steps overwritePlanningEvent
    (applyStatusBatch StringToNumber w cfg rootId batch loc).
Proof.
  intros H.
  assert (Ho : overwriteUploads cfg = true) by (unfold overwriteUploads; now rewrite H).
  assert (Hr : effectiveConflictPolicy cfg <> rename) by congruence.
  unfold applyStatusBatch, fetchUploadStatusBatch. rewrite Ho.
  destruct batch as [|c batch]; [apply steps_ret|].
  apply steps_bind.
  - apply steps_bind.
    + apply steps_interact. simpl. apply (forallb_map_overwrite _ (c :: batch)).
    + intros r. steps_auto.
  - intros statusItems. apply applyStatusLoop_steps. intros.
    now apply applyStatusItem_silent.
Qed.

Section Planning.

Variable P : Event -> Prop.
Hypothesis batch_steps :
  forall batch loc, steps P (applyStatusBatch StringToNumber w cfg rootId batch loc).

Lemma flushIfFull_steps (pending : list UploadCandidate) (loc : Plan.t) :
  steps P (flushIfFull StringToNumber w cfg rootId pending loc).
Proof. unfold flushIfFull. steps_auto. Qed.

Lemma flushRest_steps (pending : list UploadCandidate) (loc : Plan.t) :
  steps P (flushRest StringToNumber w cfg rootId pending loc).
Proof. unfold flushRest. steps_auto. Qed.

Lemma planFolderLoop_steps (folderCandidates : list UploadCandidate) :
  forall index pending loc,
    steps P (planFolderLoop StringToNumber w cfg rootId folderCandidates index
               pending loc).
Proof.
  pose proof flushIfFull_steps.
  induction folderCandidates as [|c rest IH]; intros index pending loc;
    cbn [planFolderLoop]; steps_auto.
Qed.

Lemma planFolder_steps :
  (forall uri, P (EvScan uri)) ->
  steps P (planFolder StringToNumber w cfg rootId).
Proof.
  intros Hscan. pose proof planFolderLoop_steps. pose proof flushRest_steps.
  unfold planFolder. steps_auto.
Qed.

End Planning.

Lemma planCamera_steps (fuel : nat) :
  steps notDelete (planCamera StringToNumber w cfg rootId fuel).
Proof.
  pose proof (flushIfFull_steps notDelete applyStatusBatch_steps) as Hfull.
  pose proof (flushRest_steps notDelete applyStatusBatch_steps) as Hrest.
  assert (Hasset : forall asset pending loc,
             steps notDelete
               (planCameraAsset StringToNumber w cfg rootId asset pending loc)).
  { intros. unfold planCameraAsset, monthBucketFromTime, normalizeTimestamp.
    steps_auto. }
  assert (Hassets : forall assets pending loc,
             steps notDelete
               (planCameraAssets StringToNumber w cfg rootId assets pending loc)).
  { induction assets as [|asset rest IH]; intros; cbn [planCameraAssets];
      steps_auto. }
  assert (Hpages : forall fuel' cursor pending loc,
             steps notDelete
               (planCameraPages StringToNumber w cfg rootId fuel' cursor pending loc)).
  { induction fuel' as [|fuel' IH]; intros; cbn [planCameraPages]; steps_auto. }
  unfold planCamera. steps_auto.
Qed.

Lemma uploadLoop_steps (fuel : nat) :
  forall candidate offset uploadedBytes,
    steps notDelete
      (uploadLoop StringToNumber w cfg rootId fuel candidate offset uploadedBytes).
Proof.
  induction fuel as [|fuel IH]; intros; cbn [uploadLoop]; steps_auto.
Qed.

Lemma uploadCandidate_steps (candidate : UploadCandidate) (uploaded' : Z)
  (uploadedBytes' : jsnum) :
  steps notDelete
    (uploadCandidate StringToNumber w cfg rootId candidate uploaded' uploadedBytes').
Proof.
  pose proof uploadLoop_steps. unfold uploadCandidate. steps_auto.
Qed.

Lemma uploadAll_steps (candidates : list UploadCandidate) :
  forall uploaded' uploadedBytes',
    steps notDelete
      (uploadAll StringToNumber w cfg rootId candidates uploaded' uploadedBytes').
Proof.
  pose proof uploadCandidate_steps.
  induction candidates as [|c rest IH]; intros; cbn [uploadAll]; steps_auto.
Qed.

Lemma fetchRemoteFilesLoop_steps (fuel : nat) :
  forall queue current remoteFiles,
    steps notDelete (fetchRemoteFilesLoop w rootId fuel queue current remoteFiles).
Proof.
  induction fuel as [|fuel IH]; intros; cbn [fetchRemoteFilesLoop]; steps_auto.
Qed.

End EngineSteps.

(* ------------------------------------------------------------------ *)
(** ** The effective conflict policy *)

Section PolicyClaims.

Variable StringToNumber : string -> jsnum.
Variable w : World.

(** C5.  With the folder source, mirror mode on and the policy set to
    [rename], the run resolves under [overwrite]: the planning phase makes
    no request but the folder scan and batch-status requests whose items
    all carry [overwrite], so no renamed name is ever probed.  In every
    other configuration the effective policy is the configured one. *)
Theorem mirror_excludes_rename (cfg : Config) (rootId : string) :
  (syncSource cfg = folder -> mirrorRemote cfg = true ->
   conflictPolicy cfg = rename ->
   effectiveConflictPolicy cfg = overwrite /\
   overwriteUploads cfg = true /\
   steps overwritePlanningEvent (planFolder StringToNumber w cfg rootId)) /\
  (~ (syncSource cfg = folder /\ mirrorRemote cfg = true /\
      conflictPolicy cfg = rename) ->
   effectiveConflictPolicy cfg = conflictPolicy cfg).
Proof.
  split.
  - intros Hs Hm Hp.
    assert (E : effectiveConflictPolicy cfg = overwrite)
      by (unfold effectiveConflictPolicy; now rewrite Hs, Hm, Hp).
    split; [exact E|]. split; [unfold overwriteUploads; now rewrite E|].
    apply planFolder_steps; [|intros; exact I].
    intros batch loc. now apply applyStatusBatch_overwrite_steps.
  - intros H. unfold effectiveConflictPolicy.
    destruct (syncSource cfg), (mirrorRemote cfg), (conflictPolicy cfg);
      try reflexivity.
    exfalso. apply H. auto.
Qed.

End PolicyClaims.

(* ------------------------------------------------------------------ *)
(** ** The folder walker *)

Section WalkerFacts.

Variable StringToNumber : string -> jsnum.

Local Abbreviation collectEntry' := (collectEntry StringToNumber).
Local Abbreviation collectLoop' := (collectLoop StringToNumber).

Lemma collectEntry_weight (relPath : string) (entries : list FsEntry) :
  forall stack scan,
    stackWeight (fst (fold_left (collectEntry' relPath) entries (stack, scan)))
    = (stackWeight stack + list_sum (map entryWeight entries))%nat.
Proof.
  induction entries as [|entry entries IH]; intros stack scan; simpl.
  - lia.
  - destruct entry as [name uri rawSize|name listing|]; simpl.
    + destruct (ToNumber StringToNumber (jsOr rawSize (JNum 0))) as [|z];
        [|destruct (_ || _)]; rewrite IH; lia.
    + rewrite IH. unfold stackWeight. simpl.
      destruct listing; simpl; lia.
    + rewrite IH. lia.
Qed.

(** The walker comes back on every finite tree. *)
Lemma collectLoop_returns (fuel : nat) :
  forall stack scan,
    (stackWeight stack < fuel)%nat -> collectLoop' fuel stack scan <> None.
Proof.
  induction fuel as [|fuel IH]; intros stack scan H; [lia|].
  destruct stack as [|[[entries|] relPath] stack']; cbn [collectLoop].
  - discriminate.
  - apply IH. rewrite collectEntry_weight.
    unfold stackWeight in *. simpl in H. lia.
  - apply IH. unfold stackWeight in *. simpl in H. lia.
Qed.

Lemma collectEntry_keeps (relPath : string) (entries : list FsEntry) :
  forall stack scan,
    let acc := fold_left (collectEntry' relPath) entries (stack, scan) in
    incl stack (fst acc) /\
    incl (scan_files scan) (scan_files (snd acc)) /\
    (forall name listing,
        In (FsDirectory name listing) entries ->
        In (listing, joinUploadPath [relPath; name]) (fst acc)) /\
    (forall name uri rawSize size',
        In (FsFile name uri rawSize) entries ->
        joinUploadPath [relPath; name] <> "" ->
        ToNumber StringToNumber (jsOr rawSize (JNum 0)) = Num size' ->
        0 <= size' ->
        In (mkLocalFile uri (joinUploadPath [relPath; name])
              (joinUploadPath [relPath; name]) size')
           (scan_files (snd acc))).
Proof.
  induction entries as [|entry entries IH]; intros stack scan.
  - simpl. repeat split; try apply incl_refl; intros; contradiction.
  - cbn [fold_left].
    set (acc1 := collectEntry' relPath (stack, scan) entry).
    destruct acc1 as [stack1 scan1] eqn:E1.
    specialize (IH stack1 scan1). cbv zeta in IH.
    destruct IH as (Hs & Hf & Hd & Hfile).
    assert (Hstack1 : incl stack stack1 /\ incl (scan_files scan) (scan_files scan1)).
    { unfold acc1, collectEntry in E1.
      destruct entry as [name uri rawSize|name listing|].
      - destruct (ToNumber StringToNumber (jsOr rawSize (JNum 0))) as [|z];
          [|destruct (_ || _)]; injection E1 as <- <-; simpl;
          split; try apply incl_refl.
        apply incl_appl, incl_refl.
      - injection E1 as <- <-. split; [apply incl_tl|]; apply incl_refl.
      - injection E1 as <- <-. split; apply incl_refl. }
    destruct Hstack1 as [Hs1 Hf1].
    cbv zeta. split; [|split; [|split]].
    + eapply incl_tran; eauto.
    + eapply incl_tran; eauto.
    + intros name listing [->|Hin]; [|eauto].
      apply Hs. unfold acc1, collectEntry in E1. injection E1 as <- <-. now left.
    + intros name uri rawSize size' [->|Hin] Hne Hsize Hpos; [|eauto].
      apply Hf. unfold acc1, collectEntry in E1. rewrite Hsize in E1.
      destruct (String.eqb_spec (joinUploadPath [relPath; name]) ""); [contradiction|].
      destruct (Z.ltb_spec size' 0); [lia|].
      simpl in E1. injection E1 as <- <-. simpl.
      apply in_or_app. right. now left.
Qed.

Lemma collectLoop_complete (fuel : nat) :
  forall stack scan result,
    collectLoop' fuel stack scan = Some result ->
    incl (scan_files scan) (scan_files result) /\
    (forall listing relPath file,
        In (listing, relPath) stack ->
        FileAt StringToNumber listing relPath file ->
        In file (scan_files result)).
Proof.
  induction fuel as [|fuel IH]; intros stack scan result H; [discriminate|].
  destruct stack as [|[[entries|] relPath] stack']; cbn [collectLoop] in H.
  - injection H as <-. split; [apply incl_refl|]. intros ? ? ? [].
  - pose proof (collectEntry_keeps relPath entries stack' scan) as K.
    cbv zeta in K. destruct K as (Ks & Kf & Kd & Kfile).
    destruct (IH _ _ _ H) as [Hi Hall].
    split; [eapply incl_tran; eauto|].
    intros listing rel file [[= <- <-]|Hin] Hat.
    + inversion Hat; subst.
      * apply Hi. eapply Kfile; eauto.
      * eapply Hall; [|eassumption]. eapply Kd; eauto.
    + eapply Hall; [|eassumption]. now apply Ks.
  - destruct (IH _ _ _ H) as [Hi Hall]. simpl in Hi.
    split; [assumption|].
    intros listing rel file [[= <- <-]|Hin] Hat.
    + inversion Hat.
    + eapply Hall; eauto.
Qed.

(** [collectLocalFolderFiles] returns, among others, the descriptor of
    every file of the tree that can be reached and has a usable path and
    size. *)
Lemma collectLocalFolderFiles_complete (root : option (list FsEntry))
  (file : LocalFolderFile) :
  FileAt StringToNumber root "" file ->
  In file (scan_files (collectLocalFolderFiles StringToNumber root)).
Proof.
  intros Hat. unfold collectLocalFolderFiles.
  destruct (collectLoop' (S (stackWeight [(root, "")])) [(root, "")] emptyScan)
    as [result|] eqn:E.
  - destruct (collectLoop_complete _ _ _ _ E) as [_ Hall].
    eapply Hall; [|exact Hat]. now left.
  - exfalso. revert E. apply collectLoop_returns. lia.
Qed.

End WalkerFacts.

(* ------------------------------------------------------------------ *)
(** ** The mirror pruner *)

Section MirrorClaims.

Variable StringToNumber : string -> jsnum.
Variable w : World.
Variable cfg : Config.
Variable rootId : string.

Lemma Verdict_targets (loc loc' : Plan.t) :
  Verdict loc loc' -> Plan.localMirrorTargets loc' = Plan.localMirrorTargets loc.
Proof. now intros []. Qed.

Lemma applyStatusLoop_targets (batch : list UploadCandidate) :
  forall index statusItems loc st,
  exists loc' st',
    applyStatusLoop StringToNumber w cfg rootId batch index statusItems loc st
      = (Returned loc', st') /\
    Plan.localMirrorTargets loc' = Plan.localMirrorTargets loc.
Proof.
  induction batch as [|candidate rest IH]; intros index statusItems loc st.
  - exists loc, st. split; reflexivity.
  - cbn [applyStatusLoop]. unfold bind at 1, isCancelled at 1.
    destruct (cancelledAt w (clock st)).
    + exists loc, st. split; reflexivity.
    + destruct (applyStatusItem_returns StringToNumber w cfg rootId candidate
                  (nth index statusItems None) loc st)
        as (loc1 & st1 & E & Hv & _ & _).
      rewrite (bind_Returned _ _ _ _ _ E).
      destruct (IH (S index) statusItems loc1 st1) as (loc' & st' & E' & Ht).
      exists loc', st'. split; [exact E'|].
      rewrite Ht. now apply Verdict_targets.
Qed.

Lemma applyStatusBatch_targets (batch : list UploadCandidate) (loc : Plan.t)
  (st : MState) :
  match fst (applyStatusBatch StringToNumber w cfg rootId batch loc st) with
  | Returned loc' => Plan.localMirrorTargets loc' = Plan.localMirrorTargets loc
  | _ => True
  end.
Proof.
  unfold applyStatusBatch. destruct batch as [|c batch]; [reflexivity|].
  unfold bind at 1.
  destruct (fetchUploadStatusBatch _ _ _ _ _ _ st) as [[statusItems|?|] st1];
    try exact I.
  destruct (applyStatusLoop_targets (c :: batch) 0 statusItems loc st1)
    as (loc' & st' & E & Ht).
  now rewrite E.
Qed.

Lemma flushIfFull_targets (pending : list UploadCandidate) (loc : Plan.t)
  (st : MState) :
  match fst (flushIfFull StringToNumber w cfg rootId pending loc st) with
  | Returned r => Plan.localMirrorTargets (snd r) = Plan.localMirrorTargets loc
  | _ => True
  end.
Proof.
  unfold flushIfFull. destruct (_ <=? _)%nat; [|reflexivity].
  unfold bind. pose proof (applyStatusBatch_targets pending loc st) as H.
  destruct (applyStatusBatch _ _ _ _ _ _ st) as [[loc'|?|] st1]; simpl in *; auto.
Qed.

Lemma planFolderLoop_targets (folderCandidates : list UploadCandidate) :
  forall index pending loc st,
  match planFolderLoop StringToNumber w cfg rootId folderCandidates index
          pending loc st with
  | (Returned r, st') =>
      incl (Plan.localMirrorTargets loc) (Plan.localMirrorTargets (snd r)) /\
      ((forall c, In c folderCandidates ->
                  In (remoteTarget c) (Plan.localMirrorTargets (snd r)))
       \/ cancelledAt w (clock st') = true)
  | _ => True
  end.
Proof.
  induction folderCandidates as [|c rest IH]; intros index pending loc st.
  - simpl. split; [apply incl_refl|]. left. intros c [].
  - cbn [planFolderLoop]. unfold bind at 1, isCancelled at 1.
    destruct (cancelledAt w (clock st)) eqn:Hc.
    + simpl. split; [apply incl_refl|]. now right.
    + set (loc1 := Plan.addMirrorTarget (remoteTarget c) loc).
      unfold bind at 1.
      destruct ((if Z.of_nat (S index) mod 10 =? 0
                 then setSyncProgress (Patch.planningCounts loc1) else ret tt) st)
        as [[[]| |] st1] eqn:E1;
        try (destruct (_ =? _); discriminate E1).
      unfold bind at 1.
      pose proof (flushIfFull_targets (pending ++ [c]) loc1 st1) as Hf.
      destruct (flushIfFull _ _ _ _ _ _ st1) as [[r1|?|] st2]; simpl in Hf; auto.
      specialize (IH (S index) (fst r1) (snd r1) st2).
      destruct (planFolderLoop _ _ _ _ _ _ _ _ st2) as [[r|?|] st3]; auto.
      destruct IH as [Hincl Hall].
      assert (Hin : In (remoteTarget c) (Plan.localMirrorTargets (snd r))).
      { apply Hincl. rewrite Hf. unfold loc1. simpl.
        apply set_add_intro2. reflexivity. }
      split.
      * intros t Ht. apply Hincl. rewrite Hf. unfold loc1. simpl.
        now apply set_add_intro1.
      * destruct Hall as [Hall|Hcan]; [|now right].
        left. intros c' [<-|Hc']; auto.
Qed.

Lemma flushRest_targets (pending : list UploadCandidate) (loc : Plan.t)
  (st : MState) :
  match flushRest StringToNumber w cfg rootId pending loc st with
  | (Returned loc', st') =>
      Plan.localMirrorTargets loc' = Plan.localMirrorTargets loc /\
      (cancelledAt w (clock st) = true -> st' = st)
  | _ => True
  end.
Proof.
  unfold flushRest, bind, isCancelled.
  destruct pending as [|c pending]; [split; auto|].
  destruct (cancelledAt w (clock st)); [split; auto|].
  pose proof (applyStatusBatch_targets (c :: pending) loc st) as H.
  destruct (applyStatusBatch _ _ _ _ _ _ st) as [[loc'|?|] st1]; simpl in *; auto.
  split; [assumption|discriminate].
Qed.

(** After planning a folder, the target of every scanned file is in the
    set of local targets, unless the run has been cancelled by then. *)
Lemma planFolder_targets (st : MState) (root : option (list FsEntry)) :
  w_localFolder w (clock st) (localFolderUri cfg) = HostOk root ->
  match planFolder StringToNumber w cfg rootId st with
  | (Returned loc, st') =>
      (forall c, In c (buildFolderCandidates
                         (scan_files (collectLocalFolderFiles StringToNumber root))
                         (uploadPathNormalized cfg)) ->
                 In (remoteTarget c) (Plan.localMirrorTargets loc))
      \/ cancelledAt w (clock st') = true
  | _ => True
  end.
Proof.
  intros Hscan. unfold planFolder. unfold bind at 1, interactOutcome at 1.
  rewrite Hscan. cbn [ofHost]. unfold bind at 1.
  match goal with
  | |- context [planFolderLoop _ _ _ _ ?cands ?i ?p ?l ?s] =>
      pose proof (planFolderLoop_targets cands i p l s) as Hloop;
      destruct (planFolderLoop StringToNumber w cfg rootId cands i p l s)
        as [[r|?|] st1]; auto
  end.
  destruct Hloop as [_ Hall].
  pose proof (flushRest_targets (fst r) (snd r) st1) as Hrest.
  destruct (flushRest _ _ _ _ _ _ st1) as [[loc'|?|] st2]; auto.
  destruct Hrest as [Ht Hsame].
  destruct Hall as [Hall|Hcan].
  - left. intros c Hc. rewrite Ht. auto.
  - right. now rewrite (Hsame Hcan).
Qed.

(** *** Deleting *)

Lemma slices_incl {A : Type} (fuel n : nat) :
  forall (l batch : list A) (x : A),
    In batch (slices fuel n l) -> In x batch -> In x l.
Proof.
  induction fuel as [|fuel IH]; intros l batch x Hb Hx; simpl in Hb; [contradiction|].
  destruct l as [|h t]; [contradiction|].
  rewrite <- (firstn_skipn n (h :: t)). apply in_or_app.
  destruct Hb as [<-|Hb]; [now left|right]. eapply IH; eauto.
Qed.

Lemma toDelete_spares (remoteFiles localMirrorTargets : list string) (p : string) :
  In p (toDelete remoteFiles localMirrorTargets) -> ~ In p localMirrorTargets.
Proof.
  unfold toDelete. intros H. apply filter_In in H as [_ H].
  apply negb_true_iff in H. now apply set_mem_complete1 in H.
Qed.

Lemma toDelete_exact (remoteFiles localMirrorTargets : list string) (p : string) :
  In p (toDelete remoteFiles localMirrorTargets) <->
  In p remoteFiles /\ ~ In p localMirrorTargets.
Proof.
  unfold toDelete. rewrite filter_In, negb_true_iff. split.
  - intros [H1 H2]. split; [assumption|]. now apply set_mem_complete1 in H2.
  - intros [H1 H2]. split; [assumption|]. now apply set_mem_complete2.
Qed.

Lemma deleteLoop_steps (targets : list string) (batches : list (list string)) :
  (forall batch p, In batch batches -> In p batch -> ~ In p targets) ->
  forall remoteDeleted' remoteDeleteFailed',
    steps (deleteSpares targets)
      (deleteLoop w rootId batches remoteDeleted' remoteDeleteFailed').
Proof.
  induction batches as [|batch rest IH]; intros H d f; cbn [deleteLoop].
  - apply steps_ret.
  - assert (Hrest : forall d' f', steps (deleteSpares targets)
                                    (deleteLoop w rootId rest d' f')).
    { apply IH. intros b p Hb. apply H. now right. }
    apply steps_bind; [apply steps_isCancelled|intros stop].
    destruct stop; [apply steps_ret|].
    apply steps_bind.
    + apply steps_interact. simpl. intros p Hp. apply (H batch); [now left|assumption].
    + intros deleteOk. steps_auto.
Qed.

Lemma mirrorPrune_steps (fuel : nat) (loc : Plan.t) (targets : list string) :
  incl targets (Plan.localMirrorTargets loc) ->
  steps (deleteSpares targets) (mirrorPrune w cfg rootId fuel loc).
Proof.
  intros Hincl. unfold mirrorPrune, fetchRemoteFilesForMirror.
  apply steps_bind; [apply steps_setSyncProgress|intros _].
  apply steps_bind.
  - eapply steps_weaken; [|apply fetchRemoteFilesLoop_steps].
    intros [] H; simpl in *; auto; contradiction.
  - intros remoteFiles. apply deleteLoop_steps.
    intros batch p Hb Hp Ht.
    apply (slices_incl _ _ _ _ _ Hb) in Hp.
    apply toDelete_spares in Hp. apply Hp, Hincl, Ht.
Qed.

Lemma notDelete_spares (targets : list string) (ev : Event) :
  notDelete ev -> deleteSpares targets ev.
Proof. destruct ev; simpl; auto; contradiction. Qed.

Lemma afterPlanning_spares (fuel : nat) (loc : Plan.t) (targets : list string)
  (st : MState) :
  (syncSource cfg = folder ->
   incl targets (Plan.localMirrorTargets loc) \/ cancelledAt w (clock st) = true) ->
  exists evs,
    trace (snd (afterPlanning StringToNumber w cfg rootId fuel loc st))
      = (trace st ++ evs)%list /\
    Forall (deleteSpares targets) evs.
Proof.
  intros H. unfold afterPlanning. unfold bind at 1, isCancelled at 1.
  destruct (cancelledAt w (clock st)) eqn:Hc.
  - exists []. simpl. now rewrite app_nil_r.
  - match goal with
    | |- context [snd (?m st)] =>
        assert (Hm : steps (deleteSpares targets) m); [|exact (proj2 (Hm st))]
    end.
    apply steps_bind; [apply steps_setSyncProgress|intros _].
    apply steps_bind.
    { eapply steps_weaken; [apply notDelete_spares|apply uploadAll_steps]. }
    intros r. apply steps_bind; [apply steps_isCancelled|intros stop'].
    apply steps_bind.
    { destruct (negb stop' && SyncSource_eqb (syncSource cfg) folder
                && mirrorRemote cfg) eqn:E; [|apply steps_ret].
      apply andb_true_iff in E as [E _]. apply andb_true_iff in E as [_ E].
      apply mirrorPrune_steps.
      destruct (syncSource cfg); [discriminate|].
      destruct (H eq_refl) as [Hi|Hi]; [assumption|congruence]. }
    intros counts. steps_auto.
Qed.

End MirrorClaims.

Section MirrorRun.

Variable StringToNumber : string -> jsnum.
Variable w : World.
Variable cfg : Config.

(** The remote targets of the files that the walker returns. *)
Lemma scanned_target (folderListing : option (list FsEntry)) (file : LocalFolderFile) :
  In file (scan_files (collectLocalFolderFiles StringToNumber folderListing)) ->
  In (joinUploadPath [uploadPathNormalized cfg; lf_relativePath file])
     (map remoteTarget
        (buildFolderCandidates
           (scan_files (collectLocalFolderFiles StringToNumber folderListing))
           (uploadPathNormalized cfg))).
Proof.
  intros H. unfold buildFolderCandidates. rewrite map_map. simpl.
  apply in_map_iff. now exists file.
Qed.

Lemma runBody_spares (root : string) (fuel : nat) (st : MState)
  (folderListing : option (list FsEntry)) :
  w_localFolder w (clock st) (localFolderUri cfg) = HostOk folderListing ->
  exists evs,
    trace (snd (runBody StringToNumber w cfg root fuel st)) = (trace st ++ evs)%list /\
    Forall (deleteSpares
              (map remoteTarget
                 (buildFolderCandidates
                    (scan_files (collectLocalFolderFiles StringToNumber folderListing))
                    (uploadPathNormalized cfg)))) evs.
Proof.
  intros Hscan.
  set (targets := map remoteTarget _).
  unfold runBody, planRun. destruct (syncSource cfg) eqn:Hsrc.
  - unfold bind at 1.
    destruct (planCamera_steps StringToNumber w cfg root fuel st)
      as (_ & evs1 & Ht1 & Hp1).
    assert (Hp1' : Forall (deleteSpares targets) evs1)
      by (eapply Forall_impl; [apply notDelete_spares|exact Hp1]).
    destruct (planCamera _ _ _ _ _ st) as [[[loc|]|?|] st1]; simpl in Ht1;
      try (exists evs1; split; [exact Ht1|exact Hp1']).
    destruct (afterPlanning_spares StringToNumber w cfg root fuel loc targets st1)
      as (evs2 & Ht2 & Hp2); [intros; congruence|].
    exists (evs1 ++ evs2)%list. rewrite Ht2, Ht1, app_assoc.
    split; [reflexivity|]. now apply Forall_app.
  - unfold bind at 1. unfold bind at 1.
    destruct (planFolder_steps StringToNumber w cfg root notDelete
                (applyStatusBatch_steps StringToNumber w cfg root)
                (fun _ => I) st)
      as (_ & evs1 & Ht1 & Hp1).
    assert (Hp1' : Forall (deleteSpares targets) evs1)
      by (eapply Forall_impl; [apply notDelete_spares|exact Hp1]).
    pose proof (planFolder_targets StringToNumber w cfg root st folderListing Hscan)
      as Htargets.
    destruct (planFolder _ _ _ _ st) as [[loc|?|] st1]; simpl in Ht1;
      try (exists evs1; split; [exact Ht1|exact Hp1']).
    cbn [ret].
    destruct (afterPlanning_spares StringToNumber w cfg root fuel loc targets st1)
      as (evs2 & Ht2 & Hp2).
    { intros _. destruct Htargets as [Hall|Hcan]; [left|now right].
      intros t Ht. unfold targets in Ht. apply in_map_iff in Ht as (c & <- & Hc).
      now apply Hall. }
    exists (evs1 ++ evs2)%list. rewrite Ht2, Ht1, app_assoc.
    split; [reflexivity|]. now apply Forall_app.
Qed.

(** C9, as the code has it.  Whatever the server answers and whenever the
    user cancels, a run never asks the server to delete the remote target
    of a local file that the folder walker returned, that is, of a file
    of the folder that can be reached through directories that can be
    listed and has a relative path that is not empty and a size that is a
    number and not negative: the target of each of them is in the set of
    local targets before the status of that file is resolved, and the
    pruner deletes only remote paths outside that set.  This holds for
    files whose resolution or upload was skipped or failed as well.  A
    file that the walker counts as discovered and then rejects is not
    among them. *)
Theorem mirror_spares_local_files (fuel : nat) (st : MState)
  (folderListing : option (list FsEntry)) :
  w_localFolder w (clock st) (localFolderUri cfg) = HostOk folderListing ->
  exists evs,
    trace (snd (runSync StringToNumber w cfg fuel st)) = (trace st ++ evs)%list /\
    forall file root paths,
      In file (scan_files (collectLocalFolderFiles StringToNumber folderListing))
      \/ FileAt StringToNumber folderListing "" file ->
      In (EvDelete root paths) evs ->
      ~ In (joinUploadPath [uploadPathNormalized cfg; lf_relativePath file]) paths.
Proof.
  intros Hscan.
  set (targets :=
         map remoteTarget
           (buildFolderCandidates
              (scan_files (collectLocalFolderFiles StringToNumber folderListing))
              (uploadPathNormalized cfg))).
  assert (Hgoal : exists evs,
             trace (snd (runSync StringToNumber w cfg fuel st)) = (trace st ++ evs)%list /\
             Forall (deleteSpares targets) evs).
  2:{ destruct Hgoal as (evs & Ht & Hall). exists evs. split; [assumption|].
      intros file root paths Hfile Hin Hp. rewrite Forall_forall in Hall.
      apply (Hall _ Hin _ Hp). apply scanned_target.
      destruct Hfile as [Hfile|Hfile]; [assumption|].
      now apply collectLocalFolderFiles_complete. }
  assert (Hnil : forall s : MState, exists evs,
             trace s = (trace s ++ evs)%list /\ Forall (deleteSpares targets) evs)
    by (intros s; exists []; now rewrite app_nil_r).
  unfold runSync.
  destruct (syncRunning cfg); [apply Hnil|].
  destruct (selectedRoot cfg) as [root|]; [|apply (Hnil st)].
  destruct (negb (uploadEnabled cfg)); [apply (Hnil st)|].
  destruct (SyncSource_eqb (syncSource cfg) folder && _); [apply (Hnil st)|].
  pose (st0 := {| clock := clock st; trace := trace st; running := true;
                  progress := Patch.planningStart |}).
  destruct (runBody_spares root fuel st0 folderListing Hscan) as (evs & Ht & Hall).
  exists evs. split; [|exact Hall].
  unfold bind, setSyncRunning, setSyncProgress, tryFinally, tryCatch.
  match goal with
  | |- context [runBody _ _ _ _ _ ?s] => change s with st0
  end.
  destruct (runBody StringToNumber w cfg root fuel st0) as [[[]|message|] st1];
    simpl in *; exact Ht.
Qed.

End MirrorRun.

(* ------------------------------------------------------------------ *)
(** ** The chunked upload executor *)

Lemma chunkBytes_pos (StringToNumber : string -> jsnum) (cfg : Config) :
  MIN_CHUNK_BYTES <= chunkBytes StringToNumber cfg <= MAX_CHUNK_BYTES.
Proof.
  unfold chunkBytes, MIN_CHUNK_BYTES, MAX_CHUNK_BYTES.
  destruct (ToNumber _ _) as [|z]; [lia|]. destruct (z <=? 0); lia.
Qed.

Section ExecutorFacts.

Variable StringToNumber : string -> jsnum.
Variable w : World.
Variable cfg : Config.
Variable rootId : string.

Local Abbreviation uploadLoop' := (uploadLoop StringToNumber w cfg rootId).
Local Abbreviation uploadCandidate' := (uploadCandidate StringToNumber w cfg rootId).
Local Abbreviation uploadAll' := (uploadAll StringToNumber w cfg rootId).

Local Abbreviation readEvent' := (readEvent StringToNumber cfg).
Local Abbreviation chunkUrlAt' := (chunkUrlAt cfg rootId).
Local Abbreviation recoverUrl' := (recoverUrl cfg rootId).
Local Abbreviation afterChunk' := (afterChunk StringToNumber cfg rootId).

Section Turn.

Variable candidate : UploadCandidate.
Variable offset : Z.
Variable uploadedBytes' : jsnum.
Variable st : MState.
Variable fuel : nat.
Variable n : nat.

Hypothesis Hbelow : offset < size candidate.
Hypothesis Hrunning : cancelledAt w (clock st) = false.
Hypothesis Hread :
  w_readBytes w (clock st) (localUri candidate) offset
    (Z.min (chunkBytes StringToNumber cfg) (size candidate - offset)) = HostOk (S n).

Lemma uploadLoop_turn :
  uploadLoop' (S fuel) candidate (Num offset) uploadedBytes' st =
  match w_chunk w (S (clock st)) (chunkUrlAt' candidate offset) (S n) with
  | ChunkRejected message =>
      (Thrown message, afterChunk' candidate offset (S n) st)
  | ChunkError code message =>
      if isStr code "offset_mismatch" then
        match w_status w (S (S (clock st))) (recoverUrl' candidate) with
        | ApiError _ message' =>
            (Thrown (errorMessage message' "Failed to recover upload offset"),
             tick (EvStatus (recoverUrl' candidate))
               (afterChunk' candidate offset (S n) st))
        | ApiOk data =>
            let serverOffset := offsetOfField StringToNumber (d_offset data) in
            if jsLe serverOffset (Num offset) then
              (Thrown "Upload offset mismatch could not be resolved",
               tick (EvStatus (recoverUrl' candidate))
                 (afterChunk' candidate offset (S n) st))
            else
              let bytes := jsAdd uploadedBytes' (jsSub serverOffset (Num offset)) in
              uploadLoop' fuel candidate serverOffset bytes
                (patched (Patch.chunkDone bytes serverOffset)
                   (tick (EvStatus (recoverUrl' candidate))
                      (afterChunk' candidate offset (S n) st)))
        end
      else
        (Thrown (errorMessage message "Chunk upload failed"),
         afterChunk' candidate offset (S n) st)
  | ChunkOk dataOffset =>
      let nextOffset :=
        jsMax (Num (offset + Z.of_nat (S n)))
          (ToNumber StringToNumber (jsOr dataOffset (JNum 0))) in
      let bytes :=
        jsAdd uploadedBytes' (jsMax (Num 0) (jsSub nextOffset (Num offset))) in
      uploadLoop' fuel candidate nextOffset bytes
        (patched (Patch.chunkDone bytes nextOffset)
           (afterChunk' candidate offset (S n) st))
  end.
Proof.
  cbn [uploadLoop].
  destruct (Z.ltb_spec offset (size candidate)); [|lia]. cbn [negb].
  unfold bind at 1, isCancelled at 1. rewrite Hrunning.
  unfold bind at 1, interactOutcome at 1. rewrite Hread. cbn [ofHost].
  unfold bind at 1, interact at 1. cbn [clock tick].
  fold (readEvent' candidate offset). fold (chunkUrlAt' candidate offset).
  fold (recoverUrl' candidate). unfold afterChunk.
  destruct (w_chunk w (S (clock st)) (chunkUrlAt' candidate offset) (S n))
    as [message|dataOffset|code message]; try reflexivity.
  destruct (isStr code "offset_mismatch"); [|reflexivity].
  unfold bind at 1, interact at 1. cbn [clock tick].
  destruct (w_status w (S (S (clock st))) (recoverUrl' candidate)) as [data|c m];
    [|reflexivity].
  cbv zeta. destruct (jsLe _ _); reflexivity.
Qed.

End Turn.

Lemma uploadLoop_NaN (fuel : nat) (candidate : UploadCandidate)
  (uploadedBytes' : jsnum) (st : MState) :
  uploadLoop' fuel candidate NaN uploadedBytes' st
  = (Returned (NaN, uploadedBytes'), st).
Proof. destruct fuel; reflexivity. Qed.

(** Along the loop the offset never goes back; a loop that comes back
    below the size was cancelled; when the answers of the server to the
    requests of this candidate and the reads keep within the size, so does
    the offset; and a loop that runs out of fuel had less fuel than bytes
    left. *)
Lemma uploadLoop_final (fuel : nat) :
  forall candidate offset uploadedBytes' st,
  match uploadLoop' fuel candidate (Num offset) uploadedBytes' st with
  | (Returned (Num final, _), st') =>
      offset <= final /\
      (final < size candidate -> cancelledAt w (clock st') = true) /\
      (serverWithinSize StringToNumber w cfg rootId candidate ->
       readsWithinCount w ->
       offset <= size candidate -> final <= size candidate)
  | (Returned (NaN, _), _) => True
  | (Thrown _, _) => True
  | (Diverged, _) => Z.of_nat fuel < size candidate - offset
  end.
Proof.
  induction fuel as [|fuel IH]; intros candidate offset ub st.
  - cbn [uploadLoop]. destruct (Z.ltb_spec offset (size candidate)); cbn [negb].
    + unfold bind, isCancelled. destruct (cancelledAt w (clock st)) eqn:Hc; simpl.
      * repeat split; auto; lia.
      * lia.
    + simpl. repeat split; intros; lia.
  - destruct (Z.ltb_spec offset (size candidate)) as [Hlt|Hge].
    2:{ cbn [uploadLoop]. destruct (Z.ltb_spec offset (size candidate)); [lia|].
        simpl. repeat split; intros; lia. }
    destruct (cancelledAt w (clock st)) eqn:Hc.
    { cbn [uploadLoop]. destruct (Z.ltb_spec offset (size candidate)); [|lia].
      cbn [negb]. unfold bind at 1, isCancelled at 1. rewrite Hc. simpl.
      repeat split; auto; lia. }
    destruct (w_readBytes w (clock st) (localUri candidate) offset
                (Z.min (chunkBytes StringToNumber cfg) (size candidate - offset)))
      as [[|n]|message] eqn:Hread.
    + cbn [uploadLoop]. destruct (Z.ltb_spec offset (size candidate)); [|lia].
      cbn [negb]. unfold bind at 1, isCancelled at 1. rewrite Hc.
      unfold bind at 1, interactOutcome at 1. now rewrite Hread.
    + rewrite (uploadLoop_turn candidate offset ub st fuel n Hlt Hc Hread).
      destruct (w_chunk _ _ _ _) as [message|dataOffset|code message] eqn:Hchunk;
        auto.
      * cbv zeta.
        destruct (ToNumber StringToNumber (jsOr dataOffset (JNum 0))) as [|s] eqn:Hs;
          [cbn [jsMax]; now rewrite uploadLoop_NaN|].
        cbn [jsMax].
        match goal with
        | |- context [uploadLoop' fuel candidate (Num ?o) ?b ?s'] =>
            specialize (IH candidate o b s');
            destruct (uploadLoop' fuel candidate (Num o) b s')
              as [[[[|final] ub']|?|] st']; auto
        end; [|lia].
        destruct IH as (I1 & I2 & I3). split; [lia|]. split; [assumption|].
        intros Hserver Hreads Ho. apply I3; auto.
        pose proof (chunkBytes_pos StringToNumber cfg) as Hcb.
        unfold MIN_CHUNK_BYTES, MAX_CHUNK_BYTES in Hcb.
        assert (Z.of_nat (S n) <=
                Z.min (chunkBytes StringToNumber cfg) (size candidate - offset))
          by (eapply Hreads; [|exact Hread]; lia).
        assert (Hfit : offset + Z.of_nat (S n) <= size candidate) by lia.
        pose proof (proj1 Hserver _ _ _ _ _ Hfit Hchunk Hs). lia.
      * destruct (isStr code "offset_mismatch"); auto.
        destruct (w_status _ _ _) as [data|c m] eqn:Hstatus; auto.
        cbv zeta.
        destruct (offsetOfField StringToNumber (d_offset data)) as [|s] eqn:Hs.
        { cbn [jsLe]. now rewrite uploadLoop_NaN. }
        cbn [jsLe]. destruct (Z.leb_spec s offset); auto.
        match goal with
        | |- context [uploadLoop' fuel candidate (Num ?o) ?b ?s'] =>
            specialize (IH candidate o b s');
            destruct (uploadLoop' fuel candidate (Num o) b s')
              as [[[[|final] ub']|?|] st']; auto
        end; [|lia].
        destruct IH as (I1 & I2 & I3). split; [lia|]. split; [assumption|].
        intros Hserver Hreads Ho. apply I3; auto.
        exact (proj2 Hserver _ _ _ Hstatus Hs).
    + cbn [uploadLoop]. destruct (Z.ltb_spec offset (size candidate)); [|lia].
      cbn [negb]. unfold bind at 1, isCancelled at 1. rewrite Hc.
      unfold bind at 1, interactOutcome at 1. now rewrite Hread.
Qed.

(** With the fuel that [uploadCandidate] gives it the loop never runs out. *)
Lemma uploadLoop_enough_fuel (candidate : UploadCandidate) (offset : Z)
  (fuel : nat) (uploadedBytes' : jsnum) (st : MState) :
  size candidate - offset <= Z.of_nat fuel ->
  fst (uploadLoop' fuel candidate (Num offset) uploadedBytes' st) <> Diverged.
Proof.
  intros H E. pose proof (uploadLoop_final fuel candidate offset uploadedBytes' st) as F.
  destruct (uploadLoop' fuel candidate (Num offset) uploadedBytes' st) as [[|?|] st'];
    simpl in E; try discriminate. lia.
Qed.


End ExecutorFacts.

(* ------------------------------------------------------------------ *)
(** ** A failed chunk ends the run *)

Section Keeps.

Variable R : MState -> MState -> Prop.
Hypothesis R_refl : forall st, R st st.
Hypothesis R_trans : forall a b c, R a b -> R b c -> R a c.
Hypothesis R_tick : forall ev st, R st (tick ev st).

Context {A : Type}.

Lemma keeps_ret (a : A) : keeps R (ret a).
Proof. intros st. apply R_refl. Qed.

Lemma keeps_throw (message : string) : keeps R (@throw A message).
Proof. intros st. apply R_refl. Qed.

Lemma keeps_diverge : keeps R (@diverge A).
Proof. intros st. apply R_refl. Qed.

Lemma keeps_interact (ev : Event) (oracle : nat -> A) : keeps R (interact ev oracle).
Proof. intros st. apply R_tick. Qed.

Lemma keeps_interactOutcome (ev : Event) (oracle : nat -> HostResult A) :
  keeps R (interactOutcome ev oracle).
Proof. intros st. apply R_tick. Qed.

Lemma keeps_bind {B : Type} (m : M B) (k : B -> M A) :
  keeps R m -> (forall b, keeps R (k b)) -> keeps R (bind m k).
Proof.
  intros Hm Hk st. unfold bind. specialize (Hm st).
  destruct (m st) as [[b|message|] st1]; simpl in *; try exact Hm.
  eapply R_trans; [exact Hm|apply Hk].
Qed.

Lemma keeps_tryFinally (body : M A) (cleanup : M unit) :
  keeps R body -> keeps R cleanup -> keeps R (tryFinally body cleanup).
Proof.
  intros Hm Hk st. unfold tryFinally. specialize (Hm st).
  destruct (body st) as [[b|message|] st1]; simpl in *; try exact Hm;
    (eapply R_trans; [exact Hm|apply Hk]).
Qed.

End Keeps.

Lemma sameFailed_refl (st : MState) : sameFailed st st.
Proof. reflexivity. Qed.

Lemma sameFailed_trans (a b c : MState) :
  sameFailed a b -> sameFailed b c -> sameFailed a c.
Proof. unfold sameFailed. congruence. Qed.

Lemma sameFailed_tick (ev : Event) (st : MState) : sameFailed st (tick ev st).
Proof. reflexivity. Qed.

Lemma keeps_patch (f : SyncProgress -> SyncProgress) :
  (forall p, failed (f p) = failed p) -> keeps sameFailed (setSyncProgress f).
Proof. intros H st. apply H. Qed.

Ltac keeps_step :=
  first
    [ solve [auto with steps]
    | progress cbv zeta
    | apply (keeps_ret _ sameFailed_refl)
    | apply (keeps_throw _ sameFailed_refl)
    | apply (keeps_diverge _ sameFailed_refl)
    | apply (keeps_interact _ sameFailed_tick)
    | apply (keeps_interactOutcome _ sameFailed_tick)
    | apply keeps_patch; reflexivity
    | intros ?; reflexivity
    | match goal with
      | |- keeps _ (bind _ _) =>
          apply (keeps_bind _ sameFailed_trans); [|intros ?]
      | |- keeps _ (tryFinally _ _) =>
          apply (keeps_tryFinally _ sameFailed_trans)
      | |- keeps _ (if ?b then _ else _) => destruct b
      | |- keeps _ (match ?x with _ => _ end) => destruct x
      end ].

Section ExecutorFailure.

Variable StringToNumber : string -> jsnum.
Variable w : World.
Variable cfg : Config.
Variable rootId : string.

Local Abbreviation uploadLoop' := (uploadLoop StringToNumber w cfg rootId).
Local Abbreviation uploadCandidate' := (uploadCandidate StringToNumber w cfg rootId).
Local Abbreviation uploadAll' := (uploadAll StringToNumber w cfg rootId).
Local Abbreviation chunkUrlAt' := (chunkUrlAt cfg rootId).
Local Abbreviation recoverUrl' := (recoverUrl cfg rootId).
Local Abbreviation afterChunk' := (afterChunk StringToNumber cfg rootId).

Lemma uploadLoop_keeps_failed (fuel : nat) :
  forall candidate offset uploadedBytes',
    keeps sameFailed (uploadLoop' fuel candidate offset uploadedBytes').
Proof.
  induction fuel as [|fuel IH]; intros; cbn [uploadLoop]; repeat keeps_step.
Qed.

Lemma uploadCandidate_keeps_failed (candidate : UploadCandidate) (uploaded' : Z)
  (uploadedBytes' : jsnum) :
  keeps sameFailed (uploadCandidate' candidate uploaded' uploadedBytes').
Proof.
  pose proof uploadLoop_keeps_failed. unfold uploadCandidate. repeat keeps_step.
Qed.

(** The upload phase never touches the failed counter. *)
Lemma uploadAll_keeps_failed (candidates : list UploadCandidate) :
  forall uploaded' uploadedBytes',
    keeps sameFailed (uploadAll' candidates uploaded' uploadedBytes').
Proof.
  pose proof uploadCandidate_keeps_failed.
  induction candidates as [|c rest IH]; intros; cbn [uploadAll]; repeat keeps_step.
Qed.

(** The state in which the loop of [candidate] starts. *)
Lemma uploadCandidate_throws (candidate : UploadCandidate) (uploaded' : Z)
  (uploadedBytes' : jsnum) (st st' : MState) (message : string) :
  w_open w (clock st) (localUri candidate) = HostOk tt ->
  uploadLoop' (uploadFuel candidate) candidate (Num (startOffset candidate))
    uploadedBytes'
    (patched (Patch.candidateStart candidate (startOffset candidate)
                uploaded' uploadedBytes')
       (tick (EvOpen (localUri candidate)) st))
    = (Thrown message, st') ->
  uploadCandidate' candidate uploaded' uploadedBytes' st
    = (Thrown message, tick (EvClose (localUri candidate)) st').
Proof.
  intros Hopen Hloop. unfold uploadCandidate.
  unfold bind at 1, interactOutcome at 1. rewrite Hopen. cbn [ofHost].
  unfold tryFinally. unfold bind at 1, setSyncProgress at 1.
  unfold bind at 1. rewrite Hloop. reflexivity.
Qed.

Lemma uploadAll_throws (candidate : UploadCandidate) (rest : list UploadCandidate)
  (uploaded' : Z) (uploadedBytes' : jsnum) (st st' : MState) (message : string) :
  cancelledAt w (clock st) = false ->
  uploadCandidate' candidate uploaded' uploadedBytes' st = (Thrown message, st') ->
  uploadAll' (candidate :: rest) uploaded' uploadedBytes' st = (Thrown message, st').
Proof.
  intros Hc E. cbn [uploadAll]. unfold bind at 1, isCancelled at 1. rewrite Hc.
  unfold bind. now rewrite E.
Qed.

Lemma uploadAll_next (candidate : UploadCandidate) (rest : list UploadCandidate)
  (uploaded' : Z) (uploadedBytes' : jsnum) (st st' : MState) (r : Z * jsnum) :
  cancelledAt w (clock st) = false ->
  uploadCandidate' candidate uploaded' uploadedBytes' st = (Returned r, st') ->
  uploadAll' (candidate :: rest) uploaded' uploadedBytes' st
  = uploadAll' rest (fst r) (snd r) st'.
Proof.
  intros Hc E. cbn [uploadAll]. unfold bind at 1, isCancelled at 1. rewrite Hc.
  unfold bind. now rewrite E.
Qed.

Lemma afterPlanning_throws (fuel : nat) (loc : Plan.t) (st st' : MState)
  (message : string) :
  cancelledAt w (clock st) = false ->
  uploadAll' (Plan.candidates loc) 0 (Num 0) (patched (Patch.uploadStart loc) st)
    = (Thrown message, st') ->
  afterPlanning StringToNumber w cfg rootId fuel loc st = (Thrown message, st') /\
  failed (progress st') = Plan.failed loc.
Proof.
  intros Hc E. split.
  - unfold afterPlanning. unfold bind at 1, isCancelled at 1. rewrite Hc.
    unfold bind at 1, setSyncProgress at 1. unfold bind at 1. now rewrite E.
  - pose proof (uploadAll_keeps_failed (Plan.candidates loc) 0 (Num 0)
                  (patched (Patch.uploadStart loc) st)) as K.
    rewrite E in K. exact K.
Qed.

End ExecutorFailure.

Section RunFailure.

Variable StringToNumber : string -> jsnum.
Variable w : World.
Variable cfg : Config.

Lemma runSync_validated (root : string) (fuel : nat) (st : MState) :
  validated cfg root ->
  runSync StringToNumber w cfg fuel st =
  tryFinally
    (tryCatch (runBody StringToNumber w cfg root fuel)
       (fun message =>
          setSyncProgress (Patch.failedWith (toErrorMessage message "Sync failed."))))
    (setSyncRunning false) (started st).
Proof.
  intros (H1 & H2 & H3 & H4). unfold runSync. now rewrite H1, H2, H3, H4.
Qed.


End RunFailure.

(* ------------------------------------------------------------------ *)
(** ** The properties on the scenarios *)

Section OnScenarios.

Import Scenario.

Local Abbreviation root := "root1"%string.

(** C1 as the specification words it fails: the server reports [ready]
    with an offset equal to the size, and the candidate is planned, with
    nothing left to send, instead of skipped. *)
Lemma ready_at_full_offset_is_planned :
  offsetOf noStrings (entry (JNum 0) "ready" 10) = Num (size photoA) /\
  jsGe (offsetOf noStrings (entry (JNum 0) "ready" 10)) (Num (size photoA)) = true /\
  exists loc st',
    applyStatusBatch noStrings readyAtFullOffset (settings false skip) root
      [photoA] Plan.empty initialState = (Returned loc, st') /\
    Plan.skipped loc = 0 /\
    List.length (Plan.candidates loc) = 1%nat /\
    map initialOffset (Plan.candidates loc) = [10].
Proof.
  split; [reflexivity|]. split; [reflexivity|].
  eexists _, _. split; [vm_compute; reflexivity|]. repeat split.
Qed.

Lemma complete_is_skipped_witness :
  applyStatusItem noStrings readyAtFullOffset (settings false overwrite) root
    photoA (Some (entry (JNum 0) "complete" 0)) Plan.empty initialState
  = (Returned (Plan.addSkipped Plan.empty), initialState) /\
  applyStatusItem noStrings readyAtFullOffset (settings false rename) root
    photoA (Some (entry (JNum 0) "error" 10)) Plan.empty initialState
  = (Returned (Plan.addSkipped Plan.empty), initialState).
Proof.
  split.
  - apply (complete_is_skipped noStrings readyAtFullOffset (settings false overwrite)
             root photoA (entry (JNum 0) "complete" 0) Plan.empty initialState).
    + discriminate.
    + left. reflexivity.
  - apply (complete_is_skipped noStrings readyAtFullOffset (settings false rename)
             root photoA (entry (JNum 0) "error" 10) Plan.empty initialState).
    + discriminate.
    + right. reflexivity.
Defined.

(** C3 as the specification words it fails: under [overwrite] a result
    [exists] is counted failed, and nothing is planned. *)
Lemma exists_under_overwrite_is_failed :
  uploadStatusOf (entry (JNum 0) "exists" 0) = "exists" /\
  effectiveConflictPolicy (settings false overwrite) = overwrite /\
  exists loc st',
    applyStatusBatch noStrings existsAnyway (settings false overwrite) root
      [photoA] Plan.empty initialState = (Returned loc, st') /\
    Plan.candidates loc = [] /\ Plan.failed loc = 1 /\ Plan.skipped loc = 0.
Proof.
  split; [reflexivity|]. split; [reflexivity|].
  eexists _, _. split; [vm_compute; reflexivity|]. repeat split.
Qed.

Lemma exists_policy_coverage_witness :
  applyStatusItem noStrings existsAnyway (settings false skip) root
    photoA (Some (entry (JNum 0) "exists" 0)) Plan.empty initialState
  = (Returned (Plan.addSkipped Plan.empty), initialState) /\
  applyStatusItem noStrings existsAnyway (settings false overwrite) root
    photoA (Some (entry (JNum 0) "exists" 0)) Plan.empty initialState
  = (Returned (Plan.addFailed 1 Plan.empty), initialState).
Proof.
  split.
  - exact (exists_policy_coverage noStrings existsAnyway (settings false skip)
             root photoA (entry (JNum 0) "exists" 0) Plan.empty initialState
             eq_refl).
  - exact (exists_policy_coverage noStrings existsAnyway (settings false overwrite)
             root photoA (entry (JNum 0) "exists" 0) Plan.empty initialState
             eq_refl).
Defined.

(** Under [rename] the first free name is planned. *)
Example rename_plans_the_second_name :
  exists loc st',
    applyStatusBatch noStrings firstNameTaken (settings false rename) root
      [photoA] Plan.empty initialState = (Returned loc, st') /\
    map remoteTarget (Plan.candidates loc) = ["photos/a (2).jpg"] /\
    map overwrite_ (Plan.candidates loc) = [false].
Proof. eexists _, _. split; [vm_compute; reflexivity|]. split; reflexivity. Qed.

(** C6 as the specification words it fails twice.  The place in the array
    is used when two entries carry the same index: the later one wins.
    And an entry whose index is [null] is not discarded: [Number(null)] is
    0, so it fills the slot of the first candidate, which is then planned. *)
Lemma null_index_is_matched :
  normalizeBatchStatusItems noStrings
    (Some [entry (JNum 0) "complete" 0; entry (JNum 0) "ready" 0]) 1
  = [Some (entry (JNum 0) "ready" 0)] /\
  normalizeBatchStatusItems noStrings
    (Some [entry (JNum 0) "ready" 0; entry (JNum 0) "complete" 0]) 1
  = [Some (entry (JNum 0) "complete" 0)] /\
  e_index (entry JNull "ready" 0) = JNull /\
  normalizeBatchStatusItems noStrings (Some [entry JNull "ready" 0]) 1
  = [Some (entry JNull "ready" 0)] /\
  exists loc st',
    applyStatusBatch noStrings nullIndex (settings false skip) root
      [photoA] Plan.empty initialState = (Returned loc, st') /\
    List.length (Plan.candidates loc) = 1%nat /\ Plan.failed loc = 0.
Proof.
  split; [reflexivity|]. split; [reflexivity|]. split; [reflexivity|].
  split; [reflexivity|].
  eexists _, _. split; [vm_compute; reflexivity|]. repeat split.
Qed.

Lemma batch_matching_by_index_witness :
  nth 1 (normalizeBatchStatusItems noStrings
           (Some [entry (JNum 1) "ready" 0; entry JUndefined "ready" 0;
                  entry (JNum 7) "ready" 0; entry (JNum 1) "complete" 0]) 2) None
  = Some (entry (JNum 1) "complete" 0) /\
  nth 0 (normalizeBatchStatusItems noStrings
           (Some [entry (JNum 1) "ready" 0; entry JUndefined "ready" 0;
                  entry (JNum 7) "ready" 0; entry (JNum 1) "complete" 0]) 2) None
  = None /\
  exists loc' st',
    applyStatusLoop noStrings nothingResolved (settings false skip) root
      [photoA; photoA] 0
      (normalizeBatchStatusItems noStrings (Some [entry (JNum 1) "ready" 0]) 2)
      Plan.empty initialState = (Returned loc', st') /\
    Plan.failed Plan.empty
    + emptySlots 2 0
        (normalizeBatchStatusItems noStrings (Some [entry (JNum 1) "ready" 0]) 2)
    <= Plan.failed loc'.
Proof.
  split; [|split].
  - destruct (batch_matching_by_index noStrings nothingResolved (settings false skip)
                root
                (Some [entry (JNum 1) "ready" 0; entry JUndefined "ready" 0;
                       entry (JNum 7) "ready" 0; entry (JNum 1) "complete" 0])
                [photoA; photoA]) as (_ & H & _).
    refine (eq_trans (H 1%nat _) _); [simpl; lia|reflexivity].
  - destruct (batch_matching_by_index noStrings nothingResolved (settings false skip)
                root
                (Some [entry (JNum 1) "ready" 0; entry JUndefined "ready" 0;
                       entry (JNum 7) "ready" 0; entry (JNum 1) "complete" 0])
                [photoA; photoA]) as (_ & _ & _ & H & _).
    apply (H 0%nat); [simpl; lia|].
    intros items e [= <-] Hin.
    repeat (destruct Hin as [<-|Hin]; [discriminate|]). destruct Hin.
  - destruct (batch_matching_by_index noStrings nothingResolved (settings false skip)
                root (Some [entry (JNum 1) "ready" 0]) [photoA; photoA])
      as (_ & _ & _ & _ & _ & H).
    exact (H eq_refl Plan.empty initialState).
Defined.

Lemma mirror_excludes_rename_witness :
  effectiveConflictPolicy (settings true rename) = overwrite /\
  overwriteUploads (settings true rename) = true /\
  effectiveConflictPolicy (settings false rename) = rename.
Proof.
  split; [|split].
  - apply (mirror_excludes_rename noStrings nothingResolved (settings true rename) root);
      reflexivity.
  - apply (mirror_excludes_rename noStrings nothingResolved (settings true rename) root);
      reflexivity.
  - apply (mirror_excludes_rename noStrings nothingResolved (settings false rename) root).
    intros (_ & Hm & _). discriminate.
Defined.

(** In a mirror run with the policy set to [rename] the batch carries
    [overwrite] and nothing is probed. *)
Example mirror_run_asks_with_overwrite :
  trace (snd (runSync noStrings nothingResolved (settings true rename) 10 initialState))
  = [EvScan "file:///sdcard/DCIM";
     EvStatusBatch root
       [FolderStatus "photos/a.jpg" 10 true; FolderStatus "photos/b.jpg" 7 true];
     EvList root "photos" 0;
     EvDelete root ["photos/old.jpg"];
     EvRefresh].
Proof. vm_compute. reflexivity. Qed.

(** C9 as the specification words it fails: the folder holds a file whose
    size is negative; the walker counts it as discovered and rejects it,
    so it is never a candidate and its target is never added to the set of
    local targets; the remote folder holds a file at that target, and the
    pruner deletes it. *)
Lemma discovered_file_is_pruned :
  scan_discovered (collectLocalFolderFiles noStrings (Some rejectedFolder)) = 2 /\
  map lf_relativePath
    (scan_files (collectLocalFolderFiles noStrings (Some rejectedFolder)))
  = ["a.jpg"] /\
  joinUploadPath [uploadPathNormalized (settings true skip); "z.jpg"] = "photos/z.jpg" /\
  trace (snd (runSync noStrings rejectedRemote (settings true skip) 10 initialState))
  = [EvScan "file:///sdcard/DCIM";
     EvStatusBatch root [FolderStatus "photos/a.jpg" 10 false];
     EvList root "photos" 0;
     EvDelete root ["photos/z.jpg"];
     EvRefresh] /\
  discovered
    (progress (snd (runSync noStrings rejectedRemote (settings true skip) 10
                      initialState))) = 2 /\
  remoteDeleted
    (progress (snd (runSync noStrings rejectedRemote (settings true skip) 10
                      initialState))) = 1.
Proof. vm_compute. repeat split. Qed.

Lemma mirror_spares_local_files_witness :
  exists evs,
    trace (snd (runSync noStrings nothingResolved (settings true rename) 10 initialState))
    = (trace initialState ++ evs)%list /\
    forall file root' paths,
      In file (scan_files (collectLocalFolderFiles noStrings (Some twoFiles)))
      \/ FileAt noStrings (Some twoFiles) "" file ->
      In (EvDelete root' paths) evs ->
      ~ In (joinUploadPath [uploadPathNormalized (settings true rename);
                            lf_relativePath file]) paths.
Proof.
  apply (mirror_spares_local_files noStrings nothingResolved (settings true rename)
           10 initialState (Some twoFiles)).
  reflexivity.
Defined.

(** The walker on a folder with sub-directories: the root's files first,
    then the directories from the last to the first; the directory that
    cannot be listed and the file whose size is not a number are counted
    as failed. *)
Example walker_on_nested_folder :
  map lf_relativePath
    (scan_files (collectLocalFolderFiles noStrings (Some nestedFolder)))
  = ["a.jpg"; "b.jpg"; "2023/x.jpg"; "2023/raw/y.dng"] /\
  scan_discovered (collectLocalFolderFiles noStrings (Some nestedFolder)) = 5 /\
  scan_failed (collectLocalFolderFiles noStrings (Some nestedFolder)) = 2.
Proof. repeat split. Qed.


(** A server that acknowledges every chunk with the offset at which the
    chunk ends keeps within the size in its answers to the requests of
    each of the two files, although what it answers for the first file is
    beyond the size of the second one; so does the server that always
    answers with the size of the first file, for that file. *)
Lemma honest_server_is_within_size :
  serverWithinSize noStrings honest (settings false skip) root photoA /\
  serverWithinSize noStrings honest (settings false skip) root photoB /\
  readsWithinCount honest /\
  serverWithinSize noStrings steady (settings false skip) root photoA /\
  readsWithinCount steady.
Proof.
  assert (Hhonest : forall candidate,
             serverWithinSize noStrings honest (settings false skip) root candidate).
  { intros candidate. split.
    - intros t offset n v s Hfit Hchunk Hs. cbn in Hchunk. unfold acceptChunk in Hchunk.
      injection Hchunk as <-. unfold jsOr, truthy in Hs. cbn [makeChunkUrl cq_offset chunkUrlAt] in Hs.
      destruct (_ =? 0) eqn:E; cbn in Hs; injection Hs as <-.
      + apply Z.eqb_eq in E. unfold chunkUrlAt, makeChunkUrl in E. cbn [cq_offset] in E. lia.
      + unfold chunkUrlAt, makeChunkUrl. cbn [cq_offset]. exact Hfit.
    - intros t data s H. discriminate H. }
  assert (Hreads : forall statusBatch status chunk localFolder listing,
             readsWithinCount (world statusBatch status chunk localFolder listing)).
  { intros ? ? ? ? ? t uri offset count n Hc [= <-]. lia. }
  split; [apply Hhonest|]. split; [apply Hhonest|]. split; [apply Hreads|].
  split; [|apply Hreads]. split.
  - intros t offset n v s _ [= <-] [= <-]. simpl. lia.
  - intros t data s H. discriminate H.
Qed.


(** The run over the two files on that server uploads both of them, the
    first one up to its ten bytes and the second one up to its seven. *)
Example honest_server_uploads_both_files :
  let final := snd (runSync noStrings honest (settings false skip) 10 initialState) in
  stage (progress final) = done /\ uploaded (progress final) = 2 /\
  uploadedBytes (progress final) = Num 17 /\
  flat_map (fun ev => match ev with
                      | EvChunk q bytes => [(cq_offset q, bytes)]
                      | _ => []
                      end) (trace final)
  = [(0, 10%nat); (0, 7%nat)].
Proof. vm_compute. repeat split. Qed.



End OnScenarios.


(* ================================================================== *)
(** * Further properties of the code *)

(** ** Normal forms of upload paths *)

Section PathNormalForms.

Local Open Scope string_scope.

Lemma dropLeading_head (p : ascii -> bool) (s : string) (a : ascii) (rest : string) :
  Js.dropLeading p s = String a rest -> p a = false.
Proof.
  induction s as [|b s IH]; simpl; [discriminate|].
  destruct (p b) eqn:E; [exact IH|]. intros [= <- _]. exact E.
Qed.

Lemma dropLeading_fixed (p : ascii -> bool) (s : string) :
  (forall a rest, s = String a rest -> p a = false) -> Js.dropLeading p s = s.
Proof.
  destruct s as [|b s]; simpl; [reflexivity|]. intros H. now rewrite (H b s eq_refl).
Qed.

Lemma dropTrailing_head (p : ascii -> bool) (s : string) (a : ascii) (rest : string) :
  Js.dropTrailing p s = String a rest -> exists rest', s = String a rest'.
Proof.
  destruct s as [|b s]; simpl; [discriminate|].
  destruct (Js.dropTrailing p s); [destruct (p b); [discriminate|]|];
    intros [= <- _]; eauto.
Qed.

Lemma dropTrailing_last (p : ascii -> bool) (s : string) :
  forall (front : string) (a : ascii),
    Js.dropTrailing p s = front ++ String a "" -> p a = false.
Proof.
  induction s as [|b s IH]; intros front a; simpl.
  - destruct front; discriminate.
  - destruct (Js.dropTrailing p s) as [|c r] eqn:E.
    + destruct (p b) eqn:Eb.
      * destruct front; discriminate.
      * destruct front as [|f front]; simpl.
        -- intros [= <-]. exact Eb.
        -- intros [= _ H]. destruct front; discriminate.
    + destruct front as [|f front]; simpl.
      * intros H. discriminate H.
      * intros [= _ H]. now apply (IH front).
Qed.

Lemma dropTrailing_idempotent (p : ascii -> bool) (s : string) :
  Js.dropTrailing p (Js.dropTrailing p s) = Js.dropTrailing p s.
Proof.
  induction s as [|b s IH]; simpl; [reflexivity|].
  destruct (Js.dropTrailing p s) as [|c r] eqn:E.
  - destruct (p b) eqn:Eb; simpl; [reflexivity|]. now rewrite Eb.
  - change (Js.dropTrailing p (String b (String c r)))
      with (match Js.dropTrailing p (String c r) with
            | "" => if p b then "" else String b ""
            | r' => String b r'
            end).
    now rewrite IH.
Qed.

Lemma normalizeUploadPath_head (value : string) (a : ascii) (rest : string) :
  normalizeUploadPath value = String a rest -> isSlash a = false.
Proof.
  unfold normalizeUploadPath. intros H.
  apply dropTrailing_head in H as [rest' H]. now apply dropLeading_head in H.
Qed.

Lemma normalizeUploadPath_idempotent (value : string) :
  normalizeUploadPath (normalizeUploadPath value) = normalizeUploadPath value.
Proof.
  unfold normalizeUploadPath at 1.
  rewrite replaceAllChar_id by apply normalizeUploadPath_clean.
  rewrite dropLeading_fixed by apply normalizeUploadPath_head.
  unfold normalizeUploadPath. apply dropTrailing_idempotent.
Qed.

(** X1.  [normalizeUploadPath] gives a path in normal form, whatever it is
    given: the result holds no backslash, does not begin with a slash and
    does not end with one, and normalising it again changes nothing. *)
Theorem normalizeUploadPath_normal_form (value : string) :
  let normalized := normalizeUploadPath value in
  normalizeUploadPath normalized = normalized /\
  Js.contains isBackslash normalized = false /\
  (forall rest, normalized <> String slash rest) /\
  (forall front, normalized <> front ++ "/").
Proof.
  intros normalized. split; [apply normalizeUploadPath_idempotent|].
  split; [apply normalizeUploadPath_clean|]. split.
  - intros rest H. apply normalizeUploadPath_head in H. discriminate.
  - intros front H. unfold normalized, normalizeUploadPath in H.
    apply dropTrailing_last in H. discriminate.
Qed.

Lemma filter_fixed {A : Type} (f : A -> bool) (l : list A) :
  filter f (filter f l) = filter f l.
Proof.
  induction l as [|x l IH]; simpl; [reflexivity|].
  destruct (f x) eqn:E; simpl; [now rewrite E, IH|exact IH].
Qed.

Lemma filter_flat_map_partSegments (parts : list string) :
  filter keptSegment (flat_map partSegments parts) = flat_map partSegments parts.
Proof.
  induction parts as [|part parts IH]; simpl; [reflexivity|].
  rewrite filter_app, IH. f_equal. unfold partSegments.
  destruct (String.eqb (normalizeUploadPath part) ""); [reflexivity|].
  apply filter_fixed.
Qed.

(** The segments of a joined path are the segments of its parts. *)
Lemma partSegments_join (parts : list string) :
  partSegments (joinUploadPath parts) = flat_map partSegments parts.
Proof.
  unfold partSegments at 1. rewrite joinUploadPath_normal.
  destruct (flat_map partSegments parts) as [|seg segs] eqn:E.
  - unfold joinUploadPath. now rewrite E.
  - assert (Hne : flat_map partSegments parts <> []) by (rewrite E; discriminate).
    assert (Hjoin : joinUploadPath parts <> "").
    { unfold joinUploadPath.
      apply (join_normal_form (flat_map partSegments parts)); [|exact Hne].
      intros s Hs. apply in_flat_map in Hs as (part & _ & Hs).
      now apply (partSegments_good part). }
    apply String.eqb_neq in Hjoin. rewrite Hjoin.
    rewrite (joinUploadPath_segments parts Hne), <- E.
    apply filter_flat_map_partSegments.
Qed.

(** X2.  Joining is insensitive to nesting: a part that is itself
    the result of [joinUploadPath] contributes exactly the segments of the
    parts it was built from, so a call whose arguments are joined paths
    gives the same path as one call with all the parts; in particular
    joining a joined path alone gives it back.  The folder walker builds
    the relative path of a nested file this way, one directory at a time. *)
Theorem joinUploadPath_flattens (before inner after : list string) :
  joinUploadPath (before ++ [joinUploadPath inner] ++ after)
  = joinUploadPath (before ++ inner ++ after) /\
  joinUploadPath [joinUploadPath inner] = joinUploadPath inner /\
  joinUploadPath [joinUploadPath before; joinUploadPath after]
  = joinUploadPath (before ++ after).
Proof.
  assert (H : forall xs ys zs,
             joinUploadPath (xs ++ [joinUploadPath ys] ++ zs)
             = joinUploadPath (xs ++ ys ++ zs)).
  { intros xs ys zs. unfold joinUploadPath at 1 3.
    rewrite !flat_map_app. simpl. now rewrite partSegments_join, app_nil_r. }
  split; [apply H|]. split.
  - specialize (H [] inner []). simpl in H. now rewrite app_nil_r in H.
  - pose proof (H [] before [joinUploadPath after]) as H1. simpl in H1.
    rewrite H1. pose proof (H before after []) as H2.
    simpl in H2. now rewrite !app_nil_r in H2.
Qed.

End PathNormalForms.

(* ------------------------------------------------------------------ *)
(** ** Names, extensions and conflict suffixes *)

Section NamesAndSuffixes.

Local Open Scope string_scope.

Lemma lastIndexOf_None (c : ascii) (s : string) :
  Js.lastIndexOf c s = None -> Js.contains (fun a => Ascii.eqb a c) s = false.
Proof.
  induction s as [|a s IH]; simpl; [reflexivity|].
  destruct (Js.lastIndexOf c s); [discriminate|].
  destruct (Ascii.eqb a c); [discriminate|]. intros _. now apply IH.
Qed.

Lemma lastIndexOf_Some (c : ascii) (s : string) :
  forall i, Js.lastIndexOf c s = Some i ->
  exists name rest,
    s = name ++ String c rest /\ String.length name = i /\
    Js.contains (fun a => Ascii.eqb a c) rest = false.
Proof.
  induction s as [|a s IH]; intros i; simpl; [discriminate|].
  destruct (Js.lastIndexOf c s) as [j|] eqn:E.
  - intros [= <-]. destruct (IH j eq_refl) as (name & rest & -> & <- & Hrest).
    now exists (String a name), rest.
  - destruct (Ascii.eqb a c) eqn:Ea; [|discriminate]. intros [= <-].
    apply Ascii.eqb_eq in Ea. subst a. exists "", s.
    repeat split. now apply lastIndexOf_None.
Qed.

(** The two ways [splitNameAndExt] can go. *)
Lemma splitNameAndExt_cases (fileName : string) :
  (splitNameAndExt fileName = (fileName, "") /\
   Js.contains isDot
     (match fileName with String _ rest => rest | _ => "" end) = false) \/
  (exists name rest,
      fileName = name ++ String dot rest /\ name <> "" /\
      Js.contains isDot rest = false /\
      splitNameAndExt fileName = (name, String dot rest)).
Proof.
  unfold splitNameAndExt.
  destruct (Js.lastIndexOf dot fileName) as [[|i]|] eqn:E.
  - left. split; [reflexivity|].
    apply lastIndexOf_Some in E as (name & rest & -> & Hlen & Hrest).
    destruct name; [exact Hrest|discriminate].
  - right. apply lastIndexOf_Some in E as (name & rest & -> & Hlen & Hrest).
    exists name, rest. repeat split; try assumption.
    + intros ->. discriminate.
    + rewrite <- Hlen. now rewrite sliceTo_append, sliceFrom_append.
  - left. split; [reflexivity|]. apply lastIndexOf_None in E.
    destruct fileName as [|a rest]; [reflexivity|].
    simpl in E. now apply orb_false_iff in E.
Qed.

(** X3.  [splitNameAndExt] cuts a file name in two pieces that
    put together give the name back.  The extension is either empty, and
    then the first piece is the whole name, or it begins with the last dot
    of the name, holds no other dot, and leaves a first piece that is not
    empty: a name that only begins with a dot has no extension. *)
Theorem splitNameAndExt_round_trip (fileName : string) :
  let (name, ext) := splitNameAndExt fileName in
  name ++ ext = fileName /\
  ((ext = "" /\ name = fileName) \/
   (exists rest, ext = String dot rest /\ Js.contains isDot rest = false /\
                 name <> "")).
Proof.
  destruct (splitNameAndExt_cases fileName)
    as [[-> _]|(name & rest & -> & Hname & Hrest & ->)].
  - split; [apply append_empty_r|]. now left.
  - split; [reflexivity|]. right. now exists rest.
Qed.

Lemma string_of_uint_digits (d : Decimal.uint) :
  allDigits (NilEmpty.string_of_uint d) = true.
Proof. induction d; simpl; auto. Qed.

Lemma stringOfInt_digits (z : Z) : 0 <= z -> allDigits (Js.stringOfInt z) = true.
Proof.
  destruct z as [|p|p]; [reflexivity| |lia]. intros _.
  unfold Js.stringOfInt. simpl.
  destruct (Pos.to_uint p); try reflexivity; apply string_of_uint_digits.
Qed.

Lemma allDigits_without (q : ascii -> bool) (s : string) :
  (forall a, isDigit a = true -> q a = false) ->
  allDigits s = true -> Js.contains q s = false.
Proof.
  intros Hq. induction s as [|a s IH]; simpl; [reflexivity|].
  intros H. apply andb_true_iff in H as [Ha Hs]. now rewrite (Hq a Ha), IH.
Qed.

Lemma digit_not (c : ascii) (a : ascii) :
  isDigit c = false -> isDigit a = true -> Ascii.eqb a c = false.
Proof.
  intros Hc Ha. destruct (Ascii.eqb a c) eqn:E; [|reflexivity].
  apply Ascii.eqb_eq in E. congruence.
Qed.

(** The suffix of an attempt holds neither a dot nor a slash. *)
Lemma suffix_clean (attempt : Z) :
  0 < attempt ->
  Js.contains isDot (" (" ++ Js.stringOfInt attempt ++ ")") = false /\
  Js.contains isSlash (" (" ++ Js.stringOfInt attempt ++ ")") = false.
Proof.
  intros H. assert (Hd : allDigits (Js.stringOfInt attempt) = true)
    by (apply stringOfInt_digits; lia).
  split; simpl; rewrite contains_append; simpl; rewrite orb_false_r;
    apply allDigits_without; try assumption; intros c;
    unfold isDot, isSlash; apply digit_not; reflexivity.
Qed.

Lemma stringOfInt_inj (a b : Z) : Js.stringOfInt a = Js.stringOfInt b -> a = b.
Proof.
  unfold Js.stringOfInt. intros H. apply to_int_inj.
  assert (Hisi : forall z, NilZero.int_of_string (NilZero.string_of_int (Z.to_int z))
                           = Some (Z.to_int z)).
  { intros z. apply NilZero.isi; destruct z; simpl; try discriminate;
      intros [= E]; now apply DecimalPos.Unsigned.to_uint_nonnil in E. }
  pose proof (Hisi a) as Ha. rewrite H, Hisi in Ha. congruence.
Qed.

Lemma append_cancel_l (a b c : string) : a ++ b = a ++ c -> b = c.
Proof. induction a as [|x a IH]; simpl; [auto|]. intros [= H]. auto. Qed.

Lemma append_cancel_r (c : string) :
  forall a b, a ++ c = b ++ c -> a = b.
Proof.
  induction a as [|x a IH]; destruct b as [|y b]; simpl; intros H.
  - reflexivity.
  - apply (f_equal String.length) in H. simpl in H. rewrite length_append in H. lia.
  - apply (f_equal String.length) in H. simpl in H. rewrite length_append in H. lia.
  - injection H as -> H. f_equal. now apply IH.
Qed.

Lemma addConflictSuffix_split (fileName : string) (attempt : Z) :
  0 < attempt ->
  splitNameAndExt (addConflictSuffix fileName attempt)
  = (fst (splitNameAndExt fileName) ++ " (" ++ Js.stringOfInt attempt ++ ")",
     snd (splitNameAndExt fileName)).
Proof.
  intros Hpos. destruct (suffix_clean attempt Hpos) as [Hdot _].
  unfold addConflictSuffix. destruct (Z.leb_spec attempt 0) as [|_]; [lia|].
  destruct (splitNameAndExt_cases fileName)
    as [[E Htail]|(name & rest & -> & Hname & Hrest & E)]; rewrite E; cbn [fst snd].
  - rewrite !append_empty_r.
    apply splitNameAndExt_none.
    destruct fileName as [|a tail].
    + simpl in Hdot |- *. exact Hdot.
    + cbn [append]. rewrite contains_append, Htail. exact Hdot.
  - replace (name ++ " (" ++ Js.stringOfInt attempt ++ ")" ++ String dot rest)
      with ((name ++ " (" ++ Js.stringOfInt attempt ++ ")") ++ String dot rest).
    + apply splitNameAndExt_ext; [|exact Hrest].
      destruct name; [contradiction|discriminate].
    + rewrite !append_assoc. reflexivity.
Qed.

Lemma addConflictSuffix_inj (fileName : string) (a b : Z) :
  0 < a -> 0 < b ->
  addConflictSuffix fileName a = addConflictSuffix fileName b -> a = b.
Proof.
  intros Ha Hb H. apply (f_equal splitNameAndExt) in H.
  rewrite !addConflictSuffix_split in H by assumption.
  injection H as H. apply append_cancel_l in H.
  change (" (" ++ Js.stringOfInt a ++ ")") with (String " " (String "(" (Js.stringOfInt a ++ ")"))) in H.
  change (" (" ++ Js.stringOfInt b ++ ")") with (String " " (String "(" (Js.stringOfInt b ++ ")"))) in H.
  injection H as H. apply append_cancel_r in H. now apply stringOfInt_inj.
Qed.

(** X4.  A conflict suffix never touches the extension: for a
    positive attempt the renamed file has the extension of the original
    one, and its name part is the original name part followed by the
    attempt in parentheses.  A file therefore keeps its type through a
    rename. *)
Theorem addConflictSuffix_keeps_extension (fileName : string) (attempt : Z) :
  0 < attempt ->
  let (name, ext) := splitNameAndExt fileName in
  splitNameAndExt (addConflictSuffix fileName attempt)
  = (name ++ " (" ++ Js.stringOfInt attempt ++ ")", ext).
Proof.
  intros Hpos. rewrite (addConflictSuffix_split fileName attempt Hpos).
  now destruct (splitNameAndExt fileName).
Qed.

Lemma addConflictSuffix_keeps_extension_witness :
  splitNameAndExt (addConflictSuffix "a.tar.gz" 3) = ("a.tar (3)", ".gz").
Proof. exact (addConflictSuffix_keeps_extension "a.tar.gz" 3 eq_refl). Defined.

Lemma addConflictSuffix_clean (fileName : string) (attempt : Z) :
  Js.contains isSlash fileName = false ->
  Js.contains isSlash (addConflictSuffix fileName attempt) = false.
Proof.
  intros Hf. unfold addConflictSuffix.
  destruct (Z.leb_spec attempt 0) as [|Hpos]; [exact Hf|].
  destruct (suffix_clean attempt Hpos) as [_ Hslash].
  pose proof (splitNameAndExt_concat fileName) as Hcat.
  destruct (splitNameAndExt fileName) as [name ext]. cbn [fst snd] in Hcat.
  rewrite <- Hcat, contains_append in Hf. apply orb_false_iff in Hf as [Hn He].
  replace (" (" ++ Js.stringOfInt attempt ++ ")" ++ ext)
    with ((" (" ++ Js.stringOfInt attempt ++ ")") ++ ext)
    by (rewrite !append_assoc; reflexivity).
  rewrite (contains_append _ name), Hn.
  now rewrite (contains_append _ (" (" ++ Js.stringOfInt attempt ++ ")") ext), He, Hslash.
Qed.

(** The segments of a renamed target. *)
Lemma renameRemoteTarget_segments (remoteTarget : string) (attempt : Z) :
  normalizeUploadPath remoteTarget <> "" ->
  let segments := Js.split slash (normalizeUploadPath remoteTarget) in
  Js.split slash (renameRemoteTarget remoteTarget attempt)
  = (removelast segments ++ [addConflictSuffix (last segments "") attempt])%list.
Proof.
  intros Hne segments. unfold renameRemoteTarget.
  apply String.eqb_neq in Hne. rewrite Hne. fold segments.
  assert (Hlast : Js.contains isSlash (last segments "") = false).
  { apply (split_segments_without slash (normalizeUploadPath remoteTarget)).
    fold segments.
    destruct (exists_last (split_not_nil slash (normalizeUploadPath remoteTarget)))
      as (front & x & E). fold segments in E. rewrite E, last_last.
    apply in_or_app. right. now left. }
  pose proof (addConflictSuffix_clean _ attempt Hlast) as Hnext.
  destruct (removelast segments) as [|seg front] eqn:E.
  - simpl. now apply split_without.
  - replace (Js.join "/" (seg :: front) ++ "/"
             ++ addConflictSuffix (last segments "") attempt)
      with (Js.join "/" ((seg :: front)
                         ++ [addConflictSuffix (last segments "") attempt])%list).
    + apply split_join; [discriminate|].
      intros s Hs. apply in_app_or in Hs as [Hs|[<-|[]]]; [|exact Hnext].
      apply (split_segments_without slash (normalizeUploadPath remoteTarget)).
      fold segments.
      destruct (exists_last (split_not_nil slash (normalizeUploadPath remoteTarget)))
        as (front' & x & E'). fold segments in E'.
      rewrite E', removelast_last in E. rewrite E'. apply in_or_app. left.
      now rewrite E.
    + unfold Js.join. now rewrite concat_snoc by discriminate.
Qed.

Lemma renameRemoteTarget_inj (remoteTarget : string) (a b : Z) :
  0 < a -> 0 < b -> normalizeUploadPath remoteTarget <> "" ->
  renameRemoteTarget remoteTarget a = renameRemoteTarget remoteTarget b -> a = b.
Proof.
  intros Ha Hb Hne H. apply (f_equal (Js.split slash)) in H.
  rewrite !renameRemoteTarget_segments in H by assumption.
  apply app_inv_head in H. injection H as H.
  exact (addConflictSuffix_inj _ a b Ha Hb H).
Qed.

(** X5.  Renaming a remote target changes its last segment
    only: the renamed target lies in the same remote folder, segment for
    segment, and its file name is the original file name with the
    conflict suffix.  An attempt that is not positive gives the
    normalised target back. *)
Theorem renameRemoteTarget_same_folder (remoteTarget : string) (attempt : Z) :
  normalizeUploadPath remoteTarget <> "" ->
  let segments := Js.split slash (normalizeUploadPath remoteTarget) in
  Js.split slash (renameRemoteTarget remoteTarget attempt)
  = (removelast segments ++ [addConflictSuffix (last segments "") attempt])%list /\
  removelast (Js.split slash (renameRemoteTarget remoteTarget attempt))
  = removelast segments /\
  (attempt <= 0 ->
   renameRemoteTarget remoteTarget attempt = normalizeUploadPath remoteTarget).
Proof.
  intros Hne segments.
  pose proof (renameRemoteTarget_segments remoteTarget attempt Hne) as H.
  cbv zeta in H. fold segments in H. split; [exact H|]. split.
  - rewrite H. apply removelast_last.
  - intros Hle.
    rewrite <- (join_split slash (renameRemoteTarget remoteTarget attempt)), H.
    unfold addConflictSuffix. destruct (Z.leb_spec attempt 0) as [_|]; [|lia].
    destruct (exists_last (split_not_nil slash (normalizeUploadPath remoteTarget)))
      as (front & x & E). fold segments in E.
    rewrite E, removelast_last, last_last, <- E. apply join_split.
Qed.

Lemma renameRemoteTarget_same_folder_witness :
  Js.split slash (renameRemoteTarget "/x/y\photo.jpg/" 2) = ["x"; "y"; "photo (2).jpg"].
Proof.
  apply (renameRemoteTarget_same_folder "/x/y\photo.jpg/" 2). discriminate.
Defined.

(** X6.  Two different positive attempts never give the same
    name: the suffixed file names differ, the renamed remote targets
    differ, and so do the status requests that the rename probe sends for
    the two attempts, for a camera candidate and for a folder candidate
    whose target is not empty. *)
Theorem rename_attempts_are_distinct (a b : Z) :
  0 < a -> 0 < b -> a <> b ->
  (forall fileName, addConflictSuffix fileName a <> addConflictSuffix fileName b) /\
  (forall remoteTarget,
      normalizeUploadPath remoteTarget <> "" ->
      renameRemoteTarget remoteTarget a <> renameRemoteTarget remoteTarget b) /\
  (forall candidate rootId uploadBasePath,
      (kind candidate = folder ->
       normalizeUploadPath (remoteTarget candidate) <> "") ->
      makeStatusUrl rootId uploadBasePath (renameCandidateForAttempt candidate a) false
      <> makeStatusUrl rootId uploadBasePath (renameCandidateForAttempt candidate b) false).
Proof.
  intros Ha Hb Hab. split; [|split].
  - intros fileName H. now apply Hab, (addConflictSuffix_inj fileName).
  - intros target Hne H. now apply Hab, (renameRemoteTarget_inj target).
  - intros candidate rootId base Hfolder.
    unfold makeStatusUrl, buildStatusPayload, renameCandidateForAttempt.
    destruct (Z.leb_spec a 0) as [|_]; [lia|].
    destruct (Z.leb_spec b 0) as [|_]; [lia|].
    destruct (kind candidate) eqn:Hkind; cbn [kind displayName remoteTarget size
                                                monthBucket capturedAtIso];
      intros [= H]; apply Hab.
    + now apply (addConflictSuffix_inj (displayName candidate)).
    + apply (renameRemoteTarget_inj (remoteTarget candidate)); auto.
Qed.

Lemma rename_attempts_are_distinct_witness :
  makeStatusUrl "root1" "photos" (renameCandidateForAttempt Scenario.photoA 1) false
  <> makeStatusUrl "root1" "photos" (renameCandidateForAttempt Scenario.photoA 2) false.
Proof.
  apply (rename_attempts_are_distinct 1 2); [reflexivity|reflexivity|discriminate|].
  intros _. discriminate.
Defined.

End NamesAndSuffixes.

(* ------------------------------------------------------------------ *)
(** ** The interactions of a run *)

Section Runs.

Context {A : Type} (P : Event -> Prop).

Lemma runs_ret (Q : A -> Prop) (a : A) : Q a -> runs P Q (ret a).
Proof. intros H. split; [apply steps_ret|]. intros st. exact H. Qed.

Lemma runs_throw (Q : A -> Prop) (message : string) : runs P Q (throw message).
Proof. split; [apply steps_throw|]. intros st. exact I. Qed.

Lemma runs_diverge (Q : A -> Prop) : runs P Q diverge.
Proof. split; [apply steps_diverge|]. intros st. exact I. Qed.

Lemma runs_steps (m : M A) : steps P m -> runs P (fun _ => True) m.
Proof. intros H. split; [exact H|]. intros st. now destruct (fst (m st)). Qed.

Lemma runs_weaken (Q R : A -> Prop) (m : M A) :
  (forall a, Q a -> R a) -> runs P Q m -> runs P R m.
Proof.
  intros H [Hs Hp]. split; [exact Hs|]. intros st. specialize (Hp st).
  destruct (fst (m st)); auto.
Qed.

Lemma runs_bind {B : Type} (Q : B -> Prop) (R : A -> Prop) (m : M B) (k : B -> M A) :
  runs P Q m -> (forall b, Q b -> runs P R (k b)) -> runs P R (bind m k).
Proof.
  intros [Hs Hp] Hk. split; intros st; unfold bind;
    specialize (Hs st); specialize (Hp st);
    destruct (m st) as [[b|message|] st1]; simpl in *; try exact Hs; try exact I.
  - destruct Hs as (Hc & evs & Ht & Hf).
    destruct (proj1 (Hk b Hp) st1) as (Hc' & evs' & Ht' & Hf').
    split; [lia|]. exists (evs ++ evs')%list.
    rewrite Ht', Ht, app_assoc. split; [reflexivity|]. now apply Forall_app.
  - apply (proj2 (Hk b Hp) st1).
Qed.

Lemma runs_interactOutcome (ev : Event) (oracle : nat -> HostResult A) :
  P ev ->
  runs P (fun a => exists t, oracle t = HostOk a) (interactOutcome ev oracle).
Proof.
  intros Hev. split; [now apply steps_interactOutcome|].
  intros st. unfold interactOutcome. cbn [fst].
  destruct (oracle (clock st)) as [a|message] eqn:E; cbn [ofHost]; [|exact I].
  now exists (clock st).
Qed.

End Runs.

Lemma slices_bounds {A : Type} (n : nat) :
  (0 < n)%nat ->
  forall (fuel : nat) (l batch : list A),
    In batch (slices fuel n l) -> (1 <= List.length batch <= n)%nat.
Proof.
  intros Hn. induction fuel as [|fuel IH]; intros l batch; destruct l as [|x l];
    simpl; try tauto.
  intros [<-|H]; [|now apply (IH _ _ H)].
  rewrite length_firstn. cbn [List.length]. lia.
Qed.

Lemma slices_concat {A : Type} (n : nat) :
  (0 < n)%nat ->
  forall (fuel : nat) (l : list A),
    (List.length l <= fuel)%nat -> concat (slices fuel n l) = l.
Proof.
  intros Hn. induction fuel as [|fuel IH]; intros l Hl; destruct l as [|x l];
    try reflexivity; [simpl in Hl; lia|].
  cbn [slices concat]. rewrite IH; [apply firstn_skipn|].
  rewrite length_skipn. cbn [List.length] in *. lia.
Qed.

Section RunEvents.

Variable StringToNumber : string -> jsnum.
Variable w : World.
Variable cfg : Config.
Variable rootId : string.

Local Abbreviation E := (runEvent StringToNumber w cfg rootId).

Lemma resolveRenameLoop_events (remaining : nat) :
  forall attempt candidate,
    steps E (resolveRenameLoop StringToNumber w cfg rootId remaining attempt candidate).
Proof.
  induction remaining as [|remaining IH]; intros attempt candidate;
    cbn [resolveRenameLoop]; steps_auto.
Qed.

Lemma applyStatusItem_events (candidate : UploadCandidate)
  (statusItem : option StatusEntry) (loc : Plan.t) :
  steps E (applyStatusItem StringToNumber w cfg rootId candidate statusItem loc).
Proof.
  pose proof resolveRenameLoop_events as Hloop.
  unfold applyStatusItem, resolveRenameCandidate. steps_auto.
Qed.

Lemma payloadOverwrite_build (base : string) (candidate : UploadCandidate)
  (overwrite' : bool) :
  payloadOverwrite (buildStatusPayload base candidate overwrite') = overwrite'.
Proof. unfold buildStatusPayload. now destruct (kind candidate). Qed.

Lemma applyStatusBatch_events (batch : list UploadCandidate) (loc : Plan.t) :
  (List.length batch <= STATUS_BATCH_SIZE)%nat ->
  steps E (applyStatusBatch StringToNumber w cfg rootId batch loc).
Proof.
  intros Hlen.
  pose proof (applyStatusLoop_steps StringToNumber w cfg rootId E
                applyStatusItem_events) as Hloop.
  unfold applyStatusBatch. destruct batch as [|candidate rest]; [apply steps_ret|].
  apply steps_bind; [|intros statusItems; apply Hloop].
  unfold fetchUploadStatusBatch. apply steps_bind.
  - apply steps_interact. cbn [runEvent]. split; [reflexivity|].
    rewrite length_map. split; [cbn [List.length] in *; lia|].
    apply forallb_forall. intros item Hitem.
    apply in_map_iff in Hitem as (c & <- & _).
    rewrite payloadOverwrite_build. apply eqb_reflx.
  - intros [rawItems|code message]; [apply steps_ret|apply steps_throw].
Qed.

Lemma flushIfFull_events (pending : list UploadCandidate) (loc : Plan.t) :
  (List.length pending <= STATUS_BATCH_SIZE)%nat ->
  runs E (fun r => (List.length (fst r) < STATUS_BATCH_SIZE)%nat)
    (flushIfFull StringToNumber w cfg rootId pending loc).
Proof.
  intros Hlen. unfold flushIfFull.
  destruct (Nat.leb_spec STATUS_BATCH_SIZE (List.length pending)).
  - apply (runs_bind E (fun _ => True)).
    + apply runs_steps. now apply applyStatusBatch_events.
    + intros loc' _. apply runs_ret. unfold STATUS_BATCH_SIZE. simpl. lia.
  - now apply runs_ret.
Qed.

Lemma flushRest_events (pending : list UploadCandidate) (loc : Plan.t) :
  (List.length pending <= STATUS_BATCH_SIZE)%nat ->
  steps E (flushRest StringToNumber w cfg rootId pending loc).
Proof.
  intros Hlen. pose proof (applyStatusBatch_events pending loc Hlen).
  unfold flushRest. steps_auto.
Qed.

Lemma planFolderLoop_events (folderCandidates : list UploadCandidate) :
  forall index pending loc,
    (List.length pending < STATUS_BATCH_SIZE)%nat ->
    runs E (fun r => (List.length (fst r) < STATUS_BATCH_SIZE)%nat)
      (planFolderLoop StringToNumber w cfg rootId folderCandidates index pending loc).
Proof.
  induction folderCandidates as [|candidate rest IH]; intros index pending loc Hlen;
    cbn [planFolderLoop]; [now apply runs_ret|].
  apply (runs_bind E (fun _ => True)); [apply runs_steps, steps_isCancelled|].
  intros [|] _; [now apply runs_ret|]. cbv zeta.
  apply (runs_bind E (fun _ => True)).
  { apply runs_steps. destruct (_ =? 0); [apply steps_setSyncProgress|apply steps_ret]. }
  intros _ _.
  apply (runs_bind E (fun r => (List.length (fst r) < STATUS_BATCH_SIZE)%nat)).
  - apply flushIfFull_events. rewrite length_app. simpl. lia.
  - intros r Hr. now apply IH.
Qed.

Lemma planFolder_events :
  syncSource cfg = folder ->
  steps E (planFolder StringToNumber w cfg rootId).
Proof.
  intros Hsrc. unfold planFolder.
  apply steps_bind; [apply steps_interactOutcome; now split|]. intros root. cbv zeta.
  apply (runs_bind E (fun r : list UploadCandidate * Plan.t =>
                        (List.length (fst r) < STATUS_BATCH_SIZE)%nat)
           (fun _ => True)).
  - apply planFolderLoop_events. unfold STATUS_BATCH_SIZE. simpl. lia.
  - intros r Hr. apply runs_steps, flushRest_events. lia.
Qed.

Lemma planCameraAsset_events (asset : Asset) (pending : list UploadCandidate)
  (loc : Plan.t) :
  syncSource cfg = camera ->
  (List.length pending < STATUS_BATCH_SIZE)%nat ->
  runs E (fun r => (List.length (fst r) < STATUS_BATCH_SIZE)%nat)
    (planCameraAsset StringToNumber w cfg rootId asset pending loc).
Proof.
  intros Hsrc Hlen. unfold planCameraAsset.
  apply (runs_bind E (fun _ => True)).
  { apply runs_steps. steps_auto. }
  intros [assetInfo|] _; [|now apply runs_ret].
  cbv zeta. destruct (String.eqb _ ""); [now apply runs_ret|].
  apply (runs_bind E (fun _ => True)).
  { apply runs_steps. steps_auto. }
  intros rawSize _.
  destruct (ToNumber StringToNumber (jsOr rawSize (JNum 0))) as [|size'];
    [now apply runs_ret|].
  destruct (size' <? 0); [now apply runs_ret|].
  apply (runs_bind E (fun _ => True)).
  { apply runs_steps. unfold normalizeTimestamp. steps_auto. }
  intros createdAt _.
  apply (runs_bind E (fun _ => True)).
  { apply runs_steps. unfold monthBucketFromTime, normalizeTimestamp. steps_auto. }
  intros monthBucket' _.
  apply (runs_bind E (fun _ => True)).
  { apply runs_steps. apply steps_pure. }
  intros capturedAtIso' _. apply flushIfFull_events.
  rewrite length_app. simpl. lia.
Qed.

Lemma planCameraAssets_events (assets : list Asset) :
  syncSource cfg = camera ->
  forall pending loc,
    (List.length pending < STATUS_BATCH_SIZE)%nat ->
    runs E (fun r => (List.length (fst r) < STATUS_BATCH_SIZE)%nat)
      (planCameraAssets StringToNumber w cfg rootId assets pending loc).
Proof.
  intros Hsrc. induction assets as [|asset rest IH]; intros pending loc Hlen;
    cbn [planCameraAssets]; [now apply runs_ret|].
  apply (runs_bind E (fun _ => True)); [apply runs_steps, steps_isCancelled|].
  intros [|] _; [now apply runs_ret|]. cbv zeta.
  apply (runs_bind E (fun _ => True)).
  { apply runs_steps. destruct (_ =? 0); [apply steps_setSyncProgress|apply steps_ret]. }
  intros _ _.
  apply (runs_bind E (fun r => (List.length (fst r) < STATUS_BATCH_SIZE)%nat)).
  - now apply planCameraAsset_events.
  - intros r Hr. now apply IH.
Qed.

Lemma planCameraPages_events (fuel : nat) :
  syncSource cfg = camera ->
  forall pageCursor pending loc,
    (List.length pending < STATUS_BATCH_SIZE)%nat ->
    runs E (fun r => (List.length (fst r) < STATUS_BATCH_SIZE)%nat)
      (planCameraPages StringToNumber w cfg rootId fuel pageCursor pending loc).
Proof.
  intros Hsrc. induction fuel as [|fuel IH]; intros pageCursor pending loc Hlen;
    cbn [planCameraPages];
    (apply (runs_bind E (fun _ => True)); [apply runs_steps, steps_isCancelled|]);
    intros [|] _; try (now apply runs_ret); [apply runs_diverge|].
  apply (runs_bind E (fun _ => True)).
  { apply runs_steps, steps_interactOutcome. now split. }
  intros page _.
  apply (runs_bind E (fun r => (List.length (fst r) < STATUS_BATCH_SIZE)%nat)).
  - now apply planCameraAssets_events.
  - intros r Hr. destruct (pg_hasNextPage page); [now apply IH|now apply runs_ret].
Qed.

Lemma planCamera_events (fuel : nat) :
  syncSource cfg = camera ->
  steps E (planCamera StringToNumber w cfg rootId fuel).
Proof.
  intros Hsrc. unfold planCamera.
  apply steps_bind; [now apply steps_interactOutcome|]. intros granted.
  destruct (negb granted); [steps_auto|].
  apply (runs_bind E (fun r : list UploadCandidate * Plan.t =>
                        (List.length (fst r) < STATUS_BATCH_SIZE)%nat)
           (fun _ => True)).
  - apply planCameraPages_events; [assumption|]. unfold STATUS_BATCH_SIZE. simpl. lia.
  - intros r Hr. apply runs_steps. apply steps_bind; [|intros; apply steps_ret].
    apply flushRest_events. lia.
Qed.

Lemma chunkBytes_positive : 1 <= chunkBytes StringToNumber cfg.
Proof.
  pose proof (chunkBytes_pos StringToNumber cfg) as H.
  unfold MIN_CHUNK_BYTES in H. lia.
Qed.

Lemma offsetOfField_nonneg (v : jsval) (z : Z) :
  offsetOfField StringToNumber v = Num z -> 0 <= z.
Proof.
  unfold offsetOfField.
  destruct (ToNumber StringToNumber (jsOr v (JNum 0))); simpl; [discriminate|].
  intros [= <-]. lia.
Qed.

Lemma uploadLoop_events (fuel : nat) :
  forall candidate offset uploadedBytes',
    match offset with Num z => 0 <= z | NaN => True end ->
    steps E (uploadLoop StringToNumber w cfg rootId fuel candidate offset uploadedBytes').
Proof.
  pose proof chunkBytes_positive as Hchunk.
  induction fuel as [|fuel IH]; intros candidate [|z] uploadedBytes' Hz;
    cbn [uploadLoop]; try apply steps_ret.
  - steps_auto.
  - destruct (Z.ltb_spec z (size candidate)) as [Hlt|]; [|apply steps_ret].
    cbn [negb]. apply steps_bind; [apply steps_isCancelled|].
    intros [|]; [apply steps_ret|]. cbv zeta.
    refine (proj1 (runs_bind E
                     (fun chunk =>
                        exists t,
                          w_readBytes w t (localUri candidate) z
                            (Z.min (chunkBytes StringToNumber cfg) (size candidate - z))
                          = HostOk chunk)
                     (fun _ => True) _ _ _ _)).
    { apply runs_interactOutcome. cbn [runEvent]. lia. }
    intros [|n] [t Hread]; apply runs_steps; [apply steps_throw|].
    apply steps_bind.
    { apply steps_interact. cbn [runEvent makeChunkUrl cq_root cq_offset].
      split; [reflexivity|]. split; [exact Hz|]. split; [lia|].
      intros Hreads. apply Hreads in Hread; lia. }
    intros [message|dataOffset|code message]; [apply steps_throw| |].
    + apply steps_bind; [apply steps_setSyncProgress|]. intros _. apply IH.
      destruct (ToNumber StringToNumber (jsOr dataOffset (JNum 0))); simpl; [exact I|lia].
    + destruct (isStr code "offset_mismatch"); [|apply steps_throw].
      apply steps_bind; [now apply steps_interact|].
      intros [data|code' message']; [|apply steps_throw].
      destruct (jsLe _ _); [apply steps_throw|].
      apply steps_bind; [apply steps_setSyncProgress|]. intros _. apply IH.
      destruct (offsetOfField StringToNumber (d_offset data)) eqn:Eo; [exact I|].
      now apply offsetOfField_nonneg in Eo.
Qed.

Lemma uploadCandidate_events (candidate : UploadCandidate) (uploaded' : Z)
  (uploadedBytes' : jsnum) :
  steps E (uploadCandidate StringToNumber w cfg rootId candidate uploaded' uploadedBytes').
Proof.
  assert (Hloop : forall bytes,
             steps E (uploadLoop StringToNumber w cfg rootId (uploadFuel candidate)
                        candidate (Num (startOffset candidate)) bytes)).
  { intros bytes. apply uploadLoop_events. unfold startOffset. lia. }
  unfold uploadCandidate. steps_auto.
Qed.

Lemma uploadAll_events (candidates : list UploadCandidate) :
  forall uploaded' uploadedBytes',
    steps E (uploadAll StringToNumber w cfg rootId candidates uploaded' uploadedBytes').
Proof.
  pose proof uploadCandidate_events.
  induction candidates as [|candidate rest IH]; intros; cbn [uploadAll]; steps_auto.
Qed.

Section Mirror.

Hypothesis Hsource : syncSource cfg = folder.
Hypothesis Hmirror : mirrorRemote cfg = true.

Lemma fetchRemoteFilesLoop_events (fuel : nat) :
  forall queue current remoteFiles,
    match current with Some (_, offset) => 0 <= offset | None => True end ->
    steps E (fetchRemoteFilesLoop w rootId fuel queue current remoteFiles).
Proof.
  induction fuel as [|fuel IH]; intros queue current remoteFiles Hcur;
    cbn [fetchRemoteFilesLoop]; [apply steps_diverge|].
  apply steps_bind; [apply steps_isCancelled|]. intros stop.
  destruct current as [[currentPath offset]|].
  - destruct stop; [now apply IH|].
    apply steps_bind; [apply steps_interact; cbn [runEvent]; auto|].
    intros [data|code message]; [|apply steps_throw]. cbv zeta.
    destruct (_ <? LIST_PAGE_SIZE); apply IH; [exact I|lia].
  - destruct queue; [apply steps_ret|]. destruct stop; [apply steps_ret|].
    apply IH. lia.
Qed.

Lemma deleteLoop_events (batches : list (list string)) :
  (forall batch, In batch batches ->
                 (1 <= List.length batch <= DELETE_BATCH_SIZE)%nat) ->
  forall remoteDeleted' remoteDeleteFailed',
    steps E (deleteLoop w rootId batches remoteDeleted' remoteDeleteFailed').
Proof.
  induction batches as [|batch rest IH]; intros Hall deleted deleteFailed;
    cbn [deleteLoop]; [apply steps_ret|].
  apply steps_bind; [apply steps_isCancelled|]. intros [|]; [apply steps_ret|].
  apply steps_bind.
  - apply steps_interact. cbn [runEvent]. repeat split; auto; apply Hall; now left.
  - intros deleteOk. cbv zeta. apply steps_bind; [apply steps_setSyncProgress|].
    intros _. apply IH. intros b Hb. apply Hall. now right.
Qed.

Lemma mirrorPrune_events (fuel : nat) (loc : Plan.t) :
  steps E (mirrorPrune w cfg rootId fuel loc).
Proof.
  unfold mirrorPrune, fetchRemoteFilesForMirror.
  apply steps_bind; [apply steps_setSyncProgress|]. intros _.
  apply steps_bind; [now apply fetchRemoteFilesLoop_events|]. intros remoteFiles.
  cbv zeta. apply deleteLoop_events. intros batch Hbatch.
  apply (slices_bounds DELETE_BATCH_SIZE) in Hbatch; [exact Hbatch|].
  unfold DELETE_BATCH_SIZE. lia.
Qed.

End Mirror.

Lemma SyncSource_eqb_folder (source : SyncSource) :
  SyncSource_eqb source folder = true -> source = folder.
Proof. now destruct source. Qed.

Lemma afterPlanning_events (fuel : nat) (loc : Plan.t) :
  steps E (afterPlanning StringToNumber w cfg rootId fuel loc).
Proof.
  pose proof uploadAll_events as Hall.
  unfold afterPlanning.
  apply steps_bind; [apply steps_isCancelled|].
  intros [|]; [apply steps_setSyncProgress|].
  apply steps_bind; [apply steps_setSyncProgress|]. intros _.
  apply steps_bind; [apply Hall|]. intros r.
  apply steps_bind; [apply steps_isCancelled|]. intros stop'.
  apply steps_bind.
  - destruct (negb stop' && SyncSource_eqb (syncSource cfg) folder
              && mirrorRemote cfg) eqn:Hcond; [|apply steps_ret].
    apply andb_true_iff in Hcond as [Hcond Hm].
    apply andb_true_iff in Hcond as [_ Hs].
    apply mirrorPrune_events; [now apply SyncSource_eqb_folder|exact Hm].
  - intros counts. steps_auto.
Qed.

Lemma runBody_events (fuel : nat) :
  steps E (runBody StringToNumber w cfg rootId fuel).
Proof.
  pose proof afterPlanning_events as Hafter.
  unfold runBody, planRun. destruct (syncSource cfg) eqn:Hsrc.
  - pose proof (planCamera_events fuel Hsrc). steps_auto.
  - pose proof (planFolder_events Hsrc). steps_auto.
Qed.

End RunEvents.

(** The interactions of a run are those of [eventsOf]: a run that is
    refused adds nothing to the trace. *)
Lemma runSync_events (StringToNumber : string -> jsnum) (w : World) (cfg : Config)
  (fuel : nat) :
  steps (eventsOf StringToNumber w cfg) (runSync StringToNumber w cfg fuel).
Proof.
  unfold runSync. destruct (syncRunning cfg); [apply steps_ret|].
  destruct (selectedRoot cfg) as [rootId|] eqn:Hroot; [|apply steps_setSyncProgress].
  destruct (negb (uploadEnabled cfg)); [apply steps_setSyncProgress|].
  destruct (_ && _); [apply steps_setSyncProgress|].
  apply (steps_weaken (runEvent StringToNumber w cfg rootId)).
  - intros ev Hev. unfold eventsOf. now rewrite Hroot.
  - pose proof (runBody_events StringToNumber w cfg rootId fuel). steps_auto.
Qed.

(* ------------------------------------------------------------------ *)
(** ** The requests of a run and their bounds *)

Section Requests.

Variable StringToNumber : string -> jsnum.
Variable w : World.
Variable cfg : Config.
Variable fuel : nat.

(** X7.  A run lists the remote folder and asks the server
    to delete files only when the source is a folder and mirror mode is
    on: with the camera source, or with mirror mode off, no interaction
    of the run is a remote listing or a delete request, whatever the
    server answers and whenever the user cancels. *)
Theorem prune_only_in_mirror_mode :
  ~ (syncSource cfg = folder /\ mirrorRemote cfg = true) ->
  steps notMirrorEvent (runSync StringToNumber w cfg fuel).
Proof.
  intros Hoff. apply (steps_weaken (eventsOf StringToNumber w cfg));
    [|apply runSync_events].
  intros ev. unfold eventsOf. destruct (selectedRoot cfg); [|tauto].
  destruct ev; simpl; tauto.
Qed.

(** X8.  The planner never asks for the status of more than
    [STATUS_BATCH_SIZE] = 60 files at once, and never sends an empty
    batch: every batch status request of a run, for either source, carries
    between 1 and 60 items. *)
Theorem status_batches_are_bounded :
  steps (statusBatchWithin STATUS_BATCH_SIZE) (runSync StringToNumber w cfg fuel) /\
  STATUS_BATCH_SIZE = 60%nat.
Proof.
  split; [|reflexivity].
  apply (steps_weaken (eventsOf StringToNumber w cfg)); [|apply runSync_events].
  intros ev. unfold eventsOf. destruct (selectedRoot cfg); [|tauto].
  destruct ev; simpl; tauto.
Qed.

(** X9.  The pruner deletes in batches of at most
    [DELETE_BATCH_SIZE] = 100 paths and never sends an empty batch; the
    batches it cuts from the list of paths to delete are that list, in
    order, with every path in one batch. *)
Theorem delete_batches_are_bounded :
  steps (deleteBatchWithin DELETE_BATCH_SIZE) (runSync StringToNumber w cfg fuel) /\
  DELETE_BATCH_SIZE = 100%nat /\
  (forall paths : list string,
      concat (slices (List.length paths) DELETE_BATCH_SIZE paths) = paths).
Proof.
  split; [|split; [reflexivity|]].
  - apply (steps_weaken (eventsOf StringToNumber w cfg)); [|apply runSync_events].
    intros ev. unfold eventsOf. destruct (selectedRoot cfg); [|tauto].
    destruct ev; simpl; tauto.
  - intros paths. apply slices_concat; [unfold DELETE_BATCH_SIZE; lia|lia].
Qed.

(** X10.  When a read never returns more bytes than it was
    asked for, the executor reads and sends a file in pieces of at least
    one byte and at most [chunkBytes] bytes, at offsets that are never
    negative: every read asks for between 1 and [chunkBytes] bytes, and
    every chunk request carries between 1 and [chunkBytes] bytes.
    [chunkBytes] lies between [MIN_CHUNK_BYTES] and [MAX_CHUNK_BYTES]
    whatever the server advertises. *)
Theorem chunks_are_bounded :
  readsWithinCount w ->
  steps (chunkWithin (chunkBytes StringToNumber cfg))
    (runSync StringToNumber w cfg fuel) /\
  256 * 1024 <= chunkBytes StringToNumber cfg <= 2 * 1024 * 1024.
Proof.
  intros Hreads. split; [|apply chunkBytes_pos].
  apply (steps_weaken (eventsOf StringToNumber w cfg)); [|apply runSync_events].
  intros ev. unfold eventsOf. destruct (selectedRoot cfg); [|tauto].
  destruct ev; cbn [runEvent chunkWithin]; try tauto.
  intros (_ & Hoffset & Hbytes & Hlimit). specialize (Hlimit Hreads). lia.
Qed.

(** X11.  Every request that a run sends to the server, a status
    check, a chunk, a listing or a deletion, names the root that is
    selected in the settings, and a run without a selected root sends
    nothing. *)
Theorem requests_name_the_selected_root :
  steps (toSelectedRoot cfg) (runSync StringToNumber w cfg fuel) /\
  (selectedRoot cfg = None ->
   forall st, trace (snd (runSync StringToNumber w cfg fuel st)) = trace st).
Proof.
  split.
  - apply (steps_weaken (eventsOf StringToNumber w cfg)); [|apply runSync_events].
    intros ev. unfold eventsOf, toSelectedRoot.
    destruct (selectedRoot cfg) as [rootId|]; [|tauto].
    destruct ev; simpl; try tauto; intuition congruence.
  - intros Hnone st. unfold runSync. rewrite Hnone.
    now destruct (syncRunning cfg).
Qed.

End Requests.

Section RequestsOnScenarios.

Import Scenario Scenario2.

Lemma prune_only_in_mirror_mode_witness :
  steps notMirrorEvent (runSync noStrings nothingResolved (settings false skip) 10).
Proof.
  apply (prune_only_in_mirror_mode noStrings nothingResolved (settings false skip) 10).
  intros [_ H]. discriminate H.
Defined.

Lemma chunks_are_bounded_witness :
  steps (chunkWithin (chunkBytes noStrings (settings false skip)))
    (runSync noStrings steady (settings false skip) 10).
Proof.
  refine (proj1 (chunks_are_bounded noStrings steady (settings false skip) 10 _)).
  intros t uri offset count n Hcount [= <-]. lia.
Defined.

(** The chunk requests of a run that uploads one file of ten bytes. *)
Example chunks_of_a_small_run :
  flat_map (fun ev => match ev with
                      | EvChunk q bytes => [(cq_offset q, bytes)]
                      | _ => []
                      end)
    (trace (snd (runSync noStrings steady (settings false skip) 10 initialState)))
  = [(0, 10%nat)].
Proof. vm_compute. reflexivity. Qed.

(** A folder of 130 files is checked in batches of 60, 60 and 10, and the
    250 remote files that are not in it are deleted in batches of 100,
    100 and 50. *)
Example batches_of_a_large_folder :
  let final := snd (runSync noStrings (allComplete 130 250) (settings true skip) 20
                      initialState) in
  batchSizes (trace final) = [60; 60; 10]%nat /\
  deleteSizes (trace final) = [100; 100; 50]%nat /\
  stage (progress final) = done /\
  skipped (progress final) = 130 /\
  remoteDeleted (progress final) = 250.
Proof. vm_compute. repeat split. Qed.

End RequestsOnScenarios.

(* ------------------------------------------------------------------ *)
(** ** What a computation leaves of the progress *)

Lemma sameView_refl {T : Type} (view : SyncProgress -> T) (st : MState) :
  sameView view st st.
Proof. reflexivity. Qed.

Lemma sameView_trans {T : Type} (view : SyncProgress -> T) (a b c : MState) :
  sameView view a b -> sameView view b c -> sameView view a c.
Proof. unfold sameView. congruence. Qed.

Lemma sameView_tick {T : Type} (view : SyncProgress -> T) (ev : Event) (st : MState) :
  sameView view st (tick ev st).
Proof. reflexivity. Qed.

Lemma sameView_patch {T : Type} (view : SyncProgress -> T)
  (f : SyncProgress -> SyncProgress) :
  (forall p, view (f p) = view p) -> keeps (sameView view) (setSyncProgress f).
Proof. intros H st. apply H. Qed.

Lemma keeps_tryCatch {A : Type} (R : MState -> MState -> Prop) (body : M A)
  (handler : string -> M A) :
  (forall a b c, R a b -> R b c -> R a c) ->
  keeps R body -> (forall message, keeps R (handler message)) ->
  keeps R (tryCatch body handler).
Proof.
  intros Htrans Hbody Hhandler st. unfold tryCatch. specialize (Hbody st).
  destruct (body st) as [[a|message|] st1]; simpl in *; try exact Hbody.
  exact (Htrans _ _ _ Hbody (Hhandler message st1)).
Qed.

Ltac kept_step :=
  first
    [ solve [auto with steps]
    | progress cbv zeta
    | apply (keeps_ret _ (sameView_refl _))
    | apply (keeps_throw _ (sameView_refl _))
    | apply (keeps_diverge _ (sameView_refl _))
    | apply (keeps_interact _ (sameView_tick _))
    | apply (keeps_interactOutcome _ (sameView_tick _))
    | apply sameView_patch; solve [intros ?; reflexivity | auto]
    | intros ?; apply sameView_refl
    | match goal with
      | |- keeps _ (bind _ _) =>
          apply (keeps_bind _ (sameView_trans _)); [|intros ?]
      | |- keeps _ (tryFinally _ _) =>
          apply (keeps_tryFinally _ (sameView_trans _))
      | |- keeps _ (tryCatch _ _) =>
          apply (keeps_tryCatch _ _ _ (sameView_trans _)); [|intros ?]
      | |- keeps _ (if ?b then _ else _) => destruct b
      | |- keeps _ (match ?x with _ => _ end) => destruct x
      end ].

Ltac kept_auto := repeat kept_step.

Lemma mirrorPrune_keeps {T : Type} (view : SyncProgress -> T) (w : World)
  (cfg : Config) (rootId : string) :
  (forall s p, view (Patch.setStage s p) = view p) ->
  (forall deleted deleteFailed p,
      view (Patch.deleteCounts deleted deleteFailed p) = view p) ->
  forall fuel loc, keeps (sameView view) (mirrorPrune w cfg rootId fuel loc).
Proof.
  intros Hstage Hcounts fuel loc.
  assert (Hlist : forall fuel' queue current remoteFiles,
             keeps (sameView view)
               (fetchRemoteFilesLoop w rootId fuel' queue current remoteFiles)).
  { induction fuel' as [|fuel' IH]; intros; cbn [fetchRemoteFilesLoop]; kept_auto. }
  assert (Hdelete : forall batches deleted deleteFailed,
             keeps (sameView view) (deleteLoop w rootId batches deleted deleteFailed)).
  { induction batches as [|batch rest IH]; intros; cbn [deleteLoop]; kept_auto. }
  unfold mirrorPrune, fetchRemoteFilesForMirror. kept_auto.
Qed.

(* ------------------------------------------------------------------ *)
(** ** The executor: handles, completion, and a stray acknowledgement *)

Section Executor.

Variable StringToNumber : string -> jsnum.
Variable w : World.
Variable cfg : Config.
Variable rootId : string.

Local Abbreviation uploadLoop' := (uploadLoop StringToNumber w cfg rootId).
Local Abbreviation uploadCandidate' := (uploadCandidate StringToNumber w cfg rootId).
Local Abbreviation uploadAll' := (uploadAll StringToNumber w cfg rootId).

Lemma uploadLoop_turns (fuel : nat) :
  forall candidate offset uploadedBytes',
    steps chunkTurnEvent (uploadLoop' fuel candidate offset uploadedBytes').
Proof.
  induction fuel as [|fuel IH]; intros; cbn [uploadLoop]; steps_auto.
Qed.

Lemma uploadFuel_enough (candidate : UploadCandidate) :
  size candidate - startOffset candidate <= Z.of_nat (uploadFuel candidate).
Proof. unfold uploadFuel. lia. Qed.

(** The executor for one candidate, after the file was opened. *)
Lemma uploadCandidate_opened (candidate : UploadCandidate) (uploaded' : Z)
  (uploadedBytes' : jsnum) (st : MState) :
  uploadCandidate' candidate uploaded' uploadedBytes' st =
  match w_open w (clock st) (localUri candidate) with
  | HostThrows message => (Thrown message, tick (EvOpen (localUri candidate)) st)
  | HostOk _ =>
      tryFinally
        (setSyncProgress
           (Patch.candidateStart candidate (startOffset candidate)
              uploaded' uploadedBytes') ;;
         r <- uploadLoop' (uploadFuel candidate) candidate
                (Num (startOffset candidate)) uploadedBytes' ;;
         let (finalOffset, finalBytes) := r in
         if jsGe finalOffset (Num (size candidate)) then
           setSyncProgress (Patch.candidateDone (uploaded' + 1) (size candidate)) ;;
           ret (uploaded' + 1, finalBytes)
         else ret (uploaded', finalBytes))
        (interact (EvClose (localUri candidate)) (fun _ => tt))
        (tick (EvOpen (localUri candidate)) st)
  end.
Proof.
  unfold uploadCandidate. cbv zeta. unfold bind at 1, interactOutcome at 1.
  now destruct (w_open w (clock st) (localUri candidate)) as [[]|message].
Qed.

(** X12.  The file handle of a candidate is closed on every path.
    When the file opens, whatever happens to its chunks (they all go
    through, a read fails, the server refuses a chunk, the offsets cannot
    be reconciled, the user cancels), the interactions for the candidate
    are the open, then reads, chunk requests and status checks only, then
    exactly one close, and the executor comes back: it returns or throws.
    When the file does not open, the exception goes up and there is
    nothing to close. *)
Theorem handle_is_always_closed (candidate : UploadCandidate) (uploaded' : Z)
  (uploadedBytes' : jsnum) (st : MState) :
  let run := uploadCandidate' candidate uploaded' uploadedBytes' st in
  fst run <> Diverged /\
  match w_open w (clock st) (localUri candidate) with
  | HostOk _ =>
      exists turns,
        trace (snd run)
        = (trace st ++ [EvOpen (localUri candidate)] ++ turns
                    ++ [EvClose (localUri candidate)])%list /\
        Forall chunkTurnEvent turns
  | HostThrows message =>
      run = (Thrown message, tick (EvOpen (localUri candidate)) st)
  end.
Proof.
  intros run. unfold run. rewrite uploadCandidate_opened.
  destruct (w_open w (clock st) (localUri candidate)) as [[]|message];
    [|split; [discriminate|reflexivity]].
  set (st1 := tick (EvOpen (localUri candidate)) st).
  match goal with
  | |- context [tryFinally ?b ?c st1] => set (body := b); set (cleanup := c)
  end.
  assert (Hsteps : steps chunkTurnEvent body).
  { pose proof uploadLoop_turns. unfold body. steps_auto. }
  assert (Hback : fst (body st1) <> Diverged).
  { unfold body. unfold bind at 1, setSyncProgress at 1. unfold bind at 1.
    pose proof (uploadLoop_enough_fuel StringToNumber w cfg rootId candidate
                  (startOffset candidate) (uploadFuel candidate) uploadedBytes'
                  (patched (Patch.candidateStart candidate (startOffset candidate)
                              uploaded' uploadedBytes') st1)
                  (uploadFuel_enough candidate)) as Hfuel.
    destruct (uploadLoop' _ _ _ _ _) as [[[finalOffset finalBytes]|?|] st2];
      [|discriminate|contradiction].
    destruct (jsGe finalOffset (Num (size candidate))); discriminate. }
  destruct (Hsteps st1) as (_ & turns & Htrace & Hturns).
  unfold tryFinally.
  destruct (body st1) as [[r|message|] st2]; [| |contradiction];
    (split; [discriminate|]); exists turns; (split; [|exact Hturns]);
    cbn [snd fst] in *; unfold cleanup, interact; cbn [snd tick trace];
    rewrite Htrace; unfold st1; cbn [tick trace]; now rewrite <- !app_assoc.
Qed.

Lemma uploadLoop_kept {T : Type} (view : SyncProgress -> T) :
  (forall bytes offset p, view (Patch.chunkDone bytes offset p) = view p) ->
  forall fuel candidate offset uploadedBytes',
    keeps (sameView view) (uploadLoop' fuel candidate offset uploadedBytes').
Proof.
  intros Hview. induction fuel as [|fuel IH]; intros; cbn [uploadLoop]; kept_auto.
Qed.

Lemma uploadCandidate_kept {T : Type} (view : SyncProgress -> T) :
  (forall bytes offset p, view (Patch.chunkDone bytes offset p) = view p) ->
  (forall candidate offset uploaded' bytes p,
      view (Patch.candidateStart candidate offset uploaded' bytes p) = view p) ->
  (forall uploaded' size' p, view (Patch.candidateDone uploaded' size' p) = view p) ->
  forall candidate uploaded' uploadedBytes',
    keeps (sameView view) (uploadCandidate' candidate uploaded' uploadedBytes').
Proof.
  intros H1 H2 H3 candidate uploaded' uploadedBytes'.
  pose proof (uploadLoop_kept view H1). unfold uploadCandidate. kept_auto.
Qed.

Lemma uploadAll_kept {T : Type} (view : SyncProgress -> T) :
  (forall bytes offset p, view (Patch.chunkDone bytes offset p) = view p) ->
  (forall candidate offset uploaded' bytes p,
      view (Patch.candidateStart candidate offset uploaded' bytes p) = view p) ->
  (forall uploaded' size' p, view (Patch.candidateDone uploaded' size' p) = view p) ->
  forall candidates uploaded' uploadedBytes',
    keeps (sameView view) (uploadAll' candidates uploaded' uploadedBytes').
Proof.
  intros H1 H2 H3. pose proof (uploadCandidate_kept view H1 H2 H3).
  induction candidates as [|candidate rest IH]; intros; cbn [uploadAll]; kept_auto.
Qed.

Lemma uploadAll_keeps_plan (candidates : list UploadCandidate) (uploaded' : Z)
  (uploadedBytes' : jsnum) :
  keeps (sameView planView) (uploadAll' candidates uploaded' uploadedBytes').
Proof. apply uploadAll_kept; reflexivity. Qed.

Section Accepting.

Hypothesis Haccepting : accepting StringToNumber w.

Lemma accepting_running (st : MState) : cancelledAt w (clock st) = false.
Proof. unfold cancelledAt. now rewrite (proj1 Haccepting). Qed.

Lemma uploadLoop_accepting (fuel : nat) :
  forall candidate offset uploadedBytes' st,
    size candidate - offset <= Z.of_nat fuel ->
    exists final bytes st',
      uploadLoop' fuel candidate (Num offset) uploadedBytes' st
      = (Returned (Num final, bytes), st') /\
      size candidate <= final /\ offset <= final.
Proof.
  destruct Haccepting as (_ & _ & Hread & Hchunk & _).
  induction fuel as [|fuel IH]; intros candidate offset bytes st Hfuel.
  - exists offset, bytes, st. cbn [uploadLoop].
    destruct (Z.ltb_spec offset (size candidate)); [lia|]. split; [reflexivity|lia].
  - destruct (Z.lt_ge_cases offset (size candidate)) as [Hlt|Hge].
    + destruct (Hread (clock st) (localUri candidate) offset
                  (Z.min (chunkBytes StringToNumber cfg) (size candidate - offset)))
        as [n Hn].
      { pose proof (chunkBytes_positive StringToNumber cfg). lia. }
      rewrite (uploadLoop_turn StringToNumber w cfg rootId candidate offset bytes st
                 fuel n Hlt (accepting_running st) Hn).
      destruct (Hchunk (S (clock st)) (chunkUrlAt cfg rootId candidate offset) (S n))
        as (v & z & -> & ->).
      cbv zeta. cbn [jsMax jsSub jsAdd].
      match goal with
      | |- context [uploadLoop' fuel candidate (Num ?o) ?b ?s] =>
          destruct (IH candidate o b s) as (final & bytes' & st' & E & H1 & H2);
          [lia|]
      end.
      exists final, bytes', st'. split; [exact E|lia].
    + exists offset, bytes, st. cbn [uploadLoop].
      destruct (Z.ltb_spec offset (size candidate)); [lia|]. split; [reflexivity|lia].
Qed.

Lemma uploadCandidate_accepting (candidate : UploadCandidate) (uploaded' : Z)
  (uploadedBytes' : jsnum) (st : MState) :
  exists bytes st',
    uploadCandidate' candidate uploaded' uploadedBytes' st
    = (Returned (uploaded' + 1, bytes), st').
Proof.
  rewrite uploadCandidate_opened, (proj1 (proj2 Haccepting)).
  unfold tryFinally. unfold bind at 1, setSyncProgress at 1. unfold bind at 1.
  match goal with
  | |- context [uploadLoop' ?f candidate (Num ?o) ?b ?s] =>
      destruct (uploadLoop_accepting f candidate o b s (uploadFuel_enough candidate))
        as (final & bytes & st' & -> & Hfinal & _)
  end.
  cbn [jsGe]. destruct (Z.leb_spec (size candidate) final); [|lia].
  eexists _, _. reflexivity.
Qed.

Lemma uploadAll_accepting (candidates : list UploadCandidate) :
  forall uploaded' uploadedBytes' st,
  exists bytes st',
    uploadAll' candidates uploaded' uploadedBytes' st
    = (Returned (uploaded' + Z.of_nat (List.length candidates), bytes), st').
Proof.
  induction candidates as [|candidate rest IH]; intros uploaded' bytes st.
  - exists bytes, st. cbn [uploadAll List.length Z.of_nat]. now rewrite Z.add_0_r.
  - destruct (uploadCandidate_accepting candidate uploaded' bytes st)
      as (bytes1 & st1 & E1).
    rewrite (uploadAll_next StringToNumber w cfg rootId candidate rest uploaded'
               bytes st st1 _ (accepting_running st) E1).
    cbn [fst snd]. destruct (IH (uploaded' + 1) bytes1 st1) as (bytes2 & st2 & E2).
    exists bytes2, st2. rewrite E2.
    replace (uploaded' + 1 + Z.of_nat (List.length rest))
      with (uploaded' + Z.of_nat (List.length (candidate :: rest)))
      by (cbn [List.length]; lia).
    reflexivity.
Qed.


End Accepting.

(** X14.  An acknowledgement whose offset is not a number ends
    the file without an error.  When the server accepts the first chunk
    of a candidate and reports an offset that [Number] turns into NaN,
    the local offset becomes NaN, both loop conditions are false from then
    on, and the executor leaves the file after that one chunk: it closes
    the handle, does not count the file as uploaded, throws nothing, and
    the byte counters of the progress are NaN. *)
Theorem non_numeric_acknowledgement_ends_the_file (candidate : UploadCandidate)
  (uploaded' : Z) (uploadedBytes' : jsnum) (st : MState) (n : nat) (v : jsval) :
  let uri := localUri candidate in
  let start := startOffset candidate in
  let count := Z.min (chunkBytes StringToNumber cfg) (size candidate - start) in
  start < size candidate ->
  cancelledAt w (S (clock st)) = false ->
  w_open w (clock st) uri = HostOk tt ->
  w_readBytes w (S (clock st)) uri start count = HostOk (S n) ->
  w_chunk w (S (S (clock st))) (chunkUrlAt cfg rootId candidate start) (S n)
    = ChunkOk v ->
  ToNumber StringToNumber (jsOr v (JNum 0)) = NaN ->
  exists final,
    uploadCandidate' candidate uploaded' uploadedBytes' st
    = (Returned (uploaded', NaN), final) /\
    trace final
    = (trace st ++ [EvOpen uri; EvRead uri start count;
                    EvChunk (chunkUrlAt cfg rootId candidate start) (S n);
                    EvClose uri])%list /\
    uploaded (progress final) = uploaded' /\
    uploadedBytes (progress final) = NaN /\
    currentFileUploaded (progress final) = NaN.
Proof.
  intros uri start count Hlt Hrunning Hopen Hread Hchunk Hnan.
  rewrite uploadCandidate_opened. fold uri. rewrite Hopen.
  unfold tryFinally. unfold bind at 1, setSyncProgress at 1. unfold bind at 1.
  fold start.
  destruct (uploadFuel candidate) as [|fuel] eqn:Efuel;
    [unfold uploadFuel in Efuel; fold start in Efuel; lia|].
  rewrite (uploadLoop_turn StringToNumber w cfg rootId candidate start
             uploadedBytes'
             (patched (Patch.candidateStart candidate start uploaded' uploadedBytes')
                (tick (EvOpen uri) st))
             fuel n Hlt Hrunning Hread).
  cbn [clock patched tick]. rewrite Hchunk, Hnan. cbv zeta. cbn [jsMax jsSub].
  rewrite uploadLoop_NaN. cbn [jsGe]. unfold ret.
  destruct uploadedBytes'; cbn [jsAdd];
    (eexists; split; [reflexivity|]); cbn; repeat split;
    now rewrite <- !app_assoc.
Qed.

End Executor.

Section ExecutorOnScenarios.

Import Scenario.

Lemma steady_is_accepting : accepting noStrings steady.
Proof.
  unfold accepting, steady, world. cbn. repeat split.
  - intros _ _ _ count Hcount. exists (Z.to_nat (count - 1)). f_equal. lia.
  - intros _ _ _. now exists (JNum 10), 10.
Qed.


(** The server acknowledges the first chunk of [photoA] with the offset
    ["abc"]. *)
Lemma non_numeric_acknowledgement_ends_the_file_witness :
  exists final,
    uploadCandidate noStrings
      (world (answer []) noStatus (fun _ _ _ => ChunkOk (JStr "abc")) twoFiles [])
      (settings false skip) "root1" photoA 0 (Num 0) initialState
    = (Returned (0, NaN), final) /\
    trace final
    = ([] ++ [EvOpen "file:///sdcard/DCIM/a.jpg";
              EvRead "file:///sdcard/DCIM/a.jpg" 0 10;
              EvChunk (chunkUrlAt (settings false skip) "root1" photoA 0) 10;
              EvClose "file:///sdcard/DCIM/a.jpg"])%list /\
    uploaded (progress final) = 0 /\
    uploadedBytes (progress final) = NaN /\
    currentFileUploaded (progress final) = NaN.
Proof.
  apply (non_numeric_acknowledgement_ends_the_file noStrings
           (world (answer []) noStatus (fun _ _ _ => ChunkOk (JStr "abc")) twoFiles [])
           (settings false skip) "root1" photoA 0 (Num 0) initialState 9
           (JStr "abc")); reflexivity.
Defined.

End ExecutorOnScenarios.

(* ------------------------------------------------------------------ *)
(** ** How a run ends *)

Section ErrorText.

Variable StringToNumber : string -> jsnum.
Variable w : World.
Variable cfg : Config.
Variable rootId : string.

Local Abbreviation kept := (keeps (sameView error_)).

Lemma resolveRenameLoop_kept (remaining : nat) :
  forall attempt candidate,
    kept (resolveRenameLoop StringToNumber w cfg rootId remaining attempt candidate).
Proof.
  induction remaining as [|remaining IH]; intros; cbn [resolveRenameLoop]; kept_auto.
Qed.

Lemma applyStatusLoop_kept (batch : list UploadCandidate) :
  forall index statusItems loc,
    kept (applyStatusLoop StringToNumber w cfg rootId batch index statusItems loc).
Proof.
  pose proof resolveRenameLoop_kept.
  induction batch as [|candidate rest IH]; intros; cbn [applyStatusLoop];
    unfold applyStatusItem, resolveRenameCandidate; kept_auto.
Qed.

Lemma applyStatusBatch_kept (batch : list UploadCandidate) (loc : Plan.t) :
  kept (applyStatusBatch StringToNumber w cfg rootId batch loc).
Proof.
  pose proof applyStatusLoop_kept.
  unfold applyStatusBatch, fetchUploadStatusBatch. kept_auto.
Qed.

Lemma flushIfFull_kept (pending : list UploadCandidate) (loc : Plan.t) :
  kept (flushIfFull StringToNumber w cfg rootId pending loc).
Proof. pose proof applyStatusBatch_kept. unfold flushIfFull. kept_auto. Qed.

Lemma flushRest_kept (pending : list UploadCandidate) (loc : Plan.t) :
  kept (flushRest StringToNumber w cfg rootId pending loc).
Proof. pose proof applyStatusBatch_kept. unfold flushRest. kept_auto. Qed.

Lemma planFolder_kept : kept (planFolder StringToNumber w cfg rootId).
Proof.
  pose proof flushIfFull_kept. pose proof flushRest_kept.
  assert (Hloop : forall folderCandidates index pending loc,
             kept (planFolderLoop StringToNumber w cfg rootId folderCandidates
                     index pending loc)).
  { induction folderCandidates as [|candidate rest IH]; intros;
      cbn [planFolderLoop]; kept_auto. }
  unfold planFolder. kept_auto.
Qed.

Lemma planCameraPages_kept (fuel : nat) :
  forall pageCursor pending loc,
    kept (planCameraPages StringToNumber w cfg rootId fuel pageCursor pending loc).
Proof.
  pose proof flushIfFull_kept.
  assert (Hasset : forall asset pending loc,
             kept (planCameraAsset StringToNumber w cfg rootId asset pending loc)).
  { intros. unfold planCameraAsset, monthBucketFromTime, normalizeTimestamp.
    kept_auto. }
  assert (Hassets : forall assets pending loc,
             kept (planCameraAssets StringToNumber w cfg rootId assets pending loc)).
  { induction assets as [|asset rest IH]; intros; cbn [planCameraAssets]; kept_auto. }
  induction fuel as [|fuel IH]; intros; cbn [planCameraPages]; kept_auto.
Qed.

Lemma mirrorPrune_kept (fuel : nat) (loc : Plan.t) :
  kept (mirrorPrune w cfg rootId fuel loc).
Proof. apply mirrorPrune_keeps; reflexivity. Qed.

Lemma uploadAll_keeps_error (candidates : list UploadCandidate) (uploaded' : Z)
  (uploadedBytes' : jsnum) :
  kept (uploadAll StringToNumber w cfg rootId candidates uploaded' uploadedBytes').
Proof. apply uploadAll_kept; reflexivity. Qed.

(** After planning: a run that comes back is done or cancelled, and the
    error text is the one it started with. *)
Lemma afterPlanning_settles (fuel : nat) (loc : Plan.t) (st st' : MState) :
  afterPlanning StringToNumber w cfg rootId fuel loc st = (Returned tt, st') ->
  (stage (progress st') = done \/ stage (progress st') = cancelled) /\
  error_ (progress st') = error_ (progress st).
Proof.
  unfold afterPlanning. unfold bind at 1, isCancelled at 1.
  destruct (cancelledAt w (clock st)).
  { unfold setSyncProgress. intros [= <-]. cbn. auto. }
  unfold bind at 1, setSyncProgress at 1. unfold bind at 1.
  pose proof (uploadAll_keeps_error (Plan.candidates loc) 0 (Num 0)
                (patched (Patch.uploadStart loc) st)) as H1.
  destruct (uploadAll _ _ _ _ _ _ _ _) as [[r|?|] st1]; try discriminate.
  unfold bind at 1, isCancelled at 1. unfold bind at 1.
  match goal with
  | |- context [(if ?c then mirrorPrune w cfg rootId fuel loc else ret (0, 0)) st1] =>
      assert (H2 : sameView error_ st1
                     (snd ((if c then mirrorPrune w cfg rootId fuel loc
                            else ret (0, 0)) st1)))
        by (destruct c; [apply mirrorPrune_kept|reflexivity]);
      destruct ((if c then mirrorPrune w cfg rootId fuel loc else ret (0, 0)) st1)
        as [[counts|?|] st2]; try discriminate
  end.
  unfold bind at 1, isCancelled at 1. unfold bind at 1.
  unfold sameView in H1, H2. cbn [snd progress patched] in H1, H2.
  destruct (cancelledAt w (clock st2)); unfold setSyncProgress, interactOutcome;
    destruct (w_refresh w _) as [[]|message]; cbn [ofHost]; try discriminate;
    intros [= <-]; cbn; rewrite H2, H1; auto.
Qed.

Lemma runBody_settles (fuel : nat) (st st' : MState) :
  error_ (progress st) = "" ->
  runBody StringToNumber w cfg rootId fuel st = (Returned tt, st') ->
  settled (progress st').
Proof.
  intros Hclean. unfold runBody, planRun. destruct (syncSource cfg).
  - unfold bind at 1. unfold planCamera. unfold bind at 1, interactOutcome at 1.
    destruct (w_requestPermissions w (clock st)) as [granted|message];
      cbn [ofHost]; [|discriminate].
    destruct granted; cbn [negb].
    + unfold bind at 1.
      pose proof (planCameraPages_kept fuel "" [] Plan.empty (tick EvPermission st))
        as H1.
      destruct (planCameraPages _ _ _ _ _ _ _ _ _) as [[r|?|] st1]; try discriminate.
      unfold bind at 1.
      pose proof (flushRest_kept (fst r) (snd r) st1) as H2.
      destruct (flushRest _ _ _ _ _ _ _) as [[loc|?|] st2]; try discriminate.
      unfold ret at 1. intros Hafter. apply afterPlanning_settles in Hafter.
      unfold sameView in H1, H2. cbn [snd progress tick] in H1, H2.
      left. destruct Hafter as [Hstage ->]. split; [exact Hstage|congruence].
    + unfold bind at 1, setSyncProgress at 1, ret. intros [= <-]. right.
      split; [reflexivity|discriminate].
  - unfold bind at 1. unfold bind at 1.
    pose proof (planFolder_kept st) as H1.
    destruct (planFolder _ _ _ _ _) as [[loc|?|] st1]; try discriminate.
    unfold ret at 1. intros Hafter. apply afterPlanning_settles in Hafter.
    unfold sameView in H1. cbn [snd] in H1.
    left. destruct Hafter as [Hstage ->]. split; [exact Hstage|congruence].
Qed.

End ErrorText.

Lemma toErrorMessage_nonempty (message fallback : string) :
  fallback <> "" -> toErrorMessage message fallback <> "".
Proof.
  intros H. unfold toErrorMessage.
  destruct (String.eqb_spec (Js.trim message) ""); assumption.
Qed.

Section RunEnds.

Variable StringToNumber : string -> jsnum.
Variable w : World.
Variable cfg : Config.
Variable fuel : nat.
Variable st : MState.

Local Abbreviation result := (runSync StringToNumber w cfg fuel st).

(** X15.  [runSync] never lets an exception out: every error of
    the run is caught and shown.  A run that passed the checks and came
    back has turned the running flag off and left the progress settled:
    either in the stage [done] or [cancelled] with an empty error text,
    or in the stage [error] with an error text that is not empty, and
    never in one of the working stages. *)
Theorem run_always_settles :
  (forall message, fst result <> Thrown message) /\
  (syncRunning cfg = false -> fst result = Returned tt ->
   settled (progress (snd result))) /\
  (forall root, validated cfg root -> fst result = Returned tt ->
                running (snd result) = false).
Proof.
  split; [|split].
  - intros message. unfold runSync.
    destruct (syncRunning cfg); [discriminate|].
    destruct (selectedRoot cfg) as [root|]; [|discriminate].
    destruct (negb (uploadEnabled cfg)); [discriminate|].
    destruct (_ && _); [discriminate|].
    unfold bind, setSyncRunning, setSyncProgress, tryFinally, tryCatch.
    destruct (runBody _ _ _ _ _ _) as [[[]|?|] ?]; cbn; discriminate.
  - intros Hidle. unfold runSync. rewrite Hidle.
    destruct (selectedRoot cfg) as [root|];
      [|intros _; right; split; [reflexivity|discriminate]].
    destruct (negb (uploadEnabled cfg));
      [intros _; right; split; [reflexivity|discriminate]|].
    destruct (_ && _); [intros _; right; split; [reflexivity|discriminate]|].
    unfold bind, setSyncRunning, setSyncProgress, tryFinally, tryCatch.
    match goal with
    | |- context [runBody _ _ _ _ _ ?s] =>
        pose proof (runBody_settles StringToNumber w cfg root fuel s) as Hbody;
        destruct (runBody StringToNumber w cfg root fuel s) as [[[]|message|] st1]
    end; cbn [fst snd progress]; intros Hback.
    + now apply Hbody.
    + right. split; [reflexivity|]. now apply toErrorMessage_nonempty.
    + discriminate Hback.
  - intros root Hvalid. rewrite (runSync_validated StringToNumber w cfg root fuel st Hvalid).
    unfold tryFinally, tryCatch, setSyncRunning, setSyncProgress.
    destruct (runBody _ _ _ _ _ _) as [[[]|?|] ?]; cbn; try reflexivity. discriminate.
Qed.

(** X16.  A run that does not pass the checks does nothing but
    show why.  While a run is going on, a second call returns at once and
    changes nothing.  Without a selected root, with uploads disabled on
    the server, or with the folder source and no folder picked, the call
    replaces the progress by the error stage with the matching text and
    zeroed counters; it sends no request, and leaves the clock, the
    trace and the running flag as they were. *)
Theorem refused_run_only_reports :
  (syncRunning cfg = true -> result = (Returned tt, st)) /\
  (syncRunning cfg = false -> (forall root, ~ validated cfg root) ->
   exists message,
     result = (Returned tt,
               {| clock := clock st; trace := trace st; running := running st;
                  progress := Patch.errorProgress message |}) /\
     message <> "" /\
     (selectedRoot cfg = None ->
      message = "Choose a destination root before syncing.") /\
     (selectedRoot cfg <> None -> uploadEnabled cfg = false ->
      message = "Uploads are disabled on the server.") /\
     (selectedRoot cfg <> None -> uploadEnabled cfg = true ->
      message = "Pick a local folder to sync first.")).
Proof.
  split.
  - intros Hbusy. unfold runSync. now rewrite Hbusy.
  - intros Hidle Hrefused. unfold runSync. rewrite Hidle.
    destruct (selectedRoot cfg) as [root|] eqn:Hroot.
    + destruct (uploadEnabled cfg) eqn:Henabled; cbn [negb].
      * destruct (_ && _) eqn:Hfolder.
        -- eexists. split; [reflexivity|]. split; [discriminate|].
           repeat split; congruence.
        -- exfalso. apply (Hrefused root). now repeat split.
      * eexists. split; [reflexivity|]. split; [discriminate|].
        repeat split; congruence.
    + eexists. split; [reflexivity|]. split; [discriminate|].
      repeat split; congruence.
Qed.

Lemma planFolderLoop_cancelled (rootId : string)
  (folderCandidates : list UploadCandidate) (index : nat)
  (pending : list UploadCandidate) (loc : Plan.t) (st1 : MState) :
  cancelledAt w (clock st1) = true ->
  planFolderLoop StringToNumber w cfg rootId folderCandidates index pending loc st1
  = (Returned (pending, loc), st1).
Proof.
  intros Hstop. destruct folderCandidates; cbn [planFolderLoop]; [reflexivity|].
  unfold bind, isCancelled. now rewrite Hstop.
Qed.

Lemma planCameraPages_cancelled (rootId : string) (fuel' : nat) (pageCursor : string)
  (pending : list UploadCandidate) (loc : Plan.t) (st1 : MState) :
  cancelledAt w (clock st1) = true ->
  planCameraPages StringToNumber w cfg rootId fuel' pageCursor pending loc st1
  = (Returned (pending, loc), st1).
Proof.
  intros Hstop. destruct fuel'; cbn [planCameraPages];
    unfold bind, isCancelled; now rewrite Hstop.
Qed.

(** X17.  A run that is cancelled during its first step, the
    scan of the local folder or the request for the media library
    permission, stops before it asks the server anything: the only
    interaction of the run is that first step, the run ends in the stage
    [cancelled] with every counter at zero, and the running flag is off. *)
Theorem cancel_during_the_first_step (root : string) :
  validated cfg root ->
  cancelledAt w (S (clock st)) = true ->
  let stopped (first : Event) :=
    (Returned tt,
     {| clock := S (clock st); trace := (trace st ++ [first])%list;
        running := false;
        progress := Patch.setStage cancelled Patch.planningStart |}) in
  match syncSource cfg with
  | folder =>
      forall listing,
        w_localFolder w (clock st) (localFolderUri cfg) = HostOk listing ->
        result = stopped (EvScan (localFolderUri cfg))
  | camera =>
      w_requestPermissions w (clock st) = HostOk true ->
      result = stopped EvPermission
  end.
Proof.
  intros Hvalid Hstop stopped.
  rewrite (runSync_validated StringToNumber w cfg root fuel st Hvalid).
  unfold tryFinally, tryCatch, runBody, planRun.
  destruct (syncSource cfg).
  - intros Hgranted. unfold bind at 1. unfold planCamera.
    unfold bind at 1, interactOutcome at 1. cbn [clock started].
    rewrite Hgranted. cbn [ofHost negb]. unfold bind at 1.
    rewrite planCameraPages_cancelled by exact Hstop. cbn [fst snd].
    unfold bind at 1, flushRest, bind at 1, isCancelled at 1. cbn [clock tick started].
    unfold ret. unfold afterPlanning, bind, isCancelled.
    cbn [clock tick started]. now rewrite Hstop.
  - intros listing Hscan. unfold bind at 1. unfold bind at 1. unfold planFolder.
    unfold bind at 1, interactOutcome at 1. cbn [clock started].
    rewrite Hscan. cbn [ofHost]. cbv zeta. unfold bind at 1.
    rewrite planFolderLoop_cancelled by exact Hstop. cbn [fst snd].
    unfold flushRest, bind at 1, isCancelled at 1. cbn [clock tick started].
    unfold ret. unfold afterPlanning, bind, isCancelled.
    cbn [clock tick started]. now rewrite Hstop.
Qed.

End RunEnds.

Section RunEndsOnScenarios.

Import Scenario Scenario2.

Lemma cancel_during_the_first_step_witness :
  runSync noStrings (cancelAt 1 nothingResolved) (settings true rename) 10 initialState
  = (Returned tt,
     {| clock := 1; trace := [EvScan "file:///sdcard/DCIM"]; running := false;
        progress := Patch.setStage cancelled Patch.planningStart |}).
Proof.
  exact (cancel_during_the_first_step noStrings (cancelAt 1 nothingResolved)
           (settings true rename) 10 initialState "root1"
           (conj eq_refl (conj eq_refl (conj eq_refl eq_refl))) eq_refl
           (Some twoFiles) eq_refl).
Defined.

(** The same run, not cancelled, prunes the remote file that is not in
    the folder and ends in the stage [done]; a run that is refused ends in
    the error stage. *)
Example runs_that_settle :
  let kept := snd (runSync noStrings nothingResolved (settings true rename) 10
                     initialState) in
  stage (progress kept) = done /\ error_ (progress kept) = "" /\
  remoteDeleted (progress kept) = 1 /\ failed (progress kept) = 2 /\
  running kept = false.
Proof. vm_compute. repeat split. Qed.

End RunEndsOnScenarios.

(* ------------------------------------------------------------------ *)
(** ** The folder walker: what it returns and what it counts *)

Section Walker.

Variable StringToNumber : string -> jsnum.

Local Abbreviation collectEntry' := (collectEntry StringToNumber).
Local Abbreviation collectLoop' := (collectLoop StringToNumber).
Local Abbreviation FileAt' := (FileAt StringToNumber).

Lemma collectEntry_sound (root : option (list FsEntry)) (relPath : string)
  (entries0 : list FsEntry) :
  (forall file, FileAt' (Some entries0) relPath file -> FileAt' root "" file) ->
  forall entries stack scan,
    incl entries entries0 ->
    (forall listing rel file,
        In (listing, rel) stack -> FileAt' listing rel file -> FileAt' root "" file) ->
    (forall file, In file (scan_files scan) -> FileAt' root "" file) ->
    let acc := fold_left (collectEntry' relPath) entries (stack, scan) in
    (forall listing rel file,
        In (listing, rel) (fst acc) -> FileAt' listing rel file ->
        FileAt' root "" file) /\
    (forall file, In file (scan_files (snd acc)) -> FileAt' root "" file).
Proof.
  intros Hroot. induction entries as [|entry entries IH];
    intros stack scan Hincl Hstack Hscan; [now split|].
  cbn [fold_left]. assert (Hentry : In entry entries0) by (apply Hincl; now left).
  assert (Hrest : incl entries entries0) by (intros e He; apply Hincl; now right).
  destruct entry as [name uri rawSize|name listing|]; cbn [collectEntry].
  - destruct (ToNumber StringToNumber (jsOr rawSize (JNum 0))) as [|size'] eqn:Esize;
      [now apply IH|].
    destruct (String.eqb_spec (joinUploadPath [relPath; name]) "") as [|Hne];
      cbn [orb]; [now apply IH|].
    destruct (Z.ltb_spec size' 0) as [|Hpos]; [now apply IH|].
    apply IH; try assumption. cbn [scan_files]. intros file Hfile.
    apply in_app_or in Hfile as [Hfile|[<-|[]]]; [now apply Hscan|].
    apply Hroot. now apply (FileAt_here StringToNumber entries0 relPath name uri rawSize).
  - apply IH; try assumption.
    intros listing' rel file [[= <- <-]|Hin] Hat; [|now apply (Hstack listing' rel)].
    apply Hroot. now apply (FileAt_below StringToNumber entries0 relPath name listing).
  - now apply IH.
Qed.

Lemma collectLoop_sound (root : option (list FsEntry)) (fuel : nat) :
  forall stack scan result,
    (forall listing rel file,
        In (listing, rel) stack -> FileAt' listing rel file -> FileAt' root "" file) ->
    (forall file, In file (scan_files scan) -> FileAt' root "" file) ->
    collectLoop' fuel stack scan = Some result ->
    forall file, In file (scan_files result) -> FileAt' root "" file.
Proof.
  induction fuel as [|fuel IH]; intros stack scan result Hstack Hscan H;
    [discriminate|].
  destruct stack as [|[[entries|] relPath] stack']; cbn [collectLoop] in H.
  - now injection H as <-.
  - destruct (collectEntry_sound root relPath entries
                (fun file Hat => Hstack (Some entries) relPath file
                                   (or_introl eq_refl) Hat)
                entries stack' scan (incl_refl _)
                (fun listing rel file Hin => Hstack listing rel file (or_intror Hin))
                Hscan) as [Hstack1 Hscan1].
    exact (IH _ _ _ Hstack1 Hscan1 H).
  - refine (IH _ _ _ (fun listing rel file Hin =>
                        Hstack listing rel file (or_intror Hin)) _ H).
    exact Hscan.
Qed.

Lemma collectLocalFolderFiles_returns (root : option (list FsEntry)) :
  collectLoop' (S (stackWeight [(root, "")])) [(root, "")] emptyScan
  = Some (collectLocalFolderFiles StringToNumber root).
Proof.
  unfold collectLocalFolderFiles.
  pose proof (collectLoop_returns StringToNumber (S (stackWeight [(root, "")]))
                [(root, "")] emptyScan (Nat.lt_succ_diag_r _)) as H.
  now destruct (collectLoop' _ _ _).
Qed.

Lemma collectLocalFolderFiles_sound (root : option (list FsEntry))
  (file : LocalFolderFile) :
  In file (scan_files (collectLocalFolderFiles StringToNumber root)) ->
  FileAt' root "" file.
Proof.
  intros Hin.
  refine (collectLoop_sound root _ _ _ _ _ _ (collectLocalFolderFiles_returns root)
            file Hin).
  - intros listing rel found [[= <- <-]|[]] Hat. exact Hat.
  - intros found [].
Qed.

(** X18.  The folder walker returns exactly the files of the
    tree that it can reach and use: a descriptor is in the result if and
    only if it is that of a file below the root, through directories that
    can be listed, whose relative path is not empty and whose size is a
    number that is not negative; the descriptor carries the URI of the
    file, the joined relative path as path and as display name, and that
    size. *)
Theorem collectLocalFolderFiles_exact (root : option (list FsEntry))
  (file : LocalFolderFile) :
  In file (scan_files (collectLocalFolderFiles StringToNumber root))
  <-> FileAt' root "" file.
Proof.
  split.
  - apply collectLocalFolderFiles_sound.
  - apply collectLocalFolderFiles_complete.
Qed.

Lemma list_sum_cons (n : nat) (l : list nat) :
  list_sum (n :: l) = (n + list_sum l)%nat.
Proof. reflexivity. Qed.

Lemma collectEntry_counts (relPath : string) (entries : list FsEntry) :
  forall stack scan,
    let acc := fold_left (collectEntry' relPath) entries (stack, scan) in
    scan_discovered (snd acc) + Z.of_nat (stackFileCount (fst acc))
    = scan_discovered scan + Z.of_nat (stackFileCount stack)
      + Z.of_nat (list_sum (map entryFileCount entries)) /\
    scan_failed (snd acc) - scanRejected (snd acc)
    + Z.of_nat (stackLockedCount (fst acc))
    = scan_failed scan - scanRejected scan + Z.of_nat (stackLockedCount stack)
      + Z.of_nat (list_sum (map entryLockedCount entries)) /\
    (0 <= scanRejected scan -> 0 <= scanRejected (snd acc)).
Proof.
  induction entries as [|entry entries IH]; intros stack scan.
  - cbv zeta. cbn [fold_left fst snd map]; change (list_sum []) with 0%nat. repeat split; try lia; auto.
  - cbn [fold_left map]. rewrite !list_sum_cons.
    destruct entry as [name uri rawSize|name listing|]; cbn [collectEntry].
    + destruct (ToNumber StringToNumber (jsOr rawSize (JNum 0))) as [|size'];
        [|destruct (_ || _)];
        match goal with
        | |- context [fold_left _ entries (?s, ?c)] =>
            destruct (IH s c) as (I1 & I2 & I3)
        end; cbv zeta; unfold scanRejected in *;
        cbn [scan_discovered scan_failed scan_files entryFileCount entryLockedCount] in *;
        try rewrite length_app in *; cbn [List.length] in *;
        repeat split; try lia; intros Hrejected; apply I3; lia.
    + destruct (IH ((listing, joinUploadPath [relPath; name]) :: stack) scan)
        as (I1 & I2 & I3).
      cbv zeta. unfold stackFileCount, stackLockedCount in *.
      cbn [map fst] in *. rewrite !list_sum_cons in *.
      replace (entryFileCount (FsDirectory name listing))
        with (listingFileCount listing) by (now destruct listing).
      replace (entryLockedCount (FsDirectory name listing))
        with (listingLockedCount listing) by (now destruct listing).
      unfold WalkStack in *. repeat split; try assumption; lia.
    + destruct (IH stack scan) as (I1 & I2 & I3). cbv zeta.
      cbn [entryFileCount entryLockedCount]. unfold WalkStack in *.
      repeat split; try assumption; lia.
Qed.

Lemma collectLoop_counts (fuel : nat) :
  forall stack scan result,
    collectLoop' fuel stack scan = Some result ->
    scan_discovered result
    = scan_discovered scan + Z.of_nat (stackFileCount stack) /\
    scan_failed result - scanRejected result
    = scan_failed scan - scanRejected scan + Z.of_nat (stackLockedCount stack) /\
    (0 <= scanRejected scan -> 0 <= scanRejected result).
Proof.
  induction fuel as [|fuel IH]; intros stack scan result H; [discriminate|].
  destruct stack as [|[[entries|] relPath] stack']; cbn [collectLoop] in H.
  - injection H as <-. unfold stackFileCount, stackLockedCount. cbn [map].
    change (list_sum []) with 0%nat. repeat split; try lia; auto.
  - destruct (collectEntry_counts relPath entries stack' scan) as (C1 & C2 & C3).
    destruct (IH _ _ _ H) as (I1 & I2 & I3).
    unfold stackFileCount, stackLockedCount in *.
    cbn [map fst listingFileCount listingLockedCount] in *.
    rewrite !list_sum_cons in *. unfold WalkStack in *.
    repeat split; try lia; auto.
  - destruct (IH _ _ _ H) as (I1 & I2 & I3).
    unfold stackFileCount, stackLockedCount, scanRejected in *.
    cbn [map fst listingFileCount listingLockedCount
         scan_discovered scan_failed scan_files] in *.
    rewrite !list_sum_cons in *. unfold WalkStack in *.
    repeat split; try lia; auto.
Qed.

Lemma scan_counters (root : option (list FsEntry)) :
  let scan := collectLocalFolderFiles StringToNumber root in
  scan_discovered scan = Z.of_nat (listingFileCount root) /\
  scan_failed scan
  = (scan_discovered scan - Z.of_nat (List.length (scan_files scan)))
    + Z.of_nat (listingLockedCount root) /\
  Z.of_nat (List.length (scan_files scan)) <= scan_discovered scan.
Proof.
  intros scan.
  destruct (collectLoop_counts _ _ _ _ (collectLocalFolderFiles_returns root))
    as (H1 & H2 & H3).
  fold scan in H1, H2, H3. unfold scanRejected, stackFileCount, stackLockedCount in *.
  cbn [map fst emptyScan scan_discovered scan_failed scan_files
       List.length] in *. rewrite !list_sum_cons in *.
  change (list_sum []) with 0%nat in *.
  repeat split; lia.
Qed.

(** X19.  The counters of the folder walker add up.
    [discovered] is the number of files in the part of the tree that can
    be listed; [failed] counts the files seen and not returned plus the
    directories that could not be listed; no more files are returned than
    were discovered.  So every file seen is either returned or counted as
    failed, and a root that cannot be listed gives no file and one
    failure. *)
Theorem collectLocalFolderFiles_counts (root : option (list FsEntry)) :
  let scan := collectLocalFolderFiles StringToNumber root in
  scan_discovered scan = Z.of_nat (listingFileCount root) /\
  scan_failed scan
  = (scan_discovered scan - Z.of_nat (List.length (scan_files scan)))
    + Z.of_nat (listingLockedCount root) /\
  Z.of_nat (List.length (scan_files scan)) <= scan_discovered scan /\
  (root = None -> scan = mkScan [] 0 1).
Proof.
  intros scan. destruct (scan_counters root) as (H1 & H2 & H3).
  repeat split; try assumption.
  intros ->. reflexivity.
Qed.

Lemma FileAt_facts (listing : option (list FsEntry)) (relPath : string)
  (file : LocalFolderFile) :
  FileAt' listing relPath file ->
  0 <= lf_size file /\ lf_relativePath file <> "" /\
  lf_displayName file = lf_relativePath file /\
  exists parts, lf_relativePath file = joinUploadPath parts.
Proof.
  induction 1 as [entries relPath name uri rawSize size' _ Hne _ Hpos|];
    [|assumption].
  cbn [lf_size lf_relativePath lf_displayName]. repeat split; try assumption.
  now eexists.
Qed.

(** X20.  Every candidate that a folder run plans from the
    scan is well formed: it is a folder candidate that starts at offset 0
    without the overwrite flag, its size is not negative, its display name
    is the relative path of the file, and its remote target is a path in
    normal form that is not empty and ends with the segments of that
    relative path, below the segments of the base path. *)
Theorem folder_candidates_are_well_formed (root : option (list FsEntry))
  (uploadBasePath : string) (candidate : UploadCandidate) :
  In candidate
    (buildFolderCandidates (scan_files (collectLocalFolderFiles StringToNumber root))
       uploadBasePath) ->
  kind candidate = folder /\ initialOffset candidate = 0 /\
  overwrite_ candidate = false /\ 0 <= size candidate /\
  displayName candidate <> "" /\
  remoteTarget candidate <> "" /\
  normalizeUploadPath (remoteTarget candidate) = remoteTarget candidate /\
  Js.split slash (remoteTarget candidate)
  = (partSegments uploadBasePath ++ Js.split slash (displayName candidate))%list.
Proof.
  unfold buildFolderCandidates. intros Hin.
  apply in_map_iff in Hin as (file & <- & Hfile).
  apply collectLocalFolderFiles_sound in Hfile.
  cbn [kind initialOffset overwrite_ size displayName remoteTarget].
  destruct (FileAt_facts _ _ _ Hfile) as (Hsize & Hrel & Hname & parts & Eparts).
  assert (Hsegs : partSegments (lf_relativePath file) <> []).
  { rewrite Eparts, partSegments_join. intros Hnil.
    apply Hrel. rewrite Eparts. unfold joinUploadPath. now rewrite Hnil. }
  assert (Hall : flat_map partSegments [uploadBasePath; lf_relativePath file] <> []).
  { cbn [flat_map]. rewrite app_nil_r. intros Hnil.
    apply app_eq_nil in Hnil as [_ Hnil]. contradiction. }
  repeat split; try assumption.
  - unfold joinUploadPath.
    apply (join_normal_form (flat_map partSegments [uploadBasePath; lf_relativePath file]));
      [|exact Hall].
    intros seg Hseg. apply in_flat_map in Hseg as (part & _ & Hseg).
    now apply (partSegments_good part).
  - apply joinUploadPath_normal.
  - rewrite (joinUploadPath_segments _ Hall). cbn [flat_map]. rewrite app_nil_r.
    f_equal. rewrite Eparts, partSegments_join.
    destruct (flat_map partSegments parts) eqn:E.
    + exfalso. apply Hsegs. now rewrite Eparts, partSegments_join.
    + rewrite <- E. symmetry. apply joinUploadPath_segments. rewrite E. discriminate.
Qed.

End Walker.

Section WalkerOnScenarios.

Import Scenario.

Lemma folder_candidates_are_well_formed_witness :
  remoteTarget photoA <> "" /\
  Js.split slash (remoteTarget photoA) = ["photos"; "a.jpg"].
Proof.
  destruct (folder_candidates_are_well_formed noStrings (Some twoFiles) "/photos/"
              photoA (or_introl eq_refl))
    as (_ & _ & _ & _ & _ & Hne & _ & Hsplit).
  split; [exact Hne|exact Hsplit].
Defined.

End WalkerOnScenarios.

(* ------------------------------------------------------------------ *)
(** ** Planning: every item gets one verdict *)

Section Post.

Context {A : Type}.

Lemma post_ret (Q : A -> Prop) (a : A) : Q a -> post Q (ret a).
Proof. intros H st. exact H. Qed.

Lemma post_throw (Q : A -> Prop) (message : string) : post Q (throw message).
Proof. intros st. exact I. Qed.

Lemma post_diverge (Q : A -> Prop) : post Q diverge.
Proof. intros st. exact I. Qed.

Lemma post_bind {B : Type} (Q : B -> Prop) (R : A -> Prop) (m : M B) (k : B -> M A) :
  post Q m -> (forall b, Q b -> post R (k b)) -> post R (bind m k).
Proof.
  intros Hm Hk st. unfold bind. specialize (Hm st).
  destruct (m st) as [[b|message|] st1]; cbn [fst] in *; try exact I.
  apply (Hk b Hm st1).
Qed.

Lemma post_any (m : M A) : post (fun _ => True) m.
Proof. intros st. now destruct (fst (m st)). Qed.

Lemma post_weaken (Q R : A -> Prop) (m : M A) :
  (forall a, Q a -> R a) -> post Q m -> post R m.
Proof. intros H Hm st. specialize (Hm st). destruct (fst (m st)); auto. Qed.

Lemma post_tryFinally (Q : A -> Prop) (body : M A) (cleanup : M unit) :
  post Q body -> post Q (tryFinally body cleanup).
Proof.
  intros H st. unfold tryFinally. specialize (H st).
  now destruct (body st) as [[a|message|] st1].
Qed.

End Post.

Lemma bytesLeft_snoc (candidates : list UploadCandidate) (candidate : UploadCandidate) :
  bytesLeft (candidates ++ [candidate])
  = bytesLeft candidates + Z.max 0 (size candidate - initialOffset candidate).
Proof.
  induction candidates as [|c rest IH]; cbn [bytesLeft app fold_right] in *; [lia|].
  fold (bytesLeft (rest ++ [candidate])). fold (bytesLeft rest). lia.
Qed.

(** What one verdict does to the counters of the plan. *)
Lemma Verdict_counts (loc loc' : Plan.t) :
  Verdict loc loc' ->
  resolvedCount loc' = resolvedCount loc + 1 /\
  Plan.discovered loc' = Plan.discovered loc /\
  (wellPlanned loc -> wellPlanned loc').
Proof.
  intros [c' rawOffset overwrite'| |]; unfold resolvedCount, wellPlanned;
    cbn [addReadyCandidate Plan.pushCandidate Plan.addSkipped Plan.addFailed
         Plan.candidates Plan.skipped Plan.failed Plan.discovered Plan.plannedBytes];
    repeat split; try lia; try tauto.
  - rewrite length_app. cbn [List.length]. lia.
  - destruct H as [H _]. rewrite bytesLeft_snoc, H.
    cbn [size initialOffset]. reflexivity.
  - destruct H as [_ H]. apply Forall_app. split; [exact H|].
    constructor; [|constructor]. cbn [size initialOffset]. lia.
Qed.

Section Accounting.

Variable StringToNumber : string -> jsnum.
Variable w : World.
Variable cfg : Config.
Variable rootId : string.

Hypothesis Hgoes_on : w_cancelAt w = None.

Lemma never_cancelled (st : MState) : cancelledAt w (clock st) = false.
Proof. unfold cancelledAt. now rewrite Hgoes_on. Qed.

Lemma post_isCancelled : post (fun stop => stop = false) (isCancelled w).
Proof. intros st. apply never_cancelled. Qed.

(** The plan after [count] more verdicts. *)
Local Abbreviation after loc count :=
  (fun loc' : Plan.t =>
     resolvedCount loc' = resolvedCount loc + Z.of_nat count /\
     Plan.discovered loc' = Plan.discovered loc /\
     (wellPlanned loc -> wellPlanned loc')).

Lemma applyStatusLoop_resolves (batch : list UploadCandidate) :
  forall index statusItems loc,
    post (after loc (List.length batch))
      (applyStatusLoop StringToNumber w cfg rootId batch index statusItems loc).
Proof.
  induction batch as [|candidate rest IH]; intros index statusItems loc;
    cbn [applyStatusLoop].
  - apply post_ret. cbn [List.length Z.of_nat]. (split; [|split]); try lia; auto.
  - apply (post_bind _ _ _ _ post_isCancelled). intros stop ->.
    apply (post_bind (fun loc1 => Verdict loc loc1)).
    + intros st.
      destruct (applyStatusItem_returns StringToNumber w cfg rootId candidate
                  (nth index statusItems None) loc st) as (loc1 & st1 & E & Hv & _).
      now rewrite E.
    + intros loc1 Hv. apply Verdict_counts in Hv as (H1 & H2 & H3).
      apply (post_weaken (after loc1 (List.length rest))); [|apply IH].
      intros loc' (I1 & I2 & I3). cbn [List.length]. (split; [|split]); try lia; auto.
Qed.

Lemma applyStatusBatch_resolves (batch : list UploadCandidate) (loc : Plan.t) :
  post (after loc (List.length batch))
    (applyStatusBatch StringToNumber w cfg rootId batch loc).
Proof.
  unfold applyStatusBatch. destruct batch as [|candidate rest].
  - apply post_ret. cbn [List.length Z.of_nat]. (split; [|split]); try lia; auto.
  - apply (post_bind (fun _ => True)); [apply post_any|].
    intros statusItems _. apply applyStatusLoop_resolves.
Qed.

(** What is pending and what has a verdict, together. *)
Local Abbreviation carried loc pending count :=
  (fun r : list UploadCandidate * Plan.t =>
     resolvedCount (snd r) + Z.of_nat (List.length (fst r))
     = resolvedCount loc + Z.of_nat (List.length pending) + Z.of_nat count /\
     Plan.discovered (snd r) = Plan.discovered loc /\
     (wellPlanned loc -> wellPlanned (snd r))).

Lemma flushIfFull_carries (pending : list UploadCandidate) (loc : Plan.t) :
  post (carried loc pending 0%nat)
    (flushIfFull StringToNumber w cfg rootId pending loc).
Proof.
  unfold flushIfFull. destruct (_ <=? _)%nat.
  - apply (post_bind _ _ _ _ (applyStatusBatch_resolves pending loc)).
    intros loc' (H1 & H2 & H3). apply post_ret. cbn [fst snd List.length].
    (split; [|split]); try lia; auto.
  - apply post_ret. cbn [fst snd]. (split; [|split]); try lia; auto.
Qed.

Lemma flushRest_resolves (pending : list UploadCandidate) (loc : Plan.t) :
  post (after loc (List.length pending))
    (flushRest StringToNumber w cfg rootId pending loc).
Proof.
  unfold flushRest. apply (post_bind _ _ _ _ post_isCancelled). intros stop ->.
  destruct pending as [|candidate rest].
  - apply post_ret. cbn [List.length Z.of_nat]. (split; [|split]); try lia; auto.
  - apply applyStatusBatch_resolves.
Qed.

Lemma addMirrorTarget_counts (target : string) (loc : Plan.t) :
  resolvedCount (Plan.addMirrorTarget target loc) = resolvedCount loc /\
  Plan.discovered (Plan.addMirrorTarget target loc) = Plan.discovered loc /\
  (wellPlanned loc -> wellPlanned (Plan.addMirrorTarget target loc)).
Proof. (split; [|split]); auto. Qed.

Lemma planFolderLoop_carries (folderCandidates : list UploadCandidate) :
  forall index pending loc,
    post (carried loc pending (List.length folderCandidates))
      (planFolderLoop StringToNumber w cfg rootId folderCandidates index pending loc).
Proof.
  induction folderCandidates as [|candidate rest IH]; intros index pending loc;
    cbn [planFolderLoop].
  - apply post_ret. cbn [fst snd List.length]. (split; [|split]); try lia; auto.
  - apply (post_bind _ _ _ _ post_isCancelled). intros stop ->. cbv zeta.
    apply (post_bind (fun _ => True)); [apply post_any|]. intros _ _.
    apply (post_bind _ _ _ _ (flushIfFull_carries _ _)).
    intros r (H1 & H2 & H3).
    apply (post_weaken (carried (snd r) (fst r) (List.length rest))); [|apply IH].
    intros r' (I1 & I2 & I3).
    destruct (addMirrorTarget_counts (remoteTarget candidate) loc) as (A1 & A2 & A3).
    rewrite length_app in H1. cbn [List.length] in *.
    (split; [|split]); try lia; try congruence; auto.
Qed.

Lemma planCameraAsset_carries (asset : Asset) (pending : list UploadCandidate)
  (loc : Plan.t) :
  post (carried loc pending 1%nat)
    (planCameraAsset StringToNumber w cfg rootId asset pending loc).
Proof.
  assert (Hfailed : carried loc pending 1%nat (pending, Plan.addFailed 1 loc)).
  { destruct (Verdict_counts loc _ (VerdictFailed loc)) as (H1 & H2 & H3).
    cbn [fst snd]. (split; [|split]); try lia; auto. }
  unfold planCameraAsset.
  apply (post_bind (fun _ => True)); [apply post_any|].
  intros [assetInfo|] _; [|now apply post_ret].
  cbv zeta. destruct (String.eqb _ ""); [now apply post_ret|].
  apply (post_bind (fun _ => True)); [apply post_any|]. intros rawSize _.
  destruct (ToNumber StringToNumber (jsOr rawSize (JNum 0))) as [|size'];
    [now apply post_ret|].
  destruct (size' <? 0); [now apply post_ret|].
  apply (post_bind (fun _ => True)); [apply post_any|]. intros createdAt _.
  apply (post_bind (fun _ => True)); [apply post_any|]. intros monthBucket' _.
  apply (post_bind (fun _ => True)); [apply post_any|]. intros capturedAtIso' _.
  eapply post_weaken; [|apply flushIfFull_carries].
  intros r (H1 & H2 & H3). rewrite length_app in H1. cbn [List.length] in *.
  (split; [|split]); try lia; auto.
Qed.

(** The camera planner counts an item as discovered before it looks at it. *)
Local Abbreviation counted loc pending count :=
  (fun r : list UploadCandidate * Plan.t =>
     resolvedCount (snd r) + Z.of_nat (List.length (fst r)) - Plan.discovered (snd r)
     = resolvedCount loc + Z.of_nat (List.length pending) - Plan.discovered loc /\
     Plan.discovered loc + Z.of_nat count = Plan.discovered (snd r) /\
     (wellPlanned loc -> wellPlanned (snd r))).

Lemma planCameraAssets_counts (assets : list Asset) :
  forall pending loc,
    post (counted loc pending (List.length assets))
      (planCameraAssets StringToNumber w cfg rootId assets pending loc).
Proof.
  induction assets as [|asset rest IH]; intros pending loc; cbn [planCameraAssets].
  - apply post_ret. cbn [fst snd List.length]. (split; [|split]); try lia; auto.
  - apply (post_bind _ _ _ _ post_isCancelled). intros stop ->. cbv zeta.
    apply (post_bind (fun _ => True)); [apply post_any|]. intros _ _.
    apply (post_bind _ _ _ _ (planCameraAsset_carries asset pending _)).
    intros r (H1 & H2 & H3).
    apply (post_weaken (counted (snd r) (fst r) (List.length rest))); [|apply IH].
    intros r' (I1 & I2 & I3). unfold resolvedCount, wellPlanned in *.
    cbn [Plan.setDiscovered Plan.candidates Plan.skipped Plan.failed Plan.discovered
         Plan.plannedBytes List.length] in *.
    (split; [|split]); try lia; auto.
Qed.

Lemma planCameraPages_counts (fuel : nat) :
  forall pageCursor pending loc,
    post (fun r =>
            resolvedCount (snd r) + Z.of_nat (List.length (fst r))
            - Plan.discovered (snd r)
            = resolvedCount loc + Z.of_nat (List.length pending) - Plan.discovered loc /\
            (wellPlanned loc -> wellPlanned (snd r)))
      (planCameraPages StringToNumber w cfg rootId fuel pageCursor pending loc).
Proof.
  induction fuel as [|fuel IH]; intros pageCursor pending loc; cbn [planCameraPages];
    apply (post_bind _ _ _ _ post_isCancelled); intros stop ->;
    [apply post_diverge|].
  apply (post_bind (fun _ => True)); [apply post_any|]. intros page _.
  apply (post_bind _ _ _ _ (planCameraAssets_counts (pg_assets page) pending loc)).
  intros r (H1 & H2 & H3).
  destruct (pg_hasNextPage page).
  - eapply post_weaken; [|apply IH]. intros r' (I1 & I2). split; [lia|auto].
  - apply post_ret. split; [lia|auto].
Qed.

Lemma wellPlanned_empty : wellPlanned Plan.empty.
Proof. split; [reflexivity|constructor]. Qed.

Lemma planCamera_accounts (fuel : nat) :
  post (fun planned' =>
          match planned' with
          | Some loc => Plan.discovered loc = resolvedCount loc /\ wellPlanned loc
          | None => True
          end)
    (planCamera StringToNumber w cfg rootId fuel).
Proof.
  unfold planCamera. apply (post_bind (fun _ => True)); [apply post_any|].
  intros granted _. destruct (negb granted).
  - apply (post_bind (fun _ => True)); [apply post_any|]. intros _ _. now apply post_ret.
  - apply (post_bind _ _ _ _ (planCameraPages_counts fuel "" [] Plan.empty)).
    intros r (H1 & H2).
    apply (post_bind _ _ _ _ (flushRest_resolves (fst r) (snd r))).
    intros loc (I1 & I2 & I3). apply post_ret.
    unfold resolvedCount in H1 at 2. cbn in H1.
    split; [lia|]. apply I3, H2, wellPlanned_empty.
Qed.

Lemma planFolder_accounts (st : MState) (listing : option (list FsEntry)) :
  w_localFolder w (clock st) (localFolderUri cfg) = HostOk listing ->
  match fst (planFolder StringToNumber w cfg rootId st) with
  | Returned loc =>
      let scan := collectLocalFolderFiles StringToNumber listing in
      Plan.discovered loc = scan_discovered scan /\
      resolvedCount loc
      = Z.of_nat (List.length (scan_files scan)) + scan_failed scan /\
      wellPlanned loc
  | _ => True
  end.
Proof.
  intros Hscan. unfold planFolder. unfold bind at 1, interactOutcome at 1.
  rewrite Hscan. cbn [ofHost]. cbv zeta.
  set (scan := collectLocalFolderFiles StringToNumber listing).
  set (loc0 := Plan.addFailed (scan_failed scan)
                 (Plan.setDiscovered (scan_discovered scan) Plan.empty)).
  set (folderCandidates := buildFolderCandidates (scan_files scan) _).
  assert (Hpost :
            post (fun loc =>
                    Plan.discovered loc = scan_discovered scan /\
                    resolvedCount loc
                    = Z.of_nat (List.length (scan_files scan)) + scan_failed scan /\
                    wellPlanned loc)
              (r <- planFolderLoop StringToNumber w cfg rootId folderCandidates 0 []
                      loc0 ;;
               flushRest StringToNumber w cfg rootId (fst r) (snd r))).
  { apply (post_bind _ _ _ _ (planFolderLoop_carries folderCandidates 0 [] loc0)).
    intros r (H1 & H2 & H3).
    eapply post_weaken; [|apply flushRest_resolves].
    intros loc (I1 & I2 & I3).
    assert (Hlen : List.length folderCandidates = List.length (scan_files scan))
      by (unfold folderCandidates, buildFolderCandidates; apply length_map).
    unfold resolvedCount in H1 at 2. cbn in H1. rewrite Hlen in H1.
    (split; [|split]); [rewrite I2, H2; reflexivity|lia|].
    apply I3, H3. split; [reflexivity|constructor]. }
  apply (Hpost (tick (EvScan (localFolderUri cfg)) st)).
Qed.

Lemma uploadCandidate_advances (candidate : UploadCandidate) (uploaded' : Z)
  (uploadedBytes' : jsnum) :
  post (fun r => uploaded' <= fst r <= uploaded' + 1)
    (uploadCandidate StringToNumber w cfg rootId candidate uploaded' uploadedBytes').
Proof.
  unfold uploadCandidate. cbv zeta.
  apply (post_bind (fun _ => True)); [apply post_any|]. intros _ _.
  apply post_tryFinally.
  apply (post_bind (fun _ => True)); [apply post_any|]. intros _ _.
  apply (post_bind (fun _ => True)); [apply post_any|]. intros [finalOffset finalBytes] _.
  destruct (jsGe _ _).
  - apply (post_bind (fun _ => True)); [apply post_any|]. intros _ _.
    apply post_ret. cbn [fst]. lia.
  - apply post_ret. cbn [fst]. lia.
Qed.

Lemma uploadAll_advances (candidates : list UploadCandidate) :
  forall uploaded' uploadedBytes',
    post (fun r => uploaded' <= fst r <= uploaded' + Z.of_nat (List.length candidates))
      (uploadAll StringToNumber w cfg rootId candidates uploaded' uploadedBytes').
Proof.
  induction candidates as [|candidate rest IH]; intros uploaded' uploadedBytes';
    cbn [uploadAll].
  - apply post_ret. cbn [fst List.length]. lia.
  - apply (post_bind (fun _ => True)); [apply post_any|]. intros stop _.
    destruct stop; [apply post_ret; cbn [fst List.length]; lia|].
    apply (post_bind _ _ _ _ (uploadCandidate_advances candidate uploaded' uploadedBytes')).
    intros r Hr. eapply post_weaken; [|apply IH].
    intros r' Hr'. cbn beta in *. cbn [List.length]. lia.
Qed.

(** After planning: a run that ends in the stage [done] shows the counters
    of its plan, and has uploaded no more files than it planned. *)
Lemma afterPlanning_counts (fuel : nat) (loc : Plan.t) (st st' : MState) :
  afterPlanning StringToNumber w cfg rootId fuel loc st = (Returned tt, st') ->
  stage (progress st') = done ->
  planView (progress st') = planCounters loc /\
  0 <= uploaded (progress st') <= planned (progress st').
Proof.
  unfold afterPlanning. unfold bind at 1, isCancelled at 1.
  destruct (cancelledAt w (clock st)).
  { unfold setSyncProgress. intros [= <-]. cbn. discriminate. }
  unfold bind at 1, setSyncProgress at 1. unfold bind at 1.
  pose proof (uploadAll_keeps_plan StringToNumber w cfg rootId
                (Plan.candidates loc) 0 (Num 0)
                (patched (Patch.uploadStart loc) st)) as H1.
  pose proof (uploadAll_advances (Plan.candidates loc) 0 (Num 0)
                (patched (Patch.uploadStart loc) st)) as Hup.
  destruct (uploadAll _ _ _ _ _ _ _ _) as [[r|?|] st1]; try discriminate.
  cbn [fst] in Hup.
  unfold bind at 1, isCancelled at 1. unfold bind at 1.
  match goal with
  | |- context [(if ?c then mirrorPrune w cfg rootId fuel loc else ret (0, 0)) st1] =>
      assert (H2 : sameView planView st1
                     (snd ((if c then mirrorPrune w cfg rootId fuel loc
                            else ret (0, 0)) st1)))
        by (destruct c; [apply mirrorPrune_keeps; reflexivity|reflexivity]);
      destruct ((if c then mirrorPrune w cfg rootId fuel loc else ret (0, 0)) st1)
        as [[counts|?|] st2]; try discriminate
  end.
  unfold bind at 1, isCancelled at 1. unfold bind at 1.
  unfold sameView in H1, H2. cbn [snd progress patched] in H1, H2.
  destruct (cancelledAt w (clock st2)); unfold setSyncProgress, interactOutcome;
    destruct (w_refresh w _) as [[]|message]; cbn [ofHost]; try discriminate;
    intros [= <-]; cbn [progress tick patched stage Patch.cancelledAfterUpload
                        Patch.finished]; intros Hdone;
    try discriminate Hdone.
  unfold planView in *.
  cbn [Patch.finished Patch.uploadStart discovered planned skipped failed
       plannedBytes uploaded] in *.
  rewrite H2, H1. split; [reflexivity|].
  injection H2 as _ Hplanned _ _ _. injection H1 as _ Hplanned' _ _ _. lia.
Qed.

(** The plan that planning returns has a verdict for every item. *)
Lemma planRun_accounts (fuel : nat) (st st1 : MState) (loc : Plan.t) :
  planRun StringToNumber w cfg rootId fuel st = (Returned (Some loc), st1) ->
  wellPlanned loc /\
  match syncSource cfg with
  | camera => resolvedCount loc = Plan.discovered loc
  | folder =>
      forall listing,
        w_localFolder w (clock st) (localFolderUri cfg) = HostOk listing ->
        let scan := collectLocalFolderFiles StringToNumber listing in
        Plan.discovered loc = scan_discovered scan /\
        resolvedCount loc
        = Z.of_nat (List.length (scan_files scan)) + scan_failed scan
  end.
Proof.
  unfold planRun. destruct (syncSource cfg).
  - intros Hplan. pose proof (planCamera_accounts fuel st) as H.
    rewrite Hplan in H. cbn [fst] in H. destruct H as [H1 H2]. now split.
  - destruct (w_localFolder w (clock st) (localFolderUri cfg))
      as [listing|message] eqn:Escan.
    + pose proof (planFolder_accounts st listing Escan) as H.
      unfold bind at 1.
      destruct (planFolder _ _ _ _ _) as [[loc'|?|] st2]; try discriminate.
      unfold ret. intros [= -> ->]. cbn [fst] in H. destruct H as (H1 & H2 & H3).
      split; [exact H3|]. intros listing' [= <-]. now split.
    + unfold bind at 1. unfold planFolder.
      unfold bind at 1, interactOutcome at 1. rewrite Escan. discriminate.
Qed.

Lemma runBody_counts (fuel : nat) (st st' : MState) :
  runBody StringToNumber w cfg rootId fuel st = (Returned tt, st') ->
  stage (progress st') = done ->
  exists loc st1,
    planRun StringToNumber w cfg rootId fuel st = (Returned (Some loc), st1) /\
    planView (progress st') = planCounters loc /\
    0 <= uploaded (progress st') <= planned (progress st').
Proof.
  unfold runBody. unfold bind at 1.
  destruct (planRun StringToNumber w cfg rootId fuel st) as [[[loc|]|?|] st1] eqn:Hplan;
    try discriminate.
  - intros Hafter Hdone.
    destruct (afterPlanning_counts _ _ _ _ Hafter Hdone) as (Hview & Hup).
    now exists loc, st1.
  - unfold ret. intros [= <-] Hdone. exfalso. revert Hplan Hdone.
    unfold planRun. destruct (syncSource cfg).
    + unfold planCamera. unfold bind at 1, interactOutcome at 1.
      destruct (w_requestPermissions w (clock st)) as [granted|message];
        cbn [ofHost]; [|discriminate].
      destruct granted; cbn [negb].
      * unfold bind at 1.
        destruct (planCameraPages _ _ _ _ _ _ _ _ _) as [[r|?|] st2]; try discriminate.
        unfold bind at 1.
        destruct (flushRest _ _ _ _ _ _ _) as [[loc|?|] st3]; discriminate.
      * unfold bind at 1, setSyncProgress at 1, ret. intros [= <-]. cbn. discriminate.
    + unfold bind at 1.
      destruct (planFolder _ _ _ _ _) as [[loc|?|] st2]; discriminate.
Qed.

(** X21.  In a run that nobody cancels and that ends in the
    stage [done], the counters shown are those of the plan that the
    planning of this run returned, and they add up.  [planned] is the
    number of candidates of that plan, the ones the executor goes
    through; [plannedBytes] is the sum, over these candidates, of what
    remained to be sent of each, and none of them starts at a negative
    offset or beyond its size.  No more files are uploaded than were
    planned.  Every item has exactly one verdict: for the camera source
    [planned + skipped + failed] equals [discovered]; for the folder
    source [discovered] is the number of files in the listable part of
    the tree, and [planned + skipped + failed] exceeds it by the number
    of directories that could not be listed. *)
Theorem finished_run_accounts_for_every_item (fuel : nat) (st : MState) :
  validated cfg rootId ->
  let result := runSync StringToNumber w cfg fuel st in
  let final := progress (snd result) in
  fst result = Returned tt ->
  stage final = done ->
  exists loc st1,
    planRun StringToNumber w cfg rootId fuel (started st)
    = (Returned (Some loc), st1) /\
    discovered final = Plan.discovered loc /\
    planned final = Z.of_nat (List.length (Plan.candidates loc)) /\
    skipped final = Plan.skipped loc /\
    failed final = Plan.failed loc /\
    plannedBytes final = bytesLeft (Plan.candidates loc) /\
    Forall (fun candidate =>
              0 <= initialOffset candidate /\
              (0 <= size candidate -> initialOffset candidate <= size candidate))
      (Plan.candidates loc) /\
    0 <= uploaded final <= planned final /\
    match syncSource cfg with
    | camera => planned final + skipped final + failed final = discovered final
    | folder =>
        forall listing,
          w_localFolder w (clock st) (localFolderUri cfg) = HostOk listing ->
          discovered final = Z.of_nat (listingFileCount listing) /\
          planned final + skipped final + failed final
          = discovered final + Z.of_nat (listingLockedCount listing)
    end.
Proof.
  intros Hvalid result final. subst final result.
  rewrite (runSync_validated StringToNumber w cfg rootId fuel st Hvalid).
  unfold tryFinally, tryCatch, setSyncRunning, setSyncProgress.
  pose proof (runBody_counts fuel (started st)) as Hbody.
  destruct (runBody _ _ _ _ _ _) as [[[]|message|] st1];
    cbn [fst snd progress]; intros Hback Hdone; try discriminate.
  destruct (Hbody st1 eq_refl Hdone) as (loc & st2 & Hplan & Hview & Hup).
  destruct (planRun_accounts _ _ _ _ Hplan) as ((Hbytes & Hinside) & Hall).
  unfold planView, planCounters in Hview.
  injection Hview as Hdiscovered Hplanned Hskipped Hfailed HplannedBytes.
  exists loc, st2. split; [exact Hplan|].
  repeat (split; [first [assumption|congruence]|]).
  unfold resolvedCount in Hall. destruct (syncSource cfg).
  - lia.
  - intros listing Hscan. cbn [started clock] in Hall.
    destruct (Hall listing Hscan) as (H1 & H2).
    destruct (scan_counters StringToNumber listing) as (C1 & C2 & C3).
    cbv zeta in *. lia.
Qed.

End Accounting.

Section AccountingOnScenarios.

Import Scenario Scenario2.

Lemma finished_run_accounts_for_every_item_witness :
  exists loc st1,
    planRun noStrings lockedFolder (settings false skip) "root1" 10
      (started initialState)
    = (Returned (Some loc), st1) /\
    planned (progress (snd lockedRun)) = Z.of_nat (List.length (Plan.candidates loc)) /\
    plannedBytes (progress (snd lockedRun)) = bytesLeft (Plan.candidates loc) /\
    uploaded (progress (snd lockedRun)) <= planned (progress (snd lockedRun)) /\
    planned (progress (snd lockedRun)) + skipped (progress (snd lockedRun))
    + failed (progress (snd lockedRun))
    = discovered (progress (snd lockedRun)) + 1.
Proof.
  destruct (finished_run_accounts_for_every_item noStrings lockedFolder
              (settings false skip) "root1" eq_refl 10 initialState
              (conj eq_refl (conj eq_refl (conj eq_refl eq_refl)))
              eq_refl eq_refl)
    as (loc & st1 & Hplan & _ & Hplanned & _ & _ & Hbytes & _ & Hup & H).
  exists loc, st1. split; [exact Hplan|]. split; [exact Hplanned|].
  split; [exact Hbytes|]. split; [exact (proj2 Hup)|].
  exact (proj2 (H (Some nestedFolder) eq_refl)).
Defined.

(** The run over the nested folder: five files are discovered, two of
    them cannot be used and one directory cannot be listed. *)
Example counters_of_the_nested_folder :
  let final := progress (snd lockedRun) in
  stage final = done /\ discovered final = 5 /\ planned final = 1 /\
  skipped final = 1 /\ failed final = 4 /\ uploaded final = 1 /\
  plannedBytes final = 10.
Proof. vm_compute. repeat split. Qed.

End AccountingOnScenarios.

(* ------------------------------------------------------------------ *)
(** ** What the pruner deletes *)

Section Traces.

Context {A : Type}.

Lemma quiet_app (events events' : list Event) :
  quiet events -> quiet events' -> quiet (events ++ events')%list.
Proof. unfold quiet, deletedPaths. intros H H'. now rewrite flat_map_app, H, H'. Qed.

Lemma pruned_after_quiet (w : World) (rootId : string) (events events' : list Event) :
  quiet events -> pruned w rootId events' -> pruned w rootId (events ++ events')%list.
Proof.
  unfold quiet, pruned, deletedPaths. intros H H'. now rewrite flat_map_app, H.
Qed.

Lemma pruned_before_quiet (w : World) (rootId : string) (events events' : list Event) :
  pruned w rootId events -> quiet events' -> pruned w rootId (events ++ events')%list.
Proof.
  unfold quiet, pruned, deletedPaths. intros H H'.
  now rewrite flat_map_app, H', app_nil_r.
Qed.

Lemma quiet_pruned (w : World) (rootId : string) (events : list Event) :
  quiet events -> pruned w rootId events.
Proof. unfold quiet, pruned. intros ->. split; [constructor|contradiction]. Qed.

Lemma steps_quiet (m : M A) : steps notDelete m -> traces quiet m.
Proof.
  intros H st. destruct (H st) as (_ & events & E & Hall).
  exists events. split; [exact E|].
  unfold quiet, deletedPaths. clear E.
  induction Hall as [|ev events Hev _ IH]; [reflexivity|].
  cbn [flat_map]. rewrite IH. now destruct ev.
Qed.

Lemma traces_weaken (T T' : list Event -> Prop) (m : M A) :
  (forall events, T events -> T' events) -> traces T m -> traces T' m.
Proof.
  intros H Hm st. destruct (Hm st) as (events & E & Ht). exists events. auto.
Qed.

(** Sequencing, when what comes first and what follows combine. *)
Lemma traces_bind {B : Type} (T1 T2 T : list Event -> Prop) (Q : B -> Prop)
  (m : M B) (k : B -> M A) :
  (forall events, T1 events -> T events) ->
  (forall events events', T1 events -> T2 events' -> T (events ++ events')%list) ->
  traces T1 m -> post Q m -> (forall b, Q b -> traces T2 (k b)) ->
  traces T (bind m k).
Proof.
  intros Hone Hboth Hm Hq Hk st. unfold bind.
  destruct (Hm st) as (events & E & Ht). specialize (Hq st).
  destruct (m st) as [[b|message|] st1]; cbn [fst snd] in *;
    try (exists events; split; [exact E|now apply Hone]).
  destruct (Hk b Hq st1) as (events' & E' & Ht').
  exists (events ++ events')%list. rewrite E', E, app_assoc. auto.
Qed.

Lemma traces_tryCatch (T : list Event -> Prop) (body : M A) (handler : string -> M A) :
  (forall events events', T events -> quiet events' -> T (events ++ events')%list) ->
  traces T body -> (forall message, traces quiet (handler message)) ->
  traces T (tryCatch body handler).
Proof.
  intros Hboth Hbody Hhandler st. unfold tryCatch.
  destruct (Hbody st) as (events & E & Ht).
  destruct (body st) as [[a|message|] st1]; cbn [snd] in *;
    try (exists events; split; [exact E|exact Ht]).
  destruct (Hhandler message st1) as (events' & E' & Ht').
  exists (events ++ events')%list. rewrite E', E, app_assoc. auto.
Qed.

Lemma traces_tryFinally (T : list Event -> Prop) (body : M A) (cleanup : M unit) :
  (forall events events', T events -> quiet events' -> T (events ++ events')%list) ->
  traces T body -> traces quiet cleanup ->
  traces T (tryFinally body cleanup).
Proof.
  intros Hboth Hbody Hcleanup st. unfold tryFinally.
  destruct (Hbody st) as (events & E & Ht).
  destruct (body st) as [[a|message|] st1]; cbn [snd] in *;
    try (exists events; split; [exact E|exact Ht]);
    destruct (Hcleanup st1) as (events' & E' & Ht');
    destruct (cleanup st1) as [[[]|message'|] st2]; cbn [snd] in *;
    exists (events ++ events')%list; rewrite E', E, app_assoc; auto.
Qed.

End Traces.

Section Pruner.

Variable StringToNumber : string -> jsnum.
Variable w : World.
Variable cfg : Config.
Variable rootId : string.

(** The files collected so far: no path twice, and every path listed. *)
Local Abbreviation collected :=
  (fun remoteFiles : list string =>
     NoDup remoteFiles /\
     forall path, In path remoteFiles -> listedAsFile w rootId path).

Lemma absorbListItem_collected (t : nat) (currentPath : string) (offset : Z)
  (page : list ListItem) :
  w_list w t rootId currentPath offset = ApiOk (Some page) ->
  forall items acc,
    incl items page -> collected (snd acc) ->
    collected (snd (fold_left absorbListItem items acc)).
Proof.
  intros Hpage. induction items as [|item rest IH]; intros [queue remoteFiles] Hincl Hacc;
    [exact Hacc|].
  cbn [fold_left]. apply IH; [intros x Hx; apply Hincl; now right|].
  unfold absorbListItem.
  destruct (truthy (li_path item)) eqn:Hpath; cbn [negb orb]; [|exact Hacc].
  destruct (truthy (li_rootId item)) eqn:Hroot; cbn [negb]; [|exact Hacc].
  destruct (truthy (li_isDir item)) eqn:Hdir; [exact Hacc|].
  cbn [snd] in *. destruct Hacc as [Hnodup Hlisted]. split.
  - now apply set_add_nodup.
  - intros path Hin. apply set_add_elim in Hin as [->|Hin]; [|now apply Hlisted].
    exists t, currentPath, offset, page, item.
    repeat split; try assumption. apply Hincl. now left.
Qed.

Lemma fetchRemoteFilesLoop_collected (fuel : nat) :
  forall queue current remoteFiles,
    collected remoteFiles ->
    post collected (fetchRemoteFilesLoop w rootId fuel queue current remoteFiles).
Proof.
  induction fuel as [|fuel IH]; intros queue current remoteFiles Hfiles;
    cbn [fetchRemoteFilesLoop]; [apply post_diverge|].
  apply (post_bind (fun _ => True)); [apply post_any|]. intros stop _.
  destruct current as [[currentPath offset]|].
  - destruct stop; [now apply IH|].
    apply (post_bind (fun listResult =>
                        exists t, listResult = w_list w t rootId currentPath offset)).
    { intros st. now exists (clock st). }
    intros [data|code message] [t Hpage]; [|apply post_throw]. cbv zeta.
    assert (Hacc : collected
                     (snd (fold_left absorbListItem
                             match data with Some l => l | None => [] end
                             (queue, remoteFiles)))).
    { destruct data as [page|]; [|exact Hfiles].
      apply (absorbListItem_collected t currentPath offset page (eq_sym Hpage));
        [apply incl_refl|exact Hfiles]. }
    destruct (_ <? LIST_PAGE_SIZE); now apply IH.
  - destruct queue; [now apply post_ret|]. destruct stop; [now apply post_ret|].
    now apply IH.
Qed.

(** The delete loop sends the batches in order, up to where it is
    cancelled. *)
Lemma deleteLoop_deletes (batches : list (list string)) :
  forall deleted deleteFailed,
    traces (fun events =>
              exists sent, deletedPaths events = concat (firstn sent batches))
      (deleteLoop w rootId batches deleted deleteFailed).
Proof.
  induction batches as [|batch rest IH]; intros deleted deleteFailed st;
    cbn [deleteLoop].
  - exists []. split; [now rewrite app_nil_r|]. now exists 0%nat.
  - unfold bind at 1, isCancelled at 1. destruct (cancelledAt w (clock st)).
    + exists []. split; [now rewrite app_nil_r|]. now exists 0%nat.
    + unfold bind at 1, interact at 1. cbv zeta.
      unfold bind at 1, setSyncProgress at 1.
      match goal with
      | |- context [deleteLoop w rootId rest ?d ?f ?s] =>
          destruct (IH d f s) as (events & E & sent & Hsent)
      end.
      exists (EvDelete rootId batch :: events). split.
      * rewrite E. cbn [trace patched tick]. now rewrite <- app_assoc.
      * exists (S sent). cbn [deletedPaths flat_map firstn concat].
        fold (deletedPaths events). now rewrite Hsent.
Qed.

Lemma toDelete_collected (remoteFiles localMirrorTargets : list string) :
  collected remoteFiles -> collected (toDelete remoteFiles localMirrorTargets).
Proof.
  intros [Hnodup Hlisted]. unfold toDelete. split; [now apply NoDup_filter|].
  intros path Hin. apply filter_In in Hin. now apply Hlisted.
Qed.

Lemma mirrorPrune_pruned (fuel : nat) (loc : Plan.t) :
  traces (pruned w rootId) (mirrorPrune w cfg rootId fuel loc).
Proof.
  unfold mirrorPrune.
  apply (traces_bind quiet (pruned w rootId) _ (fun _ => True));
    [apply quiet_pruned|apply pruned_after_quiet
    |apply steps_quiet, steps_setSyncProgress|apply post_any|].
  intros _ _.
  apply (traces_bind quiet (pruned w rootId) _ collected);
    [apply quiet_pruned|apply pruned_after_quiet
    |apply steps_quiet, fetchRemoteFilesLoop_steps
    |apply fetchRemoteFilesLoop_collected; split; [constructor|contradiction]|].
  intros remoteFiles Hfiles.
  apply (toDelete_collected _ (Plan.localMirrorTargets loc)) in Hfiles.
  set (paths := toDelete remoteFiles (Plan.localMirrorTargets loc)) in *.
  eapply traces_weaken; [|apply deleteLoop_deletes].
  intros events [sent Hsent]. unfold pruned. rewrite Hsent.
  assert (Hall : concat (slices (List.length paths) DELETE_BATCH_SIZE paths) = paths).
  { apply slices_concat; [unfold DELETE_BATCH_SIZE; lia|lia]. }
  rewrite <- (firstn_skipn sent (slices _ _ paths)), concat_app in Hall.
  destruct Hfiles as [Hnodup Hlisted]. rewrite <- Hall in Hnodup, Hlisted. split.
  - now apply NoDup_app_remove_r in Hnodup.
  - intros path Hin. apply Hlisted, in_or_app. now left.
Qed.

Lemma afterPlanning_pruned (fuel : nat) (loc : Plan.t) :
  traces (pruned w rootId) (afterPlanning StringToNumber w cfg rootId fuel loc).
Proof.
  pose proof (mirrorPrune_pruned fuel loc) as Hprune.
  assert (Hquiet : forall B (m : M B) (k : B -> M unit),
             steps notDelete m -> (forall b, traces (pruned w rootId) (k b)) ->
             traces (pruned w rootId) (bind m k)).
  { intros B m k Hm Hk.
    apply (traces_bind quiet (pruned w rootId) _ (fun _ => True));
      [apply quiet_pruned|apply pruned_after_quiet|now apply steps_quiet
      |apply post_any|auto]. }
  unfold afterPlanning.
  apply Hquiet; [apply steps_isCancelled|]. intros stop.
  destruct stop;
    [eapply traces_weaken; [apply quiet_pruned|];
     apply steps_quiet, steps_setSyncProgress|].
  apply Hquiet; [apply steps_setSyncProgress|]. intros _.
  apply Hquiet; [apply uploadAll_steps|]. intros r.
  apply Hquiet; [apply steps_isCancelled|]. intros stop'.
  apply (traces_bind (pruned w rootId) quiet _ (fun _ => True));
    [auto|apply pruned_before_quiet| |apply post_any|].
  - destruct (_ && _); [exact Hprune|].
    eapply traces_weaken; [apply quiet_pruned|]. apply steps_quiet, steps_ret.
  - intros counts _. apply steps_quiet. steps_auto.
Qed.

Lemma runBody_pruned (fuel : nat) :
  traces (pruned w rootId) (runBody StringToNumber w cfg rootId fuel).
Proof.
  unfold runBody.
  apply (traces_bind quiet (pruned w rootId) _ (fun _ => True));
    [apply quiet_pruned|apply pruned_after_quiet| |apply post_any|].
  - apply steps_quiet. unfold planRun. destruct (syncSource cfg).
    + apply planCamera_steps.
    + apply steps_bind; [|intros loc; apply steps_ret].
      apply (planFolder_steps StringToNumber w cfg rootId notDelete
               (applyStatusBatch_steps StringToNumber w cfg rootId) (fun _ => I)).
  - intros [loc|] _; [apply afterPlanning_pruned|].
    eapply traces_weaken; [apply quiet_pruned|]. apply steps_quiet, steps_ret.
Qed.

End Pruner.

(** X22.  Whatever the server answers and whenever the user
    cancels, the delete requests of a run name only files that the server
    itself listed during mirror pruning: each deleted path is the path of
    a listed item of the selected root that has a path, has a root and is
    not a directory.  No path is sent for deletion twice in a run. *)
Theorem prune_deletes_listed_files_once (StringToNumber : string -> jsnum)
  (w : World) (cfg : Config) (fuel : nat) (st : MState) :
  exists events,
    trace (snd (runSync StringToNumber w cfg fuel st)) = (trace st ++ events)%list /\
    NoDup (deletedPaths events) /\
    forall path,
      In path (deletedPaths events) ->
      exists root, selectedRoot cfg = Some root /\ listedAsFile w root path.
Proof.
  assert (Hnone : exists events,
             trace st = (trace st ++ events)%list /\
             NoDup (deletedPaths events) /\
             forall path,
               In path (deletedPaths events) ->
               exists root, selectedRoot cfg = Some root /\ listedAsFile w root path).
  { exists []. rewrite app_nil_r. split; [reflexivity|].
    split; [constructor|contradiction]. }
  unfold runSync. destruct (syncRunning cfg); [exact Hnone|].
  destruct (selectedRoot cfg) as [root|]; [|exact Hnone].
  destruct (negb (uploadEnabled cfg)); [exact Hnone|].
  destruct (_ && _); [exact Hnone|].
  assert (Hrun : traces (pruned w root)
                   (setSyncRunning true ;;
                    setSyncProgress (fun _ => Patch.planningStart) ;;
                    tryFinally
                      (tryCatch (runBody StringToNumber w cfg root fuel)
                         (fun message =>
                            setSyncProgress
                              (Patch.failedWith
                                 (toErrorMessage message "Sync failed."))))
                      (setSyncRunning false))).
  { apply (traces_bind quiet (pruned w root) _ (fun _ => True));
      [apply quiet_pruned|apply pruned_after_quiet
      |apply steps_quiet, steps_setSyncRunning|apply post_any|].
    intros _ _.
    apply (traces_bind quiet (pruned w root) _ (fun _ => True));
      [apply quiet_pruned|apply pruned_after_quiet
      |apply steps_quiet, steps_setSyncProgress|apply post_any|].
    intros _ _.
    apply traces_tryFinally;
      [apply pruned_before_quiet| |apply steps_quiet, steps_setSyncRunning].
    apply traces_tryCatch; [apply pruned_before_quiet|apply runBody_pruned|].
    intros message. apply steps_quiet, steps_setSyncProgress. }
  destruct (Hrun st) as (events & E & Hnodup & Hlisted).
  exists events. split; [exact E|]. split; [exact Hnodup|].
  intros path Hin. exists root. split; [reflexivity|]. now apply Hlisted.
Qed.

(* ------------------------------------------------------------------ *)
(** ** URLs and queries *)

Section QueryStrings.

Local Abbreviation isSeparator :=
  (fun a : ascii => Ascii.eqb a "&" || Ascii.eqb a "=").

Lemma decode_serializeByte (c : ascii) (rest : string) :
  Url.decode (Url.serializeByte c ++ rest) = String c (Url.decode rest).
Proof. destruct c as [[] [] [] [] [] [] [] []]; reflexivity. Qed.

Lemma decode_serializeBytes (s : string) : Url.decode (Url.serializeBytes s) = s.
Proof.
  induction s as [|c rest IH]; [reflexivity|].
  cbn [Url.serializeBytes]. now rewrite decode_serializeByte, IH.
Qed.

Lemma serializeByte_clean (c : ascii) :
  Js.contains isSeparator (Url.serializeByte c) = false.
Proof. destruct c as [[] [] [] [] [] [] [] []]; reflexivity. Qed.

Lemma serializeBytes_clean (s : string) :
  Js.contains isSeparator (Url.serializeBytes s) = false.
Proof.
  induction s as [|c rest IH]; [reflexivity|].
  cbn [Url.serializeBytes]. now rewrite contains_append, serializeByte_clean, IH.
Qed.

Lemma contains_weaker (p q : ascii -> bool) (s : string) :
  (forall a, q a = true -> p a = true) ->
  Js.contains p s = false -> Js.contains q s = false.
Proof.
  intros H. induction s as [|a s IH]; [reflexivity|]. cbn [Js.contains].
  intros Hs. apply orb_false_iff in Hs as [Ha Hs]. rewrite (IH Hs).
  destruct (q a) eqn:E; [|reflexivity]. apply H in E. congruence.
Qed.

Lemma cut_at (c : ascii) (name value : string) :
  Js.contains (fun a => Ascii.eqb a c) name = false ->
  Url.cut c (name ++ String c value) = (name, value).
Proof.
  induction name as [|a name IH]; cbn [Url.cut append Js.contains].
  - intros _. now rewrite Ascii.eqb_refl.
  - intros H. apply orb_false_iff in H as [Ha Hname]. now rewrite Ha, IH.
Qed.

Lemma split_join_char (c : ascii) (segments : list string) :
  segments <> [] ->
  (forall seg, In seg segments -> Js.contains (fun a => Ascii.eqb a c) seg = false) ->
  Js.split c (Js.join (String c "") segments) = segments.
Proof.
  unfold Js.join. induction segments as [|x xs IH]; [congruence|].
  intros _ H. destruct xs as [|y ys].
  - simpl. apply split_without. apply H. now left.
  - change (String.concat (String c "") (x :: y :: ys))
      with (x ++ String c (String.concat (String c "") (y :: ys))).
    rewrite split_append_sep by (apply H; now left).
    f_equal. apply IH; [discriminate|]. intros seg Hs. apply H. now right.
Qed.

Local Abbreviation written :=
  (fun pair : string * string =>
     Url.serializeBytes (fst pair) ++ "=" ++ Url.serializeBytes (snd pair)).

Lemma written_clean (pair : string * string) :
  Js.contains (fun a => Ascii.eqb a "&") (written pair) = false.
Proof.
  assert (H : forall s, Js.contains (fun a => Ascii.eqb a "&") (Url.serializeBytes s)
                        = false).
  { intros s. apply (contains_weaker isSeparator); [|apply serializeBytes_clean].
    intros a Ha. cbv beta. now rewrite Ha. }
  cbv beta. rewrite !contains_append, !H. reflexivity.
Qed.

Lemma read_written (search : list (string * string)) :
  flat_map (fun bytes =>
              if String.eqb bytes "" then []
              else let (name, value) := Url.cut "=" bytes in
                   [(Url.decode name, Url.decode value)])
    (map written search)
  = search.
Proof.
  induction search as [|[name value] rest IH]; [reflexivity|].
  cbn [map flat_map fst snd]. rewrite IH.
  destruct (String.eqb_spec (Url.serializeBytes name ++ "=" ++ Url.serializeBytes value) "")
    as [E|_].
  { apply (f_equal String.length) in E. rewrite !length_append in E.
    cbn [String.length] in E. lia. }
  change ("=" ++ Url.serializeBytes value) with (String "=" (Url.serializeBytes value)).
  rewrite cut_at.
  - now rewrite !decode_serializeBytes.
  - apply (contains_weaker isSeparator); [|apply serializeBytes_clean].
    intros a ->. apply orb_true_r.
Qed.

Lemma serialize_empty (search : list (string * string)) :
  Url.serialize search = "" <-> search = [].
Proof.
  split; [|now intros ->].
  destruct search as [|pair rest]; [reflexivity|]. intros E. exfalso.
  apply (f_equal String.length) in E. unfold Url.serialize, Js.join in E.
  cbn [map String.concat] in E.
  destruct (map _ rest); rewrite ?length_append in E; cbn [String.length] in E;
    rewrite ?length_append in E; cbn [String.length] in E; lia.
Qed.

Lemma parse_serialize (search : list (string * string)) :
  search <> [] -> Url.parse ("?" ++ Url.serialize search) = search.
Proof.
  intros Hne. unfold Url.parse. cbn [append]. unfold Url.serialize.
  rewrite (split_join_char "&").
  - apply read_written.
  - destruct search; [congruence|discriminate].
  - intros seg Hseg. apply in_map_iff in Hseg as (pair & <- & _). apply written_clean.
Qed.

Lemma parse_buildQuery (params : list (string * ParamValue)) :
  Url.parse (buildQuery params) = buildSearch params.
Proof.
  unfold buildQuery. destruct (String.eqb_spec (Url.serialize (buildSearch params)) "")
    as [E|E].
  - apply serialize_empty in E. now rewrite E.
  - apply parse_serialize. intros H. apply E. now rewrite H.
Qed.

(** A name that the search does not hold yet is appended by [set]. *)
Lemma set_fresh (name value : string) (search : list (string * string)) :
  ~ In name (map fst search) -> Url.set name value search = (search ++ [(name, value)])%list.
Proof.
  induction search as [|[name' value'] rest IH]; intros Hfresh; [reflexivity|].
  cbn [Url.set map fst In app] in *.
  destruct (String.eqb_spec name' name) as [->|_]; [tauto|].
  rewrite IH by tauto. reflexivity.
Qed.

Lemma appended_entries (name : string) (entries : list jsval) :
  forall search,
    fold_left (fun search' value =>
                 if isBlank value then search'
                 else Url.append name (ToString value) search')
      entries search
    = (search ++ map (fun value => (name, ToString value))
                   (filter (fun value => negb (isBlank value)) entries))%list.
Proof.
  induction entries as [|value rest IH]; intros search; cbn [fold_left filter map].
  - now rewrite app_nil_r.
  - rewrite IH. destruct (isBlank value); cbn [negb map]; [reflexivity|].
    unfold Url.append. now rewrite <- app_assoc.
Qed.

Lemma keptPairs_names (params : list (string * ParamValue)) (name : string) :
  In name (map fst (keptPairs params)) -> In name (map fst params).
Proof.
  unfold keptPairs. intros H. apply in_map_iff in H as ([name' value] & <- & H).
  apply in_flat_map in H as ([key param] & Hentry & H). cbn [fst snd] in *.
  apply in_map_iff. exists (key, param). split; [|exact Hentry]. cbn [fst].
  destruct param as [value'|entries].
  - destruct (isBlank value'); [contradiction|]. destruct H as [[= -> _]|[]]. reflexivity.
  - apply in_map_iff in H as (v & [= -> _] & _). reflexivity.
Qed.

(** With distinct keys [buildQuery] writes the pairs of the entries in
    their order. *)
Lemma buildSearch_distinct (params : list (string * ParamValue)) :
  NoDup (map fst params) -> buildSearch params = keptPairs params.
Proof.
  unfold buildSearch.
  assert (H : forall search,
             NoDup (map fst params) ->
             (forall name, In name (map fst search) -> ~ In name (map fst params)) ->
             fold_left
               (fun search entry =>
                  match snd entry with
                  | ParamScalar value =>
                      if isBlank value then search
                      else Url.set (fst entry) (ToString value) search
                  | ParamArray entries =>
                      fold_left
                        (fun search' value =>
                           if isBlank value then search'
                           else Url.append (fst entry) (ToString value) search')
                        entries search
                  end)
               params search
             = (search ++ keptPairs params)%list).
  { induction params as [|[key param] rest IH]; intros search Hnodup Hfresh;
      cbn [fold_left]; [now rewrite app_nil_r|].
    cbn [map fst] in Hnodup. apply NoDup_cons_iff in Hnodup as [Hkey Hnodup].
    assert (Hnew : ~ In key (map fst search)).
    { intros Hin. apply (Hfresh key Hin). now left. }
    change (keptPairs ((key, param) :: rest))
      with (match param with
            | ParamScalar value =>
                if isBlank value then [] else [(key, ToString value)]
            | ParamArray entries =>
                map (fun value => (key, ToString value))
                  (filter (fun value => negb (isBlank value)) entries)
            end ++ keptPairs rest)%list.
    cbn [fst snd]. rewrite app_assoc.
    assert (Hstep :
              match param with
              | ParamScalar value =>
                  if isBlank value then search else Url.set key (ToString value) search
              | ParamArray entries =>
                  fold_left
                    (fun search' value =>
                       if isBlank value then search'
                       else Url.append key (ToString value) search')
                    entries search
              end
              = (search ++
                 match param with
                 | ParamScalar value =>
                     if isBlank value then [] else [(key, ToString value)]
                 | ParamArray entries =>
                     map (fun value => (key, ToString value))
                       (filter (fun value => negb (isBlank value)) entries)
                 end)%list).
    { destruct param as [value|entries].
      - destruct (isBlank value); [now rewrite app_nil_r|]. now apply set_fresh.
      - apply appended_entries. }
    rewrite Hstep. apply IH; [exact Hnodup|].
    intros name Hname Hrest.
    assert (Hcases : In name (map fst search) \/ name = key).
    { rewrite map_app in Hname. apply in_app_or in Hname as [Hname|Hname]; [now left|].
      right. destruct param as [value|entries].
      - destruct (isBlank value); [contradiction|]. now destruct Hname as [<-|[]].
      - apply in_map_iff in Hname as (pair & <- & Hname).
        apply in_map_iff in Hname as (v & <- & _). reflexivity. }
    destruct Hcases as [Hold| ->]; [|contradiction].
    apply (Hfresh name Hold). now right. }
  intros Hnodup. rewrite H; [reflexivity|exact Hnodup|contradiction].
Qed.

Lemma stringOfInt_nonempty (z : Z) : Js.stringOfInt z <> "".
Proof.
  unfold Js.stringOfInt. intros E.
  assert (Hisi : NilZero.int_of_string (NilZero.string_of_int (Z.to_int z))
                 = Some (Z.to_int z)).
  { apply NilZero.isi; destruct z; simpl; try discriminate;
      intros [= H]; now apply DecimalPos.Unsigned.to_uint_nonnil in H. }
  rewrite E in Hisi. discriminate Hisi.
Qed.

Lemma ToString_nonblank (value : jsval) : isBlank value = false -> ToString value <> "".
Proof.
  destruct value as [| |[]|z|s]; cbn [isBlank ToString]; try discriminate.
  - intros _. apply stringOfInt_nonempty.
  - intros H. now apply String.eqb_neq.
Qed.

Lemma set_values (P : string -> Prop) (name value : string)
  (search : list (string * string)) :
  P value -> Forall (fun pair => P (snd pair)) search ->
  Forall (fun pair => P (snd pair)) (Url.set name value search).
Proof.
  intros Hvalue. induction 1 as [|[name' value'] rest Hpair Hrest IH]; cbn [Url.set].
  - now repeat constructor.
  - destruct (String.eqb name' name).
    + constructor; [exact Hvalue|].
      apply Forall_forall. intros pair Hin. apply filter_In in Hin as [Hin _].
      revert pair Hin. now apply Forall_forall.
    + now constructor.
Qed.

Lemma buildSearch_values (params : list (string * ParamValue)) :
  Forall (fun pair => snd pair <> "") (buildSearch params).
Proof.
  unfold buildSearch. generalize (@nil (string * string)) (Forall_nil (fun pair : string * string => snd pair <> "")).
  induction params as [|[key param] rest IH]; intros search Hsearch; cbn [fold_left];
    [exact Hsearch|].
  apply IH. cbn [fst snd]. destruct param as [value|entries].
  - destruct (isBlank value) eqn:E; [exact Hsearch|].
    apply (set_values (fun v => v <> "")); [now apply ToString_nonblank|exact Hsearch].
  - rewrite appended_entries. apply Forall_app. split; [exact Hsearch|].
    apply Forall_forall. intros pair Hin.
    apply in_map_iff in Hin as (v & <- & Hv). apply filter_In in Hv as [_ Hv].
    apply ToString_nonblank. now destruct (isBlank v).
Qed.

Lemma get_app (name : string) (search search' : list (string * string)) :
  Url.get name (search ++ search')
  = match Url.get name search with
    | Some value => Some value
    | None => Url.get name search'
    end.
Proof.
  induction search as [|[name' value] rest IH]; [reflexivity|].
  cbn [app Url.get]. now destruct (String.eqb name' name).
Qed.

Lemma get_absent (name : string) (params : list (string * ParamValue)) :
  ~ In name (map fst params) -> Url.get name (keptPairs params) = None.
Proof.
  intros Habsent. destruct (Url.get name (keptPairs params)) as [value|] eqn:E;
    [|reflexivity].
  exfalso. apply Habsent, keptPairs_names.
  induction (keptPairs params) as [|[name' value'] rest IH]; [discriminate|].
  cbn [Url.get map fst In] in *.
  destruct (String.eqb_spec name' name); [now left|right; auto].
Qed.

Lemma get_scalar (name : string) (value : jsval) (params : list (string * ParamValue)) :
  NoDup (map fst params) -> In (name, ParamScalar value) params ->
  Url.get name (keptPairs params)
  = if isBlank value then None else Some (ToString value).
Proof.
  induction params as [|[key param] rest IH]; intros Hnodup Hin; [contradiction|].
  cbn [map fst] in Hnodup. apply NoDup_cons_iff in Hnodup as [Hkey Hnodup].
  change (keptPairs ((key, param) :: rest))
    with (match param with
          | ParamScalar value =>
              if isBlank value then [] else [(key, ToString value)]
          | ParamArray entries =>
              map (fun value => (key, ToString value))
                (filter (fun value => negb (isBlank value)) entries)
          end ++ keptPairs rest)%list.
  rewrite get_app. destruct Hin as [[= -> ->]|Hin].
  - destruct (isBlank value); [now apply get_absent|].
    cbn [Url.get]. now rewrite String.eqb_refl.
  - assert (Hneq : key <> name).
    { intros ->. apply Hkey. apply in_map_iff. now exists (name, ParamScalar value). }
    rewrite (IH Hnodup Hin).
    assert (Hhead : Url.get name
                      match param with
                      | ParamScalar value0 =>
                          if isBlank value0 then [] else [(key, ToString value0)]
                      | ParamArray entries =>
                          map (fun value0 => (key, ToString value0))
                            (filter (fun value0 => negb (isBlank value0)) entries)
                      end = None).
    { apply String.eqb_neq in Hneq. destruct param as [value'|entries].
      - destruct (isBlank value'); [reflexivity|]. cbn [Url.get]. now rewrite Hneq.
      - induction (filter _ entries) as [|v vs IHv]; [reflexivity|].
        cbn [map Url.get]. now rewrite Hneq. }
    now rewrite Hhead.
Qed.

End QueryStrings.

(** X23.  What [buildQuery] writes, [URLSearchParams] reads back:
    parsing the query gives exactly the pairs that were set, whatever
    bytes the names and values hold, so a value cannot smuggle in a
    separator.  With distinct keys the pairs are those of the entries in
    their order, where an entry that is undefined, null or the empty
    string is left out and the entries of an array are written one by one.
    The query is empty exactly when no pair is left, and no pair has an
    empty value. *)
Theorem buildQuery_round_trip (params : list (string * ParamValue)) :
  Url.parse (buildQuery params) = buildSearch params /\
  (NoDup (map fst params) -> buildSearch params = keptPairs params) /\
  (buildQuery params = "" <-> buildSearch params = []) /\
  (forall name value, In (name, value) (buildSearch params) -> value <> "").
Proof.
  split; [apply parse_buildQuery|]. split; [apply buildSearch_distinct|]. split.
  - unfold buildQuery.
    destruct (String.eqb_spec (Url.serialize (buildSearch params)) "") as [E|E].
    + split; [intros _; now apply serialize_empty|reflexivity].
    + split; [discriminate|]. intros H. now rewrite H in E.
  - intros name value Hin.
    exact (proj1 (Forall_forall _ _) (buildSearch_values params) (name, value) Hin).
Qed.

Section RequestUrls.

Ltac listed := cbn; repeat (first [now left | right]).

Lemma payloadParams_distinct (rootId : string) (payload : StatusPayload)
  (offset : option Z) :
  NoDup (map fst (payloadParams rootId payload offset)).
Proof.
  destruct payload, offset; cbn; repeat constructor; cbn; intuition discriminate.
Qed.

Lemma read_root (rootId : string) (payload : StatusPayload) (offset : option Z) :
  Url.get "root" (keptPairs (payloadParams rootId payload offset))
  = if String.eqb rootId "" then None else Some rootId.
Proof.
  apply (get_scalar "root" (JStr rootId)); [apply payloadParams_distinct|].
  destruct payload, offset; listed.
Qed.

Lemma read_size (rootId : string) (payload : StatusPayload) (offset : option Z) :
  Url.get "size" (keptPairs (payloadParams rootId payload offset))
  = Some (Js.stringOfInt match payload with
                         | CameraStatus _ _ size' _ _ _ => size'
                         | FolderStatus _ size' _ => size'
                         end).
Proof.
  destruct payload as [path file size' o month captured|target size' o];
    (apply (get_scalar "size" (JNum size')); [apply payloadParams_distinct|]);
    destruct offset; listed.
Qed.

Lemma read_overwrite (rootId : string) (payload : StatusPayload) (offset : option Z) :
  Url.get "overwrite" (keptPairs (payloadParams rootId payload offset))
  = Some (if payloadOverwrite payload then "1" else "0").
Proof.
  destruct payload as [path file size' o month captured|target size' o];
    cbn [payloadOverwrite];
    (rewrite (get_scalar "overwrite" (JNum (if o then 1 else 0)));
     [now destruct o|apply payloadParams_distinct|]);
    destruct offset; listed.
Qed.

Lemma read_offset (rootId : string) (payload : StatusPayload) (offset : option Z) :
  Url.get "offset" (keptPairs (payloadParams rootId payload offset))
  = option_map Js.stringOfInt offset.
Proof.
  destruct offset as [z|]; cbn [option_map].
  - apply (get_scalar "offset" (JNum z)); [apply payloadParams_distinct|].
    destruct payload; listed.
  - apply get_absent. destruct payload; cbn; intuition discriminate.
Qed.

Lemma read_camera (rootId : string) (payload : StatusPayload) (offset : option Z) :
  Url.get "camera" (keptPairs (payloadParams rootId payload offset))
  = match payload with
    | CameraStatus _ _ _ _ _ _ => Some "1"
    | FolderStatus _ _ _ => None
    end.
Proof.
  destruct payload.
  - apply (get_scalar "camera" (JNum 1)); [apply payloadParams_distinct|].
    destruct offset; listed.
  - apply get_absent. destruct offset; cbn; intuition discriminate.
Qed.

Lemma read_text (key text rootId : string) (payload : StatusPayload)
  (offset : option Z) :
  In (key, ParamScalar (JStr text)) (payloadParams rootId payload offset) ->
  Url.get key (keptPairs (payloadParams rootId payload offset))
  = if String.eqb text "" then None else Some text.
Proof.
  intros Hin. apply (get_scalar key (JStr text)); [apply payloadParams_distinct|exact Hin].
Qed.

Lemma kept_text_inj (a b : string) :
  (if String.eqb a "" then None else Some a)
  = (if String.eqb b "" then None else Some b) ->
  a = b.
Proof.
  destruct (String.eqb_spec a ""), (String.eqb_spec b ""); congruence.
Qed.

Lemma payloadParams_inj (rootId rootId' : string) (payload payload' : StatusPayload)
  (offset offset' : option Z) :
  keptPairs (payloadParams rootId payload offset)
  = keptPairs (payloadParams rootId' payload' offset') ->
  rootId = rootId' /\ payload = payload' /\ offset = offset'.
Proof.
  intros HK.
  assert (Hget : forall key,
             Url.get key (keptPairs (payloadParams rootId payload offset))
             = Url.get key (keptPairs (payloadParams rootId' payload' offset')))
    by (intros key; now rewrite HK).
  pose proof (Hget "root") as Hroot. rewrite !read_root in Hroot.
  apply kept_text_inj in Hroot.
  pose proof (Hget "size") as Hsize. rewrite !read_size in Hsize.
  injection Hsize as Hsize. apply stringOfInt_inj in Hsize.
  pose proof (Hget "overwrite") as Hover. rewrite !read_overwrite in Hover.
  assert (Hoverwrite : payloadOverwrite payload = payloadOverwrite payload')
    by (destruct (payloadOverwrite payload), (payloadOverwrite payload');
        congruence).
  pose proof (Hget "offset") as Hoffset. rewrite !read_offset in Hoffset.
  assert (Hoffset' : offset = offset').
  { destruct offset, offset'; cbn [option_map] in Hoffset; try congruence.
    injection Hoffset as Hoffset. apply stringOfInt_inj in Hoffset. congruence. }
  pose proof (Hget "camera") as Hcamera. rewrite !read_camera in Hcamera.
  split; [exact Hroot|]. split; [|exact Hoffset'].
  destruct payload as [path file size' o month captured|target size' o],
    payload' as [path' file' size'' o' month' captured'|target' size'' o'];
    try discriminate Hcamera; cbn [payloadOverwrite] in Hoverwrite; subst.
  - assert (Htext : forall key text text',
               In (key, ParamScalar (JStr text))
                 (payloadParams rootId' (CameraStatus path file size'' o' month captured)
                    offset') ->
               In (key, ParamScalar (JStr text'))
                 (payloadParams rootId'
                    (CameraStatus path' file' size'' o' month' captured') offset') ->
               text = text').
    { intros key text text' Hin Hin'. pose proof (Hget key) as H.
      rewrite (read_text key text _ _ _ Hin), (read_text key text' _ _ _ Hin') in H.
      now apply kept_text_inj. }
    rewrite (Htext "path" path path'), (Htext "file" file file'),
      (Htext "cameraMonth" month month'), (Htext "capturedAt" captured captured');
      try reflexivity; destruct offset'; listed.
  - assert (Htarget : target = target'); [|now rewrite Htarget].
    pose proof (Hget "target") as H.
    rewrite (read_text "target" target), (read_text "target" target') in H;
      [now apply kept_text_inj| |]; destruct offset'; listed.
Qed.

Lemma buildUrl_below (path : string) (params : list (string * ParamValue))
  (baseUrl : string) :
  isAbsoluteUrl path = false -> startsWithSlash path = true ->
  buildUrl path (Some params) baseUrl
  = stripTrailingSlash baseUrl ++ path ++ buildQuery params.
Proof.
  intros Hrelative Hslash. unfold buildUrl. rewrite Hrelative, Hslash.
  cbn [append]. now rewrite <- append_assoc.
Qed.

Lemma same_query (params params' : list (string * ParamValue)) :
  NoDup (map fst params) -> NoDup (map fst params') ->
  buildQuery params = buildQuery params' -> keptPairs params = keptPairs params'.
Proof.
  intros Hnodup Hnodup' H. apply (f_equal Url.parse) in H.
  now rewrite !parse_buildQuery, !buildSearch_distinct in H.
Qed.

End RequestUrls.

(** X24.  The URL of a request says which request it is.  Two
    status requests with the same URL have the same root and the same
    payload, two chunk requests with the same URL have the same root,
    payload and offset, and a status request never has the URL of a chunk
    request: no file name, path or root, whatever characters it holds,
    can make one request look like another. *)
Theorem request_urls_determine_requests (baseUrl : string) :
  (forall query query',
      statusUrlText baseUrl query = statusUrlText baseUrl query' -> query = query') /\
  (forall query query',
      chunkUrlText baseUrl query = chunkUrlText baseUrl query' -> query = query') /\
  (forall query query', statusUrlText baseUrl query <> chunkUrlText baseUrl query').
Proof.
  split; [|split].
  - intros [rootId payload] [rootId' payload']. unfold statusUrlText.
    rewrite !buildUrl_below by reflexivity. cbn [sq_root sq_payload]. intros H.
    apply append_cancel_l, append_cancel_l in H.
    apply same_query in H; try apply payloadParams_distinct.
    apply payloadParams_inj in H as (-> & -> & _). reflexivity.
  - intros [rootId payload offset] [rootId' payload' offset']. unfold chunkUrlText.
    rewrite !buildUrl_below by reflexivity. cbn [cq_root cq_payload cq_offset].
    intros H. apply append_cancel_l, append_cancel_l in H.
    apply same_query in H; try apply payloadParams_distinct.
    apply payloadParams_inj in H as (-> & -> & [= ->]). reflexivity.
  - intros query query'. unfold statusUrlText, chunkUrlText.
    rewrite !buildUrl_below by reflexivity. intros H.
    apply append_cancel_l in H. discriminate H.
Qed.

Section BaseAndPath.

Lemma stripTrailingSlash_cons (c : ascii) (s : string) :
  s <> "" -> stripTrailingSlash (String c s) = String c (stripTrailingSlash s).
Proof. destruct s; [congruence|reflexivity]. Qed.

Lemma stripTrailingSlash_slash (s : string) : stripTrailingSlash (s ++ "/") = s.
Proof.
  induction s as [|c s IH]; [reflexivity|]. cbn [append].
  rewrite stripTrailingSlash_cons, IH; [reflexivity|]. now destruct s.
Qed.

Lemma startsWithNoCase_app (prefix s rest : string) :
  startsWithNoCase prefix s = true -> startsWithNoCase prefix (s ++ rest) = true.
Proof.
  revert s. induction prefix as [|p prefix IH]; intros s; [reflexivity|].
  destruct s as [|c s]; cbn [startsWithNoCase append]; [discriminate|].
  intros H. apply andb_true_iff in H as [-> H]. now apply IH.
Qed.

Lemma isAbsoluteUrl_app (s rest : string) :
  isAbsoluteUrl s = true -> isAbsoluteUrl (s ++ rest) = true.
Proof.
  unfold isAbsoluteUrl. intros H. apply orb_true_iff in H as [H|H];
    rewrite (startsWithNoCase_app _ _ rest H); [reflexivity|apply orb_true_r].
Qed.

(** A prefix that ends with a slash survives the loss of the trailing
    slash of the base when a slash follows. *)
Lemma startsWithNoCase_stripped (prefix : string) :
  forall base rest,
    startsWithNoCase (prefix ++ "/") base = true ->
    startsWithSlash rest = true ->
    startsWithNoCase (prefix ++ "/") (stripTrailingSlash base ++ rest) = true.
Proof.
  induction prefix as [|p prefix IH]; intros base rest Hbase Hrest;
    destruct base as [|c base]; cbn [append startsWithNoCase] in Hbase;
    try discriminate; apply andb_true_iff in Hbase as [Hc Hbase].
  - destruct base as [|c' base].
    + cbn [stripTrailingSlash]. destruct (Ascii.eqb_spec c slash) as [->|_].
      * destruct rest as [|r rest]; [discriminate|]. cbn in Hrest |- *.
        apply Ascii.eqb_eq in Hrest as ->. reflexivity.
      * cbn [append startsWithNoCase]. now rewrite Hc.
    + rewrite stripTrailingSlash_cons by discriminate.
      cbn [append startsWithNoCase]. now rewrite Hc.
  - assert (Hne : base <> "") by (intros ->; destruct prefix; discriminate).
    rewrite stripTrailingSlash_cons by exact Hne.
    cbn [append startsWithNoCase]. rewrite Hc. now apply IH.
Qed.

Lemma isAbsoluteUrl_stripped (base rest : string) :
  isAbsoluteUrl base = true -> startsWithSlash rest = true ->
  isAbsoluteUrl (stripTrailingSlash base ++ rest) = true.
Proof.
  unfold isAbsoluteUrl. intros H Hrest. apply orb_true_iff in H as [H|H].
  - pose proof (startsWithNoCase_stripped "http:/" base rest H Hrest) as H'.
    cbn [append] in H'. now rewrite H'.
  - pose proof (startsWithNoCase_stripped "https:/" base rest H Hrest) as H'.
    cbn [append] in H'. rewrite H'. apply orb_true_r.
Qed.

End BaseAndPath.

(** X25.  [buildUrl] puts exactly one slash between the base and
    a relative path: a trailing slash of the base and a leading slash of
    the path make no difference, and the query follows the path. *)
Theorem buildUrl_joins_with_one_slash (baseUrl path : string)
  (params : option (list (string * ParamValue))) :
  isAbsoluteUrl path = false ->
  startsWithSlash path = false ->
  stripTrailingSlash baseUrl = baseUrl ->
  let url := baseUrl ++ "/" ++ path
             ++ match params with
                | Some params' => buildQuery params'
                | None => ""
                end in
  buildUrl path params baseUrl = url /\
  buildUrl ("/" ++ path) params baseUrl = url /\
  buildUrl path params (baseUrl ++ "/") = url /\
  buildUrl ("/" ++ path) params (baseUrl ++ "/") = url.
Proof.
  intros Hrelative Hslash Hbase url. unfold buildUrl.
  rewrite Hrelative, Hslash, stripTrailingSlash_slash, Hbase.
  change (isAbsoluteUrl ("/" ++ path)) with false.
  change (startsWithSlash ("/" ++ path)) with true.
  subst url. destruct params as [params'|];
    rewrite ?append_assoc, ?append_empty_r; cbn [append];
    rewrite ?append_assoc, ?append_empty_r; repeat split; reflexivity.
Qed.

Lemma buildUrl_joins_with_one_slash_witness :
  buildUrl "/api/list" None "http://nas.local:8080/"
  = "http://nas.local:8080/api/list".
Proof.
  exact (proj2 (proj2 (proj2
           (buildUrl_joins_with_one_slash "http://nas.local:8080" "api/list" None
              eq_refl eq_refl eq_refl)))).
Defined.

(** X26.  An absolute URL passes through [buildUrl] as it is,
    whatever the base.  With an absolute base every URL that [buildUrl]
    returns is absolute, so that building a URL and handing it to a
    function that builds it again, as the engine does with [apiJson],
    gives the same URL, whatever the base of the second call. *)
Theorem buildUrl_is_idempotent (baseUrl baseUrl' path : string)
  (params : option (list (string * ParamValue))) :
  isAbsoluteUrl baseUrl = true ->
  isAbsoluteUrl (buildUrl path params baseUrl) = true /\
  buildUrl (buildUrl path params baseUrl) None baseUrl'
  = buildUrl path params baseUrl /\
  (isAbsoluteUrl path = true -> buildUrl path None baseUrl' = path).
Proof.
  intros Hbase.
  assert (Habsolute : isAbsoluteUrl (buildUrl path params baseUrl) = true).
  { unfold buildUrl. destruct (isAbsoluteUrl path) eqn:Hpath.
    - destruct params; [now apply isAbsoluteUrl_app|exact Hpath].
    - assert (H : isAbsoluteUrl
                    (stripTrailingSlash baseUrl
                     ++ (if startsWithSlash path then "" else "/") ++ path) = true).
      { apply isAbsoluteUrl_stripped; [exact Hbase|].
        destruct (startsWithSlash path) eqn:Hslash; [exact Hslash|reflexivity]. }
      destruct params; [now apply isAbsoluteUrl_app|exact H]. }
  split; [exact Habsolute|]. split.
  - unfold buildUrl at 1. now rewrite Habsolute.
  - intros Hpath. unfold buildUrl. now rewrite Hpath.
Qed.

Lemma buildUrl_is_idempotent_witness :
  buildUrl (listUrlText "HTTP://nas.local/" "root1" "photos" 0) None ""
  = "HTTP://nas.local/api/list?root=root1&path=photos&limit=200&offset=0&includeTotal=false".
Proof.
  exact (proj1 (proj2 (buildUrl_is_idempotent "HTTP://nas.local/" "" "/api/list"
                         (Some [("root", ParamScalar (JStr "root1"));
                                ("path", ParamScalar (JStr "photos"));
                                ("limit", ParamScalar (JNum LIST_PAGE_SIZE));
                                ("offset", ParamScalar (JNum 0));
                                ("includeTotal", ParamScalar (JBool false))])
                         eq_refl))).
Defined.

(** The URL of a status request and of a list request, and a query read
    back. *)
Example urls_of_the_engine :
  statusUrlText "http://nas.local:8080/"
    (makeStatusUrl "root1" "photos" Scenario.photoA false)
  = "http://nas.local:8080/api/upload/status?root=root1&target=photos%2Fa.jpg&size=10&overwrite=0"
  /\ listUrlText "http://nas.local:8080" "root 1" "" 200
     = "http://nas.local:8080/api/list?root=root+1&limit=200&offset=200&includeTotal=false"
  /\ Url.parse "?a=1&b=x%20y+z&&c" = [("a", "1"); ("b", "x y z"); ("c", "")].
Proof. vm_compute. repeat split. Qed.

(* ------------------------------------------------------------------ *)
(** ** Responses of the server *)

Lemma member_truthy (name : string) (payload : Json) :
  jsonTruthy (member name payload) = true -> hasMember name payload = true.
Proof.
  unfold member, hasMember. destruct payload as [value|items|members]; try discriminate.
  now destruct (lookupMember name members).
Qed.

Lemma jsonOr_truthy (a b : Json) : jsonTruthy b = true -> jsonTruthy (jsonOr a b) = true.
Proof. unfold jsonOr. now destruct (jsonTruthy a) eqn:E. Qed.

(** X27.  [postUploadChunk] is stricter than [apiJson] on the
    same response.  A chunk that [postUploadChunk] accepts would be a
    success for [apiJson] too, with the same data.  A response that
    [apiJson] takes as a failure is refused by [postUploadChunk], with
    the same status.  The two differ exactly on a response with a status
    from 200 to 299 whose body has no [ok] member, or cannot be read:
    [apiJson] hands out the body as data, [postUploadChunk] refuses the
    chunk.  Neither gives a failure without an error: the error is the
    one of the body, or an object with a message of its own. *)
Theorem chunk_replies_are_stricter (response : HttpResponse) :
  (forall data,
      postUploadChunk response = ChunkAccepted data ->
      exists meta,
        apiJson (HostOk response) = ApiJsonSuccess (http_status response) data meta) /\
  (forall status error,
      apiJson (HostOk response) = ApiJsonFailure status error ->
      exists error',
        postUploadChunk response = ChunkRefused status error' /\
        status = http_status response /\
        jsonTruthy error = true /\ jsonTruthy error' = true /\
        (jsonTruthy (member "error" (payloadOf response)) = true -> error' = error)) /\
  ((exists status error data meta,
       postUploadChunk response = ChunkRefused status error /\
       apiJson (HostOk response) = ApiJsonSuccess status data meta)
   <-> hasMember "ok" (payloadOf response) = false /\ responseOk response = true).
Proof.
  unfold postUploadChunk, apiJson. cbv zeta.
  destruct (jsonTruthy (member "ok" (payloadOf response))) eqn:Hok.
  - rewrite (member_truthy _ _ Hok). cbn [negb]. split; [|split].
    + intros data [= <-]. eexists. reflexivity.
    + discriminate.
    + split; [intros (? & ? & ? & ? & H & _); discriminate H|].
      intros [H _]. discriminate H.
  - split; [discriminate|]. split.
    + intros status error H. eexists. split; [|split; [|split; [|split]]].
      * destruct (hasMember "ok" (payloadOf response)); cbn [negb] in H;
          [|destruct (responseOk response); cbn [negb] in H; [discriminate|]];
          injection H as <- _; reflexivity.
      * destruct (hasMember "ok" (payloadOf response)); cbn [negb] in H;
          [|destruct (responseOk response); cbn [negb] in H; [discriminate|]];
          now injection H as <- _.
      * destruct (hasMember "ok" (payloadOf response)); cbn [negb] in H;
          [|destruct (responseOk response); cbn [negb] in H; [discriminate|]];
          injection H as _ <-; now apply jsonOr_truthy.
      * now apply jsonOr_truthy.
      * intros Herror. unfold jsonOr in *. rewrite Herror in *.
        destruct (hasMember "ok" (payloadOf response)); cbn [negb] in H;
          [|destruct (responseOk response); cbn [negb] in H; [discriminate|]];
          now injection H as _ <-.
    + destruct (hasMember "ok" (payloadOf response)); cbn [negb].
      * split; [intros (? & ? & ? & ? & _ & H); discriminate H|].
        intros [H _]. discriminate H.
      * destruct (responseOk response); cbn [negb].
        -- split; [auto|]. intros _. do 4 eexists. split; reflexivity.
        -- split; [intros (? & ? & ? & ? & _ & H); discriminate H|].
           intros [_ H]. discriminate H.
Qed.

(** A network error, an envelope on an error status, and a page of HTML
    on a status 200. *)
Example replies_on_the_edges :
  apiJson (HostThrows "")
  = ApiJsonFailure 0
      (JsonObject [("message", JsonAtom (JStr "Network error"));
                   ("details", JsonAtom JNull)])
  /\ apiJson (HostOk (mkResponse 500
                        (Some (JsonObject [("ok", JsonAtom (JBool true));
                                           ("data", JsonAtom (JNum 7))]))))
     = ApiJsonSuccess 500 (JsonAtom (JNum 7)) (JsonAtom JNull)
  /\ apiJson (HostOk (mkResponse 200 None)) = ApiJsonSuccess 200 (JsonAtom JNull) (JsonAtom JNull)
  /\ postUploadChunk (mkResponse 200 None)
     = ChunkRefused 200 (messageObject "Chunk upload failed").
Proof. repeat split. Qed.

(* ------------------------------------------------------------------ *)
(** ** Settings and the store *)

Section SettingsAndStore.

Lemma handle_keeps (action : SettingsAction) (state : Settings) (store : Store) :
  besidesPath (loadSettings store initialSettings) = besidesPath state ->
  besidesPath (loadSettings (snd (handle action true (state, store))) initialSettings)
  = besidesPath (fst (handle action true (state, store))).
Proof.
  unfold besidesPath. intros [= Hroot Hvideos Hsource Hfolder Hmirror Hpolicy].
  destruct action as [nextRoot|text| |[]|[]|[]|[]|uri]; cbn [handle fst snd];
    try (destruct (String.eqb_spec uri "") as [->|Huri]; cbn [fst snd]);
    cbn [loadSettings setItem s_syncRootId s_includeVideos s_syncSource
         s_localFolderUri s_mirrorRemote s_conflictPolicy initialSettings] in *;
    unfold setItem; cbn;
    repeat match goal with
           | H : _ = _ |- _ => rewrite H; clear H
           end;
    try reflexivity.
  - unfold savedOr. now destruct (String.eqb_spec nextRoot "") as [->|_].
  - unfold savedOr. apply String.eqb_neq in Huri. now rewrite Huri.
Qed.

Lemma find_existsb (roots : list string) (chosen : string) :
  existsb (fun id => String.eqb id chosen) roots = true ->
  find (fun id => String.eqb id chosen) roots = Some chosen.
Proof.
  induction roots as [|id rest IH]; cbn [existsb find]; [discriminate|].
  destruct (String.eqb_spec id chosen) as [->|_]; [reflexivity|exact IH].
Qed.

End SettingsAndStore.

(** X28.  The settings survive a restart.  After the screen is
    mounted and the user has used the handlers of the settings card in
    any order, with a store that takes every write, mounting the screen
    again on that store gives the same root, source, folder, video
    switch, mirror switch and conflict policy.  The path is only stored
    when its field is left, and it is stored trimmed: what comes back is
    the path without the white space around it, and the empty path for a
    path of white space only. *)
Theorem settings_survive_restart (store : Store) (actions : list SettingsAction) :
  let mounted := (loadSettings store initialSettings, store) in
  let screen := fold_left (fun screen action => handle action true screen)
                  actions mounted in
  besidesPath (loadSettings (snd screen) initialSettings) = besidesPath (fst screen) /\
  (forall state store',
      s_syncPath (loadSettings (snd (handle PersistPath true (state, store')))
                    initialSettings)
      = Js.trim (s_syncPath state)) /\
  (forall action written state store',
      action <> PersistPath ->
      snd (handle action written (state, store')) CAMERA_SYNC_PATH_KEY
      = store' CAMERA_SYNC_PATH_KEY).
Proof.
  cbv zeta. split; [|split].
  - assert (H : forall screen,
               besidesPath (loadSettings (snd screen) initialSettings)
               = besidesPath (fst screen) ->
               besidesPath
                 (loadSettings
                    (snd (fold_left (fun screen action => handle action true screen)
                            actions screen)) initialSettings)
               = besidesPath
                   (fst (fold_left (fun screen action => handle action true screen)
                           actions screen))).
    { induction actions as [|action rest IH]; intros [state store'] Hscreen;
        [exact Hscreen|].
      cbn [fold_left]. apply IH. now apply handle_keeps. }
    now apply H.
  - intros state store'. cbn. unfold savedOr.
    now destruct (String.eqb_spec (Js.trim (s_syncPath state)) "") as [->|_].
  - intros action written state store' Hother.
    destruct action, written; try congruence; cbn [handle snd];
      try (destruct (String.eqb uri ""); cbn [snd]); reflexivity.
Qed.

(** X29.  With at least one root on the server, the two
    effects on the chosen root leave a root selected: the one that was
    chosen when it is among the roots and not empty, and the first root of
    the list otherwise; the other settings are not touched.  A second
    pass changes nothing.  The store is written exactly when a choice
    that is not empty and not among the roots is replaced and the write
    succeeds, and it then holds the first root; a first root chosen for
    want of a choice is not stored.  Without roots nothing happens. *)
Theorem reconcileRoot_selects_a_root (roots : list string) (written : bool)
  (state : Settings) (store : Store) :
  let screen := reconcileRoot roots written (state, store) in
  (roots <> [] ->
   selectedRootOf roots (fst screen) = Some (s_syncRootId (fst screen)) /\
   In (s_syncRootId (fst screen)) roots) /\
  (forall written', reconcileRoot roots written' screen = screen) /\
  (In (s_syncRootId state) roots -> s_syncRootId state <> "" ->
   screen = (state, store)) /\
  (snd screen <> store ->
   s_syncRootId state <> "" /\ ~ In (s_syncRootId state) roots /\
   snd screen = setItem CAMERA_SYNC_ROOT_KEY (hd "" roots) store) /\
  (roots = [] -> screen = (state, store)) /\
  (roots <> [] ->
   s_syncRootId state = "" \/ ~ In (s_syncRootId state) roots ->
   s_syncRootId (fst screen) = hd "" roots) /\
  (s_syncPath (fst screen), s_includeVideos (fst screen), s_syncSource (fst screen),
   s_localFolderUri (fst screen), s_mirrorRemote (fst screen),
   s_conflictPolicy (fst screen))
  = (s_syncPath state, s_includeVideos state, s_syncSource state,
     s_localFolderUri state, s_mirrorRemote state, s_conflictPolicy state) /\
  (roots <> [] -> s_syncRootId state <> "" -> ~ In (s_syncRootId state) roots ->
   snd screen
   = if written then setItem CAMERA_SYNC_ROOT_KEY (hd "" roots) store else store) /\
  (s_syncRootId state = "" -> snd screen = store).
Proof.
  cbv zeta. destruct roots as [|first rest].
  - cbn [reconcileRoot fst snd].
    repeat (split; [intros; first [reflexivity|congruence|contradiction]|]).
    intros _. reflexivity.
  - assert (Hamong_in :
              existsb (fun id => String.eqb id (s_syncRootId state)) (first :: rest)
              = true <-> In (s_syncRootId state) (first :: rest)).
    { rewrite existsb_exists. split.
      - intros (id & Hin & Hid). apply String.eqb_eq in Hid. now subst id.
      - intros Hin. exists (s_syncRootId state). split; [exact Hin|apply String.eqb_refl]. }
    unfold reconcileRoot. cbv zeta.
    destruct (String.eqb_spec (s_syncRootId state) "") as [Hempty|Hchosen].
    + cbn [fst snd s_syncRootId s_syncPath s_includeVideos s_syncSource
           s_localFolderUri s_mirrorRemote s_conflictPolicy hd].
      split; [|split; [|split; [|split; [|split; [|split; [|split; [|split]]]]]]].
      * intros _. unfold selectedRootOf. cbn [find s_syncRootId].
        rewrite String.eqb_refl. split; [reflexivity|now left].
      * intros written'. cbn [s_syncRootId existsb].
        rewrite String.eqb_refl. cbn [orb negb].
        destruct (String.eqb_spec first "") as [->|_]; reflexivity.
      * intros _ H. now contradiction H.
      * intros H. now contradiction H.
      * discriminate.
      * reflexivity.
      * reflexivity.
      * intros _ H. now contradiction H.
      * reflexivity.
    + destruct (existsb (fun id => String.eqb id (s_syncRootId state)) (first :: rest))
        eqn:Hamong;
        cbn [negb fst snd s_syncRootId s_syncPath s_includeVideos s_syncSource
             s_localFolderUri s_mirrorRemote s_conflictPolicy hd].
      * split; [|split; [|split; [|split; [|split; [|split; [|split; [|split]]]]]]].
        -- intros _. split; [now apply find_existsb|]. now apply Hamong_in.
        -- intros written'.
           apply String.eqb_neq in Hchosen. now rewrite Hchosen, Hamong.
        -- reflexivity.
        -- intros H. now contradiction H.
        -- discriminate.
        -- intros _ [H|H]; [now contradiction Hchosen|].
           exfalso. apply H. now apply Hamong_in.
        -- reflexivity.
        -- intros _ _ H. exfalso. apply H. now apply Hamong_in.
        -- intros H. now contradiction Hchosen.
      * assert (Hnot : ~ In (s_syncRootId state) (first :: rest)).
        { intros Hin. apply Hamong_in in Hin. congruence. }
        split; [|split; [|split; [|split; [|split; [|split; [|split; [|split]]]]]]].
        -- intros _. unfold selectedRootOf. cbn [find s_syncRootId].
           rewrite String.eqb_refl. split; [reflexivity|now left].
        -- intros written'. cbn [s_syncRootId existsb].
           rewrite String.eqb_refl. cbn [orb negb].
           destruct (String.eqb_spec first "") as [->|_]; reflexivity.
        -- intros Hin _. now contradiction Hnot.
        -- intros Hstore. split; [exact Hchosen|]. split; [exact Hnot|].
           destruct written; [reflexivity|now contradiction Hstore].
        -- discriminate.
        -- reflexivity.
        -- reflexivity.
        -- reflexivity.
        -- intros H. now contradiction Hchosen.
Qed.

(** Two roots and a stored choice that the server no longer has: the
    first root is chosen and stored. *)
Example a_missing_root_is_replaced :
  let screen :=
    reconcileRoot ["photos"; "backup"] true
      (loadSettings (setItem CAMERA_SYNC_ROOT_KEY "old" (fun _ => None))
         initialSettings,
       setItem CAMERA_SYNC_ROOT_KEY "old" (fun _ => None)) in
  s_syncRootId (fst screen) = "photos" /\
  snd screen CAMERA_SYNC_ROOT_KEY = Some "photos" /\
  selectedRootOf ["photos"; "backup"] (fst screen) = Some "photos".
Proof. repeat split. Qed.
